(** * Contract analysis pipeline: a shallow embedding of the text analyzers

    The analyzers of [utils/clause_extraction.py], [utils/ner.py],
    [utils/risk_detection.py] and [utils/contract_classifier.py] are
    functions of one input text.  They are embedded here as Rocq functions
    over [string], loop by loop, and their properties are proved below.

    Characters.  A Python [str] is a sequence of code points; the embedding
    reads a Rocq [ascii] as one of the code points U+0000..U+00FF, and gives
    [str.lower], [str.isspace] and the classes of the [re] module their
    Python meaning on that range.

    Regular expressions.  The [re] module is a backtracking matcher.  Module
    [Re] below is such a matcher for the constructs the patterns of the
    program use; every pattern of the program is written out as a term of
    its syntax, next to the pattern string of the source.  For the clause
    pattern and the definition pattern the matcher is shown to compute what
    a plain scanner of the text computes ([match_at_clause],
    [match_at_definition]).

    Failure.  [match.group(n)] is [None] for a group that took no part in a
    match, and a method call on [None] raises.  The analyzers that read
    groups therefore return an [option]; they are shown never to return
    [None].

    Numbers.  Python ints are [Z]; the confidence of the classifier is a
    Python float and is computed with the binary64 floats of Rocq. *)

From Stdlib Require Import String Ascii List ZArith NArith Lia Bool.
From Stdlib Require Import Floats.
From stdpp Require Import gmap strings list.

Import ListNotations.
Local Open Scope string_scope.
Local Open Scope list_scope.

(* ===================================================================== *)
(** * Characters and Python string operations                             *)
(* ===================================================================== *)

Module Py.

Definition code (c : ascii) : N := N_of_ascii c.

Definition in_range (lo hi : ascii) (c : ascii) : bool :=
  (code lo <=? code c)%N && (code c <=? code hi)%N.

Definition between (lo hi : N) (c : ascii) : bool :=
  (lo <=? code c)%N && (code c <=? hi)%N.

(** Characters that [str.lower] changes: A-Z and the capital letters of the
    Latin-1 supplement (U+00C0..U+00DE without the multiplication sign). *)
Definition has_lower (c : ascii) : bool :=
  between 65 90 c || between 192 214 c || between 216 222 c.

(** Characters that are the lower-case image of another one. *)
Definition has_upper (c : ascii) : bool :=
  between 97 122 c || between 224 246 c || between 248 254 c.

Definition lower_char (c : ascii) : ascii :=
  if has_lower c then ascii_of_N (code c + 32) else c.

Definition upper_char (c : ascii) : ascii :=
  if has_upper c then ascii_of_N (code c - 32) else c.

(** [str.isspace] on one character; also the class [\s] of [re]. *)
Definition isspace (c : ascii) : bool :=
  between 9 13 c || between 28 32 c || (code c =? 133)%N || (code c =? 160)%N.

(** The class [\d] of [re]. *)
Definition isdigit (c : ascii) : bool := between 48 57 c.

(** The class [\w] of [re]: alphanumeric characters and the underscore. *)
Definition isword (c : ascii) : bool :=
  between 48 57 c || between 65 90 c || (code c =? 95)%N || between 97 122 c
  || (code c =? 170)%N || between 178 179 c || (code c =? 181)%N
  || between 185 186 c || between 188 190 c || between 192 214 c
  || between 216 246 c || between 248 255 c.

(** [s.lower()] *)
Fixpoint lower (s : string) : string :=
  match s with
  | EmptyString => EmptyString
  | String c s' => String (lower_char c) (lower s')
  end.

(** [s.lstrip()], [s.rstrip()], [s.strip()] with no argument. *)
Fixpoint lstrip (s : string) : string :=
  match s with
  | EmptyString => EmptyString
  | String c s' => if isspace c then lstrip s' else s
  end.

Fixpoint rstrip (s : string) : string :=
  match s with
  | EmptyString => EmptyString
  | String c s' =>
      match rstrip s' with
      | EmptyString => if isspace c then EmptyString else String c EmptyString
      | r => String c r
      end
  end.

Definition strip (s : string) : string := rstrip (lstrip s).

(** [s.rstrip(chars)] *)
Fixpoint mem_char (c : ascii) (chars : string) : bool :=
  match chars with
  | EmptyString => false
  | String d chars' => Ascii.eqb c d || mem_char c chars'
  end.

Fixpoint rstrip_chars (chars : string) (s : string) : string :=
  match s with
  | EmptyString => EmptyString
  | String c s' =>
      match rstrip_chars chars s' with
      | EmptyString => if mem_char c chars then EmptyString else String c EmptyString
      | r => String c r
      end
  end.

(** [s[:n]] and [s[i:j]] for [0 <= i], [0 <= j]. *)
Fixpoint take (n : nat) (s : string) : string :=
  match n, s with
  | S n', String c s' => String c (take n' s')
  | _, _ => EmptyString
  end.

Fixpoint drop (n : nat) (s : string) : string :=
  match n, s with
  | S n', String _ s' => drop n' s'
  | _, _ => s
  end.

Definition slice (i j : nat) (s : string) : string := take (j - i) (drop i s).

(** [sub in s] *)
Fixpoint contains (sub s : string) : bool :=
  String.prefix sub s ||
  match s with
  | EmptyString => false
  | String _ s' => contains sub s'
  end.

(** [len(s)] *)
Definition len (s : string) : nat := String.length s.

(** Python numbers that the analyzers return: an [int] or a [float]. *)
Inductive num : Type :=
| Int (z : Z)
| Float (f : float).

End Py.

(* ===================================================================== *)
(** * Risk findings and the aggregate score ([utils/risk_detection.py])   *)
(* ===================================================================== *)

(** One entry of [detected_risks]: a dict with the keys [type],
    [risk_level], [description], [evidence] and [severity_score]. *)
Record RiskFinding : Type := mkRisk {
  risk_type : string;
  risk_level : string;
  description : string;
  evidence : string;
  severity_score : Z
}.

(** [sum(1 for r in detected_risks if r["risk_level"] == lvl)] *)
Definition count_level (lvl : string) (detected_risks : list RiskFinding) : Z :=
  fold_right (fun r acc => if String.eqb (risk_level r) lvl then 1 + acc else acc)%Z
             0%Z detected_risks.

Definition risk_category (score : Z) : string :=
  if (70 <=? score)%Z then "High Risk"
  else if (40 <=? score)%Z then "Medium Risk"
  else "Low Risk".

Definition calculate_risk_score (detected_risks : list RiskFinding) : Z * string :=
  match detected_risks with
  | [] => (0%Z, "Low Risk")
  | _ =>
      let high_count := count_level "high" detected_risks in
      let medium_count := count_level "medium" detected_risks in
      let low_count := count_level "low" detected_risks in
      let score :=
        ((high_count * 30 + medium_count * 15 + low_count * 5)
           / Z.max 1 (Z.of_nat (length detected_risks)))%Z in
      let score := Z.min 100 score in
      (score, risk_category score)
  end.

(** A finding whose level is one of the three levels of the taxonomy. *)
Definition known_level (r : RiskFinding) : Prop :=
  risk_level r = "high" \/ risk_level r = "medium" \/ risk_level r = "low".

(* ===================================================================== *)
(** * A backtracking matcher for the patterns of the program              *)
(* ===================================================================== *)

Module Re.

(** The flags the program passes: [re.IGNORECASE], [re.MULTILINE],
    [re.DOTALL]. *)
Record flags : Type := mkFlags {
  ignorecase : bool;
  multiline : bool;
  dotall : bool
}.

Definition no_flags : flags := mkFlags false false false.
Definition IGNORECASE : flags := mkFlags true false false.
Definition MULTILINE : flags := mkFlags false true false.
Definition IGNORECASE_DOTALL : flags := mkFlags true false true.

(** Members of a bracket expression. *)
Inductive item : Type :=
| IChar (c : ascii)            (* one character *)
| IRange (lo hi : ascii)       (* lo-hi *)
| IDigit                       (* \d *)
| ISpace                       (* \s *)
| IWord.                       (* \w *)

Inductive regex : Type :=
| Eps                                                  (* empty pattern *)
| Chr (c : ascii)                                      (* a literal character *)
| Dot                                                  (* . *)
| Cls (negated : bool) (items : list item)             (* [...] and [^...] *)
| Seq (r1 r2 : regex)                                  (* r1 r2 *)
| Alt (r1 r2 : regex)                                  (* r1|r2 *)
| Rep (greedy : bool) (lo : nat) (hi : option nat) (r : regex)
                                                       (* r{lo,hi}, lazy when not greedy *)
| Grp (n : nat) (r : regex)                            (* capturing group number n *)
| Bol                                                  (* ^ *)
| Eol                                                  (* $ *)
| WordB                                                (* \b *)
| Ahead (r : regex).                                   (* (?=r) *)

(** A position in the text: the character before it, the text from it on,
    and its offset. *)
Record cursor : Type := mkCursor {
  prev : option ascii;
  rest : string;
  pos : nat
}.

(** Group number to (start, end); the latest entry of a group is in front. *)
Definition caps : Type := list (nat * (nat * nat)).

Definition result : Type := option (cursor * caps).
Definition cont : Type := cursor -> caps -> result.

Definition chr_eq (f : flags) (a b : ascii) : bool :=
  if ignorecase f then Ascii.eqb (Py.lower_char a) (Py.lower_char b)
  else Ascii.eqb a b.

(** Under IGNORECASE a bracket expression is compiled to the set of the
    lower-case images of its members and is tested on the lower-case image of
    the character. *)
Definition item_mem (f : flags) (it : item) (c : ascii) : bool :=
  match it with
  | IChar a => chr_eq f a c
  | IRange lo hi =>
      if ignorecase f then
        let lc := Py.lower_char c in
        Py.in_range lo hi lc || (Py.has_upper lc && Py.in_range lo hi (Py.upper_char lc))
      else Py.in_range lo hi c
  | IDigit => Py.isdigit c
  | ISpace => Py.isspace c
  | IWord => Py.isword c
  end.

Definition cls_mem (f : flags) (negated : bool) (items : list item) (c : ascii) : bool :=
  xorb negated (existsb (fun it => item_mem f it c) items).

Definition newline : ascii := ascii_of_N 10.

Definition dot_mem (f : flags) (c : ascii) : bool :=
  dotall f || negb (Ascii.eqb c newline).

(** [^]: start of the text, and with MULTILINE also after each newline. *)
Definition at_bol (f : flags) (c : cursor) : bool :=
  match prev c with
  | None => true
  | Some a => multiline f && Ascii.eqb a newline
  end.

(** [$]: end of the text or before its final newline, and with MULTILINE
    before each newline. *)
Definition at_eol (f : flags) (c : cursor) : bool :=
  match rest c with
  | EmptyString => true
  | String a EmptyString => Ascii.eqb a newline
  | String a _ => multiline f && Ascii.eqb a newline
  end.

Definition word_before (c : cursor) : bool :=
  match prev c with Some a => Py.isword a | None => false end.

Definition word_after (c : cursor) : bool :=
  match rest c with String a _ => Py.isword a | EmptyString => false end.

(** [\b]: exactly one side of the position is a word character. *)
Definition at_wordb (c : cursor) : bool := xorb (word_before c) (word_after c).

(** One character that satisfies [p]. *)
Definition one (p : ascii -> bool) (c : cursor) (g : caps) (k : cont) : result :=
  match rest c with
  | String a s' => if p a then k (mkCursor (Some a) s' (S (pos c))) g else None
  | EmptyString => None
  end.

Section Repeat.
(** The matcher of the repeated pattern. *)
Variable body : cursor -> caps -> cont -> result.

(** The [lo] iterations that must match. *)
Fixpoint rep_min (lo : nat) (finish : cont) (c : cursor) (g : caps) : result :=
  match lo with
  | 0 => finish c g
  | S lo' => body c g (fun c' g' => rep_min lo' finish c' g')
  end.

(** At most [n] further iterations.  A greedy repeat tries one more
    iteration before the rest of the pattern, a lazy one the rest of the
    pattern first.  An iteration that consumes nothing is not repeated; in
    the patterns of the program every repeated pattern consumes at least one
    character. *)
Fixpoint rep_opt (greedy : bool) (n : nat) (c : cursor) (g : caps) (k : cont) : result :=
  match n with
  | 0 => k c g
  | S n' =>
      let more (_ : unit) :=
        body c g (fun c' g' =>
          if (pos c <? pos c')%nat then rep_opt greedy n' c' g' k else None) in
      if greedy then
        match more tt with
        | Some x => Some x
        | None => k c g
        end
      else
        match k c g with
        | Some x => Some x
        | None => more tt
        end
  end.
End Repeat.

(** The number of optional iterations of [r{lo,hi}]; without an upper bound
    every iteration consumes a character, so the length of the remaining
    text bounds their number ([ReFacts.rep_bound_enough]). *)
Definition rep_bound (lo : nat) (hi : option nat) (c : cursor) : nat :=
  match hi with
  | Some h => h - lo
  | None => String.length (rest c)
  end.

(** [run f r c g k]: match [r] at [c] with groups [g], then continue with
    [k]; alternatives are tried in the order of the [re] module, and the
    first success is the result. *)
Fixpoint run (f : flags) (r : regex) (c : cursor) (g : caps) (k : cont) : result :=
  match r with
  | Eps => k c g
  | Chr a => one (chr_eq f a) c g k
  | Dot => one (dot_mem f) c g k
  | Cls negated items => one (cls_mem f negated items) c g k
  | Seq r1 r2 => run f r1 c g (fun c' g' => run f r2 c' g' k)
  | Alt r1 r2 =>
      match run f r1 c g k with
      | Some x => Some x
      | None => run f r2 c g k
      end
  | Rep greedy lo hi r' =>
      rep_min (run f r') lo
        (fun c' g' => rep_opt (run f r') greedy (rep_bound lo hi c') c' g' k) c g
  | Grp n r' => run f r' c g (fun c' g' => k c' ((n, (pos c, pos c')) :: g'))
  | Bol => if at_bol f c then k c g else None
  | Eol => if at_eol f c then k c g else None
  | WordB => if at_wordb c then k c g else None
  | Ahead r' =>
      match run f r' c g (fun c' g' => Some (c', g')) with
      | Some (_, g') => k c g'
      | None => None
      end
  end.

(** A match object: [m.start()], [m.end()] and the spans of its groups. *)
Record rmatch : Type := mkMatch {
  m_start : nat;
  m_end : nat;
  m_caps : caps
}.

(** Try the pattern at one position.  [must_advance] refuses an empty
    match there: the [re] module sets it for the first position tried after
    an empty match.  No pattern of the program matches the empty text. *)
Definition match_at (f : flags) (r : regex) (must_advance : bool) (c : cursor) : option rmatch :=
  match run f r c []
          (fun c' g' => if must_advance && (pos c' =? pos c)%nat then None else Some (c', g')) with
  | Some (c', g') => Some (mkMatch (pos c) (pos c') g')
  | None => None
  end.

(** [re.finditer(pattern, text, flags)]: the matches from left to right,
    each search starting where the previous match ended.  [skip] counts the
    positions inside the previous match that are still to be passed. *)
Fixpoint scan (f : flags) (r : regex) (skip : nat) (p : option ascii) (s : string) (i : nat)
  : list rmatch :=
  let next (skip' : nat) :=
    match s with
    | String a s' => scan f r skip' (Some a) s' (S i)
    | EmptyString => []
    end in
  match skip with
  | S skip' => next skip'
  | 0 =>
      let c := mkCursor p s i in
      match match_at f r false c with
      | None => next 0
      | Some m =>
          if (m_end m =? i)%nat then
            match match_at f r true c with
            | Some m' => m :: m' :: next (m_end m' - i - 1)
            | None => m :: next 0
            end
          else m :: next (m_end m - i - 1)
      end
  end.

Definition finditer (f : flags) (r : regex) (text : string) : list rmatch :=
  scan f r 0 None text 0.

(** [re.search(pattern, text, flags)]: the leftmost match. *)
Fixpoint search_from (f : flags) (r : regex) (p : option ascii) (s : string) (i : nat)
  : option rmatch :=
  match match_at f r false (mkCursor p s i) with
  | Some m => Some m
  | None =>
      match s with
      | String a s' => search_from f r (Some a) s' (S i)
      | EmptyString => None
      end
  end.

Definition search (f : flags) (r : regex) (text : string) : option rmatch :=
  search_from f r None text 0.

(** [m.group(0)] and [m.group(n)] as text; a group that took no part in
    the match is [None]. *)
Definition group0 (text : string) (m : rmatch) : string :=
  Py.slice (m_start m) (m_end m) text.

Fixpoint span_of (n : nat) (g : caps) : option (nat * nat) :=
  match g with
  | [] => None
  | (n', sp) :: g' => if (n =? n')%nat then Some sp else span_of n g'
  end.

Definition group (text : string) (n : nat) (m : rmatch) : option string :=
  match span_of n (m_caps m) with
  | Some (i, j) => Some (Py.slice i j text)
  | None => None
  end.

(** [sets r n]: group [n] takes part in every match of [r]. *)
Fixpoint sets (r : regex) (n : nat) : bool :=
  match r with
  | Seq r1 r2 => sets r1 n || sets r2 n
  | Alt r1 r2 => sets r1 n && sets r2 n
  | Rep _ lo _ r' => (0 <? lo)%nat && sets r' n
  | Grp m r' => (n =? m)%nat || sets r' n
  | Ahead r' => sets r' n
  | _ => false
  end.

(** [consumes r]: every match of [r] takes at least one character. *)
Fixpoint consumes (r : regex) : bool :=
  match r with
  | Chr _ | Dot | Cls _ _ => true
  | Seq r1 r2 => consumes r1 || consumes r2
  | Alt r1 r2 => consumes r1 && consumes r2
  | Rep _ lo _ r' => (0 <? lo)%nat && consumes r'
  | Grp _ r' => consumes r'
  | Eps | Bol | Eol | WordB | Ahead _ => false
  end.

(** Matches in text order, none starting before [lo] or before the end of
    the one in front of it. *)
Fixpoint ordered_from (lo : nat) (ms : list rmatch) : Prop :=
  match ms with
  | [] => True
  | m :: ms' => (lo <= m_start m)%nat /\ (m_start m <= m_end m)%nat /\ ordered_from (m_end m) ms'
  end.

(** ** Notions for reasoning about the matcher *)

(** Groups are never forgotten. *)
Definition keeps (g g' : caps) : Prop :=
  forall n, span_of n g <> None -> span_of n g' <> None.

(** What a successful run guarantees about the state its continuation
    receives: the position did not move back, recorded groups are kept and
    the groups in [must] are recorded. *)
Definition reach (must : nat -> bool) (c : cursor) (g : caps) (c' : cursor) (g' : caps) : Prop :=
  (pos c <= pos c')%nat /\ keeps g g' /\ forall n, must n = true -> span_of n g' <> None.

Definition sound (must : nat -> bool) (mt : cursor -> caps -> cont -> result) : Prop :=
  forall c g k res, mt c g k = Some res ->
    exists c' g', k c' g' = Some res /\ reach must c g c' g'.

Definition none : nat -> bool := fun _ => false.

(** A successful run of a matcher that must consume moves the position
    forward. *)
Definition advances (strict : bool) (mt : cursor -> caps -> cont -> result) : Prop :=
  forall c g k res, mt c g k = Some res ->
    exists c' g', k c' g' = Some res /\
                  (pos c <= pos c')%nat /\ (strict = true -> (pos c < pos c')%nat).

(** Two continuations give the same result at every position of a text of
    length [len] from offset [lo] on. *)
Definition agree (len lo : nat) (k1 k2 : cont) : Prop :=
  forall c g, (pos c + String.length (rest c) = len)%nat -> (lo <= pos c)%nat -> k1 c g = k2 c g.

(** A matcher looks at its continuation only at positions of the same text
    that are not before its own. *)
Definition local (mt : cursor -> caps -> cont -> result) : Prop :=
  forall c g k1 k2,
    agree (pos c + String.length (rest c)) (pos c) k1 k2 -> mt c g k1 = mt c g k2.

(** ** Pattern combinators *)

(** A literal string, as [re.escape] produces it. *)
Fixpoint lit (s : string) : regex :=
  match s with
  | EmptyString => Eps
  | String a EmptyString => Chr a
  | String a s' => Seq (Chr a) (lit s')
  end.

Fixpoint seq (rs : list regex) : regex :=
  match rs with
  | [] => Eps
  | [r] => r
  | r :: rs' => Seq r (seq rs')
  end.

Fixpoint alt (rs : list regex) : regex :=
  match rs with
  | [] => Eps
  | [r] => r
  | r :: rs' => Alt r (alt rs')
  end.

Definition star (r : regex) : regex := Rep true 0 None r.          (* r* *)
Definition plus (r : regex) : regex := Rep true 1 None r.          (* r+ *)
Definition opt (r : regex) : regex := Rep true 0 (Some 1) r.       (* r? *)
Definition lazy_star (r : regex) : regex := Rep false 0 None r.    (* r*? *)
Definition lazy_plus (r : regex) : regex := Rep false 1 None r.    (* r+? *)
Definition times (n : nat) (r : regex) : regex := Rep true n (Some n) r.   (* r{n} *)
Definition range (lo hi : nat) (r : regex) : regex := Rep true lo (Some hi) r. (* r{lo,hi} *)
Definition at_least (lo : nat) (r : regex) : regex := Rep true lo None r.  (* r{lo,} *)

Definition digit : regex := Cls false [IDigit].                    (* \d *)
Definition space : regex := Cls false [ISpace].                    (* \s *)

End Re.

Import Re.

Definition dquote : ascii := ascii_of_N 34.

(* ===================================================================== *)
(** * Clause segmentation and definitions ([utils/clause_extraction.py])  *)
(* ===================================================================== *)

Record SubClause : Type := mkSubClause {
  sub_number : string;
  sub_content : string
}.

Record Clause : Type := mkClause {
  number : string;
  heading : string;
  content : string;
  full_content : string;
  subclauses : list SubClause
}.

Definition upper_AZ : item := IRange "A" "Z".

(** [(?=^\d+\.|$)] *)
Definition clause_lookahead : regex := Ahead (Alt (seq [Bol; plus digit; Chr "."]) Eol).

(** [r'^(\d+)\.\s+([A-Z][A-Z\s]*?)(?=^\d+\.|$)'] *)
Definition clause_pattern : regex :=
  seq [ Bol; Grp 1 (plus digit); Chr "."; plus space;
        Grp 2 (Seq (Cls false [upper_AZ]) (lazy_star (Cls false [upper_AZ; ISpace])));
        clause_lookahead ].

(** [r'^(\d+\.\d+)\s+(.+?)(?=^\d+\.\d+|$)'] *)
Definition subclause_pattern : regex :=
  seq [ Bol; Grp 1 (seq [plus digit; Chr "."; plus digit]); plus space;
        Grp 2 (lazy_plus Dot);
        Ahead (Alt (seq [Bol; plus digit; Chr "."; plus digit]) Eol) ].

(** [r'Q([^Q]+)Q\s*(?:means|is|shall|refers to)\s*([^.]+\.)'], where Q stands
    for the double quote character. *)
Definition definition_pattern : regex :=
  seq [ Chr dquote; Grp 1 (plus (Cls true [IChar dquote])); Chr dquote; star space;
        alt [lit "means"; lit "is"; lit "shall"; lit "refers to"]; star space;
        Grp 2 (Seq (plus (Cls true [IChar "."])) (Chr ".")) ].

(** The body of the loop of [_extract_subclauses]; [match.group(n)] of a
    group that took no part in the match is [None], on which [.strip()]
    raises: [None] below. *)
Definition subclause_of (text : string) (m : rmatch) : option SubClause :=
  num ← group text 1 m;
  g2 ← group text 2 m;
  let content := Py.take 200 (Py.strip g2) in
  Some (mkSubClause num content).

Definition _extract_subclauses (text : string) : option (list SubClause) :=
  let matches := finditer MULTILINE subclause_pattern text in
  mapM (subclause_of text) matches.

(** The body of the loop of [extract_clauses] at index [i]. *)
Definition clause_of (text : string) (matches : list rmatch) (i : nat) (m : rmatch)
  : option Clause :=
  clause_num ← group text 1 m;
  g2 ← group text 2 m;
  let clause_title := Py.strip g2 in
  let start := m_end m in
  let end_ :=
    match matches !! (i + 1)%nat with
    | Some next => m_start next
    | None => Py.len text
    end in
  let content := Py.strip (Py.slice start end_ text) in
  subclauses ← _extract_subclauses content;
  Some (mkClause clause_num clause_title (Py.take 500 content) content subclauses).

(** [for i, match in enumerate(matches)], from index [i] on. *)
Fixpoint clauses_from (text : string) (matches : list rmatch) (i : nat) (todo : list rmatch)
  : option (list Clause) :=
  match todo with
  | [] => Some []
  | m :: todo' =>
      c ← clause_of text matches i m;
      cs ← clauses_from text matches (S i) todo';
      Some (c :: cs)
  end.

Definition extract_clauses (text : string) : option (list Clause) :=
  let matches := finditer MULTILINE clause_pattern text in
  clauses_from text matches 0 matches.

(** The loop of [extract_definitions]: [definitions[term] = definition]. *)
Fixpoint definitions_loop (text : string) (matches : list rmatch)
    (definitions : gmap string string) : option (gmap string string) :=
  match matches with
  | [] => Some definitions
  | m :: matches' =>
      g1 ← group text 1 m;
      g2 ← group text 2 m;
      let term := Py.strip g1 in
      let definition := Py.strip g2 in
      definitions_loop text matches' (<[term := definition]> definitions)
  end.

Definition extract_definitions (text : string) : option (gmap string string) :=
  definitions_loop text (finditer IGNORECASE definition_pattern text) ∅.

(* ===================================================================== *)
(** * Risk detection ([utils/risk_detection.py])                          *)
(* ===================================================================== *)

Record risk_info : Type := mkInfo {
  keywords : list string;
  info_level : string;
  info_description : string
}.

Definition RISK_PATTERNS : list (string * risk_info) :=
  [ ("Penalty Clauses",
     mkInfo ["penalty"; "fine"; "damages"; "liquidated"; "breach"; "indemnify"]
            "high" "Clauses imposing penalties for breach");
    ("Indemnity Clauses",
     mkInfo ["indemnify"; "indemnification"; "hold harmless"; "defending"; "liability"]
            "high" "Clauses requiring indemnification");
    ("Termination Clauses",
     mkInfo ["termination"; "terminate"; "terminate for cause"; "terminate without cause"]
            "medium" "Clauses specifying termination rights");
    ("Lock-in Period",
     mkInfo ["lock"; "lock-in"; "locked in"; "exclusive"; "no exit"; "cannot terminate"]
            "high" "Clauses restricting early termination");
    ("Auto-Renewal",
     mkInfo ["auto-renewal"; "automatic renewal"; "renew"; "unless notice"; "renewal"]
            "medium" "Clauses with automatic renewal");
    ("Arbitration",
     mkInfo ["arbitration"; "arbitrator"; "binding arbitration"; "arbitrate"]
            "medium" "Arbitration dispute resolution clauses");
    ("Intellectual Property",
     mkInfo ["intellectual property"; "patent"; "copyright"; "trademark"; "ip";
             "proprietary"; "work made for hire"]
            "high" "IP assignment and ownership clauses");
    ("Confidentiality",
     mkInfo ["confidential"; "confidentiality"; "nda"; "non-disclosure"; "proprietary"]
            "medium" "Confidentiality and NDA clauses");
    ("Limitation of Liability",
     mkInfo ["limitation of liability"; "limit of liability"; "liable"; "not liable"; "exclude"]
            "medium" "Clauses limiting liability");
    ("Non-Competition",
     mkInfo ["non-compete"; "non-competition"; "compete"; "competitor"; "restrictive covenant"]
            "high" "Non-compete and restrictive covenant clauses") ].

Definition terminator : list item := [IChar "."; IChar "!"; IChar "?"].

(** [rf'.{{0,{context_window}}}[^.!?]*?{re.escape(keyword)}[^.!?]*?[.!?]'] *)
Definition sentence_pattern (keyword : string) (context_window : nat) : regex :=
  seq [ range 0 context_window Dot; lazy_star (Cls true terminator); lit keyword;
        lazy_star (Cls true terminator); Cls false terminator ].

(** The loop of [_find_sentence_with_keyword]. *)
Fixpoint sentences_loop (text : string) (matches : list rmatch) (sentences : list string)
  : list string :=
  match matches with
  | [] => sentences
  | m :: matches' =>
      let sentence := Py.strip (group0 text m) in
      sentences_loop text matches'
        (if String.eqb sentence "" then sentences else sentences ++ [Py.take 300 sentence])
  end.

Definition _find_sentence_with_keyword (text keyword : string) (context_window : nat)
  : list string :=
  let pattern := sentence_pattern keyword context_window in
  let matches := finditer IGNORECASE_DOTALL pattern text in
  let sentences := sentences_loop text matches [] in
  firstn 3 sentences.

Definition _assign_severity_score (risk_level : string) : Z :=
  if String.eqb risk_level "low" then 25
  else if String.eqb risk_level "medium" then 55
  else if String.eqb risk_level "high" then 85
  else 50.

(** Equality of two findings, field by field. *)
Definition risk_eqb (a b : RiskFinding) : bool :=
  String.eqb (risk_type a) (risk_type b) && String.eqb (risk_level a) (risk_level b)
  && String.eqb (description a) (description b) && String.eqb (evidence a) (evidence b)
  && (severity_score a =? severity_score b)%Z.

(** [risk in detected_risks] *)
Definition risk_in (r : RiskFinding) (detected_risks : list RiskFinding) : bool :=
  existsb (risk_eqb r) detected_risks.

(** [for sentence in sentences: ...] *)
Fixpoint evidence_loop (risk_type : string) (info : risk_info) (sentences : list string)
    (detected_risks : list RiskFinding) : list RiskFinding :=
  match sentences with
  | [] => detected_risks
  | sentence :: sentences' =>
      let risk := mkRisk risk_type (info_level info) (info_description info)
                         (Py.take 200 sentence)
                         (_assign_severity_score (info_level info)) in
      evidence_loop risk_type info sentences'
        (if risk_in risk detected_risks then detected_risks else detected_risks ++ [risk])
  end.

(** [for keyword in risk_info["keywords"]: ...], left by [break] after the
    first keyword found. *)
Fixpoint keyword_loop (text text_lower : string) (risk_type : string) (info : risk_info)
    (kws : list string) (detected_risks : list RiskFinding) : list RiskFinding :=
  match kws with
  | [] => detected_risks
  | keyword :: kws' =>
      if Py.contains keyword text_lower then
        let sentences := _find_sentence_with_keyword text keyword 150 in
        evidence_loop risk_type info sentences detected_risks
      else keyword_loop text text_lower risk_type info kws' detected_risks
  end.

(** [for risk_type, risk_info in self.RISK_PATTERNS.items(): ...] *)
Fixpoint pattern_loop (text text_lower : string) (patterns : list (string * risk_info))
    (detected_risks : list RiskFinding) : list RiskFinding :=
  match patterns with
  | [] => detected_risks
  | (risk_type, info) :: patterns' =>
      pattern_loop text text_lower patterns'
        (keyword_loop text text_lower risk_type info (keywords info) detected_risks)
  end.

Definition detect_risks (text : string) : list RiskFinding :=
  let text_lower := Py.lower text in
  pattern_loop text text_lower RISK_PATTERNS [].

(* ===================================================================== *)
(** * Contract classification ([utils/contract_classifier.py])            *)
(* ===================================================================== *)

Record pattern_info : Type := mkPattern {
  pat_keywords : list string;
  min_matches : Z
}.

Definition CLASSIFICATION_PATTERNS : list (string * pattern_info) :=
  [ ("Employment",
     mkPattern ["employment"; "employee"; "employer"; "salary"; "compensation"; "work";
                "position"; "job"] 3);
    ("Lease",
     mkPattern ["lease"; "landlord"; "tenant"; "rent"; "property"; "premises"; "leaseholder"] 2);
    ("Service Agreement",
     mkPattern ["service"; "services"; "service provider"; "contractor"; "engagement"; "work"] 3);
    ("Vendor",
     mkPattern ["vendor"; "supplier"; "supply"; "purchasing"; "goods"; "material"] 2);
    ("Partnership",
     mkPattern ["partnership"; "partner"; "joint venture"; "co-founder"; "equity"; "profit";
                "loss"] 2);
    ("NDA",
     mkPattern ["non-disclosure"; "nda"; "confidential"; "confidentiality agreement";
                "proprietary"] 2);
    ("License Agreement",
     mkPattern ["license"; "licensed"; "licensor"; "licensee"; "intellectual property"; "ip"] 2);
    ("Loan Agreement",
     mkPattern ["loan"; "lender"; "borrower"; "principal"; "interest"; "repayment"; "debt"] 3) ].

(** A [dict] with string keys, in insertion order. *)
Definition dict (V : Type) : Type := list (string * V).

Fixpoint dict_get {V : Type} (d : dict V) (key : string) : option V :=
  match d with
  | [] => None
  | (k, v) :: d' => if String.eqb k key then Some v else dict_get d' key
  end.

(** [d[key] = v]: a present key keeps its place, a new key goes last. *)
Fixpoint dict_set {V : Type} (d : dict V) (key : string) (v : V) : dict V :=
  match d with
  | [] => [(key, v)]
  | (k, v') :: d' => if String.eqb k key then (k, v) :: d' else (k, v') :: dict_set d' key v
  end.

(** [for keyword in pattern_info["keywords"]: if keyword in text_lower: matches += 1] *)
Fixpoint count_matches (text_lower : string) (kws : list string) (matches : Z) : Z :=
  match kws with
  | [] => matches
  | keyword :: kws' =>
      count_matches text_lower kws'
        (if Py.contains keyword text_lower then matches + 1 else matches)%Z
  end.

(** [for contract_type, pattern_info in self.CLASSIFICATION_PATTERNS.items(): ...] *)
Fixpoint score_loop (text_lower : string) (patterns : list (string * pattern_info))
    (scores : dict Z) : dict Z :=
  match patterns with
  | [] => scores
  | (contract_type, info) :: patterns' =>
      let matches := count_matches text_lower (pat_keywords info) 0 in
      score_loop text_lower patterns'
        (if (min_matches info <=? matches)%Z then dict_set scores contract_type matches
         else scores)
  end.

(** [max(scores, key=scores.get)] over the keys after the first: a later key
    replaces the best one only when its value is strictly greater. *)
Fixpoint max_key_from (best : string * Z) (d : dict Z) : string :=
  match d with
  | [] => fst best
  | (k, v) :: d' => max_key_from (if (snd best <? v)%Z then (k, v) else best) d'
  end.

(** The float of a small non-negative int. *)
Definition float_of_int (z : Z) : float := PrimFloat.of_uint63 (Uint63.of_Z z).

(** [min(100, (n / 10) * 100)]: the quotient of two ints is a float; [min]
    returns its first argument unless the second is smaller. *)
Definition confidence_of (n : Z) : Py.num :=
  let x := ((float_of_int n / float_of_int 10) * float_of_int 100)%float in
  if (x <? float_of_int 100)%float then Py.Float x else Py.Int 100.

Definition _get_type_description (contract_type : string) : string :=
  let descriptions : dict string :=
    [ ("Employment", "Agreement between employer and employee defining terms of work");
      ("Lease", "Agreement for renting property or equipment");
      ("Service Agreement", "Contract for provision of services");
      ("Vendor", "Agreement for supply of goods or services from a vendor");
      ("Partnership", "Agreement establishing partnership between parties");
      ("NDA", "Non-disclosure agreement protecting confidential information");
      ("License Agreement", "Agreement granting rights to use intellectual property");
      ("Loan Agreement", "Agreement for borrowing and repayment of funds");
      ("General Contract", "Contract of unknown type") ] in
  match dict_get descriptions contract_type with
  | Some d => d
  | None => "Contract of unknown type"
  end.

Record Classification : Type := mkClassification {
  primary_type : string;
  confidence : Py.num;
  all_matches : dict Z;
  type_description : string
}.

Definition classify_contract (text : string) : Classification :=
  let text_lower := Py.lower text in
  let scores := score_loop text_lower CLASSIFICATION_PATTERNS [] in
  let '(primary_type, confidence) :=
    match scores with
    | first :: others =>
        let primary_type := max_key_from first others in
        (primary_type,
         confidence_of (match dict_get scores primary_type with Some n => n | None => 0%Z end))
    | [] => ("General Contract", Py.Int 0)
    end in
  mkClassification primary_type confidence scores (_get_type_description primary_type).

(* ===================================================================== *)
(** * Entity extraction ([utils/ner.py])                                  *)
(* ===================================================================== *)

(** [list(set(xs))]: the distinct members of [xs], in the order of the set. *)
Definition list_set (xs : list string) : list string :=
  elements (list_to_set xs : gset string).

(** [[m.group(0) for m in re.finditer(pattern, text, flags)]] *)
Definition all_group0 (f : flags) (pattern : regex) (text : string) : list string :=
  map (group0 text) (finditer f pattern text).

Definition months : list string :=
  [ "January"; "February"; "March"; "April"; "May"; "June"; "July"; "August";
    "September"; "October"; "November"; "December" ].

Definition date_patterns : list regex :=
  [ (* r'\b\d{1,2}/\d{1,2}/\d{4}\b' *)
    seq [WordB; range 1 2 digit; Chr "/"; range 1 2 digit; Chr "/"; times 4 digit; WordB];
    (* r'\b(January|...|December)\s+\d{1,2},?\s+\d{4}\b' *)
    seq [WordB; Grp 1 (alt (map lit months)); plus space; range 1 2 digit; opt (Chr ",");
         plus space; times 4 digit; WordB];
    (* r'\b\d{4}-\d{1,2}-\d{1,2}\b' *)
    seq [WordB; times 4 digit; Chr "-"; range 1 2 digit; Chr "-"; range 1 2 digit; WordB] ].

Definition _extract_dates (text : string) : list string :=
  let dates := flat_map (fun pattern => all_group0 IGNORECASE pattern text) date_patterns in
  list_set dates.

Definition digits_commas : regex := plus (Cls false [IDigit; IChar ","]).   (* [\d,]+ *)
Definition cents : regex := opt (Seq (Chr ".") (times 2 digit)).            (* (?:\.\d{2})? *)

(** [r'\$[\d,]+(?:\.\d{2})?|\b(?:USD|dollars?|euros?|cents?|pounds?)\s*[\d,]+(?:\.\d{2})?'] *)
Definition currency_pattern : regex :=
  Alt (seq [Chr "$"; digits_commas; cents])
      (seq [WordB;
            alt [lit "USD"; Seq (lit "dollar") (opt (Chr "s")); Seq (lit "euro") (opt (Chr "s"));
                 Seq (lit "cent") (opt (Chr "s")); Seq (lit "pound") (opt (Chr "s"))];
            star space; digits_commas; cents]).

(** [r'\b\d+(?:\.\d{1,2})?\s*%'] *)
Definition percentage_pattern : regex :=
  seq [WordB; plus digit; opt (Seq (Chr ".") (range 1 2 digit)); star space; Chr "%"].

Definition _extract_amounts (text : string) : list (string * string) :=
  let amounts :=
    map (fun m => (group0 text m, "Currency")) (finditer IGNORECASE currency_pattern text) in
  amounts ++
    map (fun m => (group0 text m, "Percentage")) (finditer no_flags percentage_pattern text).

Definition states : list string :=
  [ "Alabama"; "Alaska"; "Arizona"; "Arkansas"; "California"; "Colorado";
    "Connecticut"; "Delaware"; "Florida"; "Georgia"; "Hawaii"; "Idaho";
    "Illinois"; "Indiana"; "Iowa"; "Kansas"; "Kentucky"; "Louisiana";
    "Maine"; "Maryland"; "Massachusetts"; "Michigan"; "Minnesota";
    "Mississippi"; "Missouri"; "Montana"; "Nebraska"; "Nevada";
    "New Hampshire"; "New Jersey"; "New Mexico"; "New York";
    "North Carolina"; "North Dakota"; "Ohio"; "Oklahoma"; "Oregon";
    "Pennsylvania"; "Rhode Island"; "South Carolina"; "South Dakota";
    "Tennessee"; "Texas"; "Utah"; "Vermont"; "Virginia"; "Washington";
    "West Virginia"; "Wisconsin"; "Wyoming" ].

Definition countries : list string :=
  ["United States"; "United Kingdom"; "Canada"; "Australia"; "India"].

(** [re.search(rf'\b{name}\b', text, re.IGNORECASE)] is a match. *)
Definition mentions (text name : string) : bool :=
  match search IGNORECASE (seq [WordB; lit name; WordB]) text with
  | Some _ => true
  | None => false
  end.

Definition _extract_jurisdictions (text : string) : list string :=
  let jurisdictions := List.filter (mentions text) states in
  let jurisdictions := jurisdictions ++ List.filter (mentions text) countries in
  list_set jurisdictions.

Definition alnum_items : list item := [IRange "A" "Z"; IRange "a" "z"; IRange "0" "9"].

(** [r'\b[A-Za-z0-9._%+-]+@[A-Za-z0-9.-]+\.[A-Z|a-z]{2,}\b'] *)
Definition email_pattern : regex :=
  seq [ WordB;
        plus (Cls false (alnum_items ++ [IChar "."; IChar "_"; IChar "%"; IChar "+"; IChar "-"]));
        Chr "@"; plus (Cls false (alnum_items ++ [IChar "."; IChar "-"])); Chr ".";
        at_least 2 (Cls false [IRange "A" "Z"; IChar "|"; IRange "a" "z"]); WordB ].

Definition _extract_emails (text : string) : list string :=
  list_set (all_group0 no_flags email_pattern text).

Definition phone_patterns : list regex :=
  [ (* r'\b\d{3}-\d{3}-\d{4}\b' *)
    seq [WordB; times 3 digit; Chr "-"; times 3 digit; Chr "-"; times 4 digit; WordB];
    (* r'\b\(\d{3}\)\s*\d{3}-\d{4}\b' *)
    seq [WordB; Chr "("; times 3 digit; Chr ")"; star space; times 3 digit; Chr "-";
         times 4 digit; WordB];
    (* r'\b\d{10}\b' *)
    seq [WordB; times 10 digit; WordB] ].

Definition _extract_phone_numbers (text : string) : list string :=
  let phones := flat_map (fun pattern => all_group0 no_flags pattern text) phone_patterns in
  list_set phones.

(** [r'https?://[^\s]+'] *)
Definition url_pattern : regex :=
  seq [lit "http"; opt (Chr "s"); lit "://"; plus (Cls true [ISpace])].

Definition _extract_urls (text : string) : list string :=
  list_set (all_group0 no_flags url_pattern text).

(** [r'(?:between|party|parties|Inc\.|LLC|Corp|Corporation|Company|by\s+and\s+between)\s+([A-Z][A-Za-z\s&,]+?)(?:,|\.|\s+and\s+)'] *)
Definition party_pattern : regex :=
  seq [ alt [ lit "between"; lit "party"; lit "parties"; lit "Inc."; lit "LLC"; lit "Corp";
              lit "Corporation"; lit "Company";
              seq [lit "by"; plus space; lit "and"; plus space; lit "between"] ];
        plus space;
        Grp 1 (Seq (Cls false [upper_AZ])
                   (lazy_plus (Cls false [upper_AZ; IRange "a" "z"; ISpace; IChar "&"; IChar ","])));
        alt [Chr ","; Chr "."; seq [plus space; lit "and"; plus space]] ].

(** The loop of [_extract_parties]. *)
Fixpoint parties_loop (text : string) (matches : list rmatch) (parties : list string)
  : option (list string) :=
  match matches with
  | [] => Some parties
  | m :: matches' =>
      g1 ← group text 1 m;
      let party := Py.rstrip_chars ",." (Py.strip g1) in
      parties_loop text matches'
        (if (2 <? Py.len party)%nat then parties ++ [party] else parties)
  end.

Definition _extract_parties (text : string) : option (list string) :=
  parties ← parties_loop text (finditer IGNORECASE party_pattern text) [];
  Some (list_set parties).

(** The dict that [extract_entities] returns. *)
Record Entities : Type := mkEntities {
  parties : list string;
  dates : list string;
  amounts : list (string * string);
  jurisdictions : list string;
  emails : list string;
  phone_numbers : list string;
  urls : list string
}.

Definition extract_entities (text : string) : option Entities :=
  let dates := _extract_dates text in
  let amounts := _extract_amounts text in
  let jurisdictions := _extract_jurisdictions text in
  let emails := _extract_emails text in
  let phone_numbers := _extract_phone_numbers text in
  let urls := _extract_urls text in
  parties ← _extract_parties text;
  Some (mkEntities parties dates amounts jurisdictions emails phone_numbers urls).

(** The patterns of the program that do not depend on a keyword or name. *)
Definition fixed_patterns : list regex :=
  [clause_pattern; subclause_pattern; definition_pattern; currency_pattern;
   percentage_pattern; email_pattern; url_pattern; party_pattern]
  ++ date_patterns ++ phone_patterns.

(* ===================================================================== *)
(** * Scanning text without patterns                                      *)
(* ===================================================================== *)

(** The longest prefix of [s] whose characters satisfy [P], and what follows
    it. *)
Fixpoint span (P : ascii -> bool) (s : string) : string * string :=
  match s with
  | String a s' =>
      if P a then let (w, r) := span P s' in (String a w, r) else (EmptyString, s)
  | EmptyString => (EmptyString, EmptyString)
  end.

(** The character in front of the position reached after reading [w], when
    [p] was in front of [w]. *)
Fixpoint last_of (p : option ascii) (w : string) : option ascii :=
  match w with
  | EmptyString => p
  | String a w' => last_of (Some a) w'
  end.

(** The position reached from [c] after reading [w], with [after] left. *)
Definition fwd (c : cursor) (w after : string) : cursor :=
  mkCursor (last_of (prev c) w) after (pos c + String.length w).

(** The position at offset [i] of [text]. *)
Definition cursor_at (text : string) (i : nat) : cursor :=
  mkCursor (last_of None (Py.take i text)) (Py.drop i text) i.

(** The next character satisfies [P]. *)
Definition next_is (P : ascii -> bool) (c : cursor) : bool :=
  match rest c with
  | String a _ => P a
  | EmptyString => false
  end.

Definition is_capital (a : ascii) : bool := Py.in_range "A" "Z" a.

Definition heading_char (a : ascii) : bool := is_capital a || Py.isspace a.

(** A position is at the start of a line: nothing or a newline is in front
    of it. *)
Definition line_start (p : option ascii) : bool :=
  match p with
  | None => true
  | Some a => Ascii.eqb a newline
  end.

(** A run of capitals and whitespace up to the end of its line: its length,
    or [None] when another character comes before the end of the line. *)
Fixpoint heading_rest (s : string) : option nat :=
  match s with
  | EmptyString => Some 0
  | String a s' =>
      if Ascii.eqb a newline then Some 0
      else if heading_char a then option_map S (heading_rest s') else None
  end.

(** A clause header begins [s], which comes after character [p]: at the
    start of a line an integer, a period, whitespace, and a heading that
    begins with a capital and goes on in capitals and whitespace to the end
    of its line.  The result is the length of the integer, of the
    whitespace and of the heading. *)
Definition header_at (p : option ascii) (s : string) : option (nat * nat * nat) :=
  if line_start p then
    let (ds, r1) := span Py.isdigit s in
    match ds, r1 with
    | String _ _, String dot r2 =>
        if Ascii.eqb dot "." then
          let (ws, r3) := span Py.isspace r2 in
          match ws, r3 with
          | String _ _, String c r4 =>
              if is_capital c then
                match heading_rest r4 with
                | Some n => Some (String.length ds, String.length ws, S n)
                | None => None
                end
              else None
          | _, _ => None
          end
        else None
    | _, _ => None
    end
  else None.

(** Every character of [s] satisfies [P]. *)
Fixpoint all_chars (P : ascii -> bool) (s : string) : bool :=
  match s with
  | EmptyString => true
  | String a s' => P a && all_chars P s'
  end.

(** The end of a line: the end of the text or a newline. *)
Definition line_end (s : string) : Prop :=
  s = EmptyString \/ exists r, s = String newline r.

(** [s], found after character [p], begins with a clause header made of an
    integer of [nd] digits, a period, [nw] whitespace characters and a
    heading of [nh] characters: the header begins a line; the heading begins
    with a capital, goes on in capitals and whitespace, and ends where its
    line ends. *)
Definition clause_header (p : option ascii) (s : string) (nd nw nh : nat) : Prop :=
  line_start p = true /\
  exists ds ws c hd after,
    s = (ds ++ String "." (ws ++ String c (hd ++ after)))%string /\
    all_chars Py.isdigit ds = true /\ nd = String.length ds /\ (0 < nd)%nat /\
    all_chars Py.isspace ws = true /\ nw = String.length ws /\ (0 < nw)%nat /\
    is_capital c = true /\
    all_chars (fun a => heading_char a && negb (Ascii.eqb a newline)) hd = true /\
    nh = S (String.length hd) /\
    line_end after.

Definition not_quote (a : ascii) : bool := negb (Ascii.eqb a dquote).

Definition not_period (a : ascii) : bool := negb (Ascii.eqb a ".").

(** [w] begins [s] when case is ignored. *)
Fixpoint ci_prefix (w s : string) : bool :=
  match w, s with
  | EmptyString, _ => true
  | String a w', String b s' =>
      Ascii.eqb (Py.lower_char a) (Py.lower_char b) && ci_prefix w' s'
  | String _ _, EmptyString => false
  end.

Definition trigger_words : list string := ["means"; "is"; "shall"; "refers to"].

(** The length of the trigger word that begins [s]. *)
Definition trigger_at (s : string) : option nat :=
  option_map String.length (List.find (fun w => ci_prefix w s) trigger_words).

(** A definition begins [s]: a double quote, a term without double quote,
    a double quote, whitespace if any, a trigger word, whitespace if any,
    and the text up to and including the next period, of which at least one
    character comes before the period; when the period follows the
    whitespace at once, the last whitespace character is that character.
    The result is the length of the term, of the first whitespace, of the
    trigger word, of the second whitespace and of the definition. *)
Definition definition_at (s : string) : option (nat * nat * nat * nat * nat) :=
  match s with
  | String q s1 =>
      if Ascii.eqb q dquote then
        let (t, r1) := span not_quote s1 in
        match t, r1 with
        | String _ _, String _ r2 =>
            let (ws1, r3) := span Py.isspace r2 in
            match trigger_at r3 with
            | Some ntrig =>
                let (ws2, r5) := span Py.isspace (Py.drop ntrig r3) in
                let (body, r6) := span not_period r5 in
                match r6, body, ws2 with
                | String _ _, String _ _, _ =>
                    Some (String.length t, String.length ws1, ntrig, String.length ws2,
                          S (String.length body))
                | String _ _, EmptyString, String _ _ =>
                    Some (String.length t, String.length ws1, ntrig, String.length ws2 - 1, 2)%nat
                | _, _, _ => None
                end
            | None => None
            end
        | _, _ => None
        end
      else None
  | EmptyString => None
  end.

(** [s] begins with a definition: a term of [nt] characters in double
    quotes, [nw1] whitespace characters, a trigger word of [ntrig]
    characters in any case, and [nrest] characters up to and including the
    next period, at least one of them in front of the period. *)
Definition definition_shape (s : string) (nt nw1 ntrig nrest : nat) : Prop :=
  exists t ws1 trig X after,
    s = (String dquote t ++ String dquote ws1 ++ trig ++ X ++ String "." after)%string /\
    all_chars not_quote t = true /\ nt = String.length t /\ (0 < nt)%nat /\
    all_chars Py.isspace ws1 = true /\ nw1 = String.length ws1 /\
    In (Py.lower trig) trigger_words /\ ntrig = String.length trig /\
    all_chars not_period X = true /\ nrest = S (String.length X) /\ (1 < nrest)%nat.

(** The match object of a definition found at offset [i]. *)
Definition definition_match (i : nat) (lens : nat * nat * nat * nat * nat) : rmatch :=
  let '(nt, nw1, ntrig, nw2, ndef) := lens in
  let d := (i + 1 + nt + 1 + nw1 + ntrig + nw2)%nat in
  mkMatch i (d + ndef) [(2, (d, d + ndef)); (1, (i + 1, i + 1 + nt))]%nat.

(** The match object of a header found at offset [i]. *)
Definition header_match (i : nat) (lens : nat * nat * nat) : rmatch :=
  let '(nd, nw, nh) := lens in
  let h := (i + nd + 1 + nw)%nat in
  mkMatch i (h + nh) [(2, (h, h + nh)); (1, (i, i + nd))]%nat.

(* ===================================================================== *)
(** * The analyzers as the specification words them                       *)
(* ===================================================================== *)

(** [kw] occurs in [text] when case is ignored: some piece of the text has
    lower-case image [kw]. *)
Definition occurs_ignoring_case (kw text : string) : Prop :=
  exists pre mid post, text = (pre ++ mid ++ post)%string /\ Py.lower mid = kw.

(** ** Clause segmentation *)

(** Where the content of the clause of match number [k] ends: at the start
    of the next header, or at the end of the text. *)
Definition content_end (text : string) (ms : list rmatch) (k : nat) : nat :=
  match ms !! (k + 1)%nat with
  | Some next => m_start next
  | None => Py.len text
  end.

(** The [full_content] of every clause is the text between the end of its
    header and the start of the next header. *)
Definition content_is_raw_span (text : string) : Prop :=
  let ms := finditer MULTILINE clause_pattern text in
  forall cs k m c,
    extract_clauses text = Some cs -> ms !! k = Some m -> cs !! k = Some c ->
    full_content c = Py.slice (m_end m) (content_end text ms k) text.

(** ** Definitions *)

(** The term and the definition that the loop of [extract_definitions]
    records for a match. *)
Definition entry_of (text : string) (m : rmatch) : option (string * string) :=
  g1 ← group text 1 m;
  g2 ← group text 2 m;
  Some (Py.strip g1, Py.strip g2).

(** The definition of the last entry for [term]. *)
Fixpoint last_def (term : string) (entries : list (string * string)) : option string :=
  match entries with
  | [] => None
  | (t, d) :: entries' =>
      match last_def term entries' with
      | Some d' => Some d'
      | None => if String.eqb t term then Some d else None
      end
  end.

(** [term] stands in double quotes in [text] and a trigger word, in any
    case, follows the closing quote at once. *)
Definition quoted_before_trigger (text term : string) : Prop :=
  exists pre trig post,
    text = (pre ++ String dquote term ++ String dquote trig ++ post)%string /\
    In (Py.lower trig) trigger_words.

(** A term is mapped exactly when it stands in double quotes in front of a
    trigger word. *)
Definition defined_exactly_when_quoted (text : string) : Prop :=
  forall defs term,
    extract_definitions text = Some defs ->
    (is_Some (defs !! term) <-> quoted_before_trigger text term).

(** ** Risk detection *)

(** The finding recorded for one evidence sentence of a category. *)
Definition finding_of (risk_type : string) (info : risk_info) (sentence : string)
  : RiskFinding :=
  mkRisk risk_type (info_level info) (info_description info) (Py.take 200 sentence)
         (_assign_severity_score (info_level info)).

(** The first keyword, in declaration order, that the lowered text contains. *)
Definition first_hit (text : string) (kws : list string) : option string :=
  List.find (fun kw => Py.contains kw (Py.lower text)) kws.

(** The findings of one category: one per evidence sentence of its first
    keyword present, none when no keyword is present. *)
Definition category_findings (text : string) (p : string * risk_info) : list RiskFinding :=
  match first_hit text (keywords (snd p)) with
  | Some kw => map (finding_of (fst p) (snd p)) (_find_sentence_with_keyword text kw 150)
  | None => []
  end.

(** Equal findings collapsed to their first occurrence. *)
Fixpoint collapse (rs : list RiskFinding) : list RiskFinding :=
  match rs with
  | [] => []
  | r :: rs' => r :: List.filter (fun x => negb (risk_eqb r x)) (collapse rs')
  end.

(** ** Classification *)

(** The number of keywords of a bucket that the lowered text contains. *)
Definition match_count (text : string) (info : pattern_info) : Z :=
  Z.of_nat (length (List.filter (fun kw => Py.contains kw (Py.lower text)) (pat_keywords info))).

Definition qualifies (text : string) (p : string * pattern_info) : bool :=
  (min_matches (snd p) <=? match_count text (snd p))%Z.

(** The qualifying buckets with their counts, in declaration order. *)
Definition qualifying (text : string) : dict Z :=
  map (fun p => (fst p, match_count text (snd p)))
      (List.filter (qualifies text) CLASSIFICATION_PATTERNS).

(** [x <= bound] for a Python number and an integer bound. *)
Definition num_le (x : Py.num) (bound : Z) : Prop :=
  match x with
  | Py.Int z => (z <= bound)%Z
  | Py.Float f => (f <=? float_of_int bound)%float = true
  end.

(* ===================================================================== *)
(** * Sample inputs                                                       *)
(* ===================================================================== *)

Definition nl : string := String newline EmptyString.

(** The text of the scenario: four lines, two of them clause headers. *)
Definition scenario_text : string :=
  ("1. TERMINATION" ++ nl ++ "This agreement may be terminated with 30 days notice." ++ nl
   ++ "2. CONFIDENTIALITY" ++ nl ++ "All information is confidential.")%string.

(** A text that names the same amount twice. *)
Definition repeated_amount_text : string := "$5 now and $5 later".

(** A text with three keywords of the first bucket. *)
Definition employment_text : string :=
  "The Employee accepts employment with the Employer.".

(** A header whose heading is capitalized but not in capitals. *)
Definition capitalized_text : string := "1. Termination".

(** Two quoted terms in front of trigger words, the second one inside the
    definition of the first. *)
Definition overlapped_text : string :=
  (String dquote "x" ++ String dquote " is " ++ String dquote "y" ++ String dquote "means z.")%string.

Definition sample_findings : list RiskFinding :=
  [ mkRisk "Penalty Clauses" "high" "Clauses imposing penalties for breach" "a fine." 85;
    mkRisk "Arbitration" "medium" "Arbitration dispute resolution clauses" "arbitrate." 55;
    mkRisk "Other" "low" "A low finding" "low." 25 ].


(* ===================================================================== *)
(** * What a pattern matches, read without the matcher                    *)
(* ===================================================================== *)

(** One character that satisfies [P] is read. *)
Definition step (P : ascii -> bool) (c c' : cursor) : Prop :=
  exists a s', rest c = String a s' /\ P a = true /\ c' = mkCursor (Some a) s' (S (pos c)).

(** [n] rounds of a relation between matcher states. *)
Inductive iter (R : cursor * caps -> cursor * caps -> Prop)
  : nat -> cursor * caps -> cursor * caps -> Prop :=
| iter_O x : iter R 0 x x
| iter_S n x y z : R x y -> iter R n y z -> iter R (S n) x z.

(** The number of rounds that [r{lo,hi}] allows. *)
Definition within (lo : nat) (hi : option nat) (n : nat) : Prop :=
  (lo <= n)%nat /\ match hi with Some h => (n <= Nat.max lo h)%nat | None => True end.

(** [denote f r x y]: pattern [r] leads from state [x] to state [y]. *)
Fixpoint denote (f : flags) (r : regex) (x y : cursor * caps) : Prop :=
  match r with
  | Eps => y = x
  | Chr a => step (chr_eq f a) (fst x) (fst y) /\ snd y = snd x
  | Dot => step (dot_mem f) (fst x) (fst y) /\ snd y = snd x
  | Cls negated items => step (cls_mem f negated items) (fst x) (fst y) /\ snd y = snd x
  | Seq r1 r2 => exists m, denote f r1 x m /\ denote f r2 m y
  | Alt r1 r2 => denote f r1 x y \/ denote f r2 x y
  | Rep _ lo hi r' => exists n, within lo hi n /\ iter (denote f r') n x y
  | Grp n r' =>
      exists g1, denote f r' x (fst y, g1) /\
                 snd y = (n, (pos (fst x), pos (fst y))) :: g1
  | Bol => at_bol f (fst x) = true /\ y = x
  | Eol => at_eol f (fst x) = true /\ y = x
  | WordB => at_wordb (fst x) = true /\ y = x
  | Ahead r' => exists c1, denote f r' x (c1, snd y) /\ fst y = fst x
  end.

(** Reading [w] leads from position [c] to position [c']. *)
Definition spelled (c : cursor) (w : string) (c' : cursor) : Prop :=
  rest c = (w ++ rest c')%string /\ c' = fwd c w (rest c').

(** The words in a row. *)
Definition joined (ws : list string) : string := fold_right String.append EmptyString ws.

(** [lang f r w]: [w] is a word that [r] can read; the conditions that [r]
    puts on what is around the word are left out. *)
Fixpoint lang (f : flags) (r : regex) (w : string) : Prop :=
  match r with
  | Eps | Bol | Eol | WordB | Ahead _ => w = EmptyString
  | Chr a => exists b, w = String b EmptyString /\ chr_eq f a b = true
  | Dot => exists b, w = String b EmptyString /\ dot_mem f b = true
  | Cls negated items => exists b, w = String b EmptyString /\ cls_mem f negated items b = true
  | Seq r1 r2 => exists w1 w2, w = (w1 ++ w2)%string /\ lang f r1 w1 /\ lang f r2 w2
  | Alt r1 r2 => lang f r1 w \/ lang f r2 w
  | Rep _ lo hi r' =>
      exists ws, within lo hi (length ws) /\ Forall (lang f r') ws /\ w = joined ws
  | Grp _ r' => lang f r' w
  end.

(** [grp_lang f r n w]: [w] is a word that a group number [n] of [r] can
    read. *)
Fixpoint grp_lang (f : flags) (r : regex) (n : nat) (w : string) : Prop :=
  match r with
  | Seq r1 r2 | Alt r1 r2 => grp_lang f r1 n w \/ grp_lang f r2 n w
  | Rep _ _ _ r' | Ahead r' => grp_lang f r' n w
  | Grp m r' => (n = m /\ lang f r' w) \/ grp_lang f r' n w
  | _ => False
  end.

(** A position of [text]. *)
Definition at_text (text : string) (c : cursor) : Prop :=
  c = cursor_at text (pos c) /\ (pos c <= String.length text)%nat.

(** Every group of [g] holds a span that was there before or the span of a
    word of a group of [r]. *)
Definition groups_from (text : string) (f : flags) (r : regex) (g g' : caps) : Prop :=
  forall n i j, span_of n g' = Some (i, j) ->
    span_of n g = Some (i, j) \/ grp_lang f r n (Py.slice i j text).

(** A pattern that reads one character, which satisfies [P]. *)
Definition single (f : flags) (r : regex) (P : ascii -> bool) : Prop :=
  forall v, lang f r v -> exists b, v = String b EmptyString /\ P b = true.

(* ===================================================================== *)
(** * Character classes of the entity patterns                            *)
(* ===================================================================== *)

(** A letter A-Z or a-z. *)
Definition is_letter (a : ascii) : bool := Py.in_range "A" "Z" a || Py.in_range "a" "z" a.

Definition not_space (a : ascii) : bool := negb (Py.isspace a).

(** A sample text with a link. *)
Definition link_text : string := "see https://a.b/c now".

(** A word character stands at the end of [pre], at the start of [post]. *)
Definition ends_with_word (pre : string) : bool :=
  match last_of None pre with Some a => Py.isword a | None => false end.

Definition begins_with_word (post : string) : bool :=
  match post with String a _ => Py.isword a | EmptyString => false end.

(** The pattern begins, ends, with [\b]. *)
Fixpoint starts_with_wordb (r : regex) : bool :=
  match r with
  | WordB => true
  | Seq r1 _ => starts_with_wordb r1
  | _ => false
  end.

Fixpoint ends_with_wordb (r : regex) : bool :=
  match r with
  | WordB => true
  | Seq _ r2 => ends_with_wordb r2
  | _ => false
  end.

(** [w] stands in [text] with a word boundary, [\b], on both sides. *)
Definition word_bounded (text w : string) : Prop :=
  exists pre post,
    text = (pre ++ w ++ post)%string /\
    xorb (ends_with_word pre) (begins_with_word (w ++ post)) = true /\
    xorb (ends_with_word (pre ++ w)) (begins_with_word post) = true.

(** [w] stands in [text] as a whole word: no word character is next to it. *)
Definition whole_word (text w : string) : Prop :=
  exists pre post,
    text = (pre ++ w ++ post)%string /\
    ends_with_word pre = false /\ begins_with_word post = false.

(** [n] digits; one or two digits; one or more whitespace characters. *)
Definition digits (n : nat) (w : string) : Prop :=
  String.length w = n /\ all_chars Py.isdigit w = true.

Definition digits_1_2 (w : string) : Prop :=
  (String.length w = 1 \/ String.length w = 2)%nat /\ all_chars Py.isdigit w = true.

Definition spaces (w : string) : Prop :=
  w <> EmptyString /\ all_chars Py.isspace w = true.

(** The characters of the three parts of an e-mail address. *)
Definition email_local_char (a : ascii) : bool :=
  is_letter a || Py.isdigit a || Py.mem_char a "._%+-".

Definition email_domain_char (a : ascii) : bool :=
  is_letter a || Py.isdigit a || Py.mem_char a ".-".

Definition email_tld_char (a : ascii) : bool := is_letter a || Ascii.eqb a "|".

(** The three shapes of a phone number. *)
Definition phone_dashed (p : string) : Prop :=
  exists a b c, p = (a ++ "-" ++ b ++ "-" ++ c)%string /\ digits 3 a /\ digits 3 b /\ digits 4 c.

Definition phone_parenthesised (p : string) : Prop :=
  exists a ws b c,
    p = ("(" ++ a ++ ")" ++ ws ++ b ++ "-" ++ c)%string /\
    digits 3 a /\ all_chars Py.isspace ws = true /\ digits 3 b /\ digits 4 c.

Definition phone_plain (p : string) : Prop := digits 10 p.

(** Sample texts with an address and with phone numbers. *)
Definition mail_text : string := "write to j.doe@example.org today".

Definition phone_text : string := "call 555-123-4567 or fax(555) 123-4567".

(** The three shapes of a date. *)
Definition date_slashed (d : string) : Prop :=
  exists a b c,
    d = (a ++ "/" ++ b ++ "/" ++ c)%string /\ digits_1_2 a /\ digits_1_2 b /\ digits 4 c.

Definition date_month_name (d : string) : Prop :=
  exists mon ws1 day comma ws2 year,
    d = (mon ++ ws1 ++ day ++ comma ++ ws2 ++ year)%string /\
    In (Py.lower mon) (map Py.lower months) /\ spaces ws1 /\ digits_1_2 day /\
    (comma = EmptyString \/ comma = ","%string) /\ spaces ws2 /\ digits 4 year.

Definition date_iso (d : string) : Prop :=
  exists y m dd,
    d = (y ++ "-" ++ m ++ "-" ++ dd)%string /\ digits 4 y /\ digits_1_2 m /\ digits_1_2 dd.

(** The number of an amount: digits and commas, then a period and two
    digits if any. *)
Definition digit_or_comma (a : ascii) : bool := Py.isdigit a || Ascii.eqb a ",".

Definition amount_number (w : string) : Prop :=
  exists n c,
    w = (n ++ c)%string /\ n <> EmptyString /\ all_chars digit_or_comma n = true /\
    (c = EmptyString \/ exists d, c = ("." ++ d)%string /\ digits 2 d).

Definition currency_words : list string :=
  ["usd"; "dollar"; "dollars"; "euro"; "euros"; "cent"; "cents"; "pound"; "pounds"].

Definition currency_shape (s : string) : Prop :=
  (exists n, s = ("$" ++ n)%string /\ amount_number n) \/
  (exists word ws n,
     s = (word ++ ws ++ n)%string /\ In (Py.lower word) currency_words /\
     all_chars Py.isspace ws = true /\ amount_number n).

Definition percentage_shape (s : string) : Prop :=
  exists n frac ws,
    s = (n ++ frac ++ ws ++ "%")%string /\
    n <> EmptyString /\ all_chars Py.isdigit n = true /\
    (frac = EmptyString \/ exists d, frac = ("." ++ d)%string /\ digits_1_2 d) /\
    all_chars Py.isspace ws = true.

(** A sample text with a date. *)
Definition date_text : string := "signed on march 5, 2024 in Ohio".

(** [name] is mentioned in [text]: a piece of the text with the same
    lower-case image stands there as a whole word. *)
Definition mentioned (text name : string) : Prop :=
  exists mid, Py.lower mid = Py.lower name /\ whole_word text mid.

(** A sample text that names a state. *)
Definition state_text : string := "the courts of WEST VIRGINIA, and no other".

(** The characters of a party name, under IGNORECASE. *)
Definition party_char (a : ascii) : bool :=
  is_letter a || Py.isspace a || Ascii.eqb a "&" || Ascii.eqb a ",".

(** The first character of [s], if any, satisfies [P]. *)
Definition first_char (P : ascii -> bool) (s : string) : Prop :=
  match s with
  | String a _ => P a = true
  | EmptyString => True
  end.

Definition not_newline (a : ascii) : bool := negb (Ascii.eqb a newline).

(** Sample texts with two parties and with sub-clauses. *)
Definition parties_text : string := "between Acme Corp and Widget LLC, dated".

Definition subclauses_text : string :=
  ("1.1 Fees are due" ++ nl ++ "in advance" ++ nl ++ "1.2 Taxes")%string.

(* ===================================================================== *)
(** * Notions for the findings of the detector                            *)
(* ===================================================================== *)

(** One of the characters [.], [!], [?] that end a sentence. *)
Definition is_terminator (a : ascii) : bool :=
  Ascii.eqb a "." || Ascii.eqb a "!" || Ascii.eqb a "?".

Definition not_terminator (a : ascii) : bool := negb (is_terminator a).

(** A piece of [text] that the matcher reads as the literal [kw] under
    IGNORECASE comes before a sentence terminator.  This is the matcher's
    test of the keyword, not the test [keyword in text_lower] of the
    detector. *)
Definition before_terminator (kw text : string) : Prop :=
  exists a w b t c,
    text = (a ++ w ++ b ++ String t c)%string /\
    lang IGNORECASE_DOTALL (lit kw) w /\ is_terminator t = true.

(** The text of a match of the sentence pattern: at most [window]
    characters of any kind, characters other than terminators, a piece that
    the matcher reads as [kw], characters other than terminators, and the
    first terminator after the keyword. *)
Definition evidence_sentence (kw : string) (window : nat) (w : string) : Prop :=
  exists ctx gap k b t,
    w = (ctx ++ gap ++ k ++ b ++ String t EmptyString)%string /\
    (String.length ctx <= window)%nat /\ all_chars not_terminator gap = true /\
    lang IGNORECASE_DOTALL (lit kw) k /\
    all_chars not_terminator b = true /\ is_terminator t = true.

(** A text with keywords of two categories and no sentence terminator, and
    a text with one sentence. *)
Definition unterminated_text : string := "a penalty for breach of the lock-in period".

Definition penalty_text : string := "Late payment: a Penalty of 5% applies. More".

(** [n] copies of [s] in a row. *)
Fixpoint copies (n : nat) (s : string) : string :=
  match n with
  | O => EmptyString
  | S n' => (s ++ copies n' s)%string
  end.

(** A text with four sentences that hold the keyword [penalty] in upper and
    mixed case, each more than 150 characters after the one before; the
    third one has more than 300 characters. *)
Definition short_sentence : string :=
  (copies 7 "the parties agree that " ++ "a PENALTY applies.")%string.

Definition long_sentence : string :=
  (copies 14 "the parties agree that " ++ "a Penalty applies!")%string.

Definition shouting_text : string :=
  (short_sentence ++ " " ++ short_sentence ++ " " ++ long_sentence ++ " " ++ short_sentence)%string.

(** Keywords that come after a keyword of their category that they
    contain. *)
Definition shadowed_keywords : list string :=
  [ "terminate for cause"; "terminate without cause"; "lock-in"; "locked in"; "renewal";
    "binding arbitration"; "confidentiality"; "not liable" ].

Definition live_keyword (kw : string) : bool :=
  negb (existsb (String.eqb kw) shadowed_keywords).

(** A category without its shadowed keywords. *)
Definition prune (p : string * risk_info) : string * risk_info :=
  (fst p, mkInfo (List.filter live_keyword (keywords (snd p)))
                 (info_level (snd p)) (info_description (snd p))).

(** Every keyword of [kws] that is not live contains a keyword in front of
    it. *)
Fixpoint shadows_ok (before kws : list string) : bool :=
  match kws with
  | [] => true
  | kw :: kws' =>
      (live_keyword kw || existsb (fun k => Py.contains k kw) before)
      && shadows_ok (before ++ [kw]) kws'
  end.

(* ===================================================================== *)
(** * Splitting into sentences ([utils/clause_extraction.py])             *)
(* ===================================================================== *)

(** [(?<=[.!?])]: one of the characters [.], [!], [?] stands in front of
    the position. *)
Definition after_terminator (c : cursor) : bool :=
  match prev c with
  | Some a => cls_mem no_flags false terminator a
  | None => false
  end.

(** [r'(?<=[.!?])\s+'] at one position. *)
Definition separator_at (c : cursor) : option rmatch :=
  if after_terminator c then match_at no_flags (plus space) false c else None.

(** The matches of [r'(?<=[.!?])\s+'] from left to right, found as
    [finditer] finds matches; a separator is never empty. *)
Fixpoint separators (skip : nat) (p : option ascii) (s : string) (i : nat) : list rmatch :=
  let next (skip' : nat) :=
    match s with
    | String a s' => separators skip' (Some a) s' (S i)
    | EmptyString => []
    end in
  match skip with
  | S skip' => next skip'
  | 0 =>
      match separator_at (mkCursor p s i) with
      | None => next 0
      | Some m => m :: next (m_end m - i - 1)
      end
  end.

(** [re.split(pattern, text)] for a pattern without groups: the pieces of
    the text between the matches, from offset [start] on. *)
Fixpoint pieces (text : string) (start : nat) (ms : list rmatch) : list string :=
  match ms with
  | [] => [Py.slice start (Py.len text) text]
  | m :: ms' => Py.slice start (m_start m) text :: pieces text (m_end m) ms'
  end.

(** [sentences = re.split(r'(?<=[.!?])\s+', text)];
    [[s.strip() for s in sentences if s.strip()]] *)
Definition split_sentences (text : string) : list string :=
  let sentences := pieces text 0 (separators 0 None text 0) in
  map Py.strip (List.filter (fun s => negb (String.eqb (Py.strip s) "")) sentences).

(** A terminator followed by whitespace stands in [s]. *)
Definition runs_on (s : string) : Prop :=
  exists x t w y,
    s = (x ++ String t (String w y))%string /\ is_terminator t = true /\ Py.isspace w = true.

(** A sample text of three sentences. *)
Definition sentences_text : string := ("Pay now.  Or else!" ++ nl ++ "Why? ")%string.

(* ===================================================================== *)
(** * Explanations and summaries ([utils/clause_explainer.py])            *)
(* ===================================================================== *)

(** An entry of [CLAUSE_EXPLANATIONS]: a dict with the keys [explanation],
    [key_points] and [tips]. *)
Record Explanation : Type := mkExplanation {
  explanation : string;
  key_points : list string;
  tips : string
}.

Definition CLAUSE_EXPLANATIONS : dict Explanation :=
  [ ("Termination",
     mkExplanation
       "This clause specifies the conditions and procedures for ending the contract."
       [ "Define notice periods required";
         "Specify termination for-cause vs. without-cause";
         "Detail post-termination obligations";
         "State severance/exit fees if any" ]
       "Ensure notice periods are reasonable and align with business needs.");
    ("Confidentiality",
     mkExplanation
       "This clause protects sensitive business information from unauthorized disclosure."
       [ "Define what qualifies as Confidential Information";
         "Specify duration of confidentiality obligation";
         "List exceptions (public knowledge, independently developed)";
         "Detail remedies for breach" ]
       "Clarify what information is covered and how long protection lasts.");
    ("Indemnity",
     mkExplanation
       "One party agrees to cover losses of the other party if certain events occur."
       [ "Define indemnifiable events clearly";
         "Specify indemnifying party's obligations";
         "Cap indemnification limits if possible";
         "Require prompt notice of claims" ]
       "Negotiate caps on indemnification liability to limit exposure.");
    ("Non-Competition",
     mkExplanation
       "Restricts one party from engaging in competing business during and after the contract."
       [ "Geographic scope of restriction";
         "Time period of non-compete";
         "Specific activities restricted";
         "Exceptions or carve-outs" ]
       "Ensure non-compete is narrowly tailored to protect legitimate interests.");
    ("Compensation",
     mkExplanation
       "Details how payment will be made for services or goods provided."
       [ "Payment amount clearly stated";
         "Payment schedule and frequency";
         "What triggers payment obligations";
         "Adjustment mechanisms if any" ]
       "Specify exact amounts and payment dates to avoid disputes.");
    ("Intellectual Property",
     mkExplanation
       "Determines ownership of creations and inventions made during the contract term."
       [ "Ownership of work product";
         "Pre-existing IP rights preserved";
         "Scope of IP assignment if any";
         "License grants" ]
       "Protect your pre-existing IP and clarify ownership of work created.");
    ("Limitation of Liability",
     mkExplanation
       "Caps the amount one party can claim from another in case of breach or damage."
       [ "Excluded damages (e.g., consequential)";
         "Liability caps or limits";
         "Damages calculation method";
         "Exceptions to limitations" ]
       "Understand which damages are excluded and negotiate reasonable caps.");
    ("Governing Law",
     mkExplanation
       "Specifies which jurisdiction's laws will interpret and enforce the contract."
       [ "Choice of law (which state/country)";
         "Jurisdiction for disputes";
         "Dispute resolution method (litigation vs. arbitration)" ]
       "Choose a neutral jurisdiction if possible.") ].

Definition ALTERNATIVE_CLAUSES : dict (list string) :=
  [ ("Termination",
     [ "Multi-tier notice: 30 days for without-cause, 10 days for cause with cure period";
       "Immediate termination for material breach with 30-day cure opportunity";
       "Termination for convenience with 60-day notice and proportional fee refund" ]);
    ("Confidentiality",
     [ "Information ceases to be confidential if it enters public domain without breach";
       "Carve-outs: Information already known, independently developed, received from third parties";
       "Obligation survives termination for 2-3 years" ]);
    ("Indemnity",
     [ "Indemnification capped at annual contract value";
       "Indemnifying party not liable for indirect or consequential damages";
       "Indemnified party must mitigate damages and provide prompt notice" ]);
    ("Intellectual Property",
     [ "Pre-existing IP retained by creator; only custom work assigned";
       "License back of IP to creator for personal, non-commercial use";
       "Joint ownership of derivative works" ]);
    ("Compensation",
     [ "Fixed fee + hourly rate for out-of-scope work";
       "Payment in installments tied to milestones";
       "Annual adjustment tied to inflation (CPI)" ]) ].

Definition explain_clause (clause_type : string) : Explanation :=
  match dict_get CLAUSE_EXPLANATIONS clause_type with
  | Some e => e
  | None =>
      mkExplanation ("No specific guidance available for " ++ clause_type)
                    ["Review the clause carefully in context"]
                    "Consider consulting legal counsel for specialized clauses"
  end.

Definition suggest_alternatives (clause_type : string) : list string :=
  match dict_get ALTERNATIVE_CLAUSES clause_type with
  | Some alternatives => alternatives
  | None => ["Consult with legal counsel for alternative language"]
  end.

(** [sep.join(parts)] *)
Fixpoint join (sep : string) (parts : list string) : string :=
  match parts with
  | [] => EmptyString
  | [x] => x
  | x :: parts' => (x ++ sep ++ join sep parts')%string
  end.

(** The dict [keywords] of [generate_summary]. *)
Definition summary_keywords : dict string :=
  [ ("must", "party is obligated to");
    ("shall", "party must");
    ("may", "party has the option to");
    ("not", "party is prohibited from");
    ("terminate", "contract can be ended");
    ("pay", "payment is required");
    ("confidential", "information must be kept private") ].

(** [for keyword, meaning in keywords.items(): ...] *)
Fixpoint summary_loop (text_lower : string) (items : dict string) (summary_points : list string)
  : list string :=
  match items with
  | [] => summary_points
  | (keyword, meaning) :: items' =>
      summary_loop text_lower items'
        (if Py.contains keyword text_lower then summary_points ++ [("- " ++ meaning)%string]
         else summary_points)
  end.

Definition generate_summary (clause_text : string) : string :=
  if (Py.len clause_text <? 100)%nat then "Short clause with limited scope."
  else
    let text_lower := Py.lower clause_text in
    let summary_points := summary_loop text_lower summary_keywords [] in
    match summary_points with
    | _ :: _ => ("Key obligations:" ++ nl ++ join nl summary_points)%string
    | [] => "Review clause carefully for exact obligations and restrictions."
    end.

(** A clause text of more than 100 characters. *)
Definition long_clause_text : string :=
  "The Supplier SHALL deliver the goods within thirty days and the Buyer may inspect them on arrival at the warehouse.".

(** The place of a category in a table, counted from 0. *)
Fixpoint rank (ty : string) (ps : list (string * risk_info)) : nat :=
  match ps with
  | [] => 0
  | p :: ps' => if String.eqb (fst p) ty then 0 else S (rank ty ps')
  end.

(** A sample text with one definition. *)
Definition definition_text : string :=
  (String dquote "Fee" ++ String dquote " means 1.5 times the rate. Other")%string.

(* ===================================================================== *)
(** * Tactics                                                             *)
(* ===================================================================== *)

(** Use the value of an option in a chain of binds. *)
Ltac bind_some H := rewrite H; cbn [mbind option_bind].

(** Equality of two matcher states, or of two match objects, that differ in
    the way their offsets are written. *)
Ltac same_state :=
  match goal with
  | |- Some (mkCursor _ _ ?x, (2, (?y, ?z)) :: _)
       = Some (mkCursor _ _ ?x', (2, (?y', ?z')) :: _) =>
      replace x' with x by lia; replace y' with y by lia; replace z' with z by lia;
      reflexivity
  end.

Ltac same_match := repeat first [reflexivity | lia | progress f_equal].

(* ===================================================================== *)
(** * Facts about the matcher                                             *)
(* ===================================================================== *)

Module ReFacts.

Lemma keeps_refl g : keeps g g.
Proof. intros n H. exact H. Qed.

Lemma keeps_trans g1 g2 g3 : keeps g1 g2 -> keeps g2 g3 -> keeps g1 g3.
Proof. intros H12 H23 n H. auto. Qed.

Lemma reach_refl c g : reach none c g c g.
Proof. split; [lia|]. split; [apply keeps_refl|]. intros n H. discriminate. Qed.

Lemma reach_trans m1 m2 c1 g1 c2 g2 c3 g3 :
  reach m1 c1 g1 c2 g2 -> reach m2 c2 g2 c3 g3 ->
  reach (fun n => m1 n || m2 n) c1 g1 c3 g3.
Proof.
  intros (Hp1 & Hk1 & Hm1) (Hp2 & Hk2 & Hm2).
  split; [lia|]. split; [eapply keeps_trans; eassumption|].
  intros n Hn. apply orb_true_iff in Hn as [Hn|Hn]; auto.
Qed.

Lemma reach_weaken (m1 m2 : nat -> bool) c g c' g' :
  (forall n, m2 n = true -> m1 n = true) -> reach m1 c g c' g' -> reach m2 c g c' g'.
Proof. intros Himp (Hp & Hk & Hm). split; [exact Hp|]. split; [exact Hk|]. auto. Qed.

Lemma sound_one p : sound none (one p).
Proof.
  intros c g k res H. unfold one in H.
  destruct (rest c) as [|a s'] eqn:E; [discriminate|].
  destruct (p a); [|discriminate].
  eexists _, _. split; [exact H|].
  split; [simpl; lia|]. split; [apply keeps_refl|]. intros n Hn. discriminate.
Qed.

Section RepeatFacts.

Variable body : cursor -> caps -> cont -> result.
Variable must : nat -> bool.
Hypothesis body_sound : sound must body.

Lemma sound_rep_opt greedy n : sound none (rep_opt body greedy n).
Proof.
  induction n as [|n IH]; intros c g k res H.
  - simpl in H. eexists _, _. split; [exact H|apply reach_refl].
  - simpl in H.
    assert (body c g (fun c' g' =>
              if (pos c <? pos c')%nat then rep_opt body greedy n c' g' k else None)
            = Some res ->
            exists c' g', k c' g' = Some res /\ reach none c g c' g') as Hmore.
    { intros Hb. apply body_sound in Hb as (c1 & g1 & Hk1 & Hr1).
      destruct (pos c <? pos c1)%nat; [|discriminate].
      apply IH in Hk1 as (c2 & g2 & Hk2 & Hr2).
      exists c2, g2. split; [exact Hk2|].
      eapply reach_weaken; [|exact (reach_trans _ _ _ _ _ _ _ _ Hr1 Hr2)].
      intros n' Hn'. discriminate. }
    destruct greedy.
    + destruct (body c g _) as [x|] eqn:Eb.
      * injection H as ->. apply Hmore. reflexivity.
      * eexists _, _. split; [exact H|apply reach_refl].
    + destruct (k c g) as [x|] eqn:Ek.
      * injection H as ->. eexists _, _. split; [exact Ek|apply reach_refl].
      * apply Hmore, H.
Qed.

Lemma rep_min_reach lo finish : forall c g res,
  rep_min body lo finish c g = Some res ->
  exists c' g', finish c' g' = Some res /\
                reach (fun n => (0 <? lo)%nat && must n) c g c' g'.
Proof.
  induction lo as [|lo IH]; intros c g res H; simpl in H.
  - eexists _, _. split; [exact H|]. apply reach_refl.
  - apply body_sound in H as (c1 & g1 & H1 & Hr1).
    apply IH in H1 as (c2 & g2 & H2 & Hr2).
    exists c2, g2. split; [exact H2|].
    eapply reach_weaken; [|exact (reach_trans _ _ _ _ _ _ _ _ Hr1 Hr2)].
    intros n Hn. simpl in Hn. cbv beta. rewrite Hn. reflexivity.
Qed.

End RepeatFacts.

Lemma span_of_cons n m sp g :
  span_of n ((m, sp) :: g) = if (n =? m)%nat then Some sp else span_of n g.
Proof. reflexivity. Qed.

(** Every successful run continues from a position not before its own,
    with the groups it must set recorded. *)
Lemma sound_run f r : sound (sets r) (run f r).
Proof.
  induction r as [|a| |neg items|r1 IH1 r2 IH2|r1 IH1 r2 IH2|greedy lo hi r IH|m r IH| | |
                  |r IH]; intros c g k res H; simpl in H.
  - eexists _, _. split; [exact H|apply reach_refl].
  - apply sound_one in H. exact H.
  - apply sound_one in H. exact H.
  - apply sound_one in H. exact H.
  - apply IH1 in H as (c1 & g1 & H1 & Hr1). apply IH2 in H1 as (c2 & g2 & H2 & Hr2).
    exists c2, g2. split; [exact H2|]. exact (reach_trans _ _ _ _ _ _ _ _ Hr1 Hr2).
  - destruct (run f r1 c g k) as [x|] eqn:E1.
    + injection H as ->. apply IH1 in E1 as (c1 & g1 & H1 & Hr1).
      exists c1, g1. split; [exact H1|]. eapply reach_weaken; [|exact Hr1].
      intros n Hn. simpl in Hn. apply andb_true_iff in Hn. apply Hn.
    + apply IH2 in H as (c1 & g1 & H1 & Hr1).
      exists c1, g1. split; [exact H1|]. eapply reach_weaken; [|exact Hr1].
      intros n Hn. simpl in Hn. apply andb_true_iff in Hn. apply Hn.
  - apply (rep_min_reach _ _ IH) in H as (c1 & g1 & H1 & Hr1).
    apply (sound_rep_opt _ _ IH) in H1 as (c2 & g2 & H2 & Hr2).
    exists c2, g2. split; [exact H2|].
    eapply reach_weaken; [|exact (reach_trans _ _ _ _ _ _ _ _ Hr1 Hr2)].
    intros n Hn. simpl in Hn. cbv beta. rewrite Hn. reflexivity.
  - apply IH in H as (c1 & g1 & H1 & (Hp & Hk & Hm)).
    eexists _, _. split; [exact H1|].
    split; [exact Hp|]. split.
    + intros n Hn. rewrite span_of_cons. destruct (n =? m)%nat; [discriminate|auto].
    + intros n Hn. rewrite span_of_cons. simpl in Hn.
      destruct (n =? m)%nat; [discriminate|auto].
  - destruct (at_bol f c); [|discriminate].
    eexists _, _. split; [exact H|apply reach_refl].
  - destruct (at_eol f c); [|discriminate].
    eexists _, _. split; [exact H|apply reach_refl].
  - destruct (at_wordb c); [|discriminate].
    eexists _, _. split; [exact H|apply reach_refl].
  - destruct (run f r c g _) as [[c1 g1]|] eqn:E; [|discriminate].
    apply IH in E as (c2 & g2 & E2 & (Hp & Hk & Hm)). injection E2 as -> ->.
    exists c, g1. split; [exact H|]. split; [lia|]. split; [exact Hk|exact Hm].
Qed.

(** A match starts at the position tried, does not end before it, and has
    the groups its pattern must set. *)
Lemma match_at_facts f r ma c m :
  match_at f r ma c = Some m ->
  m_start m = pos c /\ (m_start m <= m_end m)%nat /\
  (ma = true -> (m_start m < m_end m)%nat) /\
  forall n, sets r n = true -> span_of n (m_caps m) <> None.
Proof.
  unfold match_at. intros H.
  destruct (run f r c [] _) as [[c' g']|] eqn:E; [|discriminate].
  injection H as <-. simpl.
  apply sound_run in E as (c1 & g1 & E1 & (Hp & _ & Hm)).
  destruct (ma && (pos c1 =? pos c)%nat) eqn:Ema; [discriminate|].
  injection E1 as -> ->.
  split; [reflexivity|]. split; [exact Hp|]. split; [|exact Hm].
  intros ->. simpl in Ema. apply Nat.eqb_neq in Ema. lia.
Qed.

Lemma rep_opt_S body greedy n c g k :
  rep_opt body greedy (S n) c g k
  = if greedy then
      match body c g (fun c' g' =>
              if (pos c <? pos c')%nat then rep_opt body greedy n c' g' k else None) with
      | Some x => Some x
      | None => k c g
      end
    else
      match k c g with
      | Some x => Some x
      | None => body c g (fun c' g' =>
                  if (pos c <? pos c')%nat then rep_opt body greedy n c' g' k else None)
      end.
Proof. reflexivity. Qed.

(** ** No pattern of the program matches the empty text *)

Lemma advances_one P : advances true (one P).
Proof.
  intros c g k res H. unfold one in H.
  destruct (rest c) as [|a s']; [discriminate|]. destruct (P a); [|discriminate].
  eexists _, _. split; [exact H|]. cbn [pos]. split; [lia|]. intros _. lia.
Qed.

Lemma advances_rep_opt body strict greedy n :
  advances strict body -> advances false (rep_opt body greedy n).
Proof.
  intros Hbody. induction n as [|n IH]; intros c g k res H.
  - cbn [rep_opt] in H. eexists _, _. split; [exact H|]. split; [lia|discriminate].
  - rewrite rep_opt_S in H.
    assert (body c g (fun c' g' =>
              if (pos c <? pos c')%nat then rep_opt body greedy n c' g' k else None)
            = Some res ->
            exists c' g', k c' g' = Some res /\ (pos c <= pos c')%nat
                          /\ (false = true -> (pos c < pos c')%nat)) as Hmore.
    { intros Hb. apply Hbody in Hb as (c1 & g1 & H1 & Hle & _).
      destruct (pos c <? pos c1)%nat; [|discriminate].
      apply IH in H1 as (c2 & g2 & H2 & Hle2 & _).
      exists c2, g2. split; [exact H2|]. split; [lia|discriminate]. }
    destruct greedy.
    + destruct (body c g _) as [x|] eqn:Eb.
      * injection H as ->. apply Hmore. reflexivity.
      * eexists _, _. split; [exact H|]. split; [lia|discriminate].
    + destruct (k c g) as [x|] eqn:Ek.
      * injection H as ->. eexists _, _. split; [exact Ek|]. split; [lia|discriminate].
      * apply Hmore, H.
Qed.

Lemma advances_rep_min body strict lo finish :
  advances strict body ->
  forall c g res, rep_min body lo finish c g = Some res ->
    exists c' g', finish c' g' = Some res /\ (pos c <= pos c')%nat /\
                  ((0 <? lo)%nat && strict = true -> (pos c < pos c')%nat).
Proof.
  intros Hbody. induction lo as [|lo IH]; intros c g res H; cbn [rep_min] in H.
  - eexists _, _. split; [exact H|]. split; [lia|discriminate].
  - apply Hbody in H as (c1 & g1 & H1 & Hle & Hlt).
    apply IH in H1 as (c2 & g2 & H2 & Hle2 & _).
    exists c2, g2. split; [exact H2|]. split; [lia|].
    cbn [Nat.ltb Nat.leb andb]. intros Hs. specialize (Hlt Hs). lia.
Qed.

Lemma advances_run f r : advances (consumes r) (run f r).
Proof.
  induction r as [|a| |neg items|r1 IH1 r2 IH2|r1 IH1 r2 IH2|greedy lo hi r IH|m r IH| | |
                  |r IH]; intros c g k res H; cbn [run consumes] in *.
  - eexists _, _. split; [exact H|]. split; [lia|discriminate].
  - apply advances_one in H. exact H.
  - apply advances_one in H. exact H.
  - apply advances_one in H. exact H.
  - apply IH1 in H as (c1 & g1 & H1 & Hle1 & Hlt1).
    apply IH2 in H1 as (c2 & g2 & H2 & Hle2 & Hlt2).
    exists c2, g2. split; [exact H2|]. split; [lia|].
    intros Hs. apply orb_true_iff in Hs as [Hs|Hs];
      [specialize (Hlt1 Hs)|specialize (Hlt2 Hs)]; lia.
  - destruct (run f r1 c g k) as [x|] eqn:E1.
    + injection H as ->. apply IH1 in E1 as (c1 & g1 & H1 & Hle & Hlt).
      exists c1, g1. split; [exact H1|]. split; [exact Hle|].
      intros Hs. apply andb_true_iff in Hs as [Hs _]. auto.
    + apply IH2 in H as (c1 & g1 & H1 & Hle & Hlt).
      exists c1, g1. split; [exact H1|]. split; [exact Hle|].
      intros Hs. apply andb_true_iff in Hs as [_ Hs]. auto.
  - apply (advances_rep_min _ _ _ _ IH) in H as (c1 & g1 & H1 & Hle1 & Hlt1).
    apply (advances_rep_opt _ _ _ _ IH) in H1 as (c2 & g2 & H2 & Hle2 & _).
    exists c2, g2. split; [exact H2|]. split; [lia|].
    intros Hs. specialize (Hlt1 Hs). lia.
  - apply IH in H as (c1 & g1 & H1 & Hle & Hlt).
    eexists _, _. split; [exact H1|]. split; [exact Hle|exact Hlt].
  - destruct (at_bol f c); [|discriminate].
    eexists _, _. split; [exact H|]. split; [lia|discriminate].
  - destruct (at_eol f c); [|discriminate].
    eexists _, _. split; [exact H|]. split; [lia|discriminate].
  - destruct (at_wordb c); [|discriminate].
    eexists _, _. split; [exact H|]. split; [lia|discriminate].
  - destruct (run f r c g _) as [[c1 g1]|] eqn:E; [|discriminate].
    exists c, g1. split; [exact H|]. split; [lia|discriminate].
Qed.

(** A pattern that consumes has no empty match. *)
Lemma match_at_nonempty f r ma c m :
  consumes r = true -> match_at f r ma c = Some m -> (m_start m < m_end m)%nat.
Proof.
  intros Hr. unfold match_at. intros H.
  destruct (run f r c [] _) as [[c' g']|] eqn:E; [|discriminate].
  injection H as <-. cbn [m_start m_end].
  apply advances_run in E as (c1 & g1 & E1 & _ & Hlt).
  destruct (ma && (pos c1 =? pos c)%nat); [discriminate|].
  injection E1 as -> ->. auto.
Qed.

(** ** The bound of an unbounded repeat is never reached *)

Lemma agree_from len lo lo' k1 k2 : (lo <= lo')%nat -> agree len lo k1 k2 -> agree len lo' k1 k2.
Proof. intros Hle H c g Hlen Hlo. apply H; [exact Hlen|lia]. Qed.

Lemma local_one P : local (one P).
Proof.
  intros [p s i] g k1 k2 H. unfold one. cbn [rest pos] in *.
  destruct s as [|a s]; [reflexivity|]. destruct (P a); [|reflexivity].
  apply H; cbn [pos rest String.length]; lia.
Qed.

Section RepeatBound.

Variable body : cursor -> caps -> cont -> result.
Hypothesis body_local : local body.

Lemma local_rep_opt greedy n : local (rep_opt body greedy n).
Proof.
  induction n as [|n IH]; intros c g k1 k2 H.
  - cbn [rep_opt]. apply H; lia.
  - rewrite !rep_opt_S.
    assert (body c g (fun c' g' =>
              if (pos c <? pos c')%nat then rep_opt body greedy n c' g' k1 else None)
            = body c g (fun c' g' =>
              if (pos c <? pos c')%nat then rep_opt body greedy n c' g' k2 else None)) as ->.
    { apply body_local. intros c' g' Hlen Hlo.
      destruct (pos c <? pos c')%nat; [|reflexivity].
      apply IH. rewrite Hlen. eapply agree_from; [|exact H]. exact Hlo. }
    rewrite (H c g) by lia. reflexivity.
Qed.

Lemma local_rep_min lo : forall finish1 finish2 c g,
  agree (pos c + String.length (rest c)) (pos c) finish1 finish2 ->
  rep_min body lo finish1 c g = rep_min body lo finish2 c g.
Proof.
  induction lo as [|lo IH]; intros finish1 finish2 c g H.
  - cbn [rep_min]. apply H; lia.
  - cbn [rep_min]. apply body_local. intros c' g' Hlen Hlo.
    apply IH. rewrite Hlen. eapply agree_from; [|exact H]. exact Hlo.
Qed.

Variable must : nat -> bool.
Hypothesis body_sound : sound must body.

Lemma body_fails c g k :
  agree (pos c + String.length (rest c)) (pos c) k (fun _ _ => None) -> body c g k = None.
Proof.
  intros H. rewrite (body_local c g k (fun _ _ => None) H).
  destruct (body c g (fun _ _ => None)) as [res|] eqn:E; [|reflexivity].
  apply body_sound in E as (c' & g' & E & _). discriminate.
Qed.

(** More optional iterations than characters left change nothing. *)
Lemma rep_opt_enough greedy m : forall n c g k,
  (String.length (rest c) <= m)%nat -> (m <= n)%nat ->
  rep_opt body greedy n c g k = rep_opt body greedy m c g k.
Proof.
  induction m as [|m IH]; intros n c g k Hlen Hn.
  - cbn [rep_opt]. destruct n as [|n]; [reflexivity|]. rewrite rep_opt_S.
    rewrite body_fails.
    + destruct greedy; [reflexivity|]. destruct (k c g); reflexivity.
    + intros c' g' Hl Hlo.
      replace (pos c <? pos c')%nat with false; [reflexivity|].
      symmetry. apply Nat.ltb_ge. lia.
  - destruct n as [|n]; [lia|]. rewrite !rep_opt_S.
    assert (body c g (fun c' g' =>
              if (pos c <? pos c')%nat then rep_opt body greedy n c' g' k else None)
            = body c g (fun c' g' =>
              if (pos c <? pos c')%nat then rep_opt body greedy m c' g' k else None)) as ->;
      [|reflexivity].
    apply body_local. intros c' g' Hl Hlo.
    destruct (pos c <? pos c')%nat eqn:Elt; [|reflexivity].
    apply Nat.ltb_lt in Elt. apply IH; lia.
Qed.

End RepeatBound.

Lemma local_run f r : local (run f r).
Proof.
  induction r as [|a| |neg items|r1 IH1 r2 IH2|r1 IH1 r2 IH2|greedy lo hi r IH|m r IH| | |
                  |r IH]; intros c g k1 k2 H; cbn [run].
  - apply H; lia.
  - apply local_one, H.
  - apply local_one, H.
  - apply local_one, H.
  - apply IH1. intros c' g' Hlen Hlo. apply IH2.
    rewrite Hlen. eapply agree_from; [|exact H]. exact Hlo.
  - rewrite (IH1 c g k1 k2 H), (IH2 c g k1 k2 H). reflexivity.
  - apply (local_rep_min _ IH). intros c' g' Hlen Hlo.
    apply (local_rep_opt _ IH). rewrite Hlen. eapply agree_from; [|exact H]. exact Hlo.
  - apply IH. intros c' g' Hlen Hlo. apply H; assumption.
  - destruct (at_bol f c); [apply H; lia|reflexivity].
  - destruct (at_eol f c); [apply H; lia|reflexivity].
  - destruct (at_wordb c); [apply H; lia|reflexivity].
  - destruct (run f r c g _) as [[c' g']|]; [apply H; lia|reflexivity].
Qed.

(** The bound that [run] gives to a repeat without upper limit can be
    replaced by any greater one: it is never the reason why a repeat stops. *)
Lemma rep_bound_enough f r greedy lo c g k n :
  (String.length (rest c) <= n)%nat ->
  run f (Rep greedy lo None r) c g k
  = rep_min (run f r) lo (fun c' g' => rep_opt (run f r) greedy n c' g' k) c g.
Proof.
  intros Hn. cbn [run]. apply (local_rep_min _ (local_run f r)).
  intros c' g' Hlen Hlo. unfold rep_bound. symmetry.
  apply (rep_opt_enough _ (local_run f r) _ (sound_run f r)); lia.
Qed.

(** ** Greedy repeats of one character class *)

Lemma span_spec P s :
  s = (fst (span P s) ++ snd (span P s))%string /\
  (forall c, next_is P (mkCursor (prev c) (snd (span P s)) (pos c)) = false).
Proof.
  induction s as [|a s IH]; simpl; [auto|].
  destruct (P a) eqn:Ea.
  - destruct (span P s) as [w r]. simpl in *. destruct IH as [-> IH].
    split; [reflexivity|]. exact IH.
  - simpl. split; [reflexivity|]. intros c. unfold next_is. simpl. exact Ea.
Qed.

Lemma span_length P s : (String.length (fst (span P s)) <= String.length s)%nat.
Proof.
  induction s as [|a s IH]; simpl; [lia|].
  destruct (P a); [|simpl; lia]. destruct (span P s). simpl in *. lia.
Qed.

Lemma one_cons P p a s i g k :
  one P (mkCursor p (String a s) i) g k
  = if P a then k (mkCursor (Some a) s (S i)) g else None.
Proof. reflexivity. Qed.

Lemma one_empty P p i g k : one P (mkCursor p EmptyString i) g k = None.
Proof. reflexivity. Qed.


(** A greedy repeat of a class in front of a continuation that fails on
    the class takes the whole run of the class. *)
Lemma rep_opt_greedy_span P k :
  (forall c g, next_is P c = true -> k c g = None) ->
  forall s n p i g,
    (String.length (fst (span P s)) <= n)%nat ->
    rep_opt (one P) true n (mkCursor p s i) g k
    = k (fwd (mkCursor p s i) (fst (span P s)) (snd (span P s))) g.
Proof.
  intros Hk. induction s as [|a s IH]; intros n p i g Hn.
  - unfold fwd. cbn [span fst snd last_of prev pos String.length]. rewrite Nat.add_0_r.
    destruct n; [reflexivity|]. rewrite rep_opt_S, one_empty. reflexivity.
  - cbn [span] in *. destruct (P a) eqn:Ea.
    + specialize (IH (pred n) (Some a) (S i) g).
      destruct (span P s) as [w r] eqn:Es. cbn [fst snd String.length] in *.
      destruct n as [|n]; [lia|].
      rewrite rep_opt_S, one_cons, Ea. cbn [pos].
      replace (i <? S i)%nat with true by (symmetry; apply Nat.ltb_lt; lia).
      cbn [pred] in IH. rewrite IH by lia. clear IH.
      unfold fwd. cbn [prev pos last_of String.length].
      replace (S i + String.length w)%nat with (i + S (String.length w))%nat by lia.
      destruct (k _ g) as [x|] eqn:Ek; [reflexivity|].
      apply Hk. unfold next_is. cbn [rest]. exact Ea.
    + unfold fwd. cbn [fst snd last_of prev pos String.length]. rewrite Nat.add_0_r.
      destruct n as [|n]; [reflexivity|].
      rewrite rep_opt_S, one_cons, Ea. reflexivity.
Qed.

Lemma cursor_eta c : mkCursor (prev c) (rest c) (pos c) = c.
Proof. destruct c. reflexivity. Qed.

(** [X+] for a class [X], in front of a continuation that fails on [X]. *)
Lemma run_plus_cls f neg items c g k :
  (forall c' g', next_is (cls_mem f neg items) c' = true -> k c' g' = None) ->
  run f (plus (Cls neg items)) c g k
  = match fst (span (cls_mem f neg items) (rest c)) with
    | EmptyString => None
    | w => k (fwd c w (snd (span (cls_mem f neg items) (rest c)))) g
    end.
Proof.
  intros Hk. unfold plus. simpl run.
  change (run f (Cls neg items)) with (one (cls_mem f neg items)).
  set (P := cls_mem f neg items) in *.
  destruct c as [p s i]. cbn [rest rep_min].
  destruct s as [|a s]; [reflexivity|]. rewrite one_cons. cbn [span].
  destruct (P a) eqn:Ea; [|reflexivity].
  unfold rep_bound. cbn [rest].
  rewrite (rep_opt_greedy_span P k Hk) by apply span_length.
  destruct (span P s) as [w r]. unfold fwd. cbn [fst snd prev pos last_of String.length].
  replace (S i + String.length w)%nat with (i + S (String.length w))%nat by lia.
  reflexivity.
Qed.

(** [X*] for a class [X], in front of a continuation that fails on [X]. *)
Lemma run_star_cls f neg items c g k :
  (forall c' g', next_is (cls_mem f neg items) c' = true -> k c' g' = None) ->
  run f (star (Cls neg items)) c g k
  = k (fwd c (fst (span (cls_mem f neg items) (rest c)))
             (snd (span (cls_mem f neg items) (rest c)))) g.
Proof.
  intros Hk. unfold star. simpl run.
  change (run f (Cls neg items)) with (one (cls_mem f neg items)).
  destruct c as [p s i]. unfold rep_bound. cbn [rest rep_min].
  apply (rep_opt_greedy_span _ k Hk). apply span_length.
Qed.

Lemma ordered_from_le lo lo' ms :
  (lo' <= lo)%nat -> ordered_from lo ms -> ordered_from lo' ms.
Proof. destruct ms as [|m ms]; simpl; [auto|]. intros Hle (H1 & H2 & H3). repeat split; auto; lia. Qed.

(** The equations of [scan]. *)
Lemma scan_skip f r skip p s i :
  scan f r (S skip) p s i
  = match s with
    | String a s' => scan f r skip (Some a) s' (S i)
    | EmptyString => []
    end.
Proof. destruct s; reflexivity. Qed.

Lemma scan_here f r p s i :
  scan f r 0 p s i
  = let next skip' :=
      match s with
      | String a s' => scan f r skip' (Some a) s' (S i)
      | EmptyString => []
      end in
    match match_at f r false (mkCursor p s i) with
    | None => next 0%nat
    | Some m =>
        if (m_end m =? i)%nat then
          match match_at f r true (mkCursor p s i) with
          | Some m' => m :: m' :: next (m_end m' - i - 1)%nat
          | None => m :: next 0%nat
          end
        else m :: next (m_end m - i - 1)%nat
    end.
Proof. destruct s; reflexivity. Qed.

(** The matches of [finditer] come in text order and do not overlap. *)
Lemma scan_ordered f r s : forall skip p i,
  ordered_from (i + skip) (scan f r skip p s i).
Proof.
  induction s as [|a s IH]; intros skip p i.
  - destruct skip as [|skip]; [|rewrite scan_skip; exact I].
    rewrite scan_here. cbv zeta.
    destruct (match_at f r false _) as [m|] eqn:E; [|exact I].
    apply match_at_facts in E as (Hs & Hle & _).
    destruct (m_end m =? i)%nat eqn:Ee.
    + apply Nat.eqb_eq in Ee.
      destruct (match_at f r true _) as [m'|] eqn:E'.
      * apply match_at_facts in E' as (Hs' & Hle' & _). simpl in *.
        repeat split; lia.
      * simpl in *. repeat split; lia.
    + simpl in *. repeat split; lia.
  - destruct skip as [|skip].
    + rewrite scan_here. cbv zeta.
      destruct (match_at f r false _) as [m|] eqn:E.
      * apply match_at_facts in E as (Hs & Hle & _). simpl in Hs.
        destruct (m_end m =? i)%nat eqn:Ee.
        -- apply Nat.eqb_eq in Ee.
           destruct (match_at f r true _) as [m'|] eqn:E'.
           ++ apply match_at_facts in E' as (Hs' & Hle' & Hadv & _). simpl in Hs'.
              specialize (Hadv eq_refl).
              cbn [ordered_from]. repeat split; try lia.
              eapply ordered_from_le; [|apply IH]. lia.
           ++ cbn [ordered_from]. repeat split; try lia.
              eapply ordered_from_le; [|apply IH]. lia.
        -- apply Nat.eqb_neq in Ee.
           cbn [ordered_from]. repeat split; try lia.
           eapply ordered_from_le; [|apply IH]. lia.
      * eapply ordered_from_le; [|apply IH]. lia.
    + rewrite scan_skip. eapply ordered_from_le; [|apply IH]. lia.
Qed.

(** Every match of [finditer] has the groups that its pattern must set. *)
Lemma scan_groups f r s : forall skip p i,
  Forall (fun m => forall n, sets r n = true -> span_of n (m_caps m) <> None)
         (scan f r skip p s i).
Proof.
  assert (forall ma c m, match_at f r ma c = Some m ->
            forall n, sets r n = true -> span_of n (m_caps m) <> None) as Hm.
  { intros ma c m E. apply match_at_facts in E. apply E. }
  induction s as [|a s IH]; intros skip p i.
  - destruct skip as [|skip]; [|rewrite scan_skip; constructor].
    rewrite scan_here. cbv zeta.
    destruct (match_at f r false _) as [m|] eqn:E; [|constructor].
    destruct (m_end m =? i)%nat; [destruct (match_at f r true _) as [m'|] eqn:E'|];
      repeat (constructor; eauto).
  - destruct skip as [|skip]; [|rewrite scan_skip; apply IH].
    rewrite scan_here. cbv zeta.
    destruct (match_at f r false _) as [m|] eqn:E; [|apply IH].
    destruct (m_end m =? i)%nat; [destruct (match_at f r true _) as [m'|] eqn:E'|];
      repeat (constructor; eauto).
Qed.

(** For a pattern whose matches are not empty and contain no position where
    it matches again, [finditer] returns the matches at all positions. *)
Lemma scan_In f r :
  (forall c m, match_at f r false c = Some m -> (m_start m < m_end m)%nat) ->
  (forall p s i m j,
     match_at f r false (mkCursor p s i) = Some m -> (0 < j)%nat -> (i + j < m_end m)%nat ->
     match_at f r false (mkCursor (last_of p (Py.take j s)) (Py.drop j s) (i + j)) = None) ->
  forall s skip p i m,
    In m (scan f r skip p s i) <->
    exists j, (skip <= j <= String.length s)%nat /\
              match_at f r false (mkCursor (last_of p (Py.take j s)) (Py.drop j s) (i + j))
              = Some m.
Proof.
  intros Hne Hinner.
  assert (forall p a s i j,
            mkCursor (last_of p (Py.take (S j) (String a s))) (Py.drop (S j) (String a s))
                     (i + S j)
            = mkCursor (last_of (Some a) (Py.take j s)) (Py.drop j s) (S i + j)) as Hshift.
  { intros. cbn [Py.take Py.drop last_of]. f_equal. lia. }
  assert (forall p s i, mkCursor (last_of p (Py.take 0 s)) (Py.drop 0 s) (i + 0)
                        = mkCursor p s i) as Hzero.
  { intros. destruct s; cbn [Py.take Py.drop last_of]; f_equal; lia. }
  induction s as [|a s IH]; intros skip p i m.
  - destruct skip as [|skip].
    + rewrite scan_here. cbv zeta.
      destruct (match_at f r false (mkCursor p EmptyString i)) as [m0|] eqn:E.
      * pose proof (Hne _ _ E) as Hlt. pose proof (match_at_facts _ _ _ _ _ E) as [Hs _].
        cbn [pos] in Hs.
        replace (m_end m0 =? i)%nat with false by (symmetry; apply Nat.eqb_neq; lia).
        split.
        -- intros [<-|[]]. exists 0%nat. rewrite Hzero. split; [simpl; lia|exact E].
        -- intros (j & Hj & Hm). simpl in Hj. assert (j = 0)%nat as -> by lia.
           rewrite Hzero, E in Hm. injection Hm as <-. left. reflexivity.
      * split; [intros []|].
        intros (j & Hj & Hm). simpl in Hj. assert (j = 0)%nat as -> by lia.
        rewrite Hzero, E in Hm. discriminate.
    + rewrite scan_skip. split; [intros []|].
      intros (j & Hj & _). simpl in Hj. lia.
  - destruct skip as [|skip].
    + rewrite scan_here. cbv zeta.
      destruct (match_at f r false (mkCursor p (String a s) i)) as [m0|] eqn:E.
      * pose proof (Hne _ _ E) as Hlt. pose proof (match_at_facts _ _ _ _ _ E) as [Hs _].
        cbn [pos] in Hs.
        replace (m_end m0 =? i)%nat with false by (symmetry; apply Nat.eqb_neq; lia).
        split.
        -- intros [<-|Hin].
           ++ exists 0%nat. rewrite Hzero. split; [simpl; lia|exact E].
           ++ apply IH in Hin as (j & Hj & Hm). exists (S j). rewrite Hshift.
              split; [simpl; lia|exact Hm].
        -- intros (j & Hj & Hm). destruct j as [|j].
           ++ rewrite Hzero, E in Hm. injection Hm as <-. left. reflexivity.
           ++ right. apply IH. exists j. rewrite <- (Hshift p). split; [|exact Hm].
              cbn [String.length] in Hj. split; [|lia].
              destruct (Nat.le_gt_cases (m_end m0 - i - 1) j) as [Hle|Hgt]; [exact Hle|].
              rewrite (Hinner p (String a s) i m0 (S j) E) in Hm; [discriminate|lia|lia].
      * split.
        -- intros Hin. apply IH in Hin as (j & Hj & Hm). exists (S j). rewrite Hshift.
           split; [simpl; lia|exact Hm].
        -- intros (j & Hj & Hm). destruct j as [|j].
           ++ rewrite Hzero, E in Hm. discriminate.
           ++ apply IH. exists j. rewrite <- (Hshift p). split; [|exact Hm].
              cbn [String.length] in Hj. lia.
    + rewrite scan_skip. split.
      * intros Hin. apply IH in Hin as (j & Hj & Hm). exists (S j). rewrite Hshift.
        split; [simpl; lia|exact Hm].
      * intros (j & Hj & Hm). destruct j as [|j]; [lia|].
        apply IH. exists j. rewrite <- (Hshift p). split; [|exact Hm].
        cbn [String.length] in Hj. lia.
Qed.

(** For a pattern whose matches are not empty, [finditer] returns matches
    found at positions of the text, and every match that can be found at
    a position of the text is returned or begins inside a returned one. *)
Lemma scan_cover f r :
  (forall c m, match_at f r false c = Some m -> (m_start m < m_end m)%nat) ->
  forall s skip p i,
    (forall m, In m (scan f r skip p s i) ->
       exists j, (skip <= j <= String.length s)%nat /\
         match_at f r false (mkCursor (last_of p (Py.take j s)) (Py.drop j s) (i + j)) = Some m)
    /\
    (forall j m, (skip <= j <= String.length s)%nat ->
       match_at f r false (mkCursor (last_of p (Py.take j s)) (Py.drop j s) (i + j)) = Some m ->
       In m (scan f r skip p s i) \/
       exists m', In m' (scan f r skip p s i) /\ (m_start m' < i + j < m_end m')%nat).
Proof.
  intros Hne.
  assert (forall p a s i j,
            mkCursor (last_of p (Py.take (S j) (String a s))) (Py.drop (S j) (String a s))
                     (i + S j)
            = mkCursor (last_of (Some a) (Py.take j s)) (Py.drop j s) (S i + j)) as Hshift.
  { intros. cbn [Py.take Py.drop last_of]. f_equal. lia. }
  assert (forall p s i, mkCursor (last_of p (Py.take 0 s)) (Py.drop 0 s) (i + 0)
                        = mkCursor p s i) as Hzero.
  { intros. destruct s; cbn [Py.take Py.drop last_of]; f_equal; lia. }
  induction s as [|a s IH]; intros skip p i.
  - destruct skip as [|skip].
    + rewrite scan_here. cbv zeta.
      destruct (match_at f r false (mkCursor p EmptyString i)) as [m0|] eqn:E.
      * pose proof (Hne _ _ E) as Hlt. pose proof (match_at_facts _ _ _ _ _ E) as [Hs _].
        cbn [pos] in Hs.
        replace (m_end m0 =? i)%nat with false by (symmetry; apply Nat.eqb_neq; lia).
        split.
        -- intros m [<-|[]]. exists 0%nat. rewrite Hzero. split; [simpl; lia|exact E].
        -- intros j m Hj Hm. simpl in Hj. assert (j = 0)%nat as -> by lia.
           rewrite Hzero, E in Hm. injection Hm as <-. left. left. reflexivity.
      * split; [intros m []|].
        intros j m Hj Hm. simpl in Hj. assert (j = 0)%nat as -> by lia.
        rewrite Hzero, E in Hm. discriminate.
    + rewrite scan_skip. split; [intros m []|].
      intros j m Hj _. simpl in Hj. lia.
  - assert (forall skip',
              (forall m, In m (scan f r skip' (Some a) s (S i)) ->
                 exists j, (S skip' <= j <= String.length (String a s))%nat /\
                   match_at f r false
                     (mkCursor (last_of p (Py.take j (String a s))) (Py.drop j (String a s))
                               (i + j)) = Some m) /\
              (forall j m, (skip' <= j <= String.length s)%nat ->
                 match_at f r false
                   (mkCursor (last_of p (Py.take (S j) (String a s)))
                             (Py.drop (S j) (String a s)) (i + S j)) = Some m ->
                 In m (scan f r skip' (Some a) s (S i)) \/
                 exists m', In m' (scan f r skip' (Some a) s (S i)) /\
                            (m_start m' < i + S j < m_end m')%nat)) as Htail.
    { intros skip'. destruct (IH skip' (Some a) (S i)) as [IH1 IH2]. split.
      - intros m Hin. apply IH1 in Hin as (j & Hj & Hm). exists (S j).
        rewrite Hshift. split; [simpl; lia|exact Hm].
      - intros j m Hj Hm. rewrite Hshift in Hm.
        destruct (IH2 j m Hj Hm) as [Hin|(m' & Hin & Hov)]; [left; exact Hin|].
        right. exists m'. split; [exact Hin|lia]. }
    destruct skip as [|skip].
    + rewrite scan_here. cbv zeta.
      destruct (match_at f r false (mkCursor p (String a s) i)) as [m0|] eqn:E.
      * pose proof (Hne _ _ E) as Hlt. pose proof (match_at_facts _ _ _ _ _ E) as [Hs _].
        cbn [pos] in Hs.
        replace (m_end m0 =? i)%nat with false by (symmetry; apply Nat.eqb_neq; lia).
        destruct (Htail (m_end m0 - i - 1)%nat) as [T1 T2]. split.
        -- intros m [<-|Hin].
           ++ exists 0%nat. rewrite Hzero. split; [simpl; lia|exact E].
           ++ apply T1 in Hin as (j & Hj & Hm). exists j. split; [lia|exact Hm].
        -- intros j m Hj Hm. destruct j as [|j].
           ++ rewrite Hzero, E in Hm. injection Hm as <-. left. left. reflexivity.
           ++ destruct (Nat.le_gt_cases (m_end m0 - i - 1) j) as [Hle|Hgt].
              ** cbn [String.length] in Hj.
                 destruct (T2 j m ltac:(lia) Hm) as [Hin|(m' & Hin & Hov)].
                 --- left. right. exact Hin.
                 --- right. exists m'. split; [right; exact Hin|exact Hov].
              ** right. exists m0. split; [left; reflexivity|lia].
      * destruct (Htail 0%nat) as [T1 T2]. split.
        -- intros m Hin. apply T1 in Hin as (j & Hj & Hm). exists j. split; [lia|exact Hm].
        -- intros j m Hj Hm. destruct j as [|j].
           ++ rewrite Hzero, E in Hm. discriminate.
           ++ cbn [String.length] in Hj. apply T2; [lia|exact Hm].
    + rewrite scan_skip. destruct (Htail skip) as [T1 T2]. split.
      * intros m Hin. apply T1 in Hin as (j & Hj & Hm). exists j. split; [lia|exact Hm].
      * intros j m Hj Hm. destruct j as [|j]; [lia|].
        cbn [String.length] in Hj. apply T2; [lia|exact Hm].
Qed.

Lemma finditer_ordered f r text : ordered_from 0 (finditer f r text).
Proof. apply (scan_ordered f r text 0 None 0). Qed.

Lemma finditer_groups f r text :
  Forall (fun m => forall n, sets r n = true -> span_of n (m_caps m) <> None)
         (finditer f r text).
Proof. apply scan_groups. Qed.

Lemma group_is_Some text n m :
  span_of n (m_caps m) <> None -> exists s, group text n m = Some s.
Proof.
  unfold group. destruct (span_of n (m_caps m)) as [[i j]|]; [eauto|contradiction].
Qed.

End ReFacts.

(* ===================================================================== *)
(** * Properties of the aggregate risk score                              *)
(* ===================================================================== *)

Section RiskScore.

Local Open Scope Z_scope.

Lemma count_level_nonneg lvl rs : 0 <= count_level lvl rs.
Proof.
  induction rs as [|r rs IH]; simpl; [lia|].
  destruct (String.eqb (risk_level r) lvl); lia.
Qed.

(** The three counts never exceed the number of findings. *)
Lemma count_levels_le rs :
  count_level "high" rs + count_level "medium" rs + count_level "low" rs
  <= Z.of_nat (length rs).
Proof.
  induction rs as [|r rs IH]; [simpl; lia|].
  change (length (r :: rs)) with (S (length rs)). rewrite Nat2Z.inj_succ.
  unfold count_level in *. simpl fold_right.
  destruct (String.eqb_spec (risk_level r) "high") as [E|_].
  - rewrite E. simpl. lia.
  - destruct (String.eqb_spec (risk_level r) "medium") as [E|_].
    + rewrite E. simpl. lia.
    + destruct (String.eqb (risk_level r) "low"); lia.
Qed.

(** When every level is a known one, the three counts add up to the number
    of findings. *)
Lemma count_levels_total rs :
  Forall known_level rs ->
  count_level "high" rs + count_level "medium" rs + count_level "low" rs
  = Z.of_nat (length rs).
Proof.
  induction 1 as [|r rs Hr _ IH]; [reflexivity|].
  change (length (r :: rs)) with (S (length rs)). rewrite Nat2Z.inj_succ.
  unfold count_level in *. simpl fold_right.
  destruct Hr as [E|[E|E]]; rewrite E; simpl; lia.
Qed.

Lemma risk_category_cases score :
  (risk_category score = "High Risk" <-> 70 <= score) /\
  (risk_category score = "Medium Risk" <-> 40 <= score < 70) /\
  (risk_category score = "Low Risk" <-> score < 40).
Proof.
  unfold risk_category.
  destruct (Z.leb_spec 70 score); [|destruct (Z.leb_spec 40 score)];
    (repeat split; intros; try lia; try reflexivity; try discriminate).
Qed.

(** The score before the clamp, for a list that is not empty. *)
Lemma calculate_risk_score_nonempty r rs :
  let all := r :: rs in
  let q := (count_level "high" all * 30 + count_level "medium" all * 15
            + count_level "low" all * 5) / Z.of_nat (length all) in
  calculate_risk_score all = (Z.min 100 q, risk_category (Z.min 100 q)).
Proof.
  intros all q. unfold calculate_risk_score, all.
  rewrite Z.max_r; [reflexivity|].
  change (length (r :: rs)) with (S (length rs)). lia.
Qed.

Lemma weighted_quotient_le_30 rs :
  (count_level "high" rs * 30 + count_level "medium" rs * 15 + count_level "low" rs * 5)
    / Z.of_nat (length rs) <= 30.
Proof.
  destruct rs as [|r rs]; [vm_compute; discriminate|].
  pose proof (count_levels_le (r :: rs)) as Hle.
  pose proof (count_level_nonneg "high" (r :: rs)).
  pose proof (count_level_nonneg "medium" (r :: rs)).
  pose proof (count_level_nonneg "low" (r :: rs)).
  assert (0 < Z.of_nat (length (r :: rs))) as Hpos.
  { change (length (r :: rs)) with (S (length rs)). lia. }
  apply Z.div_le_upper_bound; lia.
Qed.

(** Whatever the findings are, the score is at most 30 and the category is
    the lowest one. *)
Lemma calculate_risk_score_le_30 rs :
  fst (calculate_risk_score rs) <= 30 /\ snd (calculate_risk_score rs) = "Low Risk".
Proof.
  destruct rs as [|r rs]; [simpl; split; [lia|reflexivity]|].
  rewrite calculate_risk_score_nonempty. cbn [fst snd].
  pose proof (weighted_quotient_le_30 (r :: rs)) as Hq.
  split; [lia|]. apply risk_category_cases. lia.
Qed.

(** C1.  For a list of findings made of h high, m medium and l low entries,
    the score is min(100, floor((30h+15m+5l)/(h+m+l))) when h+m+l > 0 and 0
    when the list is empty; the category is "High Risk" iff the score is at
    least 70, "Medium Risk" iff it is at least 40 and below 70, and
    "Low Risk" otherwise, the empty list included. *)
Theorem calculate_risk_score_formula (rs : list RiskFinding) :
  Forall known_level rs ->
  let h := count_level "high" rs in
  let m := count_level "medium" rs in
  let l := count_level "low" rs in
  let score := fst (calculate_risk_score rs) in
  let category := snd (calculate_risk_score rs) in
  (0 < h + m + l -> score = Z.min 100 ((30 * h + 15 * m + 5 * l) / (h + m + l))) /\
  (h + m + l = 0 -> rs = [] /\ score = 0 /\ category = "Low Risk") /\
  (rs = [] -> score = 0 /\ category = "Low Risk") /\
  (category = "High Risk" <-> 70 <= score) /\
  (category = "Medium Risk" <-> 40 <= score < 70) /\
  (category = "Low Risk" <-> score < 40).
Proof.
  intros Hknown h m l score category.
  pose proof (count_levels_total rs Hknown) as Htotal. fold h m l in Htotal.
  destruct rs as [|r rs].
  - subst score category. simpl.
    repeat split; intros; try lia; try reflexivity; try discriminate.
  - assert (0 < h + m + l) as Hpos.
    { rewrite Htotal. change (length (r :: rs)) with (S (length rs)). lia. }
    subst score category. rewrite calculate_risk_score_nonempty. cbn [fst snd].
    fold h m l. rewrite <- Htotal.
    replace (h * 30 + m * 15 + l * 5) with (30 * h + 15 * m + 5 * l) by lia.
    split; [reflexivity|]. split; [lia|]. split; [discriminate|].
    apply risk_category_cases.
Qed.

End RiskScore.

Lemma calculate_risk_score_formula_witness :
  Forall known_level sample_findings /\
  fst (calculate_risk_score sample_findings) = 16%Z /\
  (snd (calculate_risk_score sample_findings) = "Low Risk"
   <-> (fst (calculate_risk_score sample_findings) < 40)%Z).
Proof.
  assert (Forall known_level sample_findings) as Hknown.
  { unfold sample_findings.
    repeat (constructor; [unfold known_level; simpl; tauto|]). constructor. }
  split; [exact Hknown|].
  destruct (calculate_risk_score_formula sample_findings Hknown)
    as (Hscore & _ & _ & _ & _ & Hlow).
  split; [|exact Hlow].
  rewrite Hscore; [reflexivity|]. vm_compute. reflexivity.
Defined.

(* ===================================================================== *)
(** * Substring tests                                                     *)
(* ===================================================================== *)

Section Substrings.

Lemma append_cons (x : ascii) (a b : string) :
  (String x a ++ b)%string = String x (a ++ b)%string.
Proof. reflexivity. Qed.

Lemma append_empty_l (b : string) : (EmptyString ++ b)%string = b.
Proof. reflexivity. Qed.

Lemma prefix_true_iff (a s : string) :
  String.prefix a s = true <-> exists post, s = (a ++ post)%string.
Proof.
  revert s. induction a as [|x a IH]; intros s.
  - split; [intros _; exists s; reflexivity|intros _; destruct s; reflexivity].
  - destruct s as [|y s]; simpl.
    + split; [discriminate|intros [post H]; rewrite append_cons in H; discriminate].
    + destruct (Ascii.ascii_dec x y) as [->|Hne].
      * rewrite IH. split; intros [post H]; exists post;
          rewrite ?append_cons in *; congruence.
      * split; [discriminate|intros [post H]; rewrite append_cons in H; congruence].
Qed.

Lemma contains_true_iff (sub s : string) :
  Py.contains sub s = true <-> exists pre post, s = (pre ++ sub ++ post)%string.
Proof.
  induction s as [|y s IH].
  - change (Py.contains sub EmptyString) with (String.prefix sub EmptyString || false).
    rewrite orb_false_r, prefix_true_iff. split.
    + intros [post H]. exists EmptyString, post. exact H.
    + intros [pre [post H]].
      destruct pre; [exists post; exact H|rewrite append_cons in H; discriminate].
  - change (Py.contains sub (String y s))
      with (String.prefix sub (String y s) || Py.contains sub s).
    rewrite orb_true_iff, prefix_true_iff, IH. split.
    + intros [[post H]|[pre [post H]]].
      * exists EmptyString, post. exact H.
      * exists (String y pre), post. rewrite append_cons. congruence.
    + intros [pre [post H]]. destruct pre as [|x pre].
      * left. exists post. exact H.
      * right. exists pre, post. rewrite append_cons in H. congruence.
Qed.

Lemma lower_app (a b : string) :
  Py.lower (a ++ b)%string = (Py.lower a ++ Py.lower b)%string.
Proof.
  induction a as [|x a IH]; [reflexivity|].
  rewrite append_cons. simpl. rewrite IH. reflexivity.
Qed.

Lemma lower_split (t a b : string) :
  Py.lower t = (a ++ b)%string ->
  exists a' b', t = (a' ++ b')%string /\ Py.lower a' = a /\ Py.lower b' = b.
Proof.
  revert t. induction a as [|x a IH]; intros t H.
  - exists EmptyString, t. auto.
  - rewrite append_cons in H. destruct t as [|y t]; [discriminate|]. simpl in H.
    injection H as Hx Ht. destruct (IH t Ht) as (a' & b' & -> & Ha & Hb).
    exists (String y a'), b'. simpl. rewrite Ha, Hx. auto.
Qed.

(** The keyword test of both scanners, [keyword in text_lower], is a
    substring test that ignores the case of the text. *)
Lemma contains_lower_iff (kw text : string) :
  Py.contains kw (Py.lower text) = true <-> occurs_ignoring_case kw text.
Proof.
  rewrite contains_true_iff. unfold occurs_ignoring_case. split.
  - intros (pre & post & H).
    destruct (lower_split _ _ _ H) as (pre' & rest' & -> & _ & Hrest).
    destruct (lower_split _ _ _ Hrest) as (mid' & post' & -> & Hmid & _).
    exists pre', mid', post'. auto.
  - intros (pre & mid & post & -> & Hmid).
    exists (Py.lower pre), (Py.lower post). rewrite !lower_app, Hmid. reflexivity.
Qed.

End Substrings.

(* ===================================================================== *)
(** * Findings of the detector                                            *)
(* ===================================================================== *)

Section Detector.

Lemma evidence_loop_spec risk_type info sentences acc :
  evidence_loop risk_type info sentences acc
  = fold_left (fun det r => if risk_in r det then det else det ++ [r])
              (map (finding_of risk_type info) sentences) acc.
Proof.
  revert acc. induction sentences as [|s ss IH]; intros acc; [reflexivity|].
  simpl. rewrite IH. reflexivity.
Qed.

Lemma keyword_loop_spec text risk_type info kws acc :
  keyword_loop text (Py.lower text) risk_type info kws acc
  = match first_hit text kws with
    | Some kw => evidence_loop risk_type info (_find_sentence_with_keyword text kw 150) acc
    | None => acc
    end.
Proof.
  unfold first_hit. induction kws as [|kw kws IH]; [reflexivity|].
  simpl. destruct (Py.contains kw (Py.lower text)); [reflexivity|exact IH].
Qed.

(** Every finding added by the loops carries the level of its category. *)
Lemma evidence_loop_known risk_type info sentences acc :
  known_level (finding_of risk_type info "") ->
  Forall known_level acc ->
  Forall known_level (evidence_loop risk_type info sentences acc).
Proof.
  intros Hinfo. revert acc.
  induction sentences as [|s ss IH]; intros acc Hacc; [exact Hacc|].
  simpl. apply IH. destruct (risk_in _ acc); [exact Hacc|].
  apply Forall_app. split; [exact Hacc|]. constructor; [exact Hinfo|constructor].
Qed.

Lemma pattern_loop_known text patterns acc :
  Forall (fun p => known_level (finding_of (fst p) (snd p) "")) patterns ->
  Forall known_level acc ->
  Forall known_level (pattern_loop text (Py.lower text) patterns acc).
Proof.
  intros Hpats. revert acc.
  induction Hpats as [|[risk_type info] patterns Hp _ IH]; intros acc Hacc; [exact Hacc|].
  simpl. apply IH. rewrite keyword_loop_spec.
  destruct (first_hit text (keywords info)); [|exact Hacc].
  apply evidence_loop_known; assumption.
Qed.

Lemma RISK_PATTERNS_known :
  Forall (fun p => known_level (finding_of (fst p) (snd p) "")) RISK_PATTERNS.
Proof.
  unfold RISK_PATTERNS.
  repeat (constructor; [unfold known_level; simpl; tauto|]). constructor.
Qed.

Lemma detect_risks_known text : Forall known_level (detect_risks text).
Proof.
  unfold detect_risks. apply pattern_loop_known; [apply RISK_PATTERNS_known|constructor].
Qed.

Lemma risk_eqb_eq a b : risk_eqb a b = true <-> a = b.
Proof.
  unfold risk_eqb. rewrite !andb_true_iff, !String.eqb_eq, Z.eqb_eq.
  destruct a, b; simpl. split.
  - intros ((((-> & ->) & ->) & ->) & ->). reflexivity.
  - intros E. injection E as -> -> -> -> ->. auto.
Qed.

Lemma risk_eqb_refl a : risk_eqb a a = true.
Proof. apply risk_eqb_eq. reflexivity. Qed.

Lemma risk_eqb_sym a b : risk_eqb a b = risk_eqb b a.
Proof.
  destruct (risk_eqb a b) eqn:E1, (risk_eqb b a) eqn:E2; try reflexivity.
  - apply risk_eqb_eq in E1. subst. rewrite risk_eqb_refl in E2. discriminate.
  - apply risk_eqb_eq in E2. subst. rewrite risk_eqb_refl in E1. discriminate.
Qed.

Lemma risk_in_In r rs : risk_in r rs = true <-> In r rs.
Proof.
  unfold risk_in. rewrite existsb_exists. split.
  - intros (x & Hin & E). apply risk_eqb_eq in E. subst. exact Hin.
  - intros Hin. exists r. split; [exact Hin|apply risk_eqb_refl].
Qed.

Lemma filter_absorb {A : Type} (p q : A -> bool) l :
  (forall z, p z = true -> q z = true) ->
  List.filter p (List.filter q l) = List.filter p l.
Proof.
  intros Hpq. induction l as [|z l IH]; [reflexivity|]. simpl.
  destruct (q z) eqn:Eq; simpl.
  - rewrite IH. reflexivity.
  - destruct (p z) eqn:Ep; [|exact IH]. rewrite (Hpq z Ep) in Eq. discriminate.
Qed.

Lemma filter_swap {A : Type} (p q : A -> bool) l :
  List.filter p (List.filter q l) = List.filter q (List.filter p l).
Proof.
  induction l as [|z l IH]; [reflexivity|]. simpl.
  destruct (q z) eqn:Eq, (p z) eqn:Ep; simpl; rewrite ?Eq, ?Ep, IH; reflexivity.
Qed.

Lemma filter_both {A : Type} (p q : A -> bool) l :
  List.filter p (List.filter q l) = List.filter (fun x => q x && p x) l.
Proof.
  induction l as [|z l IH]; [reflexivity|]. simpl.
  destruct (q z) eqn:Eq; simpl; [destruct (p z)|]; rewrite IH; reflexivity.
Qed.

Lemma filter_keep_all {A : Type} (p : A -> bool) l :
  (forall z, p z = true) -> List.filter p l = l.
Proof.
  intros Hp. induction l as [|z l IH]; [reflexivity|].
  simpl. rewrite Hp, IH. reflexivity.
Qed.

(** Collapsing commutes with dropping findings. *)
Lemma collapse_filter (p : RiskFinding -> bool) rs :
  collapse (List.filter p rs) = List.filter p (collapse rs).
Proof.
  induction rs as [|r rs IH]; [reflexivity|]. simpl.
  destruct (p r) eqn:Ep; simpl.
  - rewrite IH. f_equal. apply filter_swap.
  - rewrite IH. symmetry. apply filter_absorb.
    intros z Hz. destruct (risk_eqb r z) eqn:E; [|reflexivity].
    apply risk_eqb_eq in E. subst z. congruence.
Qed.

Lemma collapse_In r rs : In r (collapse rs) <-> In r rs.
Proof.
  induction rs as [|x rs IH]; simpl; [reflexivity|].
  rewrite filter_In, IH. split.
  - intros [E|[Hin _]]; auto.
  - intros [E|Hin]; [auto|].
    destruct (risk_eqb x r) eqn:E; [left; apply risk_eqb_eq, E|right; auto].
Qed.

Lemma collapse_NoDup rs : List.NoDup (collapse rs).
Proof.
  induction rs as [|x rs IH]; simpl; constructor.
  - rewrite filter_In, risk_eqb_refl. intros [_ H]. discriminate.
  - apply List.NoDup_filter, IH.
Qed.

(** The accumulating loop of the detector collapses what it is given. *)
Lemma add_findings_collapse rs : forall acc,
  fold_left (fun det r => if risk_in r det then det else det ++ [r]) rs acc
  = acc ++ collapse (List.filter (fun r => negb (risk_in r acc)) rs).
Proof.
  induction rs as [|r rs IH]; intros acc; simpl; [rewrite app_nil_r; reflexivity|].
  destruct (risk_in r acc) eqn:Ein; simpl; [apply IH|].
  rewrite IH, <- app_assoc. simpl. do 2 f_equal.
  rewrite <- collapse_filter. f_equal.
  rewrite filter_both. apply filter_ext. intros z.
  unfold risk_in. rewrite existsb_app. simpl.
  rewrite orb_false_r, negb_orb, (risk_eqb_sym z r). reflexivity.
Qed.

Lemma pattern_loop_spec text patterns : forall acc,
  pattern_loop text (Py.lower text) patterns acc
  = fold_left (fun det r => if risk_in r det then det else det ++ [r])
              (flat_map (category_findings text) patterns) acc.
Proof.
  induction patterns as [|[risk_type info] patterns IH]; intros acc; [reflexivity|].
  simpl. rewrite IH, fold_left_app. f_equal.
  rewrite keyword_loop_spec. unfold category_findings. cbn [fst snd].
  destruct (first_hit text (keywords info)); [apply evidence_loop_spec|reflexivity].
Qed.

Lemma detect_risks_collapse text :
  detect_risks text = collapse (flat_map (category_findings text) RISK_PATTERNS).
Proof.
  unfold detect_risks. rewrite pattern_loop_spec, add_findings_collapse.
  generalize (flat_map (category_findings text) RISK_PATTERNS). intros rs.
  rewrite app_nil_l. f_equal. apply filter_keep_all. reflexivity.
Qed.

Lemma take_length n s : (String.length (Py.take n s) <= n)%nat.
Proof.
  revert s. induction n as [|n IH]; intros s; [simpl; lia|].
  destruct s as [|c s]; simpl; [lia|]. specialize (IH s). lia.
Qed.

Lemma sentences_loop_bounded text matches : forall acc,
  Forall (fun s => (String.length s <= 300)%nat) acc ->
  Forall (fun s => (String.length s <= 300)%nat) (sentences_loop text matches acc).
Proof.
  induction matches as [|m ms IH]; intros acc Hacc; [exact Hacc|].
  cbn [sentences_loop]. apply IH. destruct (String.eqb _ _); [exact Hacc|].
  apply Forall_app. split; [exact Hacc|]. constructor; [apply take_length|constructor].
Qed.

Lemma find_sentence_bounds text kw w :
  (length (_find_sentence_with_keyword text kw w) <= 3)%nat /\
  Forall (fun s => (String.length s <= 300)%nat) (_find_sentence_with_keyword text kw w).
Proof.
  unfold _find_sentence_with_keyword. split.
  - rewrite length_firstn. lia.
  - apply Forall_take, sentences_loop_bounded. constructor.
Qed.


Lemma risk_keywords_lowercase :
  Forall (fun p => Forall (fun kw => Py.lower kw = kw) (keywords (snd p))) RISK_PATTERNS.
Proof.
  unfold RISK_PATTERNS.
  repeat (constructor; [repeat (constructor; [reflexivity|]); constructor|]). constructor.
Qed.

(** C2.  For every text, the score of the findings of the detector is at
    most 30 and their category is "Low Risk": every finding has one of the
    levels high, medium, low, the weighted sum is divided by the number of
    findings, so "Medium Risk" and "High Risk" are never reached and the
    clamp at 100 changes nothing. *)
Theorem detected_score_at_most_30 (text : string) :
  let rs := detect_risks text in
  let score := fst (calculate_risk_score rs) in
  let category := snd (calculate_risk_score rs) in
  Forall known_level rs /\
  (score <= 30)%Z /\
  category = "Low Risk" /\ category <> "Medium Risk" /\ category <> "High Risk" /\
  ((count_level "high" rs * 30 + count_level "medium" rs * 15 + count_level "low" rs * 5)
     / Z.of_nat (length rs) < 100)%Z.
Proof.
  intros rs score category.
  destruct (calculate_risk_score_le_30 rs) as [Hscore Hcat].
  pose proof (weighted_quotient_le_30 rs) as Hq.
  split; [apply detect_risks_known|].
  split; [exact Hscore|]. subst category.
  rewrite Hcat. repeat split; try discriminate. lia.
Qed.

End Detector.

(* ===================================================================== *)
(** * Classification                                                      *)
(* ===================================================================== *)

Section Classifier.

Local Open Scope Z_scope.

Lemma count_matches_spec tl kws acc :
  count_matches tl kws acc
  = acc + Z.of_nat (length (List.filter (fun kw => Py.contains kw tl) kws)).
Proof.
  revert acc. induction kws as [|kw kws IH]; intros acc; simpl; [lia|].
  rewrite IH. destruct (Py.contains kw tl); simpl length; lia.
Qed.

Lemma dict_set_fresh {V : Type} (d : dict V) k v :
  ~ In k (map fst d) -> dict_set d k v = d ++ [(k, v)].
Proof.
  induction d as [|[k' v'] d IH]; simpl; intros H; [reflexivity|].
  destruct (String.eqb_spec k' k) as [E|_]; [exfalso; auto|].
  rewrite IH; auto.
Qed.

Lemma dict_get_In {V : Type} (d : dict V) k v :
  List.NoDup (map fst d) -> In (k, v) d -> dict_get d k = Some v.
Proof.
  induction d as [|[k' v'] d IH]; simpl; intros Hnd Hin; [contradiction|].
  inversion Hnd as [|? ? Hnot Hnd']; subst.
  destruct Hin as [E|Hin].
  - injection E as -> ->. rewrite String.eqb_refl. reflexivity.
  - destruct (String.eqb_spec k' k) as [->|_]; [|auto].
    exfalso. apply Hnot. apply (in_map fst _ _ Hin).
Qed.

(** The scores are the qualifying buckets, in the order of the table. *)
Lemma score_loop_spec text patterns acc :
  List.NoDup (map fst acc ++ map fst patterns) ->
  score_loop (Py.lower text) patterns acc
  = acc ++ map (fun p => (fst p, match_count text (snd p)))
               (List.filter (qualifies text) patterns).
Proof.
  revert acc. induction patterns as [|[name info] ps IH]; intros acc Hnd; simpl.
  - rewrite app_nil_r. reflexivity.
  - rewrite count_matches_spec, Z.add_0_l. fold (match_count text info).
    unfold qualifies at 1. cbn [snd fst].
    apply List.NoDup_remove in Hnd as [Hnd Hnot].
    destruct (min_matches info <=? match_count text info).
    + rewrite dict_set_fresh by (intros Hin; apply Hnot, in_or_app; auto).
      rewrite IH.
      * rewrite <- app_assoc. reflexivity.
      * rewrite map_app, <- app_assoc. simpl.
        apply List.NoDup_Add with (a := name) (l := map fst acc ++ map fst ps);
          [apply Add_app|]. auto.
    + apply IH, Hnd.
Qed.

Lemma bucket_names :
  map fst CLASSIFICATION_PATTERNS
  = [ "Employment"; "Lease"; "Service Agreement"; "Vendor"; "Partnership"; "NDA";
      "License Agreement"; "Loan Agreement" ]%string.
Proof. reflexivity. Qed.

Lemma bucket_names_NoDup : List.NoDup (map fst CLASSIFICATION_PATTERNS).
Proof.
  rewrite bucket_names.
  repeat (constructor; [simpl; intuition discriminate|]). constructor.
Qed.

Lemma scores_qualifying text :
  score_loop (Py.lower text) CLASSIFICATION_PATTERNS [] = qualifying text.
Proof. rewrite score_loop_spec; [reflexivity|]. apply bucket_names_NoDup. Qed.

Lemma qualifying_NoDup text : List.NoDup (map fst (qualifying text)).
Proof.
  unfold qualifying. rewrite map_map. cbn [fst].
  pose proof bucket_names_NoDup as Hnd.
  induction CLASSIFICATION_PATTERNS as [|p ps IH]; simpl; [constructor|].
  simpl in Hnd. inversion Hnd as [|? ? Hnot Hnd']; subst.
  destruct (qualifies text p); simpl; [|auto].
  constructor; [|auto].
  intros Hin. apply Hnot. apply in_map_iff in Hin as (q & Hq & Hin).
  apply filter_In in Hin as [Hin _]. rewrite <- Hq. apply in_map, Hin.
Qed.

(** [max] returns the first key whose value is the greatest. *)
Lemma max_key_from_spec d : forall pre0 best post0,
  Forall (fun p => snd p < snd best) pre0 ->
  Forall (fun p => snd p <= snd best) post0 ->
  exists pre n post,
    pre0 ++ best :: post0 ++ d = pre ++ (max_key_from best d, n) :: post /\
    Forall (fun p => snd p < n) pre /\ Forall (fun p => snd p <= n) post.
Proof.
  induction d as [|[k v] d IH]; intros pre0 best post0 Hpre Hpost.
  - exists pre0, (snd best), post0. rewrite app_nil_r. simpl.
    destruct best; auto.
  - simpl. destruct (Z.ltb_spec (snd best) v) as [Hlt|Hge].
    + destruct (IH (pre0 ++ best :: post0) (k, v) []) as (pre & n & post & E & H1 & H2).
      * apply Forall_app. split.
        -- eapply List.Forall_impl; [|exact Hpre]. simpl. intros; lia.
        -- constructor; [exact Hlt|].
           eapply List.Forall_impl; [|exact Hpost]. simpl. intros; lia.
      * constructor.
      * exists pre, n, post. split; [|auto]. rewrite <- E.
        rewrite <- app_assoc. reflexivity.
    + destruct (IH pre0 best (post0 ++ [(k, v)])) as (pre & n & post & E & H1 & H2).
      * exact Hpre.
      * apply Forall_app. split; [exact Hpost|]. constructor; [exact Hge|constructor].
      * exists pre, n, post. split; [|auto]. rewrite <- E.
        rewrite <- app_assoc. reflexivity.
Qed.

Lemma match_count_bounds text info :
  0 <= match_count text info <= Z.of_nat (length (pat_keywords info)).
Proof.
  unfold match_count. split; [lia|]. apply inj_le.
  induction (pat_keywords info) as [|kw kws IH]; simpl; [lia|].
  destruct (Py.contains kw (Py.lower text)); simpl; lia.
Qed.

Lemma bucket_sizes :
  Forall (fun p => (length (pat_keywords (snd p)) <= 8)%nat) CLASSIFICATION_PATTERNS.
Proof. unfold CLASSIFICATION_PATTERNS. repeat (constructor; [simpl; lia|]). constructor. Qed.

Lemma qualifying_count_le_8 text name n :
  In (name, n) (qualifying text) -> 0 <= n <= 8.
Proof.
  unfold qualifying. intros Hin.
  apply in_map_iff in Hin as (p & E & Hin). injection E as _ <-.
  apply filter_In in Hin as [Hin _].
  pose proof (proj1 (List.Forall_forall _ _) bucket_sizes p Hin) as Hsize.
  pose proof (match_count_bounds text (snd p)). simpl in Hsize. lia.
Qed.

(** On the counts that can occur the float arithmetic is exact. *)
Lemma confidence_of_exact n :
  0 <= n <= 8 -> confidence_of n = Py.Float (float_of_int (10 * n)).
Proof.
  intros H.
  assert (n = 0 \/ n = 1 \/ n = 2 \/ n = 3 \/ n = 4 \/ n = 5 \/ n = 6 \/ n = 7 \/ n = 8)
    as Hcases by lia.
  repeat (destruct Hcases as [->|Hcases]; [vm_compute; reflexivity|]).
  subst n. vm_compute. reflexivity.
Qed.

(** The result of the classifier in terms of the qualifying buckets. *)
Lemma classify_contract_cases text :
  let c := classify_contract text in
  all_matches c = qualifying text /\
  ((qualifying text = [] /\ primary_type c = "General Contract" /\ confidence c = Py.Int 0)
   \/ exists pre n post,
        qualifying text = pre ++ (primary_type c, n) :: post /\
        Forall (fun p => snd p < n) pre /\ Forall (fun p => snd p <= n) post /\
        confidence c = confidence_of n).
Proof.
  unfold classify_contract. rewrite scores_qualifying.
  pose proof (qualifying_NoDup text) as Hnd.
  destruct (qualifying text) as [|first others] eqn:Hq; cbn zeta.
  - split; [reflexivity|]. left. auto.
  - split; [reflexivity|]. right.
    destruct (max_key_from_spec others [] first []) as (pre & n & post & E & H1 & H2);
      [constructor|constructor|].
    simpl in E. exists pre, n, post. cbn [primary_type confidence].
    split; [exact E|]. split; [exact H1|]. split; [exact H2|].
    rewrite (dict_get_In (first :: others) (max_key_from first others) n Hnd);
      [reflexivity|].
    rewrite E. apply in_or_app. right. left. reflexivity.
Qed.

Lemma keywords_lowercase :
  Forall (fun p => Forall (fun kw => Py.lower kw = kw) (pat_keywords (snd p)))
         CLASSIFICATION_PATTERNS.
Proof.
  unfold CLASSIFICATION_PATTERNS.
  repeat (constructor; [repeat (constructor; [reflexivity|]); constructor|]). constructor.
Qed.

Lemma keywords_distinct :
  Forall (fun p => List.NoDup (pat_keywords (snd p))) CLASSIFICATION_PATTERNS.
Proof.
  unfold CLASSIFICATION_PATTERNS.
  repeat (constructor;
          [repeat (constructor; [simpl; intuition discriminate|]); constructor|]).
  constructor.
Qed.

Lemma dict_get_None {V : Type} (d : dict V) k :
  ~ In k (map fst d) -> dict_get d k = None.
Proof.
  induction d as [|[k' v'] d IH]; simpl; intros H; [reflexivity|].
  destruct (String.eqb_spec k' k) as [E|_]; [exfalso; auto|auto].
Qed.

(** Looking a bucket up in the scores. *)
Lemma dict_get_qualifying text patterns name info :
  List.NoDup (map fst patterns) -> In (name, info) patterns ->
  dict_get (map (fun p => (fst p, match_count text (snd p)))
                (List.filter (qualifies text) patterns)) name
  = if (min_matches info <=? match_count text info)
    then Some (match_count text info) else None.
Proof.
  induction patterns as [|[name' info'] ps IH]; intros Hnd Hin; [contradiction|].
  simpl in Hnd. inversion Hnd as [|? ? Hnot Hnd']; subst.
  assert (forall i, In (name', i) ps -> False) as Hfresh.
  { intros i Hi. apply Hnot. apply (in_map fst _ _ Hi). }
  simpl. unfold qualifies at 1. cbn [snd].
  destruct Hin as [E|Hin].
  - injection E as -> ->.
    destruct (min_matches info <=? match_count text info) eqn:Eq.
    + simpl. rewrite String.eqb_refl. reflexivity.
    + apply dict_get_None. intros Hin. apply Hnot.
      rewrite map_map in Hin. cbn [fst] in Hin.
      apply in_map_iff in Hin as (q & Hq & Hin).
      apply filter_In in Hin as [Hin _]. rewrite <- Hq. apply in_map, Hin.
  - assert (name' <> name) as Hne by (intros ->; exact (Hfresh _ Hin)).
    destruct (min_matches info' <=? match_count text info'); [|auto].
    simpl. destruct (String.eqb_spec name' name); [contradiction|auto].
Qed.

(** C5.  A bucket is in all_matches exactly when the number of its distinct
    keywords present in the text, case ignored, reaches its threshold; when
    some bucket qualifies the primary type is the qualifying bucket with the
    greatest count, the first one in the declaration order Employment,
    Lease, Service Agreement, Vendor, Partnership, NDA, License Agreement,
    Loan Agreement among equals, and the confidence is
    min(100, count/10 * 100); when none qualifies the result is
    "General Contract" with confidence 0 and no matches. *)
Theorem classify_contract_spec (text : string) :
  let c := classify_contract text in
  map fst CLASSIFICATION_PATTERNS
  = [ "Employment"; "Lease"; "Service Agreement"; "Vendor"; "Partnership"; "NDA";
      "License Agreement"; "Loan Agreement" ]%string /\
  Forall (fun p => List.NoDup (pat_keywords (snd p)) /\
                   Forall (fun kw => Py.lower kw = kw) (pat_keywords (snd p)))
         CLASSIFICATION_PATTERNS /\
  (forall kw, Py.contains kw (Py.lower text) = true <-> occurs_ignoring_case kw text) /\
  all_matches c = qualifying text /\
  (forall name info, In (name, info) CLASSIFICATION_PATTERNS ->
     dict_get (all_matches c) name
     = if (min_matches info <=? match_count text info)
       then Some (match_count text info) else None) /\
  (qualifying text = [] ->
     primary_type c = "General Contract" /\ confidence c = Py.Int 0 /\ all_matches c = []) /\
  (qualifying text <> [] ->
     exists pre n post,
       all_matches c = pre ++ (primary_type c, n) :: post /\
       Forall (fun p => snd p < n) pre /\ Forall (fun p => snd p <= n) post /\
       confidence c = confidence_of n /\
       confidence c = Py.Float (float_of_int (10 * n))).
Proof.
  intros c. destruct (classify_contract_cases text) as [Hall Hcases]. fold c in Hall, Hcases.
  split; [apply bucket_names|].
  split.
  { pose proof keywords_distinct as H1. pose proof keywords_lowercase as H2.
    apply List.Forall_forall. intros p Hp. split.
    - exact (proj1 (List.Forall_forall _ _) H1 p Hp).
    - exact (proj1 (List.Forall_forall _ _) H2 p Hp). }
  split; [intros kw; apply contains_lower_iff|].
  split; [exact Hall|].
  split.
  { intros name info Hin. rewrite Hall. unfold qualifying.
    apply dict_get_qualifying; [apply bucket_names_NoDup|exact Hin]. }
  split.
  - intros Hq. destruct Hcases as [(_ & Hp & Hc)|(pre & n & post & E & _)].
    + rewrite Hall. auto.
    + rewrite Hq in E. destruct pre; discriminate.
  - intros Hq. destruct Hcases as [(Hq' & _)|(pre & n & post & E & H1 & H2 & Hc)];
      [contradiction|].
    exists pre, n, post. rewrite Hall. repeat (split; [assumption|]).
    rewrite Hc. apply confidence_of_exact.
    apply (qualifying_count_le_8 text (primary_type c)).
    rewrite E. apply in_or_app. right. left. reflexivity.
Qed.

Lemma classify_contract_spec_witness :
  qualifying employment_text <> [] /\
  exists n, all_matches (classify_contract employment_text)
            = [(primary_type (classify_contract employment_text), n)] /\
            confidence (classify_contract employment_text) = Py.Float (float_of_int (10 * n)).
Proof.
  assert (qualifying employment_text <> []) as Hq by (vm_compute; discriminate).
  split; [exact Hq|].
  destruct (classify_contract_spec employment_text) as (_ & _ & _ & Hall & _ & _ & Hsome).
  destruct (Hsome Hq) as (pre & n & post & E & _ & _ & _ & Hconf).
  exists n. split; [|exact Hconf].
  assert (length (all_matches (classify_contract employment_text)) = 1%nat) as Hlen
    by (vm_compute; reflexivity).
  rewrite E in Hlen |- *. rewrite length_app in Hlen. cbn [length] in Hlen.
  destruct pre; [|cbn [length] in Hlen; lia]. destruct post; [reflexivity|].
  cbn [length] in Hlen. lia.
Defined.

(** C10.  For every text the confidence of the classifier is at most 80:
    no bucket has more than 8 keywords, so a count is at most 8 and
    (count/10) * 100 at most 80; the cap at 100 never applies and a
    confidence of 100 is not reached. *)
Theorem confidence_at_most_80 (text : string) :
  let c := classify_contract text in
  Forall (fun p => (length (pat_keywords (snd p)) <= 8)%nat) CLASSIFICATION_PATTERNS /\
  (forall name n, In (name, n) (all_matches c) -> 0 <= n <= 8) /\
  num_le (confidence c) 80 /\
  ~ num_le (Py.Int 100) 80 /\ ~ num_le (Py.Float (float_of_int 100)) 80 /\
  (confidence c = Py.Int 0 \/
   exists n, 0 <= n <= 8 /\
     confidence c = Py.Float (float_of_int n / float_of_int 10 * float_of_int 100)%float).
Proof.
  intros c. destruct (classify_contract_cases text) as [Hall Hcases]. fold c in Hall, Hcases.
  split; [apply bucket_sizes|].
  split; [intros name n Hin; rewrite Hall in Hin; exact (qualifying_count_le_8 _ _ _ Hin)|].
  assert (forall n, 0 <= n <= 8 ->
            confidence_of n
            = Py.Float (float_of_int n / float_of_int 10 * float_of_int 100)%float
            /\ num_le (confidence_of n) 80) as Hsmall.
  { intros n Hn.
    assert (n = 0 \/ n = 1 \/ n = 2 \/ n = 3 \/ n = 4 \/ n = 5 \/ n = 6 \/ n = 7 \/ n = 8)
      as Hn' by lia.
    repeat (destruct Hn' as [->|Hn']; [split; vm_compute; reflexivity|]).
    subst n. split; vm_compute; reflexivity. }
  assert (confidence c = Py.Int 0 \/ exists n, 0 <= n <= 8 /\ confidence c = confidence_of n)
    as Hconf.
  { destruct Hcases as [(_ & _ & Hc)|(pre & n & post & E & _ & _ & Hc)]; [left; exact Hc|].
    right. exists n. split; [|exact Hc].
    apply (qualifying_count_le_8 text (primary_type c)).
    rewrite E. apply in_or_app. right. left. reflexivity. }
  split.
  { destruct Hconf as [->|(n & Hn & ->)]; [simpl; lia|apply Hsmall, Hn]. }
  split; [simpl; lia|]. split; [vm_compute; discriminate|].
  destruct Hconf as [Hc|(n & Hn & Hc)]; [left; exact Hc|].
  right. exists n. split; [exact Hn|]. rewrite Hc. apply Hsmall, Hn.
Qed.

Lemma confidence_at_most_80_witness :
  In ("Employment", 3) (all_matches (classify_contract employment_text)) /\ 0 <= 3 <= 8.
Proof.
  assert (In ("Employment", 3) (all_matches (classify_contract employment_text))) as Hin
    by (vm_compute; left; reflexivity).
  split; [exact Hin|].
  destruct (confidence_at_most_80 employment_text) as (_ & Hcount & _).
  exact (Hcount _ _ Hin).
Defined.

End Classifier.

(* ===================================================================== *)
(** * The analyzers never fail                                            *)
(* ===================================================================== *)

Section Totality.

Import ReFacts.

Lemma subclause_of_total text m :
  (forall n, sets subclause_pattern n = true -> span_of n (m_caps m) <> None) ->
  exists sc, subclause_of text m = Some sc.
Proof.
  intros Hm.
  destruct (group_is_Some text 1 m (Hm 1%nat eq_refl)) as [s1 H1].
  destruct (group_is_Some text 2 m (Hm 2%nat eq_refl)) as [s2 H2].
  unfold subclause_of. bind_some H1. bind_some H2. eexists. reflexivity.
Qed.

Lemma subclauses_total text : exists subs, _extract_subclauses text = Some subs.
Proof.
  unfold _extract_subclauses.
  pose proof (finditer_groups MULTILINE subclause_pattern text) as Hg.
  induction Hg as [|m ms Hm _ IH].
  - exists []. reflexivity.
  - destruct (subclause_of_total text m Hm) as [sc Hsc].
    destruct IH as [subs IH].
    cbn [mapM]. bind_some Hsc. bind_some IH. eexists. reflexivity.
Qed.

Lemma clauses_from_total text matches todo : forall i,
  Forall (fun m => forall n, sets clause_pattern n = true -> span_of n (m_caps m) <> None) todo ->
  exists cs, clauses_from text matches i todo = Some cs /\ length cs = length todo.
Proof.
  induction todo as [|m todo IH]; intros i Hg.
  - exists []. split; reflexivity.
  - inversion Hg as [|? ? Hm Hg']; subst.
    destruct (group_is_Some text 1 m (Hm 1%nat eq_refl)) as [s1 H1].
    destruct (group_is_Some text 2 m (Hm 2%nat eq_refl)) as [s2 H2].
    destruct (IH (S i) Hg') as (cs & Hcs & Hlen).
    cbn [clauses_from]. unfold clause_of.
    bind_some H1. bind_some H2.
    match goal with |- context [_extract_subclauses ?c] =>
      destruct (subclauses_total c) as [subs Hsubs]; bind_some Hsubs end.
    bind_some Hcs. eexists. split; [reflexivity|]. simpl. rewrite Hlen. reflexivity.
Qed.

(** [extract_clauses] returns a list, with one clause per match. *)
Lemma extract_clauses_total text :
  exists cs, extract_clauses text = Some cs /\
             length cs = length (finditer MULTILINE clause_pattern text).
Proof. apply clauses_from_total, finditer_groups. Qed.

Lemma definitions_loop_total text matches : forall defs,
  Forall (fun m => forall n, sets definition_pattern n = true -> span_of n (m_caps m) <> None)
         matches ->
  exists defs', definitions_loop text matches defs = Some defs'.
Proof.
  induction matches as [|m ms IH]; intros defs Hg.
  - exists defs. reflexivity.
  - inversion Hg as [|? ? Hm Hg']; subst.
    destruct (group_is_Some text 1 m (Hm 1%nat eq_refl)) as [s1 H1].
    destruct (group_is_Some text 2 m (Hm 2%nat eq_refl)) as [s2 H2].
    cbn [definitions_loop]. bind_some H1. bind_some H2. apply IH, Hg'.
Qed.

Lemma extract_definitions_total text : exists defs, extract_definitions text = Some defs.
Proof. apply definitions_loop_total, finditer_groups. Qed.

Lemma parties_loop_total text matches : forall acc,
  Forall (fun m => forall n, sets party_pattern n = true -> span_of n (m_caps m) <> None)
         matches ->
  exists ps, parties_loop text matches acc = Some ps.
Proof.
  induction matches as [|m ms IH]; intros acc Hg.
  - exists acc. reflexivity.
  - inversion Hg as [|? ? Hm Hg']; subst.
    destruct (group_is_Some text 1 m (Hm 1%nat eq_refl)) as [s1 H1].
    cbn [parties_loop]. bind_some H1. apply IH, Hg'.
Qed.


(** Every pattern of the program consumes, so that no match is empty. *)
Lemma fixed_patterns_consume : forallb consumes fixed_patterns = true.
Proof. reflexivity. Qed.

Lemma sentence_pattern_consumes keyword context_window :
  consumes (sentence_pattern keyword context_window) = true.
Proof.
  unfold sentence_pattern. cbn [seq consumes]. rewrite !orb_true_r. reflexivity.
Qed.

Lemma name_patterns_consume :
  forallb (fun name => consumes (seq [WordB; lit name; WordB])) (states ++ countries) = true.
Proof. reflexivity. Qed.

End Totality.

(* ===================================================================== *)
(** * The scenario, the empty text and the entity lists                   *)
(* ===================================================================== *)

Section Scenarios.

Import ReFacts.

(** C6.  On the scenario text the segmenter returns exactly two clauses,
    numbered "1" and "2", with the headings "TERMINATION" and
    "CONFIDENTIALITY"; the detector returns one finding for
    "Termination Clauses" and one for "Confidentiality", both of level
    medium, and nothing else; their score is 15 with category "Low Risk". *)
Theorem scenario_analysis :
  extract_clauses scenario_text
  = Some [ mkClause "1" "TERMINATION"
                    "This agreement may be terminated with 30 days notice."
                    "This agreement may be terminated with 30 days notice." [];
           mkClause "2" "CONFIDENTIALITY"
                    "All information is confidential."
                    "All information is confidential." [] ] /\
  detect_risks scenario_text
  = [ mkRisk "Termination Clauses" "medium" "Clauses specifying termination rights"
             ("1. TERMINATION" ++ nl
              ++ "This agreement may be terminated with 30 days notice.")%string 55;
      mkRisk "Confidentiality" "medium" "Confidentiality and NDA clauses"
             scenario_text 55 ] /\
  calculate_risk_score (detect_risks scenario_text) = (15%Z, "Low Risk").
Proof.
  assert (detect_risks scenario_text
          = [ mkRisk "Termination Clauses" "medium" "Clauses specifying termination rights"
                     ("1. TERMINATION" ++ nl
                      ++ "This agreement may be terminated with 30 days notice.")%string 55;
              mkRisk "Confidentiality" "medium" "Confidentiality and NDA clauses"
                     scenario_text 55 ]) as Hrisks by (vm_compute; reflexivity).
  split; [vm_compute; reflexivity|]. split; [exact Hrisks|].
  rewrite Hrisks. reflexivity.
Qed.

Lemma list_set_NoDup xs : List.NoDup (list_set xs).
Proof. unfold list_set. apply NoDup_ListNoDup, NoDup_elements. Qed.

Lemma list_set_In x xs : In x (list_set xs) <-> In x xs.
Proof.
  unfold list_set. rewrite <- !list_elem_of_In, elem_of_elements, elem_of_list_to_set.
  reflexivity.
Qed.

(** C7.  For every text the lists of dates, jurisdictions, emails, phone
    numbers, urls and parties hold no entry twice, while the list of
    amounts has one pair per match and may hold a pair twice. *)
Theorem entity_lists_distinct :
  (forall text, exists e,
     extract_entities text = Some e /\
     List.NoDup (dates e) /\ List.NoDup (jurisdictions e) /\ List.NoDup (emails e) /\
     List.NoDup (phone_numbers e) /\ List.NoDup (urls e) /\ List.NoDup (parties e) /\
     amounts e
     = map (fun m => (group0 text m, "Currency")) (finditer IGNORECASE currency_pattern text)
       ++ map (fun m => (group0 text m, "Percentage"))
              (finditer no_flags percentage_pattern text)) /\
  (exists e,
     extract_entities repeated_amount_text = Some e /\
     amounts e = [("$5", "Currency"); ("$5", "Currency")] /\
     ~ List.NoDup (amounts e)).
Proof.
  split.
  - intros text. unfold extract_entities, _extract_parties.
    destruct (parties_loop_total text (finditer IGNORECASE party_pattern text) [])
      as [ps Hps]; [apply finditer_groups|].
    rewrite Hps. cbn [mbind option_bind]. eexists. split; [reflexivity|].
    cbn [dates jurisdictions emails phone_numbers urls parties amounts].
    repeat (split; [apply list_set_NoDup|]). reflexivity.
  - eexists. split; [vm_compute; reflexivity|]. split; [reflexivity|].
    cbn [amounts]. intros Hnd. inversion Hnd as [|? ? Hnot _]. apply Hnot. left. reflexivity.
Qed.




End Scenarios.

(* ===================================================================== *)
(** * The clause pattern as a line scanner                                *)
(* ===================================================================== *)

Section ClauseHeader.

Import ReFacts.

Lemma span_ext (P Q : ascii -> bool) s : (forall a, P a = Q a) -> span P s = span Q s.
Proof.
  intros H. induction s as [|a s IH]; [reflexivity|].
  simpl. rewrite H, IH. reflexivity.
Qed.

Lemma digit_class f a : cls_mem f false [IDigit] a = Py.isdigit a.
Proof. unfold cls_mem. simpl. rewrite orb_false_r. reflexivity. Qed.

Lemma space_class f a : cls_mem f false [ISpace] a = Py.isspace a.
Proof. unfold cls_mem. simpl. rewrite orb_false_r. reflexivity. Qed.

Lemma capital_class a : cls_mem MULTILINE false [upper_AZ] a = is_capital a.
Proof. unfold cls_mem. simpl. rewrite orb_false_r. reflexivity. Qed.

Lemma heading_class a : cls_mem MULTILINE false [upper_AZ; ISpace] a = heading_char a.
Proof. unfold cls_mem, heading_char. simpl. rewrite orb_false_r. reflexivity. Qed.

Lemma digit_not_period a : Py.isdigit a = true -> Ascii.eqb "." a = false.
Proof. destruct (Ascii.eqb_spec "."%char a) as [<-|_]; [discriminate|reflexivity]. Qed.

Lemma digit_not_newline a : Py.isdigit a = true -> Ascii.eqb a newline = false.
Proof. destruct (Ascii.eqb_spec a newline) as [->|_]; [discriminate|reflexivity]. Qed.

Lemma space_not_capital a : Py.isspace a = true -> is_capital a = false.
Proof.
  destruct a as [[] [] [] [] [] [] [] []]; vm_compute; intros H;
    first [reflexivity | discriminate H].
Qed.

Lemma capital_not_newline a : is_capital a = true -> Ascii.eqb a newline = false.
Proof. destruct (Ascii.eqb_spec a newline) as [->|_]; [discriminate|reflexivity]. Qed.

Lemma capital_not_digit a : is_capital a = true -> Py.isdigit a = false.
Proof.
  destruct a as [[] [] [] [] [] [] [] []]; vm_compute; intros H;
    first [reflexivity | discriminate H].
Qed.

Lemma space_not_digit a : Py.isspace a = true -> Py.isdigit a = false.
Proof.
  destruct a as [[] [] [] [] [] [] [] []]; vm_compute; intros H;
    first [reflexivity | discriminate H].
Qed.

Lemma at_bol_line_start p s i : at_bol MULTILINE (mkCursor p s i) = line_start p.
Proof. destruct p; reflexivity. Qed.

Lemma at_eol_multiline p s i :
  at_eol MULTILINE (mkCursor p s i)
  = match s with
    | EmptyString => true
    | String a _ => Ascii.eqb a newline
    end.
Proof. destruct s as [|a [|b s]]; reflexivity. Qed.

(** Away from the start of a line the lookahead is the test for the end of
    the line. *)
Lemma run_clause_lookahead p s i g k :
  line_start p = false ->
  run MULTILINE clause_lookahead (mkCursor p s i) g k
  = if at_eol MULTILINE (mkCursor p s i) then k (mkCursor p s i) g else None.
Proof.
  intros Hp. unfold clause_lookahead. cbn [run seq]. rewrite at_bol_line_start, Hp.
  destruct (at_eol MULTILINE _); reflexivity.
Qed.

(** The lazy repeat [[A-Z\s]*?] in front of the lookahead reads on to the
    end of the line. *)
Lemma heading_lazy start (kf : cont) : forall s n p i g,
  (String.length s <= n)%nat -> line_start p = false ->
  (forall c' g', (i <= pos c')%nat -> kf c' g' = Some (c', g')) ->
  rep_opt (one (cls_mem MULTILINE false [upper_AZ; ISpace])) false n (mkCursor p s i) g
          (fun c' g' => run MULTILINE clause_lookahead c' ((2, (start, pos c')) :: g') kf)
  = match heading_rest s with
    | Some h => Some (mkCursor (last_of p (Py.take h s)) (Py.drop h s) (i + h),
                      (2, (start, i + h)%nat) :: g)
    | None => None
    end.
Proof.
  induction s as [|a s IH]; intros n p i g Hn Hp Hkf.
  - cbn [heading_rest Py.take Py.drop last_of]. rewrite Nat.add_0_r.
    assert (run MULTILINE clause_lookahead (mkCursor p EmptyString i)
                ((2, (start, i)) :: g) kf
            = Some (mkCursor p EmptyString i, (2, (start, i)) :: g)) as HK.
    { rewrite run_clause_lookahead by exact Hp. rewrite at_eol_multiline.
      apply Hkf. cbn [pos]. lia. }
    destruct n as [|n]; [exact HK|].
    rewrite rep_opt_S. cbn [pos]. rewrite HK. reflexivity.
  - cbn [heading_rest].
    assert (run MULTILINE clause_lookahead (mkCursor p (String a s) i)
                ((2, (start, i)) :: g) kf
            = if Ascii.eqb a newline
              then Some (mkCursor p (String a s) i, (2, (start, i)) :: g) else None) as HK.
    { rewrite run_clause_lookahead by exact Hp. rewrite at_eol_multiline.
      destruct (Ascii.eqb a newline); [apply Hkf; cbn [pos]; lia|reflexivity]. }
    cbn [String.length] in Hn. destruct n as [|n]; [lia|].
    rewrite rep_opt_S. cbn [pos]. rewrite HK.
    destruct (Ascii.eqb a newline) eqn:Ea.
    + cbn [Py.take Py.drop last_of]. rewrite Nat.add_0_r. reflexivity.
    + rewrite one_cons, heading_class.
      destruct (heading_char a); [|reflexivity].
      cbn [pos]. replace (i <? S i)%nat with true by (symmetry; apply Nat.ltb_lt; lia).
      rewrite IH; [|lia|exact Ea|intros c' g' Hc'; apply Hkf; lia].
      destruct (heading_rest s) as [h|]; [|reflexivity].
      cbn [option_map Py.take Py.drop last_of].
      replace (S i + h)%nat with (i + S h)%nat by lia. reflexivity.
Qed.

Lemma run_lazy_star f r c g k :
  run f (lazy_star r) c g k = rep_opt (run f r) false (String.length (rest c)) c g k.
Proof. reflexivity. Qed.

(** At any position the clause pattern finds what the line scanner finds. *)
Lemma match_at_clause ma p s i :
  match_at MULTILINE clause_pattern ma (mkCursor p s i)
  = option_map (header_match i) (header_at p s).
Proof.
  unfold match_at, header_at, clause_pattern.
  set (kf := fun (c' : cursor) (g' : caps) =>
               if ma && (pos c' =? pos (mkCursor p s i))%nat then None else Some (c', g')).
  assert (forall c' g', (S i <= pos c')%nat -> kf c' g' = Some (c', g')) as Hkf.
  { intros c' g' Hc'. unfold kf. cbn [pos].
    replace (pos c' =? i)%nat with false by (symmetry; apply Nat.eqb_neq; lia).
    rewrite andb_false_r. reflexivity. }
  cbn [seq]. cbn [run]. rewrite at_bol_line_start.
  destruct (line_start p); [|reflexivity].
  (* the integer *)
  fold (plus digit). unfold digit at 1.
  rewrite run_plus_cls.
  2:{ intros [p' s' i'] g' Hn. unfold next_is in Hn. cbn [rest] in Hn.
      destruct s' as [|a s']; [discriminate|].
      rewrite digit_class in Hn. rewrite one_cons. unfold chr_eq. cbn [ignorecase MULTILINE].
      rewrite (digit_not_period a Hn). reflexivity. }
  cbn [rest]. rewrite (span_ext _ Py.isdigit s (digit_class MULTILINE)).
  destruct (span Py.isdigit s) as [ds r1]. cbn [fst snd].
  destruct ds as [|d ds]; [reflexivity|].
  (* the period *)
  unfold fwd. cbn [prev pos].
  destruct r1 as [|dot r2]; [reflexivity|].
  rewrite one_cons. unfold chr_eq at 1. cbn [ignorecase MULTILINE].
  rewrite Ascii.eqb_sym.
  destruct (Ascii.eqb dot ".") eqn:Edot; [|reflexivity].
  (* the whitespace *)
  fold (plus space). unfold space at 1.
  rewrite run_plus_cls.
  2:{ intros [p' s' i'] g' Hn. unfold next_is in Hn. cbn [rest] in Hn.
      destruct s' as [|a s']; [discriminate|].
      rewrite space_class in Hn. rewrite one_cons, capital_class.
      rewrite (space_not_capital a Hn). reflexivity. }
  cbn [rest]. rewrite (span_ext _ Py.isspace r2 (space_class MULTILINE)).
  destruct (span Py.isspace r2) as [ws r3]. cbn [fst snd].
  destruct ws as [|w ws]; [reflexivity|].
  (* the heading *)
  unfold fwd. cbn [prev pos].
  destruct r3 as [|c r4]; [reflexivity|].
  rewrite one_cons, capital_class.
  destruct (is_capital c) eqn:Ec; [|reflexivity].
  rewrite run_lazy_star. cbn [rest pos].
  rewrite (heading_lazy _ kf r4 (String.length r4) (Some c));
    [|lia|apply capital_not_newline, Ec|intros c' g' Hc'; apply Hkf; lia].
  destruct (heading_rest r4) as [h|]; [|reflexivity].
  cbn [option_map header_match pos]. f_equal.
  f_equal; [lia|]. f_equal. f_equal. f_equal; lia.
Qed.

(** ** The line scanner and the shape of a header *)

Lemma span_all P s : all_chars P (fst (span P s)) = true.
Proof.
  induction s as [|a s IH]; [reflexivity|]. simpl.
  destruct (P a) eqn:Ea; [|reflexivity].
  destruct (span P s) as [w r]. simpl in *. rewrite Ea, IH. reflexivity.
Qed.

Lemma span_decompose P s :
  s = (fst (span P s) ++ snd (span P s))%string /\
  match snd (span P s) with
  | String a _ => P a = false
  | EmptyString => True
  end.
Proof.
  induction s as [|a s IH]; [simpl; auto|]. simpl.
  destruct (P a) eqn:Ea.
  - destruct (span P s) as [w r]. simpl in *. destruct IH as [IH1 IH2].
    rewrite append_cons. split; [congruence|exact IH2].
  - simpl. split; [reflexivity|exact Ea].
Qed.

Lemma span_app P w r :
  all_chars P w = true ->
  match r with String a _ => P a = false | EmptyString => True end ->
  span P (w ++ r)%string = (w, r).
Proof.
  intros Hw Hr. induction w as [|a w IH].
  - rewrite append_empty_l. destruct r as [|b r]; [reflexivity|]. simpl. rewrite Hr. reflexivity.
  - simpl in Hw. apply andb_true_iff in Hw as [Ha Hw].
    rewrite append_cons. simpl. rewrite Ha, (IH Hw). reflexivity.
Qed.

Lemma heading_rest_decompose s h :
  heading_rest s = Some h ->
  exists hd after,
    s = (hd ++ after)%string /\ h = String.length hd /\ line_end after /\
    all_chars (fun a => heading_char a && negb (Ascii.eqb a newline)) hd = true.
Proof.
  revert h. induction s as [|a s IH]; intros h H; simpl in H.
  - injection H as <-. exists EmptyString, EmptyString. repeat split. left. reflexivity.
  - destruct (Ascii.eqb_spec a newline) as [->|Hne].
    + injection H as <-. exists EmptyString, (String newline s).
      repeat split. right. eauto.
    + destruct (heading_char a) eqn:Ea; [|discriminate].
      destruct (heading_rest s) as [h'|]; [|discriminate]. injection H as <-.
      destruct (IH h' eq_refl) as (hd & after & -> & -> & Hend & Hall).
      exists (String a hd), after. rewrite append_cons. repeat split; [exact Hend|].
      simpl. rewrite Ea, Hall.
      destruct (Ascii.eqb_spec a newline); [contradiction|reflexivity].
Qed.

Lemma heading_rest_app hd after :
  all_chars (fun a => heading_char a && negb (Ascii.eqb a newline)) hd = true ->
  line_end after ->
  heading_rest (hd ++ after)%string = Some (String.length hd).
Proof.
  intros Hall Hend. induction hd as [|a hd IH].
  - rewrite append_empty_l. destruct Hend as [->|[r ->]]; [reflexivity|].
    cbn [heading_rest]. rewrite Ascii.eqb_refl. reflexivity.
  - simpl in Hall. apply andb_true_iff in Hall as [Ha Hall].
    apply andb_true_iff in Ha as [Ha Hnl]. apply negb_true_iff in Hnl.
    rewrite append_cons. cbn [heading_rest]. rewrite Hnl, Ha, (IH Hall). reflexivity.
Qed.

(** The line scanner finds a header exactly where the text has the shape of
    one. *)
Lemma header_at_iff p s nd nw nh :
  header_at p s = Some (nd, nw, nh) <-> clause_header p s nd nw nh.
Proof.
  unfold header_at, clause_header. split.
  - destruct (line_start p); [|discriminate].
    pose proof (span_decompose Py.isdigit s) as [Hs _].
    pose proof (span_all Py.isdigit s) as Hds.
    destruct (span Py.isdigit s) as [ds r1]. cbn [fst snd] in *.
    destruct ds as [|d ds]; [discriminate|].
    destruct r1 as [|dot r2]; [discriminate|].
    destruct (Ascii.eqb_spec dot ".") as [->|_]; [|discriminate].
    pose proof (span_decompose Py.isspace r2) as [Hr2 _].
    pose proof (span_all Py.isspace r2) as Hws.
    destruct (span Py.isspace r2) as [ws r3]. cbn [fst snd] in *.
    destruct ws as [|w ws]; [discriminate|].
    destruct r3 as [|c r4]; [discriminate|].
    destruct (is_capital c) eqn:Ec; [|discriminate].
    destruct (heading_rest r4) as [h|] eqn:Eh; [|discriminate].
    intros H. injection H as <- <- <-.
    destruct (heading_rest_decompose r4 h Eh) as (hd & after & -> & -> & Hend & Hall).
    split; [reflexivity|].
    exists (String d ds), (String w ws), c, hd, after.
    rewrite Hs at 1. rewrite Hr2 at 1.
    repeat split; auto; simpl; lia.
  - intros (Hp & ds & ws & c & hd & after & -> & Hds & -> & Hnd & Hws & -> & Hnw & Hc & Hall
            & -> & Hend).
    rewrite Hp. rewrite (span_app Py.isdigit ds _ Hds) by reflexivity.
    destruct ds as [|d ds]; [simpl in Hnd; lia|].
    rewrite Ascii.eqb_refl.
    rewrite (span_app Py.isspace ws _ Hws).
    2:{ destruct (Py.isspace c) eqn:Es; [|reflexivity].
        rewrite (space_not_capital c Es) in Hc. discriminate. }
    destruct ws as [|w ws]; [simpl in Hnw; lia|].
    rewrite Hc, (heading_rest_app hd after Hall Hend). reflexivity.
Qed.

(** ** No header begins inside a header *)

Lemma append_assoc' (a b c : string) : ((a ++ b) ++ c)%string = (a ++ (b ++ c))%string.
Proof.
  induction a as [|x a IH]; [reflexivity|].
  rewrite !append_cons, IH. reflexivity.
Qed.

Lemma append_length (a b : string) :
  String.length (a ++ b)%string = (String.length a + String.length b)%nat.
Proof.
  induction a as [|x a IH]; [reflexivity|].
  rewrite append_cons. simpl. rewrite IH. reflexivity.
Qed.

Lemma all_chars_app P (a b : string) :
  all_chars P (a ++ b)%string = all_chars P a && all_chars P b.
Proof.
  induction a as [|x a IH]; [reflexivity|].
  rewrite append_cons. simpl. rewrite IH, andb_assoc. reflexivity.
Qed.

Lemma all_chars_impl (P Q : ascii -> bool) s :
  (forall a, P a = true -> Q a = true) -> all_chars P s = true -> all_chars Q s = true.
Proof.
  intros H. induction s as [|a s IH]; [reflexivity|]. simpl.
  rewrite !andb_true_iff. intros [Ha Hs]. auto.
Qed.

Lemma drop_app (w x : string) k :
  Py.drop (String.length w + k) (w ++ x)%string = Py.drop k x.
Proof.
  induction w as [|a w IH]; [reflexivity|].
  rewrite append_cons. simpl. exact IH.
Qed.

Lemma drop_all (s : string) k : (String.length s <= k)%nat -> Py.drop k s = EmptyString.
Proof.
  revert k. induction s as [|a s IH]; intros k Hk; [destruct k; reflexivity|].
  destruct k as [|k]; [simpl in Hk; lia|]. simpl in *. apply IH. lia.
Qed.

(** After one or more digits of a run of digits the position is not at the
    start of a line. *)
Lemma after_digit_no_line_start ds tail : forall p j,
  all_chars Py.isdigit ds = true -> (0 < j <= String.length ds)%nat ->
  line_start (last_of p (Py.take j (ds ++ tail)%string)) = false.
Proof.
  induction ds as [|d ds IH]; intros p j Hds Hj; [simpl in Hj; lia|].
  simpl in Hds. apply andb_true_iff in Hds as [Hd Hds].
  destruct j as [|j]; [lia|]. rewrite append_cons. cbn [Py.take last_of].
  destruct j as [|j].
  - destruct (ds ++ tail)%string; cbn [Py.take last_of line_start];
      apply digit_not_newline, Hd.
  - apply IH; [exact Hds|]. simpl in Hj. lia.
Qed.

(** Inside a piece without digits no integer begins. *)
Lemma no_digit_no_integer w tail : forall j,
  all_chars (fun a => negb (Py.isdigit a)) w = true -> (j < String.length w)%nat ->
  fst (span Py.isdigit (Py.drop j (w ++ tail)%string)) = EmptyString.
Proof.
  induction w as [|a w IH]; intros j Hw Hj; [simpl in Hj; lia|].
  simpl in Hw. apply andb_true_iff in Hw as [Ha Hw]. apply negb_true_iff in Ha.
  rewrite append_cons. destruct j as [|j].
  - cbn [Py.drop span]. rewrite Ha. reflexivity.
  - cbn [Py.drop]. apply IH; [exact Hw|]. simpl in Hj. lia.
Qed.

Lemma header_at_needs_line_start q t : line_start q = false -> header_at q t = None.
Proof. intros H. unfold header_at. rewrite H. reflexivity. Qed.

Lemma header_at_needs_integer q t :
  fst (span Py.isdigit t) = EmptyString -> header_at q t = None.
Proof.
  intros H. unfold header_at. destruct (line_start q); [|reflexivity].
  destruct (span Py.isdigit t) as [ds r1]. simpl in H. subst ds. reflexivity.
Qed.

Lemma header_no_inner p s nd nw nh j :
  header_at p s = Some (nd, nw, nh) ->
  (0 < j < nd + 1 + nw + nh)%nat ->
  header_at (last_of p (Py.take j s)) (Py.drop j s) = None.
Proof.
  intros H Hj.
  apply header_at_iff in H
    as (Hp & ds & ws & c & hd & after & -> & Hds & -> & Hnd & Hws & -> & Hnw & Hc & Hall
        & -> & Hend).
  destruct (Nat.le_gt_cases j (String.length ds)) as [Hle|Hgt].
  - apply header_at_needs_line_start, after_digit_no_line_start; [exact Hds|lia].
  - apply header_at_needs_integer.
    replace j with (String.length ds + S (j - String.length ds - 1))%nat by lia.
    rewrite drop_app. cbn [Py.drop].
    replace (ws ++ String c (hd ++ after))%string
      with ((ws ++ String c hd) ++ after)%string
      by (rewrite append_assoc', append_cons; reflexivity).
    apply no_digit_no_integer.
    + rewrite all_chars_app. cbn [all_chars]. rewrite !andb_true_iff. split; [|split].
      * eapply all_chars_impl; [|exact Hws]. intros a Ha.
        rewrite (space_not_digit a Ha). reflexivity.
      * rewrite (capital_not_digit c Hc). reflexivity.
      * eapply all_chars_impl; [|exact Hall]. intros a Ha.
        apply andb_true_iff in Ha as [Ha _]. unfold heading_char in Ha.
        apply orb_true_iff in Ha as [Ha|Ha];
          [rewrite (capital_not_digit a Ha)|rewrite (space_not_digit a Ha)]; reflexivity.
    + rewrite append_length. cbn [String.length]. lia.
Qed.

(** The matches of the clause pattern are the headers of the text. *)
Lemma clause_matches_headers text m :
  In m (finditer MULTILINE clause_pattern text) <->
  exists i lens, (i <= String.length text)%nat /\
                 header_at (last_of None (Py.take i text)) (Py.drop i text) = Some lens /\
                 m = header_match i lens.
Proof.
  unfold finditer. rewrite scan_In.
  - split.
    + intros (j & Hj & Hm). cbn [Nat.add] in Hm. rewrite match_at_clause in Hm.
      destruct (header_at _ _) as [lens|] eqn:E; [|discriminate].
      injection Hm as <-. exists j, lens. split; [lia|]. split; [exact E|reflexivity].
    + intros (i & lens & Hi & E & ->). exists i. split; [lia|].
      cbn [Nat.add]. rewrite match_at_clause, E. reflexivity.
  - intros [p s i] m0 Hm. rewrite match_at_clause in Hm.
    destruct (header_at p s) as [[[nd nw] nh]|] eqn:E; [|discriminate].
    injection Hm as <-. apply header_at_iff in E as (_ & _ & _ & _ & hd & _ & _ & _ & _ & _ & _ & _
                                                    & _ & _ & _ & -> & _).
    cbn [header_match m_start m_end]. lia.
  - intros p s i m0 j Hm Hj Hlt. rewrite match_at_clause in Hm |- *.
    destruct (header_at p s) as [[[nd nw] nh]|] eqn:E; [|discriminate].
    injection Hm as <-. cbn [header_match m_end] in Hlt.
    rewrite (header_no_inner p s nd nw nh j E); [reflexivity|lia].
Qed.

Lemma header_match_inj i lens i' lens' :
  header_match i lens = header_match i' lens' -> i = i' /\ lens = lens'.
Proof.
  destruct lens as [[nd nw] nh], lens' as [[nd' nw'] nh'].
  unfold header_match. intros H. injection H as Hi He Hh _ _ Hd. subst i'.
  assert (nd = nd') by lia. subst nd'.
  assert (nw = nw') by lia. subst nw'.
  assert (nh = nh') by lia. subst nh'. auto.
Qed.

(** What the loop of [extract_clauses] records for the match at index [i]. *)
Lemma clause_of_header text matches i j nd nw nh c :
  clause_of text matches i (header_match j (nd, nw, nh)) = Some c ->
  number c = Py.slice j (j + nd) text /\
  heading c = Py.strip (Py.slice (j + nd + 1 + nw) (j + nd + 1 + nw + nh) text) /\
  full_content c
  = Py.strip (Py.slice (j + nd + 1 + nw + nh) (content_end text matches i) text) /\
  content c = Py.take 500 (full_content c).
Proof.
  unfold clause_of, content_end.
  change (group text 1 (header_match j (nd, nw, nh))) with (Some (Py.slice j (j + nd) text)).
  change (group text 2 (header_match j (nd, nw, nh)))
    with (Some (Py.slice (j + nd + 1 + nw) (j + nd + 1 + nw + nh) text)).
  cbn [mbind option_bind header_match m_end].
  destruct (_extract_subclauses _) as [subs|]; [|discriminate].
  cbn [mbind option_bind]. intros H. injection H as <-.
  cbn [number heading full_content content]. auto.
Qed.

Lemma clauses_from_lookup text matches todo : forall i cs k m c,
  clauses_from text matches i todo = Some cs ->
  todo !! k = Some m -> cs !! k = Some c ->
  clause_of text matches (i + k) m = Some c.
Proof.
  induction todo as [|m0 todo IH]; intros i cs k m c Hcs Hm Hc; [discriminate|].
  cbn [clauses_from] in Hcs.
  destruct (clause_of text matches i m0) as [c0|] eqn:E0; [|discriminate].
  cbn [mbind option_bind] in Hcs.
  destruct (clauses_from text matches (S i) todo) as [cs'|] eqn:E'; [|discriminate].
  cbn [mbind option_bind] in Hcs. injection Hcs as <-.
  destruct k as [|k].
  - simpl in Hm, Hc. injection Hm as <-. injection Hc as <-.
    rewrite Nat.add_0_r. exact E0.
  - simpl in Hm, Hc. replace (i + S k)%nat with (S i + k)%nat by lia.
    eapply IH; eassumption.
Qed.

(** C3, as amended.  A clause is recognized at exactly the positions where
    a line begins with an integer, a period, whitespace and a heading that
    starts with a capital and goes on in capitals and whitespace to the end
    of its line; the matches are in text order and do not overlap; the
    [full_content] of a clause is the text between the end of its header and
    the start of the next header (the end of the text for the last clause),
    with the whitespace at both ends removed. *)
Theorem clause_segmentation (text : string) :
  let ms := finditer MULTILINE clause_pattern text in
  (forall i nd nw nh,
     In (header_match i (nd, nw, nh)) ms <->
     (i <= String.length text)%nat /\
     clause_header (last_of None (Py.take i text)) (Py.drop i text) nd nw nh) /\
  (forall m, In m ms -> exists i nd nw nh, m = header_match i (nd, nw, nh)) /\
  ordered_from 0 ms /\
  exists cs,
    extract_clauses text = Some cs /\ length cs = length ms /\
    forall k m c, ms !! k = Some m -> cs !! k = Some c ->
      exists i nd nw nh,
        m = header_match i (nd, nw, nh) /\
        number c = Py.slice i (i + nd) text /\
        heading c = Py.strip (Py.slice (i + nd + 1 + nw) (i + nd + 1 + nw + nh) text) /\
        full_content c = Py.strip (Py.slice (m_end m) (content_end text ms k) text) /\
        content c = Py.take 500 (full_content c).
Proof.
  intros ms. split; [|split; [|split]].
  - intros i nd nw nh. unfold ms. rewrite clause_matches_headers. split.
    + intros (i' & lens' & Hi & E & Hm). apply header_match_inj in Hm as [<- <-].
      split; [exact Hi|]. apply header_at_iff, E.
    + intros [Hi H]. apply header_at_iff in H. eauto.
  - intros m Hm. apply clause_matches_headers in Hm as (i & [[nd nw] nh] & _ & _ & ->).
    eauto.
  - apply finditer_ordered.
  - destruct (extract_clauses_total text) as (cs & Hcs & Hlen).
    exists cs. split; [exact Hcs|]. split; [exact Hlen|].
    intros k m c Hm Hc.
    assert (In m ms) as Hin by (apply list_elem_of_In, list_elem_of_lookup; eauto).
    apply clause_matches_headers in Hin as (i & [[nd nw] nh] & _ & _ & ->).
    exists i, nd, nw, nh. split; [reflexivity|].
    pose proof (clauses_from_lookup text ms ms 0 cs k _ c Hcs Hm Hc) as Hk.
    cbn [Nat.add] in Hk. apply clause_of_header in Hk. exact Hk.
Qed.

Lemma clause_segmentation_witness :
  In (header_match 0 (1, 1, 11)%nat) (finditer MULTILINE clause_pattern scenario_text) /\
  clause_header None scenario_text 1 1 11.
Proof.
  assert (In (header_match 0 (1, 1, 11)%nat) (finditer MULTILINE clause_pattern scenario_text))
    as Hin by (vm_compute; left; reflexivity).
  split; [exact Hin|].
  destruct (clause_segmentation scenario_text) as (Hrec & _).
  exact (proj2 (proj1 (Hrec 0 1 1 11)%nat Hin)).
Defined.

(** The claim C3 as stated fails: on the scenario text the [full_content]
    of the first clause is not the text between the two headers, which
    begins and ends with a newline; and a heading that is capitalized but
    not in capitals is not recognized. *)
Lemma clause_segmentation_counterexample :
  ~ content_is_raw_span scenario_text /\
  extract_clauses capitalized_text = Some [].
Proof.
  split; [|vm_compute; reflexivity].
  intros H.
  assert (finditer MULTILINE clause_pattern scenario_text
          = [header_match 0 (1, 1, 11); header_match 69 (1, 1, 15)]%nat) as Hms
    by (vm_compute; reflexivity).
  assert (exists c cs, extract_clauses scenario_text = Some (c :: cs) /\
                       full_content c = "This agreement may be terminated with 30 days notice.")
    as (c & cs & Hcs & Hc) by (eexists _, _; split; vm_compute; reflexivity).
  specialize (H (c :: cs) 0%nat (header_match 0 (1, 1, 11)) c Hcs).
  rewrite Hms in H. specialize (H eq_refl eq_refl).
  rewrite Hc in H. vm_compute in H. discriminate H.
Qed.

End ClauseHeader.

(* ===================================================================== *)
(** * The definition pattern as a scanner                                 *)
(* ===================================================================== *)

Section DefinitionScanner.

Import ReFacts.

Lemma chr_eq_quote a : chr_eq IGNORECASE dquote a = Ascii.eqb a dquote.
Proof. destruct a as [[] [] [] [] [] [] [] []]; vm_compute; reflexivity. Qed.

Lemma chr_eq_period a : chr_eq IGNORECASE "." a = Ascii.eqb a ".".
Proof. destruct a as [[] [] [] [] [] [] [] []]; vm_compute; reflexivity. Qed.

Lemma not_quote_class a : cls_mem IGNORECASE true [IChar dquote] a = not_quote a.
Proof.
  unfold cls_mem, not_quote. cbn [existsb item_mem]. rewrite orb_false_r, chr_eq_quote.
  destruct (Ascii.eqb a dquote); reflexivity.
Qed.

Lemma not_period_class a : cls_mem IGNORECASE true [IChar "."] a = not_period a.
Proof.
  unfold cls_mem, not_period. cbn [existsb item_mem]. rewrite orb_false_r, chr_eq_period.
  destruct (Ascii.eqb a "."); reflexivity.
Qed.

Lemma space_not_period a : Py.isspace a = true -> not_period a = true.
Proof.
  destruct a as [[] [] [] [] [] [] [] []]; vm_compute; intros H;
    first [reflexivity | discriminate H].
Qed.

Lemma space_not_first_letter a :
  Py.isspace a = true ->
  Ascii.eqb (Py.lower_char "m") (Py.lower_char a)
  || Ascii.eqb (Py.lower_char "i") (Py.lower_char a)
  || Ascii.eqb (Py.lower_char "s") (Py.lower_char a)
  || Ascii.eqb (Py.lower_char "r") (Py.lower_char a) = false.
Proof.
  destruct a as [[] [] [] [] [] [] [] []]; vm_compute; intros H;
    first [reflexivity | discriminate H].
Qed.

Lemma space_not_trigger a s : Py.isspace a = true -> trigger_at (String a s) = None.
Proof.
  intros H. apply space_not_first_letter in H.
  apply orb_false_iff in H as [H Hr]. apply orb_false_iff in H as [H Hs].
  apply orb_false_iff in H as [Hm Hi].
  unfold trigger_at, trigger_words. cbn [List.find ci_prefix].
  rewrite Hm, Hi, Hs, Hr. reflexivity.
Qed.

Lemma fwd_empty c : fwd c EmptyString (rest c) = c.
Proof. destruct c as [p s i]. unfold fwd. cbn. f_equal. lia. Qed.

(** A literal word is a prefix test that ignores case. *)
Lemma run_lit w : forall c g k,
  run IGNORECASE (lit w) c g k
  = if ci_prefix w (rest c)
    then k (fwd c (Py.take (String.length w) (rest c)) (Py.drop (String.length w) (rest c))) g
    else None.
Proof.
  induction w as [|a w IH]; intros [p s i] g k.
  - cbn [lit run ci_prefix String.length Py.take Py.drop rest].
    rewrite <- (fwd_empty (mkCursor p s i)) at 1. reflexivity.
  - assert (run IGNORECASE (lit (String a w)) (mkCursor p s i) g k
            = one (chr_eq IGNORECASE a) (mkCursor p s i) g
                  (fun c' g' => run IGNORECASE (lit w) c' g' k)) as ->.
    { destruct w; reflexivity. }
    destruct s as [|b s]; [reflexivity|].
    rewrite one_cons. cbn [ci_prefix rest]. unfold chr_eq. cbn [ignorecase IGNORECASE].
    destruct (Ascii.eqb (Py.lower_char a) (Py.lower_char b)); [|reflexivity].
    rewrite IH. cbn [rest andb]. destruct (ci_prefix w s); [|reflexivity].
    unfold fwd. cbn [prev pos String.length Py.take Py.drop last_of]. do 2 f_equal. lia.
Qed.

Lemma ci_prefix_first a w b w' s :
  ci_prefix (String a w) s = true -> ci_prefix (String b w') s = true ->
  Py.lower_char a = Py.lower_char b.
Proof.
  destruct s as [|x s]; [discriminate|]. cbn [ci_prefix].
  rewrite !andb_true_iff, !Ascii.eqb_eq. intros [-> _] [-> _]. reflexivity.
Qed.

(** The alternatives [means|is|shall|refers to]: their first letters differ,
    so at most one of them begins the text. *)
Lemma run_triggers c g k :
  run IGNORECASE (alt [lit "means"; lit "is"; lit "shall"; lit "refers to"]) c g k
  = match trigger_at (rest c) with
    | Some n => k (fwd c (Py.take n (rest c)) (Py.drop n (rest c))) g
    | None => None
    end.
Proof.
  cbn [alt]. cbn [run]. rewrite !run_lit.
  unfold trigger_at, trigger_words. cbn [List.find].
  assert (forall a w b w', Py.lower_char a <> Py.lower_char b ->
            ci_prefix (String a w) (rest c) = true ->
            ci_prefix (String b w') (rest c) = false) as Hother.
  { intros a w b w' Hne Ha. destruct (ci_prefix (String b w') (rest c)) eqn:Eb; [|reflexivity].
    exfalso. apply Hne. eapply ci_prefix_first; eassumption. }
  destruct (ci_prefix "means" (rest c)) eqn:E1.
  { rewrite (Hother "m"%char "eans" "i"%char "s"); [|vm_compute; discriminate|exact E1].
    rewrite (Hother "m"%char "eans" "s"%char "hall"); [|vm_compute; discriminate|exact E1].
    rewrite (Hother "m"%char "eans" "r"%char "efers to"); [|vm_compute; discriminate|exact E1].
    cbn [option_map]. destruct (k _ g); reflexivity. }
  destruct (ci_prefix "is" (rest c)) eqn:E2.
  { rewrite (Hother "i"%char "s" "s"%char "hall"); [|vm_compute; discriminate|exact E2].
    rewrite (Hother "i"%char "s" "r"%char "efers to"); [|vm_compute; discriminate|exact E2].
    cbn [option_map]. destruct (k _ g); reflexivity. }
  destruct (ci_prefix "shall" (rest c)) eqn:E3.
  { rewrite (Hother "s"%char "hall" "r"%char "efers to"); [|vm_compute; discriminate|exact E3].
    cbn [option_map]. destruct (k _ g); reflexivity. }
  destruct (ci_prefix "refers to" (rest c)); reflexivity.
Qed.

Lemma span_app_left P w r :
  all_chars P w = true ->
  span P (w ++ r)%string = ((w ++ fst (span P r))%string, snd (span P r)).
Proof.
  intros Hw. induction w as [|a w IH].
  - rewrite !append_empty_l. destruct (span P r); reflexivity.
  - simpl in Hw. apply andb_true_iff in Hw as [Ha Hw].
    rewrite !append_cons. cbn [span]. rewrite Ha, (IH Hw). reflexivity.
Qed.

(** The group [([^.]+\.)]: the text up to and including the next period,
    with at least one character in front of the period. *)
Lemma run_def_group c g kf :
  run IGNORECASE (Grp 2 (Seq (plus (Cls true [IChar "."])) (Chr "."))) c g kf
  = match fst (span not_period (rest c)), snd (span not_period (rest c)) with
    | String x body, String dot r7 =>
        kf (mkCursor (Some dot) r7 (S (pos c + String.length (String x body))))
           ((2, (pos c, S (pos c + String.length (String x body)))) :: g)
    | _, _ => None
    end.
Proof.
  cbn [run]. fold (plus (Cls true [IChar "."])).
  rewrite run_plus_cls.
  2:{ intros [p' s' i'] g' Hn. unfold next_is in Hn. cbn [rest] in Hn.
      destruct s' as [|a s']; [discriminate|].
      rewrite not_period_class in Hn. rewrite one_cons, chr_eq_period.
      unfold not_period in Hn. apply negb_true_iff in Hn. rewrite Hn. reflexivity. }
  rewrite (span_ext _ not_period (rest c) not_period_class).
  pose proof (span_decompose not_period (rest c)) as [_ Hmax].
  destruct (span not_period (rest c)) as [body r6]. cbn [fst snd] in *.
  destruct body as [|x body]; [reflexivity|].
  destruct r6 as [|dot r7]; [reflexivity|].
  unfold fwd. rewrite one_cons, chr_eq_period.
  unfold not_period in Hmax. apply negb_false_iff in Hmax. rewrite Hmax.
  cbn [pos]. reflexivity.
Qed.

(** [\s*] in front of the group: the whitespace is not part of the
    definition, unless the period follows it at once; then the last
    whitespace character is. *)
Lemma star_space_def kf r5 :
  match r5 with String a _ => Py.isspace a = false | EmptyString => True end ->
  forall ws n p i g,
    all_chars Py.isspace ws = true -> (String.length ws <= n)%nat ->
    (forall c' g', (i < pos c')%nat -> kf c' g' = Some (c', g')) ->
    rep_opt (one (cls_mem IGNORECASE false [ISpace])) true n
            (mkCursor p (ws ++ r5)%string i) g
            (fun c g => run IGNORECASE (Grp 2 (Seq (plus (Cls true [IChar "."])) (Chr "."))) c g kf)
    = match snd (span not_period r5), fst (span not_period r5), ws with
      | String dot r7, String x body, _ =>
          Some (mkCursor (Some dot) r7
                         (S (i + String.length ws + String.length (String x body))),
                (2, (i + String.length ws,
                     S (i + String.length ws + String.length (String x body)))%nat) :: g)
      | String dot r7, EmptyString, String _ _ =>
          Some (mkCursor (Some dot) r7 (S (i + String.length ws)),
                (2, (i + String.length ws - 1, S (i + String.length ws))%nat) :: g)
      | _, _, _ => None
      end.
Proof.
  intros Hr5. induction ws as [|a ws IH]; intros n p i g Hws Hn Hkf.
  - rewrite append_empty_l.
    assert (rep_opt (one (cls_mem IGNORECASE false [ISpace])) true n (mkCursor p r5 i) g
              (fun c g => run IGNORECASE (Grp 2 (Seq (plus (Cls true [IChar "."])) (Chr "."))) c g kf)
            = run IGNORECASE (Grp 2 (Seq (plus (Cls true [IChar "."])) (Chr ".")))
                  (mkCursor p r5 i) g kf) as ->.
    { destruct n as [|n]; [reflexivity|]. rewrite rep_opt_S.
      destruct r5 as [|b r5]; [rewrite one_empty; reflexivity|].
      rewrite one_cons, space_class, Hr5. reflexivity. }
    rewrite run_def_group. cbn [rest pos String.length]. rewrite Nat.add_0_r.
    destruct (span not_period r5) as [body r6]. cbn [fst snd].
    destruct body as [|x body]; [destruct r6; reflexivity|].
    destruct r6 as [|dot r7]; [reflexivity|].
    apply Hkf. cbn [pos]. lia.
  - cbn [all_chars] in Hws. apply andb_true_iff in Hws as [Ha Hws].
    cbn [String.length] in Hn. destruct n as [|n]; [lia|].
    rewrite append_cons, rep_opt_S, one_cons, space_class, Ha. cbn [pos].
    replace (i <? S i)%nat with true by (symmetry; apply Nat.ltb_lt; lia).
    rewrite IH; [|exact Hws|lia|intros c' g' Hc'; apply Hkf; lia].
    rewrite run_def_group. cbn [rest pos].
    rewrite <- append_cons.
    rewrite (span_app_left not_period (String a ws) r5).
    2:{ cbn [all_chars]. rewrite (space_not_period a Ha).
        apply (all_chars_impl Py.isspace); [apply space_not_period|exact Hws]. }
    destruct (span not_period r5) as [body r6]. cbn [fst snd].
    rewrite append_cons.
    destruct r6 as [|dot r7]; [destruct body; reflexivity|].
    destruct body as [|x body].
    + destruct ws as [|w ws].
      * rewrite append_empty_l. rewrite Hkf by (cbn [pos]; lia).
        cbn [String.length]. same_state.
      * cbn [String.length]. same_state.
    + cbn [String.length]. same_state.
Qed.

Lemma run_Seq f r1 r2 c g k :
  run f (Seq r1 r2) c g k = run f r1 c g (fun c' g' => run f r2 c' g' k).
Proof. reflexivity. Qed.

Lemma run_Grp f n r c g k :
  run f (Grp n r) c g k = run f r c g (fun c' g' => k c' ((n, (pos c, pos c')) :: g')).
Proof. reflexivity. Qed.

Lemma run_Chr f a c g k : run f (Chr a) c g k = one (chr_eq f a) c g k.
Proof. reflexivity. Qed.

Lemma run_star f r c g k :
  run f (star r) c g k = rep_opt (run f r) true (String.length (rest c)) c g k.
Proof. reflexivity. Qed.

Lemma ci_prefix_take w : forall s,
  ci_prefix w s = true -> String.length (Py.take (String.length w) s) = String.length w.
Proof.
  induction w as [|a w IH]; intros s H; [reflexivity|].
  destruct s as [|b s]; [discriminate|]. cbn [ci_prefix] in H.
  apply andb_true_iff in H as [_ H]. cbn [String.length Py.take]. rewrite (IH s H).
  reflexivity.
Qed.

Lemma trigger_at_take s n :
  trigger_at s = Some n -> String.length (Py.take n s) = n.
Proof.
  unfold trigger_at. destruct (List.find _ trigger_words) as [w|] eqn:E; [|discriminate].
  intros H. injection H as <-. apply find_some in E as [_ E]. apply ci_prefix_take, E.
Qed.

(** At any position the definition pattern finds what the scanner finds. *)
Lemma match_at_definition ma p s i :
  match_at IGNORECASE definition_pattern ma (mkCursor p s i)
  = option_map (definition_match i) (definition_at s).
Proof.
  unfold match_at, definition_at, definition_pattern.
  match goal with |- context [run _ _ _ _ ?k] => set (kf := k) end.
  assert (forall c' g', (S i <= pos c')%nat -> kf c' g' = Some (c', g')) as Hkf.
  { intros c' g' Hc'. unfold kf. cbn [pos].
    replace (pos c' =? i)%nat with false by (symmetry; apply Nat.eqb_neq; lia).
    rewrite andb_false_r. reflexivity. }
  clearbody kf. cbn [seq].
  (* the opening quote *)
  rewrite run_Seq, run_Chr.
  destruct s as [|q s1]; [reflexivity|].
  rewrite one_cons, chr_eq_quote.
  destruct (Ascii.eqb q dquote); [|reflexivity].
  (* the term *)
  rewrite run_Seq, run_Grp, run_plus_cls.
  2:{ intros [p' s' i'] g' Hn. unfold next_is in Hn. cbn [rest] in Hn.
      destruct s' as [|a s']; [discriminate|].
      rewrite not_quote_class in Hn. rewrite run_Seq, run_Chr, one_cons, chr_eq_quote.
      unfold not_quote in Hn. apply negb_true_iff in Hn. rewrite Hn. reflexivity. }
  cbn [rest]. rewrite (span_ext _ not_quote s1 not_quote_class).
  pose proof (span_decompose not_quote s1) as [_ Hq2].
  destruct (span not_quote s1) as [t r1]. cbn [fst snd] in *.
  destruct t as [|t0 t]; [reflexivity|].
  (* the closing quote *)
  unfold fwd. cbn [prev pos]. rewrite run_Seq, run_Chr.
  destruct r1 as [|q2 r2]; [reflexivity|].
  rewrite one_cons, chr_eq_quote.
  unfold not_quote in Hq2. apply negb_false_iff in Hq2. rewrite Hq2.
  (* whitespace and the trigger word *)
  rewrite run_Seq. unfold space at 1. rewrite run_star_cls.
  2:{ intros [p' s' i'] g' Hn. unfold next_is in Hn. cbn [rest] in Hn.
      destruct s' as [|a s']; [discriminate|].
      rewrite space_class in Hn. rewrite run_Seq, run_triggers. cbn [rest].
      rewrite (space_not_trigger a s' Hn). reflexivity. }
  cbn [rest]. rewrite (span_ext _ Py.isspace r2 (space_class IGNORECASE)).
  destruct (span Py.isspace r2) as [ws1 r3]. cbn [fst snd].
  unfold fwd. cbn [prev pos]. rewrite run_Seq, run_triggers. cbn [rest].
  destruct (trigger_at r3) as [ntrig|] eqn:Etrig; [|reflexivity].
  (* whitespace and the definition *)
  unfold fwd. cbn [prev pos]. rewrite (trigger_at_take r3 ntrig Etrig). rewrite run_Seq. unfold space at 1. rewrite run_star.
  change (run IGNORECASE (Cls false [ISpace])) with (one (cls_mem IGNORECASE false [ISpace])).
  cbn [rest].
  pose proof (span_decompose Py.isspace (Py.drop ntrig r3)) as [Hr4 Hr5].
  pose proof (span_all Py.isspace (Py.drop ntrig r3)) as Hws2.
  pose proof (span_length Py.isspace (Py.drop ntrig r3)) as Hlen.
  set (r4 := Py.drop ntrig r3) in *. clearbody r4.
  destruct (span Py.isspace r4) as [ws2 r5]. cbn [fst snd] in *.
  rewrite Hr4 at 2.
  rewrite (star_space_def kf r5 Hr5 ws2);
    [|exact Hws2|exact Hlen|intros c' g' Hc'; apply Hkf; lia].
  destruct (span not_period r5) as [body r6]. cbn [fst snd].
  destruct r6 as [|dot r7]; [reflexivity|].
  destruct body as [|x body].
  - destruct ws2 as [|w ws2]; [reflexivity|].
    cbn [option_map definition_match pos String.length]. same_match.
  - cbn [option_map definition_match pos String.length]. same_match.
Qed.

(** ** The scanner and the shape of a definition *)

Lemma lower_length s : String.length (Py.lower s) = String.length s.
Proof. induction s as [|a s IH]; [reflexivity|]. simpl. rewrite IH. reflexivity. Qed.

Lemma lower_char_idem a : Py.lower_char (Py.lower_char a) = Py.lower_char a.
Proof. destruct a as [[] [] [] [] [] [] [] []]; vm_compute; reflexivity. Qed.

Lemma take_drop_id n s : (Py.take n s ++ Py.drop n s)%string = s.
Proof.
  revert s. induction n as [|n IH]; intros s; [destruct s; reflexivity|].
  destruct s as [|a s]; [reflexivity|]. cbn [Py.take Py.drop].
  rewrite append_cons, IH. reflexivity.
Qed.

(** A word begins [s], case ignored, exactly when the lower-case image of
    the piece of [s] of its length is the lower-case image of the word. *)
Lemma ci_prefix_lower w : forall s,
  ci_prefix w s = true ->
  Py.lower (Py.take (String.length w) s) = Py.lower w.
Proof.
  induction w as [|a w IH]; intros s H; [reflexivity|].
  destruct s as [|b s]; [discriminate|]. cbn [ci_prefix] in H.
  apply andb_true_iff in H as [Hab H]. apply Ascii.eqb_eq in Hab.
  cbn [String.length Py.take Py.lower]. rewrite (IH s H), Hab. reflexivity.
Qed.

Lemma ci_prefix_app trig rest :
  ci_prefix (Py.lower trig) (trig ++ rest)%string = true.
Proof.
  induction trig as [|a trig IH]; [reflexivity|].
  rewrite append_cons. cbn [Py.lower ci_prefix].
  rewrite lower_char_idem, Ascii.eqb_refl, IH. reflexivity.
Qed.

Lemma trigger_words_lowercase : Forall (fun w => Py.lower w = w) trigger_words.
Proof. repeat constructor. Qed.

(** Where a trigger word begins the text, [trigger_at] gives its length. *)
Lemma trigger_at_app trig rest :
  In (Py.lower trig) trigger_words ->
  trigger_at (trig ++ rest)%string = Some (String.length trig).
Proof.
  intros Hin. pose proof (ci_prefix_app trig rest) as Hp.
  rewrite <- (lower_length trig).
  assert (forall a w b w', Py.lower_char a <> Py.lower_char b ->
            ci_prefix (String a w) (trig ++ rest)%string = true ->
            ci_prefix (String b w') (trig ++ rest)%string = false) as Hother.
  { intros a w b w' Hne Ha.
    destruct (ci_prefix (String b w') (trig ++ rest)%string) eqn:Eb; [|reflexivity].
    exfalso. apply Hne. eapply ci_prefix_first; eassumption. }
  unfold trigger_at, trigger_words in *. cbn [List.find].
  destruct Hin as [E|[E|[E|[E|[]]]]]; rewrite <- E in Hp |- *.
  - rewrite Hp. reflexivity.
  - rewrite (Hother "i"%char "s" "m"%char "eans"); [|vm_compute; discriminate|exact Hp].
    rewrite Hp. reflexivity.
  - rewrite (Hother "s"%char "hall" "m"%char "eans"); [|vm_compute; discriminate|exact Hp].
    rewrite (Hother "s"%char "hall" "i"%char "s"); [|vm_compute; discriminate|exact Hp].
    rewrite Hp. reflexivity.
  - rewrite (Hother "r"%char "efers to" "m"%char "eans"); [|vm_compute; discriminate|exact Hp].
    rewrite (Hother "r"%char "efers to" "i"%char "s"); [|vm_compute; discriminate|exact Hp].
    rewrite (Hother "r"%char "efers to" "s"%char "hall"); [|vm_compute; discriminate|exact Hp].
    rewrite Hp. reflexivity.
Qed.

Lemma trigger_at_word s n :
  trigger_at s = Some n ->
  In (Py.lower (Py.take n s)) trigger_words /\ String.length (Py.take n s) = n.
Proof.
  intros H. split; [|apply trigger_at_take, H].
  unfold trigger_at in H.
  destruct (List.find _ trigger_words) as [w|] eqn:E; [|discriminate].
  injection H as <-. apply find_some in E as [Hin E].
  rewrite (ci_prefix_lower w s E).
  rewrite (proj1 (List.Forall_forall _ _) trigger_words_lowercase w Hin). exact Hin.
Qed.

Lemma trigger_first_not_space trig :
  In (Py.lower trig) trigger_words ->
  exists a trig', trig = String a trig' /\ Py.isspace a = false.
Proof.
  intros Hin. destruct trig as [|a trig].
  - exfalso. cbn in Hin. intuition discriminate.
  - exists a, trig. split; [reflexivity|].
    destruct (Py.isspace a) eqn:Ea; [|reflexivity]. exfalso.
    apply space_not_first_letter in Ea.
    apply orb_false_iff in Ea as [Ea Hr]. apply orb_false_iff in Ea as [Ea Hs].
    apply orb_false_iff in Ea as [Hm Hi].
    cbn [Py.lower] in Hin. unfold trigger_words in Hin. cbn [In] in Hin.
    destruct Hin as [E|[E|[E|[E|[]]]]]; injection E as E _;
      rewrite <- E in Hm, Hi, Hs, Hr; vm_compute in Hm, Hi, Hs, Hr; congruence.
Qed.

Lemma drop_app_exact (w x : string) : Py.drop (String.length w) (w ++ x)%string = x.
Proof.
  rewrite <- (Nat.add_0_r (String.length w)), drop_app. destruct x; reflexivity.
Qed.

Lemma append_empty_r (s : string) : (s ++ EmptyString)%string = s.
Proof. induction s as [|a s IH]; [reflexivity|]. rewrite append_cons, IH. reflexivity. Qed.

(** The scanner finds a definition exactly where the text has the shape of
    one. *)
Lemma definition_at_shape s nt nw1 ntrig nrest :
  (exists nw2 ndef,
     definition_at s = Some (nt, nw1, ntrig, nw2, ndef) /\ (nw2 + ndef)%nat = nrest)
  <-> definition_shape s nt nw1 ntrig nrest.
Proof.
  unfold definition_shape. split.
  - intros (nw2 & ndef & H & <-). unfold definition_at in H.
    destruct s as [|q s1]; [discriminate|].
    destruct (Ascii.eqb_spec q dquote) as [->|_]; [|discriminate].
    pose proof (span_decompose not_quote s1) as [Hs1 Hq2].
    pose proof (span_all not_quote s1) as Ht.
    destruct (span not_quote s1) as [t r1]. cbn [fst snd] in *.
    destruct t as [|t0 t]; [discriminate|].
    destruct r1 as [|q2 r2]; [discriminate|].
    unfold not_quote in Hq2. apply negb_false_iff, Ascii.eqb_eq in Hq2. subst q2.
    pose proof (span_decompose Py.isspace r2) as [Hr2 _].
    pose proof (span_all Py.isspace r2) as Hws1.
    destruct (span Py.isspace r2) as [ws1 r3]. cbn [fst snd] in *.
    destruct (trigger_at r3) as [n|] eqn:Etrig; [|discriminate].
    destruct (trigger_at_word r3 n Etrig) as [Hword Hn].
    pose proof (take_drop_id n r3) as Hr3.
    pose proof (span_decompose Py.isspace (Py.drop n r3)) as [Hr4 _].
    pose proof (span_all Py.isspace (Py.drop n r3)) as Hws2.
    destruct (span Py.isspace (Py.drop n r3)) as [ws2 r5]. cbn [fst snd] in *.
    pose proof (span_decompose not_period r5) as [Hr5 Hdot].
    pose proof (span_all not_period r5) as Hbody.
    destruct (span not_period r5) as [body r6]. cbn [fst snd] in *.
    destruct r6 as [|dot r7]; [discriminate|].
    unfold not_period in Hdot. apply negb_false_iff, Ascii.eqb_eq in Hdot. subst dot.
    assert (s1 = (String t0 t ++ String dquote ws1 ++ Py.take n r3
                  ++ (ws2 ++ body) ++ String "." r7)%string) as Hshape.
    { rewrite Hs1 at 1. f_equal. rewrite append_cons. f_equal. rewrite Hr2 at 1. f_equal.
      rewrite <- Hr3 at 1. f_equal. rewrite Hr4 at 1. rewrite append_assoc'. f_equal.
      exact Hr5. }
    assert (all_chars not_period (ws2 ++ body)%string = true) as HX.
    { rewrite all_chars_app, Hbody, andb_true_r.
      apply (all_chars_impl Py.isspace); [apply space_not_period|exact Hws2]. }
    destruct body as [|x body].
    + destruct ws2 as [|w ws2]; [discriminate|]. injection H as <- <- <- <- <-.
      exists (String t0 t), ws1, (Py.take n r3), (String w ws2 ++ EmptyString)%string, r7.
      rewrite Hshape at 1. rewrite append_cons.
      repeat split; auto; rewrite ?append_empty_r; cbn [String.length]; lia.
    + injection H as <- <- <- <- <-.
      exists (String t0 t), ws1, (Py.take n r3), (ws2 ++ String x body)%string, r7.
      rewrite Hshape at 1. rewrite append_cons.
      repeat split; auto; rewrite ?append_length; cbn [String.length]; lia.
  - intros (t & ws1 & trig & X & after & -> & Ht & -> & Hnt & Hws1 & -> & Htrig & -> & HX
            & -> & Hrest).
    destruct (trigger_first_not_space trig Htrig) as (a & trig' & Etrig & Ha).
    pose proof (span_decompose Py.isspace X) as [HXs Hmax].
    pose proof (span_all Py.isspace X) as Hws2.
    destruct (span Py.isspace X) as [ws2 X'] eqn:EX. cbn [fst snd] in *.
    assert (all_chars not_period X' = true) as HX'.
    { rewrite HXs, all_chars_app in HX. apply andb_true_iff in HX. apply HX. }
    rewrite append_cons. unfold definition_at. rewrite Ascii.eqb_refl.
    rewrite (span_app not_quote t _ Ht) by reflexivity.
    destruct t as [|t0 t]; [simpl in Hnt; lia|].
    rewrite append_cons. rewrite (span_app Py.isspace ws1 _ Hws1)
      by (rewrite Etrig, append_cons; exact Ha).
    rewrite (trigger_at_app trig _ Htrig).
    rewrite drop_app_exact.
    replace (X ++ String "." after)%string with (ws2 ++ X' ++ String "." after)%string
      by (rewrite HXs at 1; rewrite append_assoc'; reflexivity).
    rewrite (span_app Py.isspace ws2 _ Hws2).
    2:{ destruct X' as [|x X']; [reflexivity|]. rewrite append_cons. exact Hmax. }
    rewrite (span_app not_period X' _ HX') by reflexivity.
    assert (String.length X = String.length ws2 + String.length X')%nat as Hlen
      by (rewrite HXs at 1; apply append_length).
    destruct X' as [|x X'].
    + destruct ws2 as [|w ws2]; [simpl in Hlen; lia|].
      eexists _, _. split; [reflexivity|]. cbn [String.length] in *. lia.
    + eexists _, _. split; [reflexivity|]. cbn [String.length] in *. lia.
Qed.

(** ** The matches of the definition pattern and the mapping *)

Lemma definition_match_nonempty c m :
  match_at IGNORECASE definition_pattern false c = Some m -> (m_start m < m_end m)%nat.
Proof.
  destruct c as [p s i]. rewrite match_at_definition.
  destruct (definition_at s) as [[[[[nt nw1] ntrig] nw2] ndef]|] eqn:E; [|discriminate].
  intros H. injection H as <-. cbn [definition_match m_start m_end]. lia.
Qed.

Lemma entry_of_definition text i nt nw1 ntrig nw2 ndef :
  entry_of text (definition_match i (nt, nw1, ntrig, nw2, ndef))
  = Some (Py.strip (Py.slice (i + 1) (i + 1 + nt) text),
          Py.strip (Py.slice (i + 1 + nt + 1 + nw1 + ntrig + nw2)
                             (i + 1 + nt + 1 + nw1 + ntrig + nw2 + ndef) text)).
Proof. reflexivity. Qed.

(** The mapping after the loop holds, for every term, the definition of the
    last match with that term. *)
Lemma definitions_loop_last text ms : forall defs0 defs,
  definitions_loop text ms defs0 = Some defs ->
  exists entries,
    mapM (entry_of text) ms = Some entries /\
    forall term, defs !! term
                 = match last_def term entries with
                   | Some d => Some d
                   | None => defs0 !! term
                   end.
Proof.
  induction ms as [|m ms IH]; intros defs0 defs H.
  - injection H as <-. exists []. split; [reflexivity|]. intros term. reflexivity.
  - cbn [definitions_loop] in H. unfold entry_of. cbn [mapM].
    destruct (group text 1 m) as [g1|]; [|discriminate].
    destruct (group text 2 m) as [g2|]; [|discriminate].
    cbn [mbind option_bind] in H |- *.
    destruct (IH _ _ H) as (entries & Hentries & Hlookup).
    fold (entry_of text). rewrite Hentries. cbn [mbind option_bind mret option_ret].
    eexists. split; [reflexivity|]. intros term. rewrite Hlookup. cbn [last_def].
    destruct (last_def term entries) as [d|]; [reflexivity|].
    destruct (String.eqb_spec (Py.strip g1) term) as [->|Hne].
    + apply lookup_insert_eq.
    + apply lookup_insert_ne, Hne.
Qed.

Lemma last_def_Some term entries :
  is_Some (last_def term entries) <-> exists d, In (term, d) entries.
Proof.
  induction entries as [|[t d0] entries IH]; cbn [last_def].
  - split; [intros [d H]; discriminate|intros [d []]].
  - destruct (last_def term entries) as [d'|].
    + split; [|eauto]. intros _. destruct (proj1 IH) as [d Hd]; [eauto|].
      exists d. right. exact Hd.
    + destruct (String.eqb_spec t term) as [->|Hne].
      * split; [|eauto]. intros _. exists d0. left. reflexivity.
      * split; [intros [d H]; discriminate|].
        intros [d [E|Hin]]; [congruence|]. apply IH. eauto.
Qed.

(** C8, as amended.  The matches of the scan are found at double quotes
    where a definition begins: a term in double quotes, whitespace if any, a
    trigger word in any case, whitespace if any, and the text up to and
    including the next period, with at least one character in front of the
    period; they do not overlap, and a place where a definition begins is
    left out only when it lies inside an earlier match.  A term, stripped of
    outer whitespace, is mapped exactly when some match of the scan has it,
    and it is mapped to the stripped definition of the last such match. *)
Theorem definitions_last_match_wins (text : string) :
  let ms := finditer IGNORECASE definition_pattern text in
  (forall s nt nw1 ntrig nrest,
     (exists nw2 ndef,
        definition_at s = Some (nt, nw1, ntrig, nw2, ndef) /\ (nw2 + ndef)%nat = nrest)
     <-> definition_shape s nt nw1 ntrig nrest) /\
  (forall m, In m ms ->
     exists i lens, (i <= String.length text)%nat /\
                    definition_at (Py.drop i text) = Some lens /\ m = definition_match i lens) /\
  ordered_from 0 ms /\
  (forall i lens, (i <= String.length text)%nat ->
     definition_at (Py.drop i text) = Some lens ->
     In (definition_match i lens) ms \/
     exists m, In m ms /\ (m_start m < i < m_end m)%nat) /\
  (forall i nt nw1 ntrig nw2 ndef,
     entry_of text (definition_match i (nt, nw1, ntrig, nw2, ndef))
     = Some (Py.strip (Py.slice (i + 1) (i + 1 + nt) text),
             Py.strip (Py.slice (i + 1 + nt + 1 + nw1 + ntrig + nw2)
                                (i + 1 + nt + 1 + nw1 + ntrig + nw2 + ndef) text))) /\
  exists entries defs,
    mapM (entry_of text) ms = Some entries /\
    extract_definitions text = Some defs /\
    (forall term, defs !! term = last_def term entries) /\
    (forall term, is_Some (defs !! term) <-> exists d, In (term, d) entries).
Proof.
  intros ms.
  destruct (scan_cover IGNORECASE definition_pattern definition_match_nonempty text 0 None 0)
    as [Hsound Hcover].
  fold (finditer IGNORECASE definition_pattern text) in Hsound, Hcover. fold ms in Hsound, Hcover.
  split; [exact definition_at_shape|].
  split; [|split; [|split; [|split]]].
  - intros m Hin. apply Hsound in Hin as (j & Hj & Hm). cbn [Nat.add] in Hm.
    rewrite match_at_definition in Hm.
    destruct (definition_at (Py.drop j text)) as [lens|] eqn:E; [|discriminate].
    injection Hm as <-. exists j, lens. split; [lia|]. split; [exact E|reflexivity].
  - apply finditer_ordered.
  - intros i lens Hi E.
    destruct (Hcover i (definition_match i lens)) as [Hin|Hov]; [lia| |left; exact Hin|].
    + cbn [Nat.add]. rewrite match_at_definition, E. reflexivity.
    + right. exact Hov.
  - intros. apply entry_of_definition.
  - destruct (extract_definitions_total text) as [defs Hdefs].
    destruct (definitions_loop_last text ms ∅ defs Hdefs) as (entries & Hentries & Hlookup).
    exists entries, defs. split; [exact Hentries|]. split; [exact Hdefs|].
    assert (forall term, defs !! term = last_def term entries) as Hlast.
    { intros term. rewrite Hlookup. destruct (last_def term entries); [reflexivity|].
      apply lookup_empty. }
    split; [exact Hlast|].
    intros term. rewrite Hlast. apply last_def_Some.
Qed.

Lemma definitions_last_match_wins_witness :
  In (definition_match 0 (1, 1, 2, 1, 11)%nat)
     (finditer IGNORECASE definition_pattern overlapped_text) /\
  exists i lens,
    (i <= String.length overlapped_text)%nat /\
    definition_at (Py.drop i overlapped_text) = Some lens /\
    definition_match 0 (1, 1, 2, 1, 11)%nat = definition_match i lens.
Proof.
  assert (In (definition_match 0 (1, 1, 2, 1, 11)%nat)
             (finditer IGNORECASE definition_pattern overlapped_text))
    as Hin by (vm_compute; left; reflexivity).
  split; [exact Hin|].
  destruct (definitions_last_match_wins overlapped_text) as (_ & Hsound & _).
  exact (Hsound _ Hin).
Defined.

(** The claim C8 as stated fails: in [overlapped_text] the term y stands in
    double quotes in front of the trigger word "means", and it is not
    mapped, because it lies inside the definition of x. *)
Lemma definitions_counterexample : ~ defined_exactly_when_quoted overlapped_text.
Proof.
  intros H.
  assert (exists defs, extract_definitions overlapped_text = Some defs /\ defs !! "y" = None)
    as (defs & Hdefs & Hy) by (eexists; split; vm_compute; reflexivity).
  destruct (H defs "y" Hdefs) as [_ Hback].
  destruct Hback as [d Hd].
  - exists (String dquote "x" ++ String dquote " is ")%string, "means", " z.".
    split; [reflexivity|]. left. reflexivity.
  - rewrite Hy in Hd. discriminate.
Qed.

End DefinitionScanner.

(* ===================================================================== *)
(** * The matcher reads what its pattern denotes                          *)
(* ===================================================================== *)

Module ReShape.

Import ReFacts.

Lemma iter_app R n m x y z : iter R n x y -> iter R m y z -> iter R (n + m) x z.
Proof.
  intros H. revert z. induction H as [x|n x y' y Hxy _ IH]; intros z Hz; [exact Hz|].
  cbn [Nat.add]. eapply iter_S; [exact Hxy|]. apply IH, Hz.
Qed.

Lemma one_step P c g k res :
  one P c g k = Some res -> exists c', step P c c' /\ k c' g = Some res.
Proof.
  unfold one. destruct (rest c) as [|a s'] eqn:E; [discriminate|].
  destruct (P a) eqn:Ea; [|discriminate]. intros H.
  eexists. split; [|exact H]. exists a, s'. auto.
Qed.

Section RepeatDenote.

Variable body : cursor -> caps -> cont -> result.
Variable R : cursor * caps -> cursor * caps -> Prop.
Hypothesis body_denote : forall c g k res,
  body c g k = Some res -> exists c' g', R (c, g) (c', g') /\ k c' g' = Some res.

Lemma rep_min_iter lo finish : forall c g res,
  rep_min body lo finish c g = Some res ->
  exists c' g', iter R lo (c, g) (c', g') /\ finish c' g' = Some res.
Proof.
  induction lo as [|lo IH]; intros c g res H; cbn [rep_min] in H.
  - exists c, g. split; [constructor|exact H].
  - apply body_denote in H as (c1 & g1 & H1 & Hk).
    apply IH in Hk as (c2 & g2 & H2 & Hk).
    exists c2, g2. split; [|exact Hk]. eapply iter_S; eassumption.
Qed.

Lemma rep_opt_iter greedy n : forall c g k res,
  rep_opt body greedy n c g k = Some res ->
  exists m c' g', (m <= n)%nat /\ iter R m (c, g) (c', g') /\ k c' g' = Some res.
Proof.
  induction n as [|n IH]; intros c g k res H.
  - cbn [rep_opt] in H. exists 0%nat, c, g. split; [lia|]. split; [constructor|exact H].
  - rewrite rep_opt_S in H.
    assert (body c g (fun c' g' =>
              if (pos c <? pos c')%nat then rep_opt body greedy n c' g' k else None)
            = Some res ->
            exists m c' g', (m <= S n)%nat /\ iter R m (c, g) (c', g') /\ k c' g' = Some res)
      as Hmore.
    { intros Hb. apply body_denote in Hb as (c1 & g1 & H1 & Hk).
      destruct (pos c <? pos c1)%nat; [|discriminate].
      apply IH in Hk as (m & c2 & g2 & Hm & H2 & Hk).
      exists (S m), c2, g2. split; [lia|]. split; [|exact Hk].
      eapply iter_S; eassumption. }
    assert (k c g = Some res ->
            exists m c' g', (m <= S n)%nat /\ iter R m (c, g) (c', g') /\ k c' g' = Some res)
      as Hstop.
    { intros Hk. exists 0%nat, c, g. split; [lia|]. split; [constructor|exact Hk]. }
    destruct greedy.
    + destruct (body c g _) as [x|] eqn:Eb.
      * injection H as ->. apply Hmore. reflexivity.
      * apply Hstop, H.
    + destruct (k c g) as [x|] eqn:Ek.
      * injection H as ->. apply Hstop. reflexivity.
      * apply Hmore, H.
Qed.

End RepeatDenote.

(** Every successful run of the matcher on [r] goes on from a state that
    [r] leads to. *)
Lemma run_denote f r : forall c g k res,
  run f r c g k = Some res ->
  exists c' g', denote f r (c, g) (c', g') /\ k c' g' = Some res.
Proof.
  induction r as [|a| |neg items|r1 IH1 r2 IH2|r1 IH1 r2 IH2|greedy lo hi r IH|m r IH| | |
                  |r IH]; intros c g k res H; cbn [run] in H; cbn [denote fst snd].
  - exists c, g. auto.
  - apply one_step in H as (c' & Hs & Hk). exists c', g. auto.
  - apply one_step in H as (c' & Hs & Hk). exists c', g. auto.
  - apply one_step in H as (c' & Hs & Hk). exists c', g. auto.
  - apply IH1 in H as (c1 & g1 & H1 & Hk). apply IH2 in Hk as (c2 & g2 & H2 & Hk).
    exists c2, g2. split; [|exact Hk]. exists (c1, g1). auto.
  - destruct (run f r1 c g k) as [x|] eqn:E1.
    + injection H as ->. apply IH1 in E1 as (c1 & g1 & H1 & Hk). exists c1, g1. auto.
    + apply IH2 in H as (c1 & g1 & H1 & Hk). exists c1, g1. auto.
  - apply (rep_min_iter _ _ IH) in H as (c1 & g1 & H1 & Hk).
    apply (rep_opt_iter _ _ IH) in Hk as (n & c2 & g2 & Hn & H2 & Hk).
    exists c2, g2. split; [|exact Hk]. exists (lo + n)%nat. split.
    + split; [lia|]. unfold rep_bound in Hn. destruct hi as [h|]; [lia|exact I].
    + eapply iter_app; eassumption.
  - apply IH in H as (c1 & g1 & H1 & Hk). eexists _, _. split; [|exact Hk].
    cbn [fst snd]. exists g1. auto.
  - destruct (at_bol f c) eqn:E; [|discriminate]. exists c, g. auto.
  - destruct (at_eol f c) eqn:E; [|discriminate]. exists c, g. auto.
  - destruct (at_wordb c) eqn:E; [|discriminate]. exists c, g. auto.
  - destruct (run f r c g _) as [[c1 g1]|] eqn:E; [|discriminate].
    apply IH in E as (c2 & g2 & E2 & Hk). injection Hk as -> ->.
    exists c, g1. split; [|exact H]. cbn [fst snd]. exists c1. auto.
Qed.

(** ** Positions and the words between them *)

Lemma last_of_app p (w1 w2 : string) :
  last_of p (w1 ++ w2)%string = last_of (last_of p w1) w2.
Proof.
  revert p. induction w1 as [|a w1 IH]; intros p; [reflexivity|].
  rewrite append_cons. cbn [last_of]. apply IH.
Qed.

Lemma spelled_refl c : spelled c EmptyString c.
Proof. split; [reflexivity|]. symmetry. apply fwd_empty. Qed.

Lemma step_spelled P c c' :
  step P c c' -> exists a, P a = true /\ spelled c (String a EmptyString) c'.
Proof.
  intros (a & s' & E & Ha & ->). exists a. split; [exact Ha|].
  split; [exact E|]. unfold fwd. cbn [rest last_of String.length]. f_equal. lia.
Qed.

Lemma spelled_trans c1 w1 c2 w2 c3 :
  spelled c1 w1 c2 -> spelled c2 w2 c3 -> spelled c1 (w1 ++ w2)%string c3.
Proof.
  intros [E1 ->] [E2 ->]. cbn [rest] in *. split.
  - rewrite E1. cbn [fwd rest]. rewrite append_assoc'. f_equal. exact E2.
  - unfold fwd. cbn [prev pos rest]. rewrite last_of_app, append_length. f_equal. lia.
Qed.

Lemma spelled_pos c w c' : spelled c w c' -> pos c' = (pos c + String.length w)%nat.
Proof. intros [_ ->]. reflexivity. Qed.

Lemma take_app_exact (w x : string) : Py.take (String.length w) (w ++ x)%string = w.
Proof.
  induction w as [|a w IH]; [destruct x; reflexivity|].
  rewrite append_cons. cbn [String.length Py.take]. rewrite IH. reflexivity.
Qed.

Lemma take_length_le n s : (n <= String.length s)%nat -> String.length (Py.take n s) = n.
Proof.
  revert s. induction n as [|n IH]; intros s Hn; [destruct s; reflexivity|].
  destruct s as [|a s]; [simpl in Hn; lia|]. cbn [Py.take String.length] in *.
  rewrite IH; lia.
Qed.

Lemma at_text_start text i : (i <= String.length text)%nat -> at_text text (cursor_at text i).
Proof. intros Hi. split; [reflexivity|exact Hi]. Qed.

(** From a position of the text, reading [w] leads to a position of the
    text, and [w] is the piece of the text between the two. *)
Lemma spelled_at_text text c w c' :
  at_text text c -> spelled c w c' ->
  at_text text c' /\ pos c' = (pos c + String.length w)%nat /\
  Py.slice (pos c) (pos c') text = w.
Proof.
  intros [Hc Hle] [E Hc']. set (i := pos c) in *.
  assert (Py.drop i text = (w ++ rest c')%string) as Hdrop.
  { rewrite <- E, Hc. reflexivity. }
  assert (text = (Py.take i text ++ w ++ rest c')%string) as Htext.
  { rewrite <- Hdrop. symmetry. apply take_drop_id. }
  assert (String.length (Py.take i text) = i) as Hlen by (apply take_length_le, Hle).
  assert (pos c' = (i + String.length w)%nat) as Hpos by (rewrite Hc'; reflexivity).
  split; [|split; [exact Hpos|]].
  - split.
    + rewrite Hpos. rewrite Hc' at 1. unfold fwd, cursor_at. fold i. f_equal.
      * rewrite Hc. cbn [prev cursor_at]. fold i.
        rewrite <- last_of_app. f_equal.
        rewrite Htext at 2. rewrite <- append_assoc'.
        rewrite <- Hlen at 2. rewrite <- append_length. symmetry. apply take_app_exact.
      * rewrite Htext at 1. rewrite <- append_assoc'.
        rewrite <- Hlen at 1. rewrite <- append_length. symmetry. apply drop_app_exact.
    + rewrite Hpos, Htext, !append_length, Hlen. lia.
  - unfold Py.slice. rewrite Hpos, Hdrop.
    replace (i + String.length w - i)%nat with (String.length w) by lia.
    apply take_app_exact.
Qed.

(** ** From states to words *)

Lemma joined_app ws1 ws2 : joined (ws1 ++ ws2) = (joined ws1 ++ joined ws2)%string.
Proof.
  induction ws1 as [|w ws1 IH]; [reflexivity|].
  cbn [joined fold_right app]. fold (joined (ws1 ++ ws2)). fold (joined ws1).
  rewrite IH, append_assoc'. reflexivity.
Qed.

Lemma iter_words f r n x y :
  (forall x y, denote f r x y -> exists w, spelled (fst x) w (fst y) /\ lang f r w) ->
  iter (denote f r) n x y ->
  exists ws, length ws = n /\ Forall (lang f r) ws /\ spelled (fst x) (joined ws) (fst y).
Proof.
  intros Hr H. induction H as [x|n x y z Hxy _ IH].
  - exists []. split; [reflexivity|]. split; [constructor|apply spelled_refl].
  - destruct (Hr _ _ Hxy) as (w & Hw & Hl). destruct IH as (ws & Hn & Hall & Hws).
    exists (w :: ws). split; [simpl; lia|]. split; [constructor; assumption|].
    cbn [joined fold_right]. eapply spelled_trans; eassumption.
Qed.

(** What a pattern leads over is a word of its language. *)
Lemma denote_spelled f r : forall x y,
  denote f r x y -> exists w, spelled (fst x) w (fst y) /\ lang f r w.
Proof.
  induction r as [|a| |neg items|r1 IH1 r2 IH2|r1 IH1 r2 IH2|greedy lo hi r IH|m r IH| | |
                  |r IH]; intros x y H; cbn [denote] in H; cbn [lang].
  - subst y. exists EmptyString. split; [apply spelled_refl|reflexivity].
  - destruct H as [H _]. apply step_spelled in H as (b & Hb & Hs). eauto.
  - destruct H as [H _]. apply step_spelled in H as (b & Hb & Hs). eauto.
  - destruct H as [H _]. apply step_spelled in H as (b & Hb & Hs). eauto.
  - destruct H as (m & H1 & H2).
    apply IH1 in H1 as (w1 & Hs1 & Hl1). apply IH2 in H2 as (w2 & Hs2 & Hl2).
    exists (w1 ++ w2)%string. split; [eapply spelled_trans; eassumption|]. eauto.
  - destruct H as [H|H]; [apply IH1 in H|apply IH2 in H];
      destruct H as (w & Hs & Hl); eauto.
  - destruct H as (n & Hn & H).
    apply (iter_words _ _ _ _ _ IH) in H as (ws & Hlen & Hall & Hs).
    exists (joined ws). split; [exact Hs|]. exists ws. rewrite Hlen. auto.
  - destruct H as (g1 & H & _). apply IH in H. exact H.
  - destruct H as [_ ->]. exists EmptyString. split; [apply spelled_refl|reflexivity].
  - destruct H as [_ ->]. exists EmptyString. split; [apply spelled_refl|reflexivity].
  - destruct H as [_ ->]. exists EmptyString. split; [apply spelled_refl|reflexivity].
  - destruct H as (c1 & _ & E). exists EmptyString. rewrite E.
    split; [apply spelled_refl|reflexivity].
Qed.

Lemma denote_at_text text f r x y :
  at_text text (fst x) -> denote f r x y -> at_text text (fst y).
Proof.
  intros Hx H. apply denote_spelled in H as (w & Hs & _).
  apply (spelled_at_text _ _ _ _ Hx Hs).
Qed.

(** ** The text of the groups *)

Lemma iter_groups text f r n x y :
  (forall x y, at_text text (fst x) -> denote f r x y ->
               groups_from text f r (snd x) (snd y)) ->
  at_text text (fst x) -> iter (denote f r) n x y ->
  groups_from text f r (snd x) (snd y).
Proof.
  intros Hr Hx H. induction H as [x|n x y z Hxy _ IH].
  - intros k i j E. left. exact E.
  - intros k i j E.
    destruct (IH (denote_at_text _ _ _ _ _ Hx Hxy) k i j E) as [E'|Hl]; [|right; exact Hl].
    exact (Hr _ _ Hx Hxy k i j E').
Qed.

Lemma denote_groups text f r : forall x y,
  at_text text (fst x) -> denote f r x y -> groups_from text f r (snd x) (snd y).
Proof.
  induction r as [|a| |neg items|r1 IH1 r2 IH2|r1 IH1 r2 IH2|greedy lo hi r IH|m r IH| | |
                  |r IH]; intros x y Hx H; pose proof H as Hd; cbn [denote] in H;
    intros k i j E; cbn [grp_lang].
  - subst y. left. exact E.
  - destruct H as [_ <-]. left. exact E.
  - destruct H as [_ <-]. left. exact E.
  - destruct H as [_ <-]. left. exact E.
  - destruct H as (m & H1 & H2).
    destruct (IH2 _ _ (denote_at_text _ _ _ _ _ Hx H1) H2 k i j E) as [E'|Hl]; [|auto].
    destruct (IH1 _ _ Hx H1 k i j E') as [E''|Hl]; auto.
  - destruct H as [H|H]; [destruct (IH1 _ _ Hx H k i j E)|destruct (IH2 _ _ Hx H k i j E)];
      auto.
  - destruct H as (n & _ & H). exact (iter_groups _ _ _ _ _ _ IH Hx H k i j E).
  - destruct H as (g1 & H & Hg). rewrite Hg in E. rewrite span_of_cons in E.
    destruct (k =? m)%nat eqn:Ek.
    + apply Nat.eqb_eq in Ek. subst k. injection E as <- <-. right. left.
      split; [reflexivity|].
      apply denote_spelled in H as (w & Hs & Hl). cbn [fst] in Hs.
      destruct (spelled_at_text _ _ _ _ Hx Hs) as (_ & _ & ->). exact Hl.
    + destruct (IH _ _ Hx H k i j E); auto.
  - destruct H as [_ ->]. left. exact E.
  - destruct H as [_ ->]. left. exact E.
  - destruct H as [_ ->]. left. exact E.
  - destruct H as (c1 & H & _). exact (IH _ _ Hx H k i j E).
Qed.

(** ** The matches of [finditer] *)

(** A match of [finditer] for a pattern that consumes is found at a
    position of the text, and the pattern leads from there to its end. *)
Lemma finditer_denote f r text m :
  consumes r = true -> In m (finditer f r text) ->
  (m_start m <= String.length text)%nat /\
  exists c', denote f r (cursor_at text (m_start m), []) (c', m_caps m) /\
             pos c' = m_end m.
Proof.
  intros Hr Hin.
  destruct (scan_cover f r (fun c m => match_at_nonempty f r false c m Hr) text 0 None 0)
    as [Hfound _].
  apply Hfound in Hin as (j & Hj & Hm). cbn [Nat.add] in Hm.
  change (mkCursor (last_of None (Py.take j text)) (Py.drop j text) j)
    with (cursor_at text j) in Hm.
  unfold match_at in Hm.
  destruct (run f r (cursor_at text j) [] _) as [[c' g']|] eqn:E; [|discriminate].
  injection Hm as <-. cbn [m_start m_end m_caps pos cursor_at].
  split; [lia|].
  apply run_denote in E as (c1 & g1 & Hd & Hk).
  cbn [andb] in Hk. injection Hk as -> ->. eauto.
Qed.

(** The text of a match is a word of the pattern, and stands in the text
    at the offset of the match. *)
Lemma finditer_lang f r text m :
  consumes r = true -> In m (finditer f r text) ->
  lang f r (group0 text m) /\
  (m_start m <= m_end m <= String.length text)%nat /\
  exists pre post,
    text = (pre ++ group0 text m ++ post)%string /\ String.length pre = m_start m.
Proof.
  intros Hr Hin. destruct (finditer_denote _ _ _ _ Hr Hin) as (Hle & c' & Hd & Hpos).
  apply denote_spelled in Hd as (w & Hs & Hl). cbn [fst] in Hs.
  destruct (spelled_at_text text _ _ _ (at_text_start _ _ Hle) Hs) as ([_ Hle'] & Hp & Hsl).
  cbn [pos cursor_at] in Hp, Hsl. rewrite Hpos in *. unfold group0. rewrite Hsl.
  split; [exact Hl|]. split; [lia|].
  destruct Hs as [E _]. cbn [rest cursor_at] in E.
  exists (Py.take (m_start m) text), (rest c'). split.
  - rewrite <- E. symmetry. apply take_drop_id.
  - apply take_length_le, Hle.
Qed.

(** The text of a group of a match is a word of a group of that number. *)
Lemma finditer_group_lang f r text m n w :
  consumes r = true -> In m (finditer f r text) -> group text n m = Some w ->
  grp_lang f r n w.
Proof.
  intros Hr Hin Hg. destruct (finditer_denote _ _ _ _ Hr Hin) as (Hle & c' & Hd & _).
  unfold group in Hg. destruct (span_of n (m_caps m)) as [[i j]|] eqn:E; [|discriminate].
  injection Hg as <-.
  destruct (denote_groups text f r (cursor_at text (m_start m), []) (c', m_caps m)
              (at_text_start _ _ Hle) Hd n i j E) as [E'|Hl];
    [discriminate|exact Hl].
Qed.

End ReShape.

(* ===================================================================== *)
(** * Words of the patterns                                               *)
(* ===================================================================== *)

Section Words.

Import ReFacts ReShape.

Lemma single_Chr f a : single f (Chr a) (chr_eq f a).
Proof. intros v H. exact H. Qed.

Lemma single_Dot f : single f Dot (dot_mem f).
Proof. intros v H. exact H. Qed.

Lemma single_Cls f neg items : single f (Cls neg items) (cls_mem f neg items).
Proof. intros v H. exact H. Qed.

Lemma single_impl f r (P Q : ascii -> bool) :
  (forall a, P a = true -> Q a = true) -> single f r P -> single f r Q.
Proof. intros HPQ H v Hv. destruct (H v Hv) as (b & -> & Hb). eauto. Qed.

(** A repeat of a one-character pattern reads a run of such characters. *)
Lemma lang_rep_single f greedy lo hi r P w :
  single f r P -> lang f (Rep greedy lo hi r) w ->
  all_chars P w = true /\ within lo hi (String.length w).
Proof.
  intros Hr (ws & Hn & Hall & ->).
  assert (all_chars P (joined ws) = true /\ String.length (joined ws) = length ws) as [H1 H2].
  { clear Hn. induction Hall as [|v ws Hv _ [IH1 IH2]]; [auto|].
    destruct (Hr v Hv) as (b & -> & Hb).
    cbn [joined fold_right]. fold (joined ws). rewrite append_cons, append_empty_l.
    cbn [all_chars String.length length]. rewrite Hb, IH1, IH2. auto. }
  rewrite H2. auto.
Qed.

(** A literal word reads itself, or under IGNORECASE a word with the same
    lower-case image. *)
Lemma lang_lit f s : forall w,
  lang f (lit s) w -> if ignorecase f then Py.lower w = Py.lower s else w = s.
Proof.
  assert (forall a b, chr_eq f a b = true ->
            if ignorecase f then Py.lower_char b = Py.lower_char a else b = a) as Hc.
  { intros a b. unfold chr_eq. destruct (ignorecase f); intros E;
      apply Ascii.eqb_eq in E; congruence. }
  induction s as [|a s IH]; intros w H.
  - cbn [lit lang] in H. subst w. destruct (ignorecase f); reflexivity.
  - destruct s as [|a' s].
    + cbn [lit lang] in H. destruct H as (b & -> & Hb). apply Hc in Hb.
      destruct (ignorecase f); cbn [Py.lower]; congruence.
    + change (lit (String a (String a' s))) with (Seq (Chr a) (lit (String a' s))) in H.
      cbn [lang] in H. destruct H as (w1 & w2 & -> & (b & -> & Hb) & H2).
      apply IH in H2. apply Hc in Hb. rewrite append_cons, append_empty_l.
      destruct (ignorecase f).
      * change (Py.lower (String b w2)) with (String (Py.lower_char b) (Py.lower w2)).
        change (Py.lower (String a (String a' s)))
          with (String (Py.lower_char a) (Py.lower (String a' s))).
        congruence.
      * congruence.
Qed.

(** Conversely, under IGNORECASE a literal word reads every word with its
    lower-case image. *)
Lemma lit_lang f s : ignorecase f = true -> forall w,
  Py.lower w = Py.lower s -> lang f (lit s) w.
Proof.
  intros Hf. induction s as [|a s IH]; intros w E.
  - destruct w; [reflexivity|discriminate].
  - destruct w as [|b w]; [discriminate|]. cbn [Py.lower] in E. injection E as Eb Ew.
    assert (chr_eq f a b = true) as Hab
      by (unfold chr_eq; rewrite Hf, Eb; apply Ascii.eqb_refl).
    destruct s as [|a' s].
    + destruct w; [|discriminate]. cbn [lit lang]. exists b. auto.
    + change (lit (String a (String a' s))) with (Seq (Chr a) (lit (String a' s))).
      cbn [lang]. exists (String b EmptyString), w.
      split; [reflexivity|]. split; [exists b; auto|apply IH, Ew].
Qed.

(** An alternation reads what one of its members reads. *)
Lemma lang_alt f rs w : rs <> [] -> lang f (alt rs) w -> exists r, In r rs /\ lang f r w.
Proof.
  induction rs as [|r rs IH]; intros Hne H; [contradiction|].
  destruct rs as [|r' rs].
  - exists r. split; [left; reflexivity|exact H].
  - change (alt (r :: r' :: rs)) with (Alt r (alt (r' :: rs))) in H. cbn [lang] in H.
    destruct H as [H|H].
    + exists r. split; [left; reflexivity|exact H].
    + destruct (IH ltac:(discriminate) H) as (r0 & Hin & H0).
      exists r0. split; [right; exact Hin|exact H0].
Qed.

Lemma lang_opt_chr f a w :
  lang f (opt (Chr a)) w ->
  w = EmptyString \/ exists b, w = String b EmptyString /\ chr_eq f a b = true.
Proof.
  intros H. apply (lang_rep_single _ _ _ _ _ _ _ (single_Chr f a)) in H as [Hall [_ Hn]].
  cbn [Nat.max] in Hn. destruct w as [|b [|b' w]]; [auto| |simpl in Hn; lia].
  right. exists b. cbn [all_chars] in Hall. rewrite andb_true_r in Hall. auto.
Qed.

Lemma in_text_contains (text pre w post : string) :
  text = (pre ++ w ++ post)%string -> Py.contains w text = true.
Proof. intros ->. apply contains_true_iff. eauto. Qed.

End Words.

(* ===================================================================== *)
(** * Shape of the extracted entities ([utils/ner.py])                   *)
(* ===================================================================== *)

Section EntityShapes.

Import ReFacts ReShape.

Lemma not_space_class a : cls_mem no_flags true [ISpace] a = not_space a.
Proof. unfold cls_mem, not_space. cbn. rewrite orb_false_r. reflexivity. Qed.

(** The members of [[m.group(0) for m in re.finditer(...)]] are words of
    the pattern that stand in the text. *)
Lemma all_group0_lang f r text w :
  consumes r = true -> In w (all_group0 f r text) ->
  lang f r w /\ Py.contains w text = true.
Proof.
  intros Hr Hin. unfold all_group0 in Hin. apply in_map_iff in Hin as (m & <- & Hin).
  destruct (finditer_lang f r text m Hr Hin) as (Hl & _ & pre & post & Htext & _).
  split; [exact Hl|]. eapply in_text_contains; exact Htext.
Qed.

(** X1.  Every extracted URL stands in the text, begins with [http://] or
    [https://] followed by at least one character, and holds no whitespace. *)
Theorem urls_shape (text url : string) :
  In url (_extract_urls text) ->
  (exists tail,
     (url = ("http://" ++ tail)%string \/ url = ("https://" ++ tail)%string) /\
     tail <> EmptyString) /\
  all_chars not_space url = true /\
  Py.contains url text = true.
Proof.
  unfold _extract_urls. rewrite list_set_In. intros Hin.
  apply all_group0_lang in Hin as [Hl Hc]; [|reflexivity].
  unfold url_pattern in Hl. cbn [seq lang] in Hl.
  destruct Hl as (w1 & w' & -> & H1 & w2 & w'' & -> & H2 & w3 & w4 & -> & H3 & H4).
  apply lang_lit in H1. apply lang_lit in H3. cbn [ignorecase no_flags] in H1, H3.
  subst w1 w3.
  apply (lang_rep_single _ _ _ _ _ _ _ (single_Cls _ _ _)) in H4 as [Hall [Hn _]].
  apply (all_chars_impl _ not_space) in Hall;
    [|intros a Ha; rewrite <- not_space_class; exact Ha].
  assert (w4 <> EmptyString) as Hne by (intros ->; simpl in Hn; lia).
  apply lang_opt_chr in H2.
  split; [|split; [|exact Hc]].
  - exists w4. split; [|exact Hne].
    destruct H2 as [->|(b & -> & Hb)]; [left; reflexivity|].
    apply Ascii.eqb_eq in Hb. subst b. right. reflexivity.
  - destruct H2 as [->|(b & -> & Hb)].
    + rewrite !all_chars_app, Hall. reflexivity.
    + apply Ascii.eqb_eq in Hb. subst b. rewrite !all_chars_app, Hall. reflexivity.
Qed.

Lemma urls_shape_witness :
  In "https://a.b/c"%string (_extract_urls link_text) /\
  all_chars not_space "https://a.b/c" = true.
Proof.
  assert (In "https://a.b/c"%string (_extract_urls link_text)) as Hin.
  { unfold _extract_urls. rewrite list_set_In. vm_compute. left. reflexivity. }
  split; [exact Hin|]. exact (proj1 (proj2 (urls_shape _ _ Hin))).
Defined.

End EntityShapes.

(* ===================================================================== *)
(** * Word boundaries around a match                                     *)
(* ===================================================================== *)

Section EntityContext.

Import ReFacts ReShape.

Lemma starts_with_wordb_denote f r : forall x y,
  starts_with_wordb r = true -> denote f r x y -> at_wordb (fst x) = true.
Proof.
  induction r; intros x y Hs H; cbn [starts_with_wordb] in Hs; try discriminate;
    cbn [denote] in H.
  - destruct H as (m & H1 & _). eapply IHr1; eassumption.
  - apply H.
Qed.

Lemma ends_with_wordb_denote f r : forall x y,
  ends_with_wordb r = true -> denote f r x y -> at_wordb (fst y) = true.
Proof.
  induction r; intros x y Hs H; cbn [ends_with_wordb] in Hs; try discriminate;
    cbn [denote] in H.
  - destruct H as (m & _ & H2). eapply IHr2; eassumption.
  - destruct H as [H ->]. exact H.
Qed.

(** A match of a pattern that begins and ends with [\b] stands between
    word boundaries. *)
Lemma finditer_bounded f r text m :
  consumes r = true -> starts_with_wordb r = true -> ends_with_wordb r = true ->
  In m (finditer f r text) -> word_bounded text (group0 text m).
Proof.
  intros Hr Hs He Hin. destruct (finditer_denote _ _ _ _ Hr Hin) as (Hle & c' & Hd & Hpos).
  pose proof (starts_with_wordb_denote _ _ _ _ Hs Hd) as Hb1.
  pose proof (ends_with_wordb_denote _ _ _ _ He Hd) as Hb2.
  apply denote_spelled in Hd as (w & Hsp & _). cbn [fst] in *.
  destruct (spelled_at_text text _ _ _ (at_text_start _ _ Hle) Hsp) as (_ & Hp & Hsl).
  cbn [pos cursor_at] in Hp, Hsl. rewrite Hpos in *. unfold group0. rewrite Hsl.
  destruct Hsp as [E Hc']. cbn [rest cursor_at] in E.
  exists (Py.take (m_start m) text), (rest c'). split; [|split].
  - rewrite <- E. symmetry. apply take_drop_id.
  - unfold at_wordb, word_before, word_after in Hb1. cbn [prev rest cursor_at] in Hb1.
    rewrite E in Hb1. exact Hb1.
  - unfold at_wordb, word_before, word_after in Hb2. rewrite Hc' in Hb2.
    cbn [prev rest fwd cursor_at] in Hb2.
    unfold ends_with_word, begins_with_word. rewrite last_of_app. exact Hb2.
Qed.

Lemma begins_with_word_app (w post : string) :
  w <> EmptyString -> begins_with_word (w ++ post)%string = begins_with_word w.
Proof. destruct w; [contradiction|reflexivity]. Qed.

Lemma last_of_nonempty p (w : string) : w <> EmptyString -> last_of p w = last_of None w.
Proof.
  destruct w as [|a w]; [contradiction|]. intros _. reflexivity.
Qed.

Lemma ends_with_word_app (pre w : string) :
  w <> EmptyString -> ends_with_word (pre ++ w)%string = ends_with_word w.
Proof.
  intros Hw. unfold ends_with_word. rewrite last_of_app, (last_of_nonempty _ _ Hw).
  reflexivity.
Qed.

(** Between word boundaries, a word that begins and ends with a word
    character is a whole word. *)
Lemma bounded_whole text w :
  begins_with_word w = true -> ends_with_word w = true ->
  word_bounded text w -> whole_word text w.
Proof.
  intros Hb He (pre & post & Htext & H1 & H2).
  assert (w <> EmptyString) as Hw by (intros ->; discriminate).
  rewrite (begins_with_word_app _ _ Hw), Hb in H1.
  rewrite (ends_with_word_app _ _ Hw), He in H2.
  exists pre, post. split; [exact Htext|].
  split; [destruct (ends_with_word pre)|destruct (begins_with_word post)];
    first [reflexivity|discriminate].
Qed.

Lemma whole_word_contains text w : whole_word text w -> Py.contains w text = true.
Proof. intros (pre & post & H & _). eapply in_text_contains, H. Qed.

Lemma word_bounded_contains text w : word_bounded text w -> Py.contains w text = true.
Proof. intros (pre & post & H & _). eapply in_text_contains, H. Qed.

Lemma ends_with_word_last (w : string) a :
  ends_with_word (w ++ String a EmptyString)%string = Py.isword a.
Proof. unfold ends_with_word. rewrite last_of_app. reflexivity. Qed.

Lemma all_chars_last P (w : string) :
  w <> EmptyString -> all_chars P w = true ->
  exists w' a, w = (w' ++ String a EmptyString)%string /\ P a = true.
Proof.
  induction w as [|b w IH]; intros Hne H; [contradiction|].
  cbn [all_chars] in H. apply andb_true_iff in H as [Hb Hw].
  destruct w as [|b' w].
  - exists EmptyString, b. auto.
  - destruct (IH ltac:(discriminate) Hw) as (w' & a & E & Ha).
    exists (String b w'), a. rewrite append_cons, <- E. auto.
Qed.

Lemma digit_is_word a : Py.isdigit a = true -> Py.isword a = true.
Proof. unfold Py.isdigit, Py.isword. intros ->. reflexivity. Qed.

(** A run of digits begins and ends with a word character. *)
Lemma digits_begin (w : string) :
  w <> EmptyString -> all_chars Py.isdigit w = true -> begins_with_word w = true.
Proof.
  destruct w as [|a w]; [contradiction|]. intros _ H. cbn [all_chars] in H.
  apply andb_true_iff in H as [Ha _]. apply digit_is_word, Ha.
Qed.

Lemma digits_end (pre w : string) :
  w <> EmptyString -> all_chars Py.isdigit w = true ->
  ends_with_word (pre ++ w)%string = true.
Proof.
  intros Hne H. destruct (all_chars_last _ _ Hne H) as (w' & a & -> & Ha).
  rewrite <- append_assoc', ends_with_word_last. apply digit_is_word, Ha.
Qed.

Lemma digits_nonempty n w : digits (S n) w -> w <> EmptyString.
Proof. intros [H _] ->. discriminate. Qed.

Lemma digits_1_2_nonempty w : digits_1_2 w -> w <> EmptyString.
Proof. intros [[H|H] _] ->; discriminate. Qed.

(** Repeats of [\d]. *)
Lemma lang_times_digit f n w : lang f (times n digit) w -> digits n w.
Proof.
  intros H. apply (lang_rep_single _ _ _ _ _ _ _ (single_Cls _ _ _)) in H as [Hall [H1 H2]].
  split; [lia|].
  eapply all_chars_impl; [|exact Hall]. intros a Ha. rewrite digit_class in Ha. exact Ha.
Qed.

Lemma lang_range_1_2_digit f w : lang f (range 1 2 digit) w -> digits_1_2 w.
Proof.
  intros H. apply (lang_rep_single _ _ _ _ _ _ _ (single_Cls _ _ _)) in H as [Hall [H1 H2]].
  cbn [Nat.max] in H2. split; [lia|].
  eapply all_chars_impl; [|exact Hall]. intros a Ha. rewrite digit_class in Ha. exact Ha.
Qed.

Lemma lang_plus_digit f w :
  lang f (plus digit) w -> w <> EmptyString /\ all_chars Py.isdigit w = true.
Proof.
  intros H. apply (lang_rep_single _ _ _ _ _ _ _ (single_Cls _ _ _)) in H as [Hall [H1 _]].
  split; [intros ->; simpl in H1; lia|].
  eapply all_chars_impl; [|exact Hall]. intros a Ha. rewrite digit_class in Ha. exact Ha.
Qed.

Lemma lang_plus_space f w : lang f (plus space) w -> spaces w.
Proof.
  intros H. apply (lang_rep_single _ _ _ _ _ _ _ (single_Cls _ _ _)) in H as [Hall [H1 _]].
  split; [intros ->; simpl in H1; lia|].
  eapply all_chars_impl; [|exact Hall]. intros a Ha. rewrite space_class in Ha. exact Ha.
Qed.

Lemma lang_star_space f w : lang f (star space) w -> all_chars Py.isspace w = true.
Proof.
  intros H. apply (lang_rep_single _ _ _ _ _ _ _ (single_Cls _ _ _)) in H as [Hall _].
  eapply all_chars_impl; [|exact Hall]. intros a Ha. rewrite space_class in Ha. exact Ha.
Qed.

(** A character without case is read as itself, with IGNORECASE too. *)
Lemma lower_has_upper b : Py.has_lower b = true -> Py.has_upper (Py.lower_char b) = true.
Proof. destruct b as [[] [] [] [] [] [] [] []]; vm_compute; auto. Qed.

Lemma chr_eq_plain f a b :
  Py.has_lower a = false -> Py.has_upper a = false -> chr_eq f a b = true -> b = a.
Proof.
  intros Hl Hu. unfold chr_eq. destruct (ignorecase f); intros E; apply Ascii.eqb_eq in E;
    [|congruence].
  unfold Py.lower_char at 1 in E. rewrite Hl in E.
  destruct (Py.has_lower b) eqn:Hb.
  - apply lower_has_upper in Hb. rewrite <- E in Hb. congruence.
  - unfold Py.lower_char in E. rewrite Hb in E. congruence.
Qed.

Lemma lang_chr_plain f a w :
  Py.has_lower a = false -> Py.has_upper a = false ->
  lang f (Chr a) w -> w = String a EmptyString.
Proof.
  intros Hl Hu (b & -> & Hb). apply chr_eq_plain in Hb; [|assumption..]. congruence.
Qed.

End EntityContext.

(* ===================================================================== *)
(** * E-mail addresses and phone numbers                                 *)
(* ===================================================================== *)

Section ContactShapes.

Import ReFacts ReShape.

Lemma email_local_class a :
  cls_mem no_flags false
    (alnum_items ++ [IChar "."; IChar "_"; IChar "%"; IChar "+"; IChar "-"]) a
  = email_local_char a.
Proof. destruct a as [[] [] [] [] [] [] [] []]; vm_compute; reflexivity. Qed.

Lemma email_domain_class a :
  cls_mem no_flags false (alnum_items ++ [IChar "."; IChar "-"]) a = email_domain_char a.
Proof. destruct a as [[] [] [] [] [] [] [] []]; vm_compute; reflexivity. Qed.

Lemma email_tld_class a :
  cls_mem no_flags false [IRange "A" "Z"; IChar "|"; IRange "a" "z"] a = email_tld_char a.
Proof. destruct a as [[] [] [] [] [] [] [] []]; vm_compute; reflexivity. Qed.

Lemma lang_cls_run f greedy lo hi neg items (P : ascii -> bool) w :
  (forall a, cls_mem f neg items a = P a) ->
  lang f (Rep greedy lo hi (Cls neg items)) w ->
  all_chars P w = true /\ within lo hi (String.length w).
Proof.
  intros HP H. apply (lang_rep_single _ _ _ _ _ _ _ (single_Cls _ _ _)) in H as [Hall Hn].
  split; [|exact Hn].
  eapply all_chars_impl; [|exact Hall]. intros a Ha. rewrite <- HP. exact Ha.
Qed.

(** X2.  Every extracted e-mail address stands in the text between word
    boundaries and is made of a local part, [@], a domain, a period and a
    last part of two or more characters, each of them letters A-Z or a-z or
    the vertical bar that the class [[A-Z|a-z]] holds. *)
Theorem emails_shape (text email : string) :
  In email (_extract_emails text) ->
  word_bounded text email /\
  exists loc domain tld,
    email = (loc ++ "@" ++ domain ++ "." ++ tld)%string /\
    loc <> EmptyString /\ all_chars email_local_char loc = true /\
    domain <> EmptyString /\ all_chars email_domain_char domain = true /\
    (2 <= String.length tld)%nat /\ all_chars email_tld_char tld = true.
Proof.
  unfold _extract_emails. rewrite list_set_In. unfold all_group0. rewrite in_map_iff.
  intros (m & <- & Hin).
  split; [apply (finditer_bounded no_flags email_pattern); auto|].
  destruct (finditer_lang no_flags email_pattern text m eq_refl Hin) as (Hl & _).
  unfold email_pattern in Hl. cbn [seq lang] in Hl.
  destruct Hl as (w0 & ? & -> & -> & loc & ? & -> & Hloc & w1 & ? & -> & Hat
                  & domain & ? & -> & Hdom & w2 & ? & -> & Hdot & tld & w3 & -> & Htld & ->).
  apply lang_chr_plain in Hat; [|reflexivity..]. apply lang_chr_plain in Hdot; [|reflexivity..].
  subst w1 w2.
  apply (lang_cls_run _ _ _ _ _ _ _ _ email_local_class) in Hloc as [Hloc [Hn1 _]].
  apply (lang_cls_run _ _ _ _ _ _ _ _ email_domain_class) in Hdom as [Hdom [Hn2 _]].
  apply (lang_cls_run _ _ _ _ _ _ _ _ email_tld_class) in Htld as [Htld [Hn3 _]].
  exists loc, domain, tld. rewrite append_empty_l, append_empty_r.
  split; [reflexivity|].
  split; [intros ->; simpl in Hn1; lia|]. split; [exact Hloc|].
  split; [intros ->; simpl in Hn2; lia|]. auto.
Qed.

Lemma emails_shape_witness :
  In "j.doe@example.org"%string (_extract_emails mail_text) /\
  word_bounded mail_text "j.doe@example.org".
Proof.
  assert (In "j.doe@example.org"%string (_extract_emails mail_text)) as Hin.
  { unfold _extract_emails. rewrite list_set_In. vm_compute. left. reflexivity. }
  split; [exact Hin|]. exact (proj1 (emails_shape _ _ Hin)).
Defined.

Lemma digits_begin_app (a x : string) :
  a <> EmptyString -> all_chars Py.isdigit a = true -> begins_with_word (a ++ x)%string = true.
Proof. intros Hne Ha. rewrite begins_with_word_app by exact Hne. apply digits_begin; assumption. Qed.

Lemma in_flat_map_patterns f patterns text w :
  In w (flat_map (fun pattern => all_group0 f pattern text) patterns) ->
  exists pattern m, In pattern patterns /\ In m (finditer f pattern text) /\
                    w = group0 text m.
Proof.
  rewrite in_flat_map. intros (pattern & Hp & Hw). unfold all_group0 in Hw.
  apply in_map_iff in Hw as (m & <- & Hm). eauto.
Qed.

(** X3.  Every extracted phone number stands in the text, with no word
    character after it, and has one of three shapes: ddd-ddd-dddd or ten
    digits, with no word character in front, or (ddd) ddd-dddd, which is
    found only where a word character stands in front of the opening
    parenthesis. *)
Theorem phone_numbers_shape (text phone : string) :
  In phone (_extract_phone_numbers text) ->
  exists pre post,
    text = (pre ++ phone ++ post)%string /\ begins_with_word post = false /\
    ((phone_dashed phone /\ ends_with_word pre = false) \/
     (phone_parenthesised phone /\ ends_with_word pre = true) \/
     (phone_plain phone /\ ends_with_word pre = false)).
Proof.
  unfold _extract_phone_numbers. rewrite list_set_In. intros Hin.
  apply in_flat_map_patterns in Hin as (pattern & m & Hp & Hm & ->).
  assert (consumes pattern = true /\ starts_with_wordb pattern = true
          /\ ends_with_wordb pattern = true) as (Hc & Hs & He).
  { destruct Hp as [<-|[<-|[<-|[]]]]; auto. }
  destruct (finditer_bounded _ _ _ _ Hc Hs He Hm) as (pre & post & Htext & H1 & H2).
  destruct (finditer_lang _ _ _ _ Hc Hm) as (Hl & _).
  set (w := group0 text m) in *. clearbody w. clear Hc Hs He Hm.
  exists pre, post. split; [exact Htext|].
  destruct Hp as [<-|[<-|[<-|[]]]]; cbn [seq lang] in Hl.
  - destruct Hl as (? & ? & -> & -> & a & ? & -> & Ha & d1 & ? & -> & Hd1 & b & ? & -> & Hb
                    & d2 & ? & -> & Hd2 & c & ? & -> & Hc & ->).
    apply lang_chr_plain in Hd1; [|reflexivity..]. apply lang_chr_plain in Hd2; [|reflexivity..].
    subst d1 d2. apply lang_times_digit in Ha, Hb, Hc.
    rewrite append_empty_l, append_empty_r in *.
    rewrite ?append_assoc', (digits_begin_app a) in H1;
      [|exact (digits_nonempty _ _ Ha)|apply Ha].
    replace (pre ++ a ++ "-" ++ b ++ "-" ++ c)%string
      with ((pre ++ a ++ "-" ++ b ++ "-") ++ c)%string in H2
      by (rewrite !append_assoc'; reflexivity).
    rewrite (digits_end _ c) in H2; [|exact (digits_nonempty _ _ Hc)|apply Hc].
    split; [destruct (begins_with_word post); [discriminate|reflexivity]|].
    left. split; [exists a, b, c; auto|].
    destruct (ends_with_word pre); [discriminate|reflexivity].
  - destruct Hl as (? & ? & -> & -> & o & ? & -> & Ho & a & ? & -> & Ha & cl & ? & -> & Hcl
                    & ws & ? & -> & Hws & b & ? & -> & Hb & d & ? & -> & Hd & c & ? & -> & Hc
                    & ->).
    apply lang_chr_plain in Ho; [|reflexivity..]. apply lang_chr_plain in Hcl; [|reflexivity..].
    apply lang_chr_plain in Hd; [|reflexivity..]. subst o cl d.
    apply lang_times_digit in Ha, Hb, Hc. apply lang_star_space in Hws.
    rewrite append_empty_l, append_empty_r in *.
    change (begins_with_word (("(" ++ a ++ ")" ++ ws ++ b ++ "-" ++ c) ++ post)%string)
      with false in H1.
    replace (pre ++ "(" ++ a ++ ")" ++ ws ++ b ++ "-" ++ c)%string
      with ((pre ++ "(" ++ a ++ ")" ++ ws ++ b ++ "-") ++ c)%string in H2
      by (rewrite !append_assoc'; reflexivity).
    rewrite (digits_end _ c) in H2; [|exact (digits_nonempty _ _ Hc)|apply Hc].
    split; [destruct (begins_with_word post); [discriminate|reflexivity]|].
    right. left. split; [exists a, ws, b, c; auto|].
    destruct (ends_with_word pre); [reflexivity|discriminate].
  - destruct Hl as (? & ? & -> & -> & a & ? & -> & Ha & ->).
    apply lang_times_digit in Ha. rewrite append_empty_l, append_empty_r in *.
    rewrite ?append_assoc', (digits_begin_app a) in H1;
      [|exact (digits_nonempty _ _ Ha)|apply Ha].
    rewrite (digits_end _ a) in H2; [|exact (digits_nonempty _ _ Ha)|apply Ha].
    split; [destruct (begins_with_word post); [discriminate|reflexivity]|].
    right. right. split; [exact Ha|].
    destruct (ends_with_word pre); [discriminate|reflexivity].
Qed.

Lemma phone_numbers_shape_witness :
  In "(555) 123-4567"%string (_extract_phone_numbers phone_text) /\
  exists pre post,
    phone_text = (pre ++ "(555) 123-4567" ++ post)%string /\ begins_with_word post = false.
Proof.
  assert (In "(555) 123-4567"%string (_extract_phone_numbers phone_text)) as Hin.
  { unfold _extract_phone_numbers. rewrite list_set_In. vm_compute. right. left. reflexivity. }
  split; [exact Hin|].
  destruct (phone_numbers_shape _ _ Hin) as (pre & post & Htext & Hpost & _).
  exists pre, post. auto.
Defined.

End ContactShapes.

(* ===================================================================== *)
(** * Dates and amounts                                                  *)
(* ===================================================================== *)

Section DateAmountShapes.

Import ReFacts ReShape.

Lemma lang_opt f r w : lang f (opt r) w -> w = EmptyString \/ lang f r w.
Proof.
  intros (ws & [_ Hn] & Hall & ->). cbn [Nat.max] in Hn.
  destruct ws as [|v [|v' ws]]; [left; reflexivity| |simpl in Hn; lia].
  right. inversion Hall; subst. cbn [joined fold_right]. rewrite append_empty_r. assumption.
Qed.

Lemma lang_opt_plain f a w :
  Py.has_lower a = false -> Py.has_upper a = false ->
  lang f (opt (Chr a)) w -> w = EmptyString \/ w = String a EmptyString.
Proof.
  intros Hl Hu H. apply lang_opt in H as [->|H]; [left; reflexivity|].
  right. apply lang_chr_plain in H; assumption.
Qed.

Lemma isword_lower a : Py.isword (Py.lower_char a) = Py.isword a.
Proof. destruct a as [[] [] [] [] [] [] [] []]; vm_compute; reflexivity. Qed.

Lemma begins_with_word_lower s : begins_with_word (Py.lower s) = begins_with_word s.
Proof. destruct s as [|a s]; [reflexivity|]. apply isword_lower. Qed.

Lemma months_begin : Forall (fun s => begins_with_word s = true) (map Py.lower months).
Proof. repeat constructor. Qed.

(** X4.  Every extracted date stands in the text as a whole word and has one
    of three shapes: d/d/dddd with one or two digits in the first two
    places, the name of a month in any case followed by a day, a comma if
    any, and a year of four digits, or dddd-d-d; the numbers are not checked
    against the calendar. *)
Theorem dates_shape (text date : string) :
  In date (_extract_dates text) ->
  whole_word text date /\ (date_slashed date \/ date_month_name date \/ date_iso date).
Proof.
  unfold _extract_dates. rewrite list_set_In. intros Hin.
  apply in_flat_map_patterns in Hin as (pattern & m & Hp & Hm & ->).
  assert (consumes pattern = true /\ starts_with_wordb pattern = true
          /\ ends_with_wordb pattern = true) as (Hc & Hs & He).
  { destruct Hp as [<-|[<-|[<-|[]]]]; auto. }
  pose proof (finditer_bounded _ _ _ _ Hc Hs He Hm) as Hb.
  destruct (finditer_lang _ _ _ _ Hc Hm) as (Hl & _).
  set (w := group0 text m) in *. clearbody w. clear Hc Hs He Hm.
  destruct Hp as [<-|[<-|[<-|[]]]]; cbn [seq lang] in Hl.
  - destruct Hl as (? & ? & -> & -> & a & ? & -> & Ha & d1 & ? & -> & Hd1 & b & ? & -> & Hb'
                    & d2 & ? & -> & Hd2 & c & ? & -> & Hc & ->).
    apply lang_chr_plain in Hd1; [|reflexivity..]. apply lang_chr_plain in Hd2; [|reflexivity..].
    subst d1 d2. apply lang_range_1_2_digit in Ha, Hb'. apply lang_times_digit in Hc.
    rewrite append_empty_l, append_empty_r in *.
    split; [|left; exists a, b, c; auto].
    apply bounded_whole; [| |exact Hb].
    + apply digits_begin_app; [exact (digits_1_2_nonempty _ Ha)|apply Ha].
    + replace (a ++ "/" ++ b ++ "/" ++ c)%string with ((a ++ "/" ++ b ++ "/") ++ c)%string
        by (rewrite !append_assoc'; reflexivity).
      apply digits_end; [exact (digits_nonempty _ _ Hc)|apply Hc].
  - destruct Hl as (? & ? & -> & -> & mon & ? & -> & Hmon & ws1 & ? & -> & Hws1
                    & day & ? & -> & Hday & comma & ? & -> & Hcomma & ws2 & ? & -> & Hws2
                    & year & ? & -> & Hyear & ->).
    apply lang_alt in Hmon as (r & Hr & Hmon); [|discriminate].
    apply in_map_iff in Hr as (name & <- & Hname). apply lang_lit in Hmon.
    cbn [ignorecase IGNORECASE] in Hmon.
    assert (In (Py.lower mon) (map Py.lower months)) as Hin
      by (rewrite Hmon; apply in_map, Hname).
    apply lang_plus_space in Hws1, Hws2. apply lang_range_1_2_digit in Hday.
    apply lang_times_digit in Hyear. apply lang_opt_plain in Hcomma; [|reflexivity..].
    rewrite append_empty_l, append_empty_r in *.
    split; [|right; left; exists mon, ws1, day, comma, ws2, year; auto 10].
    apply bounded_whole; [| |exact Hb].
    + assert (begins_with_word mon = true) as Hbm.
      { rewrite <- begins_with_word_lower.
        exact (proj1 (List.Forall_forall _ _) months_begin _ Hin). }
      rewrite begins_with_word_app; [exact Hbm|]. intros ->. discriminate.
    + replace (mon ++ ws1 ++ day ++ comma ++ ws2 ++ year)%string
        with ((mon ++ ws1 ++ day ++ comma ++ ws2) ++ year)%string
        by (rewrite !append_assoc'; reflexivity).
      apply digits_end; [exact (digits_nonempty _ _ Hyear)|apply Hyear].
  - destruct Hl as (? & ? & -> & -> & a & ? & -> & Ha & d1 & ? & -> & Hd1 & b & ? & -> & Hb'
                    & d2 & ? & -> & Hd2 & c & ? & -> & Hc & ->).
    apply lang_chr_plain in Hd1; [|reflexivity..]. apply lang_chr_plain in Hd2; [|reflexivity..].
    subst d1 d2. apply lang_times_digit in Ha. apply lang_range_1_2_digit in Hb', Hc.
    rewrite append_empty_l, append_empty_r in *.
    split; [|right; right; exists a, b, c; auto].
    apply bounded_whole; [| |exact Hb].
    + apply digits_begin_app; [exact (digits_nonempty _ _ Ha)|apply Ha].
    + replace (a ++ "-" ++ b ++ "-" ++ c)%string with ((a ++ "-" ++ b ++ "-") ++ c)%string
        by (rewrite !append_assoc'; reflexivity).
      apply digits_end; [exact (digits_1_2_nonempty _ Hc)|apply Hc].
Qed.

Lemma dates_shape_witness :
  In "march 5, 2024"%string (_extract_dates date_text) /\
  whole_word date_text "march 5, 2024".
Proof.
  assert (In "march 5, 2024"%string (_extract_dates date_text)) as Hin.
  { unfold _extract_dates. rewrite list_set_In. vm_compute. left. reflexivity. }
  split; [exact Hin|]. exact (proj1 (dates_shape _ _ Hin)).
Defined.

Lemma digit_or_comma_class a :
  cls_mem IGNORECASE false [IDigit; IChar ","] a = digit_or_comma a.
Proof. destruct a as [[] [] [] [] [] [] [] []]; vm_compute; reflexivity. Qed.

Lemma lang_amount_number w1 w2 :
  lang IGNORECASE digits_commas w1 -> lang IGNORECASE cents w2 -> amount_number (w1 ++ w2).
Proof.
  intros H1 H2. exists w1, w2. split; [reflexivity|].
  apply (lang_cls_run _ _ _ _ _ _ _ _ digit_or_comma_class) in H1 as [Hall [Hn _]].
  split; [intros ->; simpl in Hn; lia|]. split; [exact Hall|].
  apply lang_opt in H2 as [->|H2]; [left; reflexivity|]. right.
  cbn [lang] in H2. destruct H2 as (d0 & d & -> & Hd0 & Hd).
  apply lang_chr_plain in Hd0; [|reflexivity..]. subst d0.
  apply lang_times_digit in Hd. exists d. auto.
Qed.

(** A word and an optional last letter, case ignored. *)
Lemma lang_word_opt s c w :
  lang IGNORECASE (Seq (lit s) (opt (Chr c))) w ->
  Py.lower w = Py.lower s \/ Py.lower w = Py.lower (s ++ String c EmptyString).
Proof.
  intros (w1 & w2 & -> & H1 & H2). apply lang_lit in H1. cbn [ignorecase IGNORECASE] in H1.
  apply lang_opt in H2 as [->|(b & -> & Hb)].
  - left. rewrite append_empty_r. exact H1.
  - right. unfold chr_eq in Hb. cbn [ignorecase IGNORECASE] in Hb.
    apply Ascii.eqb_eq in Hb. rewrite !lower_app, H1. cbn [Py.lower]. congruence.
Qed.

(** X5.  Every entry of the amounts stands in the text and is either a
    Currency entry, a dollar sign or a currency word in any case followed by
    digits and commas and two decimals if any, or a Percentage entry, digits
    with one or two decimals if any, followed by a percent sign. *)
Theorem amounts_shape (text s kind : string) :
  In (s, kind) (_extract_amounts text) ->
  Py.contains s text = true /\
  ((kind = "Currency"%string /\ currency_shape s) \/
   (kind = "Percentage"%string /\ percentage_shape s)).
Proof.
  unfold _extract_amounts. rewrite in_app_iff, !in_map_iff.
  intros [(m & E & Hm)|(m & E & Hm)]; injection E as <- <-.
  - destruct (finditer_lang _ _ _ _ (eq_refl : consumes currency_pattern = true) Hm)
      as (Hl & _ & pre & post & Htext & _).
    split; [eapply in_text_contains, Htext|]. left. split; [reflexivity|].
    set (w := group0 text m) in *. clearbody w. clear Htext Hm.
    unfold currency_pattern in Hl. cbn [seq lang] in Hl. destruct Hl as [Hl|Hl].
    + destruct Hl as (d & ? & -> & Hd & n & c & -> & Hn & Hc).
      apply lang_chr_plain in Hd; [|reflexivity..]. subst d.
      left. exists (n ++ c)%string. split; [reflexivity|]. apply lang_amount_number; assumption.
    + destruct Hl as (? & ? & -> & -> & word & ? & -> & Hword & ws & ? & -> & Hws
                      & n & c & -> & Hn & Hc).
      right. exists word, ws, (n ++ c)%string. rewrite append_empty_l.
      split; [reflexivity|]. split; [|split; [apply lang_star_space in Hws; exact Hws|
                                              apply lang_amount_number; assumption]].
      apply lang_alt in Hword as (r & Hr & Hword); [|discriminate].
      destruct Hr as [<-|[<-|[<-|[<-|[<-|[]]]]]].
      * apply lang_lit in Hword. cbn [ignorecase IGNORECASE] in Hword. rewrite Hword.
        vm_compute. auto.
      * apply lang_word_opt in Hword as [->| ->]; vm_compute; auto.
      * apply lang_word_opt in Hword as [->| ->]; vm_compute; auto 10.
      * apply lang_word_opt in Hword as [->| ->]; vm_compute; auto 10.
      * apply lang_word_opt in Hword as [->| ->]; vm_compute; auto 10.
  - destruct (finditer_lang _ _ _ _ (eq_refl : consumes percentage_pattern = true) Hm)
      as (Hl & _ & pre & post & Htext & _).
    split; [eapply in_text_contains, Htext|]. right. split; [reflexivity|].
    set (w := group0 text m) in *. clearbody w. clear Htext Hm.
    unfold percentage_pattern in Hl. cbn [seq lang] in Hl.
    destruct Hl as (? & ? & -> & -> & n & ? & -> & Hn & frac & ? & -> & Hfrac
                    & ws & pc & -> & Hws & Hpc).
    apply lang_chr_plain in Hpc; [|reflexivity..]. subst pc.
    apply lang_plus_digit in Hn as [Hne Hn]. apply lang_star_space in Hws.
    exists n, frac, ws. rewrite append_empty_l. split; [reflexivity|].
    split; [exact Hne|]. split; [exact Hn|]. split; [|exact Hws].
    apply lang_opt in Hfrac as [->|Hfrac]; [left; reflexivity|]. right.
    cbn [lang] in Hfrac. destruct Hfrac as (d0 & d & -> & Hd0 & Hd).
    apply lang_chr_plain in Hd0; [|reflexivity..]. subst d0.
    apply lang_range_1_2_digit in Hd. exists d. auto.
Qed.

Lemma amounts_shape_witness :
  In ("$5", "Currency")%string (_extract_amounts repeated_amount_text) /\
  Py.contains "$5" repeated_amount_text = true.
Proof.
  assert (In ("$5", "Currency")%string (_extract_amounts repeated_amount_text)) as Hin
    by (vm_compute; left; reflexivity).
  split; [exact Hin|]. exact (proj1 (amounts_shape _ _ _ Hin)).
Defined.

End DateAmountShapes.

(* ===================================================================== *)
(** * Jurisdictions                                                      *)
(* ===================================================================== *)

Section Jurisdictions.

Import ReFacts ReShape.

(** [re.search] finds a match exactly when the pattern matches at some
    position. *)
Lemma search_from_None f r : forall s p i,
  search_from f r p s i = None <->
  forall j, (j <= String.length s)%nat ->
    match_at f r false (mkCursor (last_of p (Py.take j s)) (Py.drop j s) (i + j)) = None.
Proof.
  induction s as [|a s IH]; intros p i; cbn [search_from].
  - split.
    + intros H j Hj. simpl in Hj. assert (j = 0)%nat as -> by lia.
      cbn [Py.take Py.drop last_of]. rewrite Nat.add_0_r.
      destruct (match_at f r false _); [discriminate|reflexivity].
    + intros H. specialize (H 0%nat ltac:(simpl; lia)).
      cbn [Py.take Py.drop last_of] in H. rewrite Nat.add_0_r in H. rewrite H. reflexivity.
  - split.
    + intros H j Hj.
      destruct (match_at f r false (mkCursor p (String a s) i)) eqn:E; [discriminate|].
      destruct j as [|j].
      * cbn [Py.take Py.drop last_of]. rewrite Nat.add_0_r. exact E.
      * cbn [Py.take Py.drop last_of]. replace (i + S j)%nat with (S i + j)%nat by lia.
        apply (proj1 (IH (Some a) (S i)) H). simpl in Hj. lia.
    + intros H. pose proof (H 0%nat ltac:(simpl; lia)) as H0.
      cbn [Py.take Py.drop last_of] in H0. rewrite Nat.add_0_r in H0. rewrite H0.
      apply IH. intros j Hj. specialize (H (S j) ltac:(simpl; lia)).
      cbn [Py.take Py.drop last_of] in H. replace (i + S j)%nat with (S i + j)%nat in H by lia.
      exact H.
Qed.

(** The pattern [\bname\b] at one position. *)
Lemma match_at_name name c :
  match_at IGNORECASE (seq [WordB; lit name; WordB]) false c <> None <->
  at_wordb c = true /\ ci_prefix name (rest c) = true /\
  at_wordb (fwd c (Py.take (String.length name) (rest c))
                  (Py.drop (String.length name) (rest c))) = true.
Proof.
  unfold match_at. cbn [seq]. cbn [run]. rewrite run_lit. cbn [andb].
  destruct (at_wordb c); [|split; [intros H; contradiction|intros (H & _); discriminate]].
  destruct (ci_prefix name (rest c));
    [|split; [intros H; contradiction|intros (_ & H & _); discriminate]].
  destruct (at_wordb _); [split; [auto|discriminate]|].
  split; [intros H; contradiction|intros (_ & _ & H); discriminate].
Qed.

Lemma ci_prefix_iff w s :
  ci_prefix w s = true <->
  exists mid post, s = (mid ++ post)%string /\ Py.lower mid = Py.lower w.
Proof.
  split.
  - intros H. exists (Py.take (String.length w) s), (Py.drop (String.length w) s).
    split; [symmetry; apply take_drop_id|apply ci_prefix_lower, H].
  - intros (mid & post & -> & E). revert mid E.
    induction w as [|a w IH]; intros mid E; [reflexivity|].
    destruct mid as [|b mid]; [discriminate|]. cbn [Py.lower] in E. injection E as Eb E.
    rewrite append_cons. cbn [ci_prefix]. rewrite Eb, Ascii.eqb_refl. apply IH, E.
Qed.

Lemma lower_eq_length a b : Py.lower a = Py.lower b -> String.length a = String.length b.
Proof. intros E. rewrite <- (lower_length a), E. apply lower_length. Qed.

(** [re.search(rf'\b{name}\b', text, re.IGNORECASE)] finds a match exactly
    when a piece of the text with the lower-case image of [name] stands
    between word boundaries. *)
Lemma mentions_iff text name :
  mentions text name = true <->
  exists mid, Py.lower mid = Py.lower name /\ word_bounded text mid.
Proof.
  unfold mentions, search.
  destruct (search_from IGNORECASE (seq [WordB; lit name; WordB]) None text 0) as [m|] eqn:E.
  - split; [intros _|reflexivity].
    assert (search_from IGNORECASE (seq [WordB; lit name; WordB]) None text 0 <> None) as Hs
      by (rewrite E; discriminate).
    rewrite search_from_None in Hs.
    assert (exists j, (j <= String.length text)%nat /\
              match_at IGNORECASE (seq [WordB; lit name; WordB]) false
                (mkCursor (last_of None (Py.take j text)) (Py.drop j text) (0 + j)) <> None)
      as (j & Hj & Hm).
    { clear E. induction (String.length text) as [|n IH].
      - exists 0%nat. split; [lia|]. intros H. apply Hs. intros j Hj.
        assert (j = 0)%nat as -> by lia. exact H.
      - destruct (match_at IGNORECASE (seq [WordB; lit name; WordB]) false
                    (mkCursor (last_of None (Py.take (S n) text)) (Py.drop (S n) text)
                              (0 + S n))) eqn:En.
        + exists (S n). split; [lia|]. rewrite En. discriminate.
        + destruct IH as (j & Hj & Hm).
          * intros H. apply Hs. intros j Hj.
            destruct (Nat.eq_dec j (S n)) as [->|Hne]; [exact En|]. apply H. lia.
          * exists j. split; [lia|exact Hm]. }
    apply match_at_name in Hm as (Hb1 & Hp & Hb2). cbn [rest] in Hp, Hb2.
    set (n := String.length name) in *. set (s := Py.drop j text) in *.
    exists (Py.take n s). split; [apply ci_prefix_lower, Hp|].
    exists (Py.take j text), (Py.drop n s). rewrite take_drop_id. split; [|split].
    + symmetry. apply take_drop_id.
    + unfold at_wordb, word_before, word_after in Hb1. cbn [prev rest] in Hb1. exact Hb1.
    + unfold at_wordb, word_before, word_after, fwd in Hb2. cbn [prev rest] in Hb2.
      unfold ends_with_word. rewrite last_of_app. exact Hb2.
  - split; [discriminate|]. intros (mid & Hmid & pre & post & Htext & Hb1 & Hb2).
    exfalso. rewrite search_from_None in E.
    specialize (E (String.length pre)).
    assert (Py.take (String.length pre) text = pre) as Ht
      by (rewrite Htext; apply take_app_exact).
    assert (Py.drop (String.length pre) text = (mid ++ post)%string) as Hd
      by (rewrite Htext; apply drop_app_exact).
    rewrite Ht, Hd in E.
    assert (match_at IGNORECASE (seq [WordB; lit name; WordB]) false
              (mkCursor (last_of None pre) (mid ++ post) (0 + String.length pre)) <> None)
      as Hm; [|apply Hm, E; rewrite Htext, append_length; lia].
    apply match_at_name. cbn [rest].
    rewrite <- (lower_eq_length _ _ Hmid), take_app_exact, drop_app_exact.
    split; [exact Hb1|]. split; [apply ci_prefix_iff; eauto|].
    unfold at_wordb, word_before, word_after, fwd. cbn [prev rest].
    unfold ends_with_word in Hb2. rewrite last_of_app in Hb2. exact Hb2.
Qed.

Lemma last_of_lower (s : string) :
  last_of None (Py.lower s) = option_map Py.lower_char (last_of None s).
Proof.
  assert (forall p, last_of (option_map Py.lower_char p) (Py.lower s)
                    = option_map Py.lower_char (last_of p s)) as H.
  { induction s as [|a s IH]; intros p; [reflexivity|]. cbn [Py.lower last_of].
    exact (IH (Some a)). }
  exact (H None).
Qed.

Lemma ends_with_word_lower s : ends_with_word (Py.lower s) = ends_with_word s.
Proof.
  unfold ends_with_word. rewrite last_of_lower.
  destruct (last_of None s); [apply isword_lower|reflexivity].
Qed.

Lemma names_are_words :
  Forall (fun name => begins_with_word (Py.lower name) = true
                      /\ ends_with_word (Py.lower name) = true) (states ++ countries).
Proof. repeat (constructor; [split; reflexivity|]). constructor. Qed.

Lemma whole_bounded text w :
  begins_with_word w = true -> ends_with_word w = true ->
  whole_word text w -> word_bounded text w.
Proof.
  intros Hb He (pre & post & Htext & H1 & H2).
  assert (w <> EmptyString) as Hw by (intros ->; discriminate).
  exists pre, post. split; [exact Htext|].
  rewrite (begins_with_word_app _ _ Hw), (ends_with_word_app _ _ Hw), Hb, He, H1, H2. auto.
Qed.

Lemma mentions_listed text name :
  In name (states ++ countries) -> mentions text name = true <-> mentioned text name.
Proof.
  intros Hin. rewrite mentions_iff. unfold mentioned.
  destruct (proj1 (List.Forall_forall _ _) names_are_words _ Hin) as [Hb He].
  split; intros (mid & Hmid & H); exists mid; (split; [exact Hmid|]);
    rewrite <- Hmid in Hb, He; rewrite begins_with_word_lower in Hb;
    rewrite ends_with_word_lower in He.
  - apply bounded_whole; assumption.
  - apply whole_bounded; assumption.
Qed.

(** X6.  A state or country is reported exactly when its name is one of the
    55 listed names and stands in the text, in any case, as a whole word;
    the name is reported as the list spells it.  So a text that names West
    Virginia is reported to name Virginia too. *)
Theorem jurisdictions_spec (text : string) :
  (forall name,
     In name (_extract_jurisdictions text) <->
     In name (states ++ countries) /\ mentioned text name) /\
  (In "West Virginia"%string (_extract_jurisdictions text) ->
   In "Virginia"%string (_extract_jurisdictions text)).
Proof.
  assert (forall name,
            In name (_extract_jurisdictions text) <->
            In name (states ++ countries) /\ mentioned text name) as Hspec.
  { intros name. unfold _extract_jurisdictions. cbv zeta. rewrite list_set_In.
    rewrite <- List.filter_app, filter_In. split.
    - intros [Hin Hm]. split; [exact Hin|]. apply mentions_listed; assumption.
    - intros [Hin Hm]. split; [exact Hin|]. apply mentions_listed; assumption. }
  split; [exact Hspec|].
  intros H. apply Hspec in H as [_ (mid & Hmid & pre & post & Htext & Hpre & Hpost)].
  apply Hspec. split; [vm_compute; tauto|].
  change (Py.lower "West Virginia") with (Py.lower "West " ++ Py.lower "Virginia")%string in Hmid.
  apply lower_split in Hmid as (m1 & m2 & -> & H1 & H2).
  exists m2. split; [exact H2|]. exists (pre ++ m1)%string, post.
  split; [rewrite Htext, !append_assoc'; reflexivity|]. split; [|exact Hpost].
  assert (exists m1', m1 = (m1' ++ " ")%string) as [m1' ->].
  { destruct m1 as [|a1 [|a2 [|a3 [|a4 [|a5 [|a6 m1]]]]]]; try discriminate.
    cbn [Py.lower] in H1. injection H1 as _ _ _ _ H5.
    assert (a5 = " "%char) as ->.
    { revert H5. destruct a5 as [[] [] [] [] [] [] [] []]; vm_compute; congruence. }
    exists (String a1 (String a2 (String a3 (String a4 EmptyString)))). reflexivity. }
  rewrite <- append_assoc', ends_with_word_last. reflexivity.
Qed.

Lemma jurisdictions_spec_witness :
  In "West Virginia"%string (_extract_jurisdictions state_text) /\
  In "Virginia"%string (_extract_jurisdictions state_text).
Proof.
  assert (In "West Virginia"%string (_extract_jurisdictions state_text)) as Hin.
  { unfold _extract_jurisdictions. rewrite list_set_In. vm_compute. tauto. }
  split; [exact Hin|]. exact (proj2 (jurisdictions_spec state_text) Hin).
Defined.

End Jurisdictions.

(* ===================================================================== *)
(** * Stripping and slicing                                               *)
(* ===================================================================== *)

Section Strip.

Lemma lstrip_suffix s :
  exists t, s = (t ++ Py.lstrip s)%string /\ all_chars Py.isspace t = true.
Proof.
  induction s as [|a s (t & E & Ht)]; [exists EmptyString; auto|].
  cbn [Py.lstrip]. destruct (Py.isspace a) eqn:Ea.
  - exists (String a t). rewrite append_cons, <- E. cbn [all_chars]. rewrite Ea, Ht. auto.
  - exists EmptyString. auto.
Qed.

Lemma lstrip_first s : first_char not_space (Py.lstrip s).
Proof.
  induction s as [|a s IH]; [exact I|]. cbn [Py.lstrip].
  destruct (Py.isspace a) eqn:Ea; [exact IH|]. cbn [first_char]. unfold not_space.
  rewrite Ea. reflexivity.
Qed.

Lemma lstrip_id s : first_char not_space s -> Py.lstrip s = s.
Proof.
  destruct s as [|a s]; [reflexivity|]. cbn [first_char Py.lstrip]. unfold not_space.
  destruct (Py.isspace a); [discriminate|reflexivity].
Qed.

Lemma rstrip_cons a s :
  Py.rstrip (String a s)
  = match Py.rstrip s with
    | EmptyString => if Py.isspace a then EmptyString else String a EmptyString
    | r => String a r
    end.
Proof. reflexivity. Qed.

Lemma rstrip_prefix s :
  exists t, s = (Py.rstrip s ++ t)%string /\ all_chars Py.isspace t = true.
Proof.
  induction s as [|a s (t & E & Ht)]; [exists EmptyString; auto|].
  rewrite rstrip_cons. destruct (Py.rstrip s) as [|b r] eqn:Er.
  - rewrite append_empty_l in E. subst t. destruct (Py.isspace a) eqn:Ea.
    + exists (String a s). cbn [all_chars]. rewrite Ea, Ht. auto.
    + exists s. auto.
  - exists t. rewrite append_cons, <- E. auto.
Qed.

Lemma rstrip_chars_cons chars a s :
  Py.rstrip_chars chars (String a s)
  = match Py.rstrip_chars chars s with
    | EmptyString => if Py.mem_char a chars then EmptyString else String a EmptyString
    | r => String a r
    end.
Proof. reflexivity. Qed.

Lemma rstrip_chars_prefix chars s : exists t, s = (Py.rstrip_chars chars s ++ t)%string.
Proof.
  induction s as [|a s (t & E)]; [exists EmptyString; auto|].
  rewrite rstrip_chars_cons. destruct (Py.rstrip_chars chars s) as [|b r] eqn:Er.
  - destruct (Py.mem_char a chars); [exists (String a s)|exists s]; reflexivity.
  - exists t. rewrite append_cons, <- E. reflexivity.
Qed.

Lemma first_char_prefix P (p t : string) : first_char P (p ++ t)%string -> first_char P p.
Proof. destruct p; [intros _; exact I|exact (fun H => H)]. Qed.

Lemma rstrip_first P s : first_char P s -> first_char P (Py.rstrip s).
Proof.
  destruct (rstrip_prefix s) as (t & E & _). intros H. rewrite E in H.
  eapply first_char_prefix, H.
Qed.

Lemma take_first P n s : first_char P s -> first_char P (Py.take n s).
Proof. intros H. rewrite <- (take_drop_id n s) in H. eapply first_char_prefix, H. Qed.

Lemma strip_first s : first_char not_space (Py.strip s).
Proof. apply rstrip_first, lstrip_first. Qed.

(** A stripped string is a piece of the string. *)
Lemma strip_middle s :
  exists t1 t2, s = (t1 ++ Py.strip s ++ t2)%string /\
                all_chars Py.isspace t1 = true /\ all_chars Py.isspace t2 = true.
Proof.
  destruct (lstrip_suffix s) as (t1 & E1 & H1).
  destruct (rstrip_prefix (Py.lstrip s)) as (t2 & E2 & H2).
  exists t1, t2. unfold Py.strip. rewrite <- E2. auto.
Qed.

Lemma all_chars_strip P s : all_chars P s = true -> all_chars P (Py.strip s) = true.
Proof.
  destruct (strip_middle s) as (t1 & t2 & E & _). intros H. rewrite E in H.
  rewrite !all_chars_app in H. apply andb_true_iff in H as [_ H].
  apply andb_true_iff in H as [H _]. exact H.
Qed.

Lemma all_chars_take P n s : all_chars P s = true -> all_chars P (Py.take n s) = true.
Proof.
  intros H. rewrite <- (take_drop_id n s), all_chars_app in H.
  apply andb_true_iff in H as [H _]. exact H.
Qed.

Lemma contains_trans (a b c : string) :
  Py.contains a b = true -> Py.contains b c = true -> Py.contains a c = true.
Proof.
  rewrite !contains_true_iff. intros (p1 & q1 & ->) (p2 & q2 & ->).
  exists (p2 ++ p1)%string, (q1 ++ q2)%string. rewrite !append_assoc'. reflexivity.
Qed.

Lemma contains_prefix (p t : string) : Py.contains p (p ++ t)%string = true.
Proof. apply contains_true_iff. exists EmptyString, t. reflexivity. Qed.

Lemma strip_contains s : Py.contains (Py.strip s) s = true.
Proof.
  destruct (strip_middle s) as (t1 & t2 & E & _). apply contains_true_iff. eauto.
Qed.

Lemma take_contains n s : Py.contains (Py.take n s) s = true.
Proof. rewrite <- (take_drop_id n s) at 2. apply contains_prefix. Qed.

Lemma slice_contains i j s : Py.contains (Py.slice i j s) s = true.
Proof.
  unfold Py.slice. eapply contains_trans; [apply take_contains|].
  apply contains_true_iff. exists (Py.take i s), EmptyString.
  rewrite append_empty_r. symmetry. apply take_drop_id.
Qed.

Lemma group_contains text n m w : group text n m = Some w -> Py.contains w text = true.
Proof.
  unfold group. destruct (span_of n (m_caps m)) as [[i j]|]; [|discriminate].
  intros E. injection E as <-. apply slice_contains.
Qed.

End Strip.

(* ===================================================================== *)
(** * Parties and sub-clauses                                             *)
(* ===================================================================== *)

Section GroupShapes.

Import ReFacts ReShape.

Lemma party_first_class a : cls_mem IGNORECASE false [upper_AZ] a = is_letter a.
Proof. destruct a as [[] [] [] [] [] [] [] []]; vm_compute; reflexivity. Qed.

Lemma party_class a :
  cls_mem IGNORECASE false [upper_AZ; IRange "a" "z"; ISpace; IChar "&"; IChar ","] a
  = party_char a.
Proof. destruct a as [[] [] [] [] [] [] [] []]; vm_compute; reflexivity. Qed.

Lemma letter_party_char a : is_letter a = true -> party_char a = true.
Proof. unfold party_char. intros ->. reflexivity. Qed.

Lemma letter_not_space a : is_letter a = true -> not_space a = true.
Proof. destruct a as [[] [] [] [] [] [] [] []]; vm_compute; congruence. Qed.

(** What the loop of [_extract_parties] adds. *)
Lemma parties_loop_In text ms : forall acc ps party,
  parties_loop text ms acc = Some ps -> In party ps ->
  In party acc \/
  exists m g1, In m ms /\ group text 1 m = Some g1 /\
               party = Py.rstrip_chars ",." (Py.strip g1) /\ (2 < Py.len party)%nat.
Proof.
  induction ms as [|m ms IH]; intros acc ps party H Hin; cbn [parties_loop] in H.
  - injection H as <-. left. exact Hin.
  - destruct (group text 1 m) as [g1|] eqn:Eg; [|discriminate]. cbn [mbind option_bind] in H.
    destruct (IH _ _ _ H Hin) as [Hacc|(m' & g1' & Hm' & Hg' & Hp)].
    + destruct (2 <? Py.len (Py.rstrip_chars ",." (Py.strip g1)))%nat eqn:El;
        [|left; exact Hacc].
      apply in_app_iff in Hacc as [Hacc|[<-|[]]]; [left; exact Hacc|].
      right. exists m, g1. apply Nat.ltb_lt in El. split; [left; reflexivity|auto].
    + right. exists m', g1'. split; [right; exact Hm'|auto].
Qed.

(** X7.  Every extracted party stands in the text, has more than two
    characters, begins with a letter of either case and is made of letters,
    whitespace, ampersands and commas. *)
Theorem parties_shape (text : string) :
  exists ps,
    _extract_parties text = Some ps /\
    forall party, In party ps ->
      (2 < String.length party)%nat /\ first_char is_letter party /\
      all_chars party_char party = true /\ Py.contains party text = true.
Proof.
  unfold _extract_parties.
  destruct (parties_loop_total text (finditer IGNORECASE party_pattern text) [])
    as [ps Hps]; [apply finditer_groups|].
  rewrite Hps. cbn [mbind option_bind]. eexists. split; [reflexivity|].
  intros party Hin. rewrite list_set_In in Hin.
  destruct (parties_loop_In _ _ _ _ _ Hps Hin) as [[]|(m & g1 & Hm & Hg & -> & Hlen)].
  pose proof (group_contains _ _ _ _ Hg) as Hc.
  apply (finditer_group_lang _ _ _ _ _ _ (eq_refl : consumes party_pattern = true) Hm) in Hg.
  unfold party_pattern in Hg.
  cbn [seq alt lit grp_lang plus lazy_plus star opt space digit] in Hg.
  assert (lang IGNORECASE
            (Seq (Cls false [upper_AZ])
               (lazy_plus
                  (Cls false [upper_AZ; IRange "a" "z"; ISpace; IChar "&"; IChar ","]))) g1)
    as Hl by (clear -Hg; tauto).
  clear Hg. cbn [lang] in Hl. destruct Hl as (w1 & w2 & -> & (a & -> & Ha) & Hw2).
  rewrite party_first_class in Ha.
  apply (lang_cls_run _ _ _ _ _ _ _ _ party_class) in Hw2 as [Hw2 _].
  rewrite append_cons, append_empty_l in *.
  assert (Py.strip (String a w2) = Py.rstrip (String a w2)) as Hs.
  { unfold Py.strip. rewrite lstrip_id; [reflexivity|]. apply letter_not_space, Ha. }
  destruct (rstrip_prefix (String a w2)) as (t1 & E1 & _).
  destruct (rstrip_chars_prefix ",." (Py.rstrip (String a w2))) as (t2 & E2).
  rewrite Hs in *. set (party := Py.rstrip_chars ",." (Py.rstrip (String a w2))) in *.
  assert (String a w2 = (party ++ t2 ++ t1)%string) as E
    by (rewrite <- append_assoc', <- E2; exact E1).
  split; [exact Hlen|]. split; [|split].
  - destruct party as [|b party]; [exact I|]. rewrite append_cons in E. injection E as <- _.
    exact Ha.
  - assert (all_chars party_char (String a w2) = true) as Hall
      by (cbn [all_chars]; rewrite (letter_party_char _ Ha), Hw2; reflexivity).
    rewrite E, all_chars_app in Hall. apply andb_true_iff in Hall as [Hall _]. exact Hall.
  - eapply contains_trans; [|exact Hc]. rewrite E. apply contains_prefix.
Qed.

Lemma parties_shape_witness :
  exists ps, _extract_parties parties_text = Some ps /\ In "Acme Corp"%string ps /\
             first_char is_letter "Acme Corp".
Proof.
  destruct (parties_shape parties_text) as (ps & Hps & Hall).
  exists ps. split; [exact Hps|].
  assert (In "Acme Corp"%string ps) as Hin.
  { assert (exists l, parties_loop parties_text
                        (finditer IGNORECASE party_pattern parties_text) [] = Some l
                      /\ In "Acme Corp"%string l) as (l & Hl & Hin)
      by (eexists; split; [vm_compute; reflexivity|left; reflexivity]).
    unfold _extract_parties in Hps. rewrite Hl in Hps. cbn [mbind option_bind] in Hps.
    injection Hps as <-. rewrite list_set_In. exact Hin. }
  split; [exact Hin|]. exact (proj1 (proj2 (Hall _ Hin))).
Defined.

Lemma dot_class a : dot_mem MULTILINE a = not_newline a.
Proof. reflexivity. Qed.

Lemma mapM_In {A B : Type} (f : A -> option B) l k y :
  mapM f l = Some k -> In y k -> exists x, In x l /\ f x = Some y.
Proof.
  intros H. apply mapM_Some in H. induction H as [|x y' l k Hx _ IH]; intros Hin.
  - destruct Hin.
  - destruct Hin as [<-|Hin]; [exists x; split; [left; reflexivity|exact Hx]|].
    destruct (IH Hin) as (x' & Hx' & Hf). exists x'. split; [right; exact Hx'|exact Hf].
Qed.

(** X8.  The number of every sub-clause is made of digits, a period and
    digits; its content has at most 200 characters, does not begin with
    whitespace and holds no line feed. *)
Theorem subclauses_shape (text : string) :
  exists subs,
    _extract_subclauses text = Some subs /\
    forall sub, In sub subs ->
      (exists a b,
         sub_number sub = (a ++ "." ++ b)%string /\
         a <> EmptyString /\ all_chars Py.isdigit a = true /\
         b <> EmptyString /\ all_chars Py.isdigit b = true) /\
      (String.length (sub_content sub) <= 200)%nat /\
      first_char not_space (sub_content sub) /\
      all_chars not_newline (sub_content sub) = true.
Proof.
  destruct (subclauses_total text) as [subs Hsubs]. exists subs. split; [exact Hsubs|].
  intros sub Hin. unfold _extract_subclauses in Hsubs.
  destruct (mapM_In _ _ _ _ Hsubs Hin) as (m & Hm & Hsub).
  unfold subclause_of in Hsub.
  destruct (group text 1 m) as [num|] eqn:E1; [|discriminate].
  destruct (group text 2 m) as [g2|] eqn:E2; [|discriminate].
  cbn [mbind option_bind] in Hsub.
  assert (sub = mkSubClause num (Py.take 200 (Py.strip g2))) as -> by congruence.
  clear Hsub Hin. cbn [sub_number sub_content].
  apply (finditer_group_lang _ _ _ _ _ _ (eq_refl : consumes subclause_pattern = true) Hm)
    in E1, E2.
  unfold subclause_pattern in E1, E2.
  cbn [seq grp_lang plus lazy_plus space digit] in E1, E2.
  assert (lang MULTILINE (Seq (plus digit) (Seq (Chr ".") (plus digit))) num) as H1
    by (clear -E1; cbn [Nat.eqb] in E1; intuition discriminate).
  assert (lang MULTILINE (lazy_plus Dot) g2) as H2
    by (clear -E2; intuition discriminate).
  clear E1 E2. split; [|split; [apply take_length|split]].
  - cbn [lang] in H1. destruct H1 as (a & ? & -> & Ha & d & b & -> & Hd & Hb).
    apply lang_chr_plain in Hd; [|reflexivity..]. subst d.
    apply lang_plus_digit in Ha as [Ha1 Ha2], Hb as [Hb1 Hb2].
    exists a, b. auto.
  - apply take_first, strip_first.
  - apply all_chars_take, all_chars_strip.
    apply (lang_rep_single _ _ _ _ _ _ _ (single_Dot _)) in H2 as [H2 _]. exact H2.
Qed.

Lemma subclauses_shape_witness :
  exists subs,
    _extract_subclauses subclauses_text = Some subs /\
    In (mkSubClause "1.1" "Fees are due") subs /\
    all_chars not_newline "Fees are due" = true.
Proof.
  destruct (subclauses_shape subclauses_text) as (subs & Hsubs & Hall).
  exists subs. split; [exact Hsubs|].
  assert (In (mkSubClause "1.1" "Fees are due") subs) as Hin.
  { assert (_extract_subclauses subclauses_text
            = Some [mkSubClause "1.1" "Fees are due"; mkSubClause "1.2" "Taxes"]) as E
      by (vm_compute; reflexivity).
    rewrite E in Hsubs. injection Hsubs as <-. left. reflexivity. }
  split; [exact Hin|]. exact (proj2 (proj2 (proj2 (Hall _ Hin)))).
Defined.

End GroupShapes.

(* ===================================================================== *)
(** * Findings of the detector: where they come from                      *)
(* ===================================================================== *)

Section Findings.

Import ReFacts ReShape.

Lemma terminator_class a : cls_mem IGNORECASE_DOTALL false terminator a = is_terminator a.
Proof. destruct a as [[] [] [] [] [] [] [] []]; vm_compute; reflexivity. Qed.

Lemma not_terminator_class a :
  cls_mem IGNORECASE_DOTALL true terminator a = not_terminator a.
Proof. destruct a as [[] [] [] [] [] [] [] []]; vm_compute; reflexivity. Qed.

Lemma terminator_not_space a : is_terminator a = true -> not_space a = true.
Proof. destruct a as [[] [] [] [] [] [] [] []]; vm_compute; congruence. Qed.

(** The text of a match of the sentence pattern: a piece with the
    lower-case image of the keyword, then characters other than terminators,
    and a terminator at the end. *)
Lemma sentence_lang kw window w :
  lang IGNORECASE_DOTALL (sentence_pattern kw window) w ->
  exists a kw' b t,
    w = (a ++ kw' ++ b ++ String t EmptyString)%string /\
    Py.lower kw' = Py.lower kw /\ is_terminator t = true /\
    all_chars not_terminator b = true.
Proof.
  unfold sentence_pattern. cbn [seq lang].
  intros (c1 & ? & -> & _ & c2 & ? & -> & _ & kw' & ? & -> & Hkw & b & t & -> & Hb & Ht).
  apply lang_lit in Hkw. cbn [ignorecase IGNORECASE_DOTALL] in Hkw.
  destruct Ht as (t' & -> & Ht). rewrite terminator_class in Ht.
  apply (lang_cls_run _ _ _ _ _ _ _ _ not_terminator_class) in Hb as [Hb _].
  exists (c1 ++ c2)%string, kw', b, t'. rewrite !append_assoc'. auto.
Qed.

Lemma sentences_loop_app text ms : forall acc,
  sentences_loop text ms acc = acc ++ sentences_loop text ms [].
Proof.
  induction ms as [|m ms IH]; intros acc; cbn [sentences_loop]; [rewrite app_nil_r; reflexivity|].
  rewrite IH, (IH (if String.eqb _ _ then [] else _)).
  destruct (String.eqb _ _); [reflexivity|]. rewrite <- app_assoc. reflexivity.
Qed.

Lemma sentences_loop_In text ms s :
  In s (sentences_loop text ms []) <->
  exists m, In m ms /\ Py.strip (group0 text m) <> EmptyString /\
            s = Py.take 300 (Py.strip (group0 text m)).
Proof.
  induction ms as [|m ms IH]; cbn [sentences_loop].
  - split; [intros []|intros (m & [] & _)].
  - rewrite sentences_loop_app, in_app_iff, IH. split.
    + intros [H|(m' & Hm' & H)]; [|exists m'; split; [right; exact Hm'|exact H]].
      destruct (String.eqb (Py.strip (group0 text m)) "") eqn:E; [destruct H|].
      destruct H as [<-|[]]. exists m. apply String.eqb_neq in E. split; [left; reflexivity|auto].
    + intros (m' & [<-|Hm'] & Hne & ->).
      * left. apply String.eqb_neq in Hne. rewrite Hne. left. reflexivity.
      * right. exists m'. auto.
Qed.

Lemma In_firstn {A : Type} n (l : list A) x : In x (firstn n l) -> In x l.
Proof. intros H. rewrite <- (firstn_skipn n l). apply in_or_app. left. exact H. Qed.

(** A sentence of [_find_sentence_with_keyword] is the stripped text of a
    match, cut at 300 characters. *)
Lemma find_sentence_In text kw window s :
  In s (_find_sentence_with_keyword text kw window) ->
  exists m, In m (finditer IGNORECASE_DOTALL (sentence_pattern kw window) text) /\
            Py.strip (group0 text m) <> EmptyString /\
            s = Py.take 300 (Py.strip (group0 text m)).
Proof.
  unfold _find_sentence_with_keyword. intros H. apply In_firstn in H.
  apply sentences_loop_In, H.
Qed.

(** The findings of the detector are the findings of the categories. *)
Lemma detect_risks_In text r :
  In r (detect_risks text) <->
  exists p kw s,
    In p RISK_PATTERNS /\ first_hit text (keywords (snd p)) = Some kw /\
    In s (_find_sentence_with_keyword text kw 150) /\ r = finding_of (fst p) (snd p) s.
Proof.
  rewrite detect_risks_collapse, collapse_In, in_flat_map. split.
  - intros (p & Hp & Hr). unfold category_findings in Hr.
    destruct (first_hit text (keywords (snd p))) as [kw|] eqn:E; [|destruct Hr].
    apply in_map_iff in Hr as (s & <- & Hs). exists p, kw, s. auto.
  - intros (p & kw & s & Hp & E & Hs & ->). exists p. split; [exact Hp|].
    unfold category_findings. rewrite E. apply in_map, Hs.
Qed.

Lemma risk_names_NoDup : List.NoDup (map fst RISK_PATTERNS).
Proof.
  cbn [RISK_PATTERNS map fst].
  repeat (constructor; [simpl; intuition discriminate|]). constructor.
Qed.

Lemma risk_levels :
  Forall (fun p => (info_level (snd p) = "high"%string
                    /\ _assign_severity_score (info_level (snd p)) = 85%Z)
                   \/ (info_level (snd p) = "medium"%string
                       /\ _assign_severity_score (info_level (snd p)) = 55%Z)) RISK_PATTERNS.
Proof. repeat (constructor; [cbn; auto|]). constructor. Qed.

Lemma collapse_length rs : (length (collapse rs) <= length rs)%nat.
Proof.
  induction rs as [|r rs IH]; [reflexivity|]. cbn [collapse length].
  pose proof (List.filter_length_le (fun x => negb (risk_eqb r x)) (collapse rs)). lia.
Qed.

Lemma category_findings_length text p : (length (category_findings text p) <= 3)%nat.
Proof.
  unfold category_findings. destruct (first_hit text (keywords (snd p))); [|simpl; lia].
  rewrite length_map. apply find_sentence_bounds.
Qed.

Lemma category_findings_type text p r : In r (category_findings text p) -> risk_type r = fst p.
Proof.
  unfold category_findings. destruct (first_hit text (keywords (snd p))); [|intros []].
  intros H. apply in_map_iff in H as (snt & <- & _). reflexivity.
Qed.

Lemma filter_none {A : Type} (P : A -> bool) l :
  (forall x, In x l -> P x = false) -> List.filter P l = [].
Proof.
  induction l as [|x l IH]; intros H; [reflexivity|]. cbn [List.filter].
  rewrite (H x) by (left; reflexivity). apply IH. intros y Hy. apply H. right. exact Hy.
Qed.

Lemma findings_of_type text ty ps :
  List.NoDup (map fst ps) ->
  (length (List.filter (fun r => String.eqb (risk_type r) ty)
             (flat_map (category_findings text) ps)) <= 3)%nat.
Proof.
  assert (forall qs, (forall q, In q qs -> fst q <> ty) ->
            List.filter (fun r => String.eqb (risk_type r) ty)
              (flat_map (category_findings text) qs) = []) as Hnone.
  { intros qs Hq. apply filter_none. intros r Hr.
    apply in_flat_map in Hr as (q & Hin & Hr). apply category_findings_type in Hr.
    apply String.eqb_neq. rewrite Hr. apply Hq, Hin. }
  induction ps as [|p ps IH]; intros Hnd; [simpl; lia|].
  cbn [map] in Hnd. inversion Hnd as [|? ? Hnot Hnd']; subst.
  cbn [flat_map]. rewrite List.filter_app, length_app.
  destruct (String.eqb (fst p) ty) eqn:E.
  - apply String.eqb_eq in E. rewrite (Hnone ps).
    + pose proof (List.filter_length_le (fun r => String.eqb (risk_type r) ty)
                    (category_findings text p)).
      pose proof (category_findings_length text p). simpl. lia.
    + intros q Hq Heq. apply Hnot. rewrite E, <- Heq. apply in_map, Hq.
  - rewrite (filter_none _ (category_findings text p)).
    + simpl. apply IH, Hnd'.
    + intros r Hr. apply category_findings_type in Hr. rewrite Hr. exact E.
Qed.

Lemma flat_map_length_le {A B : Type} (f : A -> list B) n l :
  (forall x, (length (f x) <= n)%nat) -> (length (flat_map f l) <= n * length l)%nat.
Proof.
  intros H. induction l as [|x l IH]; [simpl; lia|].
  cbn [flat_map length]. rewrite length_app. specialize (H x). lia.
Qed.

(** X9.  Every finding carries the name, the level and the description of a
    category of the table, with severity 85 when the level is high and 55
    when it is medium; the scores 25 and 50 of [_assign_severity_score] do
    not occur.  There are at most three findings of a category and at most
    30 findings. *)
Theorem findings_from_table (text : string) :
  (forall r, In r (detect_risks text) ->
     exists info,
       In (risk_type r, info) RISK_PATTERNS /\
       risk_level r = info_level info /\ description r = info_description info /\
       severity_score r = _assign_severity_score (risk_level r) /\
       ((risk_level r = "high"%string /\ severity_score r = 85%Z) \/
        (risk_level r = "medium"%string /\ severity_score r = 55%Z))) /\
  (forall ty,
     (length (List.filter (fun r => String.eqb (risk_type r) ty) (detect_risks text)) <= 3)%nat)
  /\
  (length (detect_risks text) <= 30)%nat.
Proof.
  split; [|split].
  - intros r Hr. apply detect_risks_In in Hr as ([ty info] & kw & s & Hp & _ & _ & ->).
    exists info. cbn [finding_of risk_type risk_level description severity_score fst snd].
    split; [exact Hp|]. split; [reflexivity|]. split; [reflexivity|]. split; [reflexivity|].
    exact (proj1 (List.Forall_forall _ _) risk_levels _ Hp).
  - intros ty. rewrite detect_risks_collapse, <- collapse_filter.
    etransitivity; [apply collapse_length|]. apply findings_of_type, risk_names_NoDup.
  - rewrite detect_risks_collapse. etransitivity; [apply collapse_length|].
    apply (flat_map_length_le (category_findings text) 3 RISK_PATTERNS).
    apply category_findings_length.
Qed.

Lemma findings_from_table_witness :
  exists r info, In r (detect_risks penalty_text) /\ In (risk_type r, info) RISK_PATTERNS.
Proof.
  assert (exists r, In r (detect_risks penalty_text)) as (r & Hin)
    by (eexists; vm_compute; left; reflexivity).
  destruct (proj1 (findings_from_table penalty_text) r Hin) as (info & Hp & _).
  exists r, info. auto.
Defined.

End Findings.

(* ===================================================================== *)
(** * Evidence of a finding                                              *)
(* ===================================================================== *)

Section Evidence.

Import ReFacts ReShape.

Lemma take_short n s : (String.length (Py.take n s) < n)%nat -> Py.take n s = s.
Proof.
  revert s. induction n as [|n IH]; intros s H; [simpl in H; lia|].
  destruct s as [|a s]; [reflexivity|]. cbn [Py.take String.length] in *.
  rewrite IH by lia. reflexivity.
Qed.

Lemma take_nonempty n s : s <> EmptyString -> Py.take (S n) s <> EmptyString.
Proof. destruct s; [contradiction|discriminate]. Qed.

Lemma isspace_lower a : Py.isspace (Py.lower_char a) = Py.isspace a.
Proof. destruct a as [[] [] [] [] [] [] [] []]; vm_compute; reflexivity. Qed.

Lemma first_char_lower s : first_char not_space (Py.lower s) -> first_char not_space s.
Proof.
  destruct s as [|a s]; [auto|]. cbn [Py.lower first_char]. unfold not_space.
  rewrite isspace_lower. auto.
Qed.

(** Stripping in front of a piece that begins with another character than
    whitespace leaves the piece in place. *)
Lemma lstrip_app_first (a x : string) :
  x <> EmptyString -> first_char not_space x ->
  exists a', Py.lstrip (a ++ x)%string = (a' ++ x)%string.
Proof.
  intros Hne Hx. induction a as [|c a IH].
  - exists EmptyString. rewrite append_empty_l. apply lstrip_id, Hx.
  - rewrite append_cons. cbn [Py.lstrip]. destruct (Py.isspace c); [exact IH|].
    exists (String c a). reflexivity.
Qed.

Lemma rstrip_id_last (w : string) t :
  not_space t = true -> Py.rstrip (w ++ String t EmptyString)%string
                        = (w ++ String t EmptyString)%string.
Proof.
  intros Ht. unfold not_space in Ht. apply negb_true_iff in Ht.
  induction w as [|a w IH].
  - rewrite append_empty_l. cbn [Py.rstrip]. rewrite Ht. reflexivity.
  - rewrite append_cons, rstrip_cons, IH.
    destruct (w ++ String t EmptyString)%string eqn:E; [|reflexivity].
    destruct w; discriminate.
Qed.

(** The stripped text of a match of the sentence pattern for a keyword
    that begins with another character than whitespace. *)
Lemma strip_sentence (w kw : string) window :
  kw <> EmptyString -> first_char not_space (Py.lower kw) ->
  lang IGNORECASE_DOTALL (sentence_pattern kw window) w ->
  exists a kw' b t,
    Py.strip w = (a ++ kw' ++ b ++ String t EmptyString)%string /\
    Py.lower kw' = Py.lower kw /\ is_terminator t = true /\
    all_chars not_terminator b = true.
Proof.
  intros Hne Hfirst Hl. apply sentence_lang in Hl as (a & kw' & b & t & -> & Hkw & Ht & Hb).
  assert (kw' <> EmptyString) as Hne'.
  { intros ->. destruct kw; [contradiction|discriminate]. }
  assert (first_char not_space kw') as Hfirst'.
  { apply first_char_lower. rewrite Hkw. exact Hfirst. }
  destruct (lstrip_app_first a (kw' ++ b ++ String t EmptyString)) as (a' & Ea).
  - destruct kw'; [contradiction|discriminate].
  - destruct kw'; [contradiction|exact Hfirst'].
  - exists a', kw', b, t. unfold Py.strip. rewrite Ea.
    replace (a' ++ kw' ++ b ++ String t EmptyString)%string
      with ((a' ++ kw' ++ b) ++ String t EmptyString)%string
      by (rewrite !append_assoc'; reflexivity).
    rewrite rstrip_id_last by (apply terminator_not_space, Ht). auto.
Qed.

Lemma risk_keywords_start :
  Forall (fun p => Forall (fun kw => kw <> EmptyString /\ first_char not_space (Py.lower kw))
                          (keywords (snd p))) RISK_PATTERNS.
Proof.
  unfold RISK_PATTERNS.
  repeat (constructor;
          [repeat (constructor; [split; [discriminate|reflexivity]|]); constructor|]).
  constructor.
Qed.

Lemma first_hit_In text kws kw : first_hit text kws = Some kw -> In kw kws.
Proof. unfold first_hit. intros H. apply find_some in H. apply H. Qed.

(** X10.  The evidence of every finding stands in the text, is not empty and
    does not begin with whitespace.  An evidence of fewer than 200
    characters is a whole sentence: it holds, case ignored, a keyword of the
    category of the finding, and it ends with the first of [.], [!], [?]
    that comes after that keyword. *)
Theorem evidence_shape (text : string) (r : RiskFinding) :
  In r (detect_risks text) ->
  evidence r <> EmptyString /\ first_char not_space (evidence r) /\
  Py.contains (evidence r) text = true /\
  ((String.length (evidence r) < 200)%nat ->
   exists info kw a w b t,
     In (risk_type r, info) RISK_PATTERNS /\ In kw (keywords info) /\
     evidence r = (a ++ w ++ b ++ String t EmptyString)%string /\
     Py.lower w = kw /\ all_chars not_terminator b = true /\ is_terminator t = true).
Proof.
  intros Hr. apply detect_risks_In in Hr as ([ty info] & kw & s & Hp & Hhit & Hs & ->).
  cbn [fst snd] in *. cbn [finding_of evidence risk_type].
  apply find_sentence_In in Hs as (m & Hm & Hne & ->).
  destruct (finditer_lang _ _ _ _ (sentence_pattern_consumes kw 150) Hm)
    as (Hl & _ & pre & post & Htext & _).
  set (w := group0 text m) in *. clearbody w.
  split; [apply take_nonempty, take_nonempty, Hne|].
  split; [apply take_first, take_first, strip_first|].
  split.
  { eapply contains_trans; [apply take_contains|].
    eapply contains_trans; [apply take_contains|].
    eapply contains_trans; [apply strip_contains|]. eapply in_text_contains, Htext. }
  intros Hlen.
  assert (Py.take 200 (Py.take 300 (Py.strip w)) = Py.strip w) as E.
  { rewrite (take_short 200) by exact Hlen.
    rewrite (take_short 200) in Hlen by exact Hlen.
    apply take_short. lia. }
  rewrite E.
  pose proof (first_hit_In _ _ _ Hhit) as Hkw.
  pose proof (proj1 (List.Forall_forall _ _)
                (proj1 (List.Forall_forall _ _) risk_keywords_start _ Hp) _ Hkw)
    as [Hkne Hkfirst].
  pose proof (proj1 (List.Forall_forall _ _)
                (proj1 (List.Forall_forall _ _) risk_keywords_lowercase _ Hp) _ Hkw)
    as Hklow.
  cbn [snd] in Hkw, Hkne, Hkfirst, Hklow.
  destruct (strip_sentence _ _ _ Hkne Hkfirst Hl) as (a & kw' & b & t & Es & Ekw & Ht & Hb).
  exists info, kw, a, kw', b, t. rewrite Ekw, Hklow. auto 10.
Qed.

Lemma evidence_shape_witness :
  exists r, In r (detect_risks penalty_text) /\ evidence r <> EmptyString.
Proof.
  assert (exists r, In r (detect_risks penalty_text)) as (r & Hin)
    by (eexists; vm_compute; left; reflexivity).
  exists r. split; [exact Hin|]. exact (proj1 (evidence_shape _ _ Hin)).
Defined.

End Evidence.

Section Reported.

Import ReFacts ReShape.

(** ** A text without sentence terminator *)

Lemma all_chars_mid P (a w b : string) :
  all_chars P (a ++ w ++ b)%string = true -> all_chars P w = true.
Proof.
  rewrite !all_chars_app. intros H. apply andb_true_iff in H as [_ H].
  apply andb_true_iff in H as [H _]. exact H.
Qed.

Lemma no_terminator_no_match text kw window :
  all_chars not_terminator text = true ->
  finditer IGNORECASE_DOTALL (sentence_pattern kw window) text = [].
Proof.
  intros Hfree.
  destruct (finditer IGNORECASE_DOTALL (sentence_pattern kw window) text) as [|m ms] eqn:E;
    [reflexivity|].
  exfalso.
  assert (In m (finditer IGNORECASE_DOTALL (sentence_pattern kw window) text)) as Hm
    by (rewrite E; left; reflexivity).
  destruct (finditer_lang _ _ _ _ (sentence_pattern_consumes kw window) Hm)
    as (Hl & _ & pre & post & Htext & _).
  apply sentence_lang in Hl as (a & kw' & b & t & Ew & _ & Ht & _).
  rewrite Htext, Ew in Hfree. apply all_chars_mid in Hfree.
  rewrite <- !append_assoc', all_chars_app in Hfree.
  apply andb_true_iff in Hfree as [_ Hfree]. cbn [all_chars] in Hfree.
  unfold not_terminator in Hfree. rewrite Ht in Hfree. discriminate.
Qed.

(** X11.  A text without any of [.], [!], [?] has no findings, whatever
    keywords it holds, and so the score 0 and the category "Low Risk". *)
Theorem unterminated_text_no_findings (text : string) :
  all_chars not_terminator text = true ->
  detect_risks text = [] /\ calculate_risk_score (detect_risks text) = (0%Z, "Low Risk"%string).
Proof.
  intros Hfree.
  assert (detect_risks text = []) as E; [|rewrite E; split; reflexivity].
  destruct (detect_risks text) as [|r rs] eqn:E; [reflexivity|]. exfalso.
  assert (In r (detect_risks text)) as Hr by (rewrite E; left; reflexivity).
  apply detect_risks_In in Hr as (p & kw & s & _ & _ & Hs & _).
  apply find_sentence_In in Hs as (m & Hm & _).
  rewrite (no_terminator_no_match _ _ _ Hfree) in Hm. destruct Hm.
Qed.

Lemma unterminated_text_no_findings_witness :
  Py.contains "penalty" (Py.lower unterminated_text) = true /\
  detect_risks unterminated_text = [].
Proof.
  split; [reflexivity|].
  exact (proj1 (unterminated_text_no_findings unterminated_text eq_refl)).
Defined.

(** ** When a category is reported *)

Lemma rep_opt_stop body greedy n c g k :
  k c g <> None -> rep_opt body greedy n c g k <> None.
Proof.
  intros Hk. destruct n as [|n]; [exact Hk|]. rewrite rep_opt_S.
  destruct greedy.
  - destruct (body c g _); [discriminate|exact Hk].
  - destruct (k c g); [discriminate|contradiction].
Qed.

Lemma run_rep0_stop f greedy hi r c g k :
  k c g <> None -> run f (Rep greedy 0 hi r) c g k <> None.
Proof. intros Hk. cbn [run rep_min]. apply rep_opt_stop, Hk. Qed.

(** A literal word under IGNORECASE is a prefix test that ignores case. *)
Lemma run_lit_ci f w : ignorecase f = true -> forall c g k,
  run f (lit w) c g k
  = if ci_prefix w (rest c)
    then k (fwd c (Py.take (String.length w) (rest c)) (Py.drop (String.length w) (rest c))) g
    else None.
Proof.
  intros Hf. induction w as [|a w IH]; intros [p s i] g k.
  - cbn [lit run ci_prefix String.length Py.take Py.drop rest].
    rewrite <- (fwd_empty (mkCursor p s i)) at 1. reflexivity.
  - assert (run f (lit (String a w)) (mkCursor p s i) g k
            = one (chr_eq f a) (mkCursor p s i) g (fun c' g' => run f (lit w) c' g' k)) as ->.
    { destruct w; reflexivity. }
    destruct s as [|b s]; [reflexivity|].
    rewrite one_cons. cbn [ci_prefix rest]. unfold chr_eq. rewrite Hf.
    destruct (Ascii.eqb (Py.lower_char a) (Py.lower_char b)); [|reflexivity].
    rewrite IH. cbn [rest andb]. destruct (ci_prefix w s); [|reflexivity].
    unfold fwd. cbn [prev pos String.length Py.take Py.drop last_of]. do 2 f_equal. lia.
Qed.

(** A lazy repeat of a class gets over a run of the class to a place where
    the rest of the pattern matches. *)
Lemma rep_opt_lazy_reach P k : forall (b : string) n c g after,
  rest c = (b ++ after)%string -> all_chars P b = true -> (String.length b <= n)%nat ->
  k (fwd c b after) g <> None ->
  rep_opt (one P) false n c g k <> None.
Proof.
  induction b as [|a b IH]; intros n c g after Hrest Hall Hn Hk.
  - apply rep_opt_stop. rewrite append_empty_l in Hrest. rewrite <- Hrest, fwd_empty in Hk.
    exact Hk.
  - destruct n as [|n]; [simpl in Hn; lia|]. rewrite rep_opt_S.
    destruct (k c g); [discriminate|].
    destruct c as [p s i]. cbn [rest] in Hrest. subst s. rewrite append_cons, one_cons.
    cbn [all_chars] in Hall. apply andb_true_iff in Hall as [Ha Hall]. rewrite Ha.
    cbn [pos]. replace (i <? S i)%nat with true by (symmetry; apply Nat.ltb_lt; lia).
    apply (IH n _ g after); [reflexivity|exact Hall|simpl in Hn; lia|].
    unfold fwd in *. cbn [prev pos last_of String.length] in *.
    replace (S i + String.length b)%nat with (i + S (String.length b))%nat by lia.
    exact Hk.
Qed.

(** Where a piece with the lower-case image of the keyword stands in front
    of a terminator, the sentence pattern matches. *)
Lemma sentence_match_at kw window (w b : string) t after c :
  rest c = (w ++ b ++ String t after)%string ->
  Py.lower w = Py.lower kw -> all_chars not_terminator b = true -> is_terminator t = true ->
  match_at IGNORECASE_DOTALL (sentence_pattern kw window) false c <> None.
Proof.
  intros Hrest Hw Hb Ht. unfold match_at, sentence_pattern. cbn [seq andb].
  match goal with |- match ?x with _ => _ end <> None =>
    assert (x <> None) as Hx; [|destruct x as [[c' g']|]; [discriminate|contradiction]] end.
  rewrite run_Seq. unfold range. apply run_rep0_stop.
  rewrite run_Seq. unfold lazy_star at 1. apply run_rep0_stop.
  rewrite run_Seq, (run_lit_ci IGNORECASE_DOTALL kw eq_refl).
  assert (ci_prefix kw (rest c) = true) as Hp by (apply ci_prefix_iff; eauto).
  rewrite Hp, Hrest, <- (lower_eq_length _ _ Hw), take_app_exact, drop_app_exact.
  rewrite run_Seq. unfold lazy_star. cbn [run rep_min].
  change (run IGNORECASE_DOTALL (Cls true terminator))
    with (one (cls_mem IGNORECASE_DOTALL true terminator)).
  apply (rep_opt_lazy_reach _ _ b _ _ _ (String t after)).
  - reflexivity.
  - eapply all_chars_impl; [|exact Hb]. intros a Ha. rewrite not_terminator_class. exact Ha.
  - unfold rep_bound. cbn [rest fwd]. rewrite append_length. lia.
  - unfold fwd at 1. cbn [prev rest pos]. rewrite one_cons, terminator_class, Ht. discriminate.
Qed.

Lemma span_terminator (s : string) t after :
  is_terminator t = true ->
  exists b t' after',
    (s ++ String t after)%string = (b ++ String t' after')%string /\
    all_chars not_terminator b = true /\ is_terminator t' = true.
Proof.
  intros Ht. induction s as [|a s (b & t' & after' & E & Hb & Ht')].
  - exists EmptyString, t, after. auto.
  - destruct (is_terminator a) eqn:Ea.
    + exists EmptyString, a, (s ++ String t after)%string. auto.
    + exists (String a b), t', after'. rewrite !append_cons, E. cbn [all_chars].
      unfold not_terminator at 1. rewrite Ea, Hb. auto.
Qed.

Lemma strip_nonempty (w : string) a :
  not_space a = true -> Py.contains (String a EmptyString) w = true ->
  Py.strip w <> EmptyString.
Proof.
  intros Ha Hc E. destruct (strip_middle w) as (t1 & t2 & Ew & H1 & H2).
  rewrite E, append_empty_l in Ew. apply contains_true_iff in Hc as (x & y & Hxy).
  assert (all_chars Py.isspace w = true) as Hall by (rewrite Ew, all_chars_app, H1, H2; auto).
  rewrite Hxy in Hall. apply all_chars_mid in Hall. cbn [all_chars] in Hall.
  unfold not_space in Ha. destruct (Py.isspace a); discriminate.
Qed.

(** Every match of the sentence pattern gives a sentence. *)
Lemma sentence_not_blank text kw window m :
  In m (finditer IGNORECASE_DOTALL (sentence_pattern kw window) text) ->
  Py.strip (group0 text m) <> EmptyString.
Proof.
  intros Hm.
  destruct (finditer_lang _ _ _ _ (sentence_pattern_consumes kw window) Hm) as (Hl & _).
  apply sentence_lang in Hl as (a & kw' & b & t & Ew & _ & Ht & _).
  apply (strip_nonempty _ t); [apply terminator_not_space, Ht|].
  rewrite Ew. apply contains_true_iff. exists (a ++ kw' ++ b)%string, EmptyString.
  rewrite !append_assoc', append_empty_r. reflexivity.
Qed.

(** The sentences of a keyword: none without a match, one at least with
    one. *)
Lemma find_sentence_nonempty text kw window :
  _find_sentence_with_keyword text kw window <> [] <->
  finditer IGNORECASE_DOTALL (sentence_pattern kw window) text <> [].
Proof.
  unfold _find_sentence_with_keyword.
  destruct (finditer IGNORECASE_DOTALL (sentence_pattern kw window) text) as [|m ms] eqn:E.
  - cbn. tauto.
  - split; [discriminate|]. intros _.
    assert (Py.strip (group0 text m) <> EmptyString) as Hne
      by (apply (sentence_not_blank text kw window); rewrite E; left; reflexivity).
    cbn [sentences_loop]. apply String.eqb_neq in Hne. rewrite Hne.
    rewrite sentences_loop_app. cbn [app firstn]. discriminate.
Qed.

(** The sentence pattern has a match exactly when a piece of the text that
    the matcher reads as the keyword comes before a terminator. *)
Lemma sentence_found text kw window :
  finditer IGNORECASE_DOTALL (sentence_pattern kw window) text <> [] <->
  before_terminator kw text.
Proof.
  split.
  - intros Hne.
    destruct (finditer IGNORECASE_DOTALL (sentence_pattern kw window) text) as [|m ms] eqn:E;
      [contradiction|].
    assert (In m (finditer IGNORECASE_DOTALL (sentence_pattern kw window) text)) as Hm
      by (rewrite E; left; reflexivity).
    destruct (finditer_lang _ _ _ _ (sentence_pattern_consumes kw window) Hm)
      as (Hl & _ & pre & post & Htext & _).
    apply sentence_lang in Hl as (a & kw' & b & t & Ew & Hkw & Ht & _).
    exists (pre ++ a)%string, kw', b, t, post. rewrite Htext, Ew, !append_assoc'.
    split; [reflexivity|]. split; [apply (lit_lang IGNORECASE_DOTALL kw eq_refl), Hkw|exact Ht].
  - intros (a & w & b & t & c & Htext & Hw & Ht) Hnil.
    apply lang_lit in Hw. cbn [ignorecase IGNORECASE_DOTALL] in Hw.
    destruct (span_terminator b t c Ht) as (b' & t' & c' & Eb & Hb' & Ht').
    pose proof (sentence_match_at kw window w b' t' c'
                  (mkCursor (last_of None a) (w ++ b' ++ String t' c') (0 + String.length a))
                  eq_refl Hw Hb' Ht') as Hm.
    destruct (match_at _ _ false _) as [m|] eqn:Em; [|contradiction].
    assert (text = (a ++ w ++ b' ++ String t' c')%string) as Htext'
      by (rewrite Htext, <- Eb; reflexivity).
    destruct (scan_cover IGNORECASE_DOTALL (sentence_pattern kw window)
                (fun c m => match_at_nonempty _ _ false c m (sentence_pattern_consumes kw window))
                text 0 None 0) as [_ Hcover].
    specialize (Hcover (String.length a) m).
    assert (Py.take (String.length a) text = a) as Ht1
      by (rewrite Htext'; apply take_app_exact).
    assert (Py.drop (String.length a) text = (w ++ b' ++ String t' c')%string) as Ht2
      by (rewrite Htext'; apply drop_app_exact).
    rewrite Ht1, Ht2 in Hcover.
    destruct Hcover as [Hin|(m' & Hin & _)].
    + rewrite Htext', append_length. lia.
    + exact Em.
    + unfold finditer in Hnil. rewrite Hnil in Hin. destruct Hin.
    + unfold finditer in Hnil. rewrite Hnil in Hin. destruct Hin.
Qed.

(** X12.  A category is reported exactly when the first of its keywords that
    the lowered text holds (the test [keyword in text_lower] of the
    detector) is found by the sentence pattern: a piece of the text that
    the matcher reads as that keyword under IGNORECASE comes somewhere
    before one of [.], [!], [?].  The two tests of the keyword are kept
    apart; the later keywords of the category are not tried. *)
Theorem category_reported (text : string) (p : string * risk_info) :
  In p RISK_PATTERNS ->
  ((exists r, In r (detect_risks text) /\ risk_type r = fst p) <->
   (exists kw, first_hit text (keywords (snd p)) = Some kw /\ before_terminator kw text)).
Proof.
  intros Hp. split.
  - intros (r & Hr & Hty).
    apply detect_risks_In in Hr as (q & kw & s & Hq & Hhit & Hs & ->).
    cbn [finding_of risk_type] in Hty.
    assert (q = p) as ->.
    { pose proof risk_names_NoDup as Hnd. clear -Hp Hq Hty Hnd.
      induction RISK_PATTERNS as [|x xs IH]; [destruct Hp|].
      cbn [map] in Hnd. inversion Hnd as [|? ? Hnot Hnd']; subst.
      destruct Hp as [->|Hp], Hq as [->|Hq]; auto.
      - exfalso. apply Hnot. rewrite <- Hty. apply in_map, Hq.
      - exfalso. apply Hnot. rewrite Hty. apply in_map, Hp. }
    exists kw. split; [exact Hhit|].
    apply (sentence_found text kw 150), find_sentence_nonempty.
    intros E. rewrite E in Hs. destruct Hs.
  - intros (kw & Hhit & Hbefore).
    apply (sentence_found text kw 150), find_sentence_nonempty in Hbefore.
    destruct (_find_sentence_with_keyword text kw 150) as [|s ss] eqn:E; [contradiction|].
    exists (finding_of (fst p) (snd p) s). split; [|reflexivity].
    apply detect_risks_In. exists p, kw, s. rewrite E. split; [exact Hp|].
    split; [exact Hhit|]. split; [left; reflexivity|reflexivity].
Qed.

Lemma category_reported_witness :
  In ("Penalty Clauses"%string,
      mkInfo ["penalty"; "fine"; "damages"; "liquidated"; "breach"; "indemnify"]%string
             "high" "Clauses imposing penalties for breach") RISK_PATTERNS /\
  exists kw, first_hit penalty_text ["penalty"; "fine"; "damages"; "liquidated"; "breach";
                                     "indemnify"]%string = Some kw
             /\ before_terminator kw penalty_text.
Proof.
  assert (In ("Penalty Clauses"%string,
              mkInfo ["penalty"; "fine"; "damages"; "liquidated"; "breach"; "indemnify"]%string
                     "high" "Clauses imposing penalties for breach") RISK_PATTERNS) as Hp
    by (left; reflexivity).
  split; [exact Hp|].
  apply (proj1 (category_reported penalty_text _ Hp)).
  eexists. split; [vm_compute; left; reflexivity|reflexivity].
Defined.

End Reported.

(* ===================================================================== *)
(** * Keywords that never decide                                         *)
(* ===================================================================== *)

Section Shadowed.

Lemma first_hit_pruned text : forall kws before,
  shadows_ok before kws = true ->
  Forall (fun k => Py.contains k (Py.lower text) = false) before ->
  first_hit text (List.filter live_keyword kws) = first_hit text kws.
Proof.
  unfold first_hit.
  induction kws as [|kw kws IH]; intros before Hok Hbefore; [reflexivity|].
  cbn [shadows_ok] in Hok. apply andb_true_iff in Hok as [Hkw Hok].
  cbn [List.filter find]. destruct (Py.contains kw (Py.lower text)) eqn:Ec.
  - destruct (live_keyword kw) eqn:El; [cbn [find]; rewrite Ec; reflexivity|].
    exfalso. cbn [orb] in Hkw. apply existsb_exists in Hkw as (k & Hk & Hsub).
    pose proof (proj1 (List.Forall_forall _ _) Hbefore k Hk) as Hf. cbv beta in Hf.
    rewrite (contains_trans _ _ _ Hsub Ec) in Hf. discriminate.
  - assert (Forall (fun k => Py.contains k (Py.lower text) = false) (before ++ [kw])) as Hb'
      by (apply Forall_app; split; [exact Hbefore|constructor; [exact Ec|constructor]]).
    destruct (live_keyword kw); [cbn [find]; rewrite Ec|]; exact (IH _ Hok Hb').
Qed.

Lemma risk_shadows_ok :
  Forall (fun p => shadows_ok [] (keywords (snd p)) = true) RISK_PATTERNS.
Proof. repeat (constructor; [vm_compute; reflexivity|]). constructor. Qed.

Lemma category_findings_pruned text p :
  In p RISK_PATTERNS -> category_findings text (prune p) = category_findings text p.
Proof.
  intros Hp. unfold category_findings, prune. cbn [fst snd keywords].
  rewrite (first_hit_pruned text _ []);
    [|exact (proj1 (List.Forall_forall _ _) risk_shadows_ok _ Hp)|constructor].
  reflexivity.
Qed.

(** X13.  Eight keywords of the table never decide: each of them contains a
    keyword that stands in front of it in its category, so that keyword is
    found first.  Without them the detector returns the same findings on
    every text. *)
Theorem shadowed_keywords_never_decide (text : string) :
  Forall (fun kw => exists p, In p RISK_PATTERNS /\ In kw (keywords (snd p))) shadowed_keywords /\
  map (fun p => length (keywords (snd p))) RISK_PATTERNS = [6; 5; 4; 6; 5; 4; 7; 5; 5; 5]%nat /\
  map (fun p => length (keywords (snd (prune p)))) RISK_PATTERNS
  = [6; 5; 2; 4; 4; 3; 7; 4; 4; 5]%nat /\
  (forall p kw, In p RISK_PATTERNS -> first_hit text (keywords (snd p)) = Some kw ->
                ~ In kw shadowed_keywords) /\
  pattern_loop text (Py.lower text) (map prune RISK_PATTERNS) [] = detect_risks text.
Proof.
  split.
  { apply List.Forall_forall. intros kw Hin.
    assert (existsb (fun p => existsb (String.eqb kw) (keywords (snd p))) RISK_PATTERNS = true)
      as Hex.
    { revert kw Hin. apply List.Forall_forall.
      repeat (constructor; [reflexivity|]). constructor. }
    apply existsb_exists in Hex as (p & Hp & Hex).
    apply existsb_exists in Hex as (k & Hk & E). apply String.eqb_eq in E. subst k. eauto. }
  split; [reflexivity|]. split; [reflexivity|].
  split.
  { intros p kw Hp Hhit Hin.
    rewrite <- (first_hit_pruned text _ [] 
                  (proj1 (List.Forall_forall _ _) risk_shadows_ok _ Hp)) in Hhit by constructor.
    apply first_hit_In, filter_In in Hhit as [_ Hlive].
    unfold live_keyword in Hlive. apply negb_true_iff in Hlive.
    assert (existsb (String.eqb kw) shadowed_keywords = true) as Hex; [|congruence].
    apply existsb_exists. exists kw. split; [exact Hin|apply String.eqb_refl]. }
  unfold detect_risks. rewrite !pattern_loop_spec. f_equal.
  assert (forall ps, (forall p, In p ps -> In p RISK_PATTERNS) ->
            flat_map (category_findings text) (map prune ps)
            = flat_map (category_findings text) ps) as H.
  { induction ps as [|p ps IH]; intros Hsub; [reflexivity|]. cbn [map flat_map].
    rewrite category_findings_pruned by (apply Hsub; left; reflexivity).
    rewrite IH by (intros q Hq; apply Hsub; right; exact Hq). reflexivity. }
  apply H. auto.
Qed.

End Shadowed.

(* ===================================================================== *)
(** * More on the classifier                                              *)
(* ===================================================================== *)

Section ClassifierMore.

Local Open Scope Z_scope.

Lemma classify_description text :
  type_description (classify_contract text)
  = _get_type_description (primary_type (classify_contract text)).
Proof.
  unfold classify_contract.
  destruct (score_loop (Py.lower text) CLASSIFICATION_PATTERNS []); reflexivity.
Qed.

Lemma qualifying_In text name n :
  In (name, n) (qualifying text) <->
  exists info, In (name, info) CLASSIFICATION_PATTERNS /\ n = match_count text info /\
               min_matches info <= match_count text info.
Proof.
  unfold qualifying. rewrite in_map_iff. split.
  - intros ([name' info] & E & Hin). cbn [fst snd] in E. injection E as <- <-.
    apply filter_In in Hin as [Hin Hq]. unfold qualifies in Hq. cbn [snd] in Hq.
    apply Z.leb_le in Hq. eauto.
  - intros (info & Hin & -> & Hq). exists (name, info). split; [reflexivity|].
    apply filter_In. split; [exact Hin|]. unfold qualifies. cbn [snd]. apply Z.leb_le, Hq.
Qed.

(** X14.  The description that the classifier returns is the entry of its
    primary type in the table of descriptions: the result is one of nine
    rows, and the default of the lookup is not used.  The description is
    "Contract of unknown type" exactly when no bucket qualifies. *)
Theorem description_from_table (text : string) :
  let c := classify_contract text in
  In (primary_type c, type_description c)
     [ ("Employment", "Agreement between employer and employee defining terms of work");
       ("Lease", "Agreement for renting property or equipment");
       ("Service Agreement", "Contract for provision of services");
       ("Vendor", "Agreement for supply of goods or services from a vendor");
       ("Partnership", "Agreement establishing partnership between parties");
       ("NDA", "Non-disclosure agreement protecting confidential information");
       ("License Agreement", "Agreement granting rights to use intellectual property");
       ("Loan Agreement", "Agreement for borrowing and repayment of funds");
       ("General Contract", "Contract of unknown type") ]%string /\
  (type_description c = "Contract of unknown type"%string <-> all_matches c = []) /\
  (primary_type c = "General Contract"%string <-> all_matches c = []).
Proof.
  intros c. subst c. rewrite classify_description.
  destruct (classify_contract_cases text) as [Hall Hcases]. rewrite Hall.
  destruct Hcases as [(Hq & Hp & _)|(pre & n & post & E & _)].
  - rewrite Hp, Hq. split; [cbn; tauto|]. split; split; reflexivity.
  - assert (In (primary_type (classify_contract text), n) (qualifying text)) as Hin
      by (rewrite E; apply in_or_app; right; left; reflexivity).
    apply qualifying_In in Hin as (info & Hin & _).
    assert (qualifying text <> []) as Hne by (rewrite E; destruct pre; discriminate).
    set (name := primary_type (classify_contract text)) in *. clearbody name.
    apply (in_map fst) in Hin. rewrite bucket_names in Hin. cbn [fst In] in Hin.
    repeat (destruct Hin as [Hin|Hin];
            [subst name;
             match goal with |- context [_get_type_description ?x] =>
               let d := eval vm_compute in (_get_type_description x) in
               change (_get_type_description x) with d end;
             split; [cbn; tauto|split; (split; [discriminate|intros H; contradiction])]|]).
    destruct Hin.
Qed.

Lemma filter_length_mono {A : Type} (P Q : A -> bool) l :
  (forall x, P x = true -> Q x = true) ->
  (length (List.filter P l) <= length (List.filter Q l))%nat.
Proof.
  intros H. induction l as [|x l IH]; [reflexivity|]. cbn [List.filter].
  destruct (P x) eqn:Ep.
  - rewrite (H x Ep). simpl. lia.
  - destruct (Q x); simpl; lia.
Qed.

Lemma match_count_mono pre text post info :
  match_count text info <= match_count (pre ++ text ++ post) info.
Proof.
  unfold match_count. apply inj_le, filter_length_mono. intros kw H.
  rewrite !lower_app. apply contains_true_iff in H as (a & b & ->).
  apply contains_true_iff. exists (Py.lower pre ++ a)%string, (b ++ Py.lower post)%string.
  rewrite !append_assoc'. reflexivity.
Qed.

(** X15.  Text added in front of a text or after it never takes a bucket out
    of [all_matches] and never lowers its count. *)
Theorem classification_monotone (pre text post name : string) (n : Z) :
  In (name, n) (all_matches (classify_contract text)) ->
  exists n', n <= n' /\
             In (name, n') (all_matches (classify_contract (pre ++ text ++ post))).
Proof.
  destruct (classify_contract_cases text) as [-> _].
  destruct (classify_contract_cases (pre ++ text ++ post)) as [-> _].
  intros H. apply qualifying_In in H as (info & Hin & -> & Hq).
  pose proof (match_count_mono pre text post info) as Hm.
  exists (match_count (pre ++ text ++ post) info). split; [exact Hm|].
  apply qualifying_In. exists info. split; [exact Hin|]. split; [reflexivity|lia].
Qed.

Lemma classification_monotone_witness :
  In ("Employment"%string, 3) (all_matches (classify_contract employment_text)) /\
  exists n', 3 <= n' /\
    In ("Employment"%string, n')
       (all_matches (classify_contract ("Salary: " ++ employment_text ++ " Job."))).
Proof.
  assert (In ("Employment"%string, 3) (all_matches (classify_contract employment_text)))
    as Hin by (vm_compute; left; reflexivity).
  split; [exact Hin|].
  exact (classification_monotone "Salary: " employment_text " Job." _ _ Hin).
Defined.

End ClassifierMore.

(* ===================================================================== *)
(** * Sentences                                                           *)
(* ===================================================================== *)

Section Sentences.

Import ReFacts ReShape.

Lemma terminator_class_plain a : cls_mem no_flags false terminator a = is_terminator a.
Proof. destruct a as [[] [] [] [] [] [] [] []]; vm_compute; reflexivity. Qed.

(** A greedy repeat of a class in front of the end of the pattern takes the
    whole run of the class. *)
Lemma rep_opt_greedy_all P : forall s n p i g,
  (String.length (fst (span P s)) <= n)%nat ->
  rep_opt (one P) true n (mkCursor p s i) g (fun c' g' => Some (c', g'))
  = Some (fwd (mkCursor p s i) (fst (span P s)) (snd (span P s)), g).
Proof.
  induction s as [|a s IH]; intros n p i g Hn.
  - unfold fwd. cbn [span fst snd last_of prev pos String.length]. rewrite Nat.add_0_r.
    destruct n; [reflexivity|]. rewrite rep_opt_S, one_empty. reflexivity.
  - cbn [span] in *. destruct (P a) eqn:Ea.
    + specialize (IH (pred n) (Some a) (S i) g).
      destruct (span P s) as [w r] eqn:Es. cbn [fst snd String.length] in *.
      destruct n as [|n]; [lia|].
      rewrite rep_opt_S, one_cons, Ea. cbn [pos].
      replace (i <? S i)%nat with true by (symmetry; apply Nat.ltb_lt; lia).
      cbn [pred] in IH. rewrite IH by lia.
      unfold fwd. cbn [prev pos last_of String.length].
      replace (S i + String.length w)%nat with (i + S (String.length w))%nat by lia.
      reflexivity.
    + unfold fwd. cbn [fst snd last_of prev pos String.length]. rewrite Nat.add_0_r.
      destruct n as [|n]; [reflexivity|].
      rewrite rep_opt_S, one_cons, Ea. reflexivity.
Qed.

(** [\s+] at one position: the run of whitespace there, when there is
    one. *)
Lemma match_at_spaces p s i :
  match_at no_flags (plus space) false (mkCursor p s i)
  = match fst (span Py.isspace s) with
    | EmptyString => None
    | w => Some (mkMatch i (i + String.length w) [])
    end.
Proof.
  unfold match_at, plus, space. cbn [run rep_min andb].
  change (run no_flags (Cls false [ISpace])) with (one (cls_mem no_flags false [ISpace])).
  rewrite (span_ext Py.isspace (cls_mem no_flags false [ISpace]))
    by (intros a; symmetry; apply space_class).
  set (P := cls_mem no_flags false [ISpace]).
  destruct s as [|a s]; [reflexivity|]. rewrite one_cons. cbn [span].
  destruct (P a) eqn:Ea; [|reflexivity].
  unfold rep_bound. cbn [rest].
  rewrite (rep_opt_greedy_all P) by apply span_length.
  destruct (span P s) as [w r]. unfold fwd. cbn [fst snd pos String.length]. f_equal.
  f_equal. lia.
Qed.

Lemma separator_at_facts c m :
  separator_at c = Some m ->
  m_start m = pos c /\ (m_start m < m_end m)%nat /\
  exists t w r, prev c = Some t /\ is_terminator t = true /\
                rest c = String w r /\ Py.isspace w = true.
Proof.
  unfold separator_at, after_terminator. destruct c as [p s i]. cbn [prev rest pos].
  destruct p as [t|]; [|discriminate]. rewrite terminator_class_plain.
  destruct (is_terminator t) eqn:Et; [|discriminate].
  rewrite match_at_spaces. destruct s as [|w r]; [discriminate|]. cbn [span].
  destruct (Py.isspace w) eqn:Ew; [|discriminate].
  destruct (span Py.isspace r) as [w' r']. cbn [fst]. intros E. injection E as <-.
  cbn [m_start m_end String.length]. split; [reflexivity|]. split; [lia|].
  exists t, w, r. auto.
Qed.

Lemma separator_at_Some t w r i :
  is_terminator t = true -> Py.isspace w = true ->
  exists m, separator_at (mkCursor (Some t) (String w r) i) = Some m.
Proof.
  intros Ht Hw. unfold separator_at, after_terminator. cbn [prev].
  rewrite terminator_class_plain, Ht, match_at_spaces. cbn [span]. rewrite Hw.
  destruct (span Py.isspace r) as [w' r']. cbn [fst]. eauto.
Qed.

(** The separators come in text order, each is found at a position of the
    text, and every position where a separator begins lies in one of
    them. *)
Lemma separators_cover : forall s skip p i,
  ordered_from (i + skip) (separators skip p s i) /\
  (forall m, In m (separators skip p s i) ->
     exists j, (skip <= j <= String.length s)%nat /\
       separator_at (mkCursor (last_of p (Py.take j s)) (Py.drop j s) (i + j)) = Some m) /\
  (forall j m, (skip <= j <= String.length s)%nat ->
     separator_at (mkCursor (last_of p (Py.take j s)) (Py.drop j s) (i + j)) = Some m ->
     exists m', In m' (separators skip p s i) /\ (m_start m' <= i + j < m_end m')%nat).
Proof.
  assert (forall p a s i j,
            mkCursor (last_of p (Py.take (S j) (String a s))) (Py.drop (S j) (String a s))
                     (i + S j)
            = mkCursor (last_of (Some a) (Py.take j s)) (Py.drop j s) (S i + j)) as Hshift.
  { intros. cbn [Py.take Py.drop last_of]. f_equal. lia. }
  assert (forall p s i, mkCursor (last_of p (Py.take 0 s)) (Py.drop 0 s) (i + 0)
                        = mkCursor p s i) as Hzero.
  { intros. destruct s; cbn [Py.take Py.drop last_of]; f_equal; lia. }
  induction s as [|a s IH]; intros skip p i.
  - destruct skip as [|skip]; cbn [separators].
    + destruct (separator_at (mkCursor p EmptyString i)) as [m0|] eqn:E.
      * apply separator_at_facts in E as (_ & _ & t & w & r & _ & _ & Hr & _).
        discriminate Hr.
      * split; [exact I|]. split; [intros m []|].
        intros j m Hj Hm. simpl in Hj. assert (j = 0)%nat as -> by lia.
        rewrite Hzero, E in Hm. discriminate.
    + split; [exact I|]. split; [intros m []|]. intros j m Hj _. simpl in Hj. lia.
  - destruct skip as [|skip]; cbn [separators].
    + destruct (separator_at (mkCursor p (String a s) i)) as [m0|] eqn:E.
      * pose proof (separator_at_facts _ _ E) as (Hs & Hlt & _). cbn [pos] in Hs.
        destruct (IH (m_end m0 - i - 1)%nat (Some a) (S i)) as (IH1 & IH2 & IH3).
        split; [|split].
        -- cbn [ordered_from]. split; [lia|]. split; [lia|].
           eapply ordered_from_le; [|exact IH1]. lia.
        -- intros m [<-|Hin].
           ++ exists 0%nat. rewrite Hzero. split; [simpl; lia|exact E].
           ++ apply IH2 in Hin as (j & Hj & Hm). exists (S j). rewrite Hshift.
              split; [simpl; lia|exact Hm].
        -- intros j m Hj Hm. destruct j as [|j].
           ++ exists m0. split; [left; reflexivity|lia].
           ++ destruct (Nat.le_gt_cases (m_end m0 - i - 1) j) as [Hle|Hgt].
              ** rewrite Hshift in Hm. cbn [String.length] in Hj.
                 destruct (IH3 j m ltac:(lia) Hm) as (m' & Hin & Hov).
                 exists m'. split; [right; exact Hin|lia].
              ** exists m0. split; [left; reflexivity|lia].
      * destruct (IH 0%nat (Some a) (S i)) as (IH1 & IH2 & IH3). split; [|split].
        -- eapply ordered_from_le; [|exact IH1]. lia.
        -- intros m Hin. apply IH2 in Hin as (j & Hj & Hm). exists (S j). rewrite Hshift.
           split; [simpl; lia|exact Hm].
        -- intros j m Hj Hm. destruct j as [|j].
           ++ rewrite Hzero, E in Hm. discriminate.
           ++ rewrite Hshift in Hm. cbn [String.length] in Hj.
              destruct (IH3 j m ltac:(lia) Hm) as (m' & Hin & Hov).
              exists m'. split; [exact Hin|lia].
    + destruct (IH skip (Some a) (S i)) as (IH1 & IH2 & IH3). split; [|split].
      * eapply ordered_from_le; [|exact IH1]. lia.
      * intros m Hin. apply IH2 in Hin as (j & Hj & Hm). exists (S j). rewrite Hshift.
        split; [simpl; lia|exact Hm].
      * intros j m Hj Hm. destruct j as [|j]; [lia|].
        rewrite Hshift in Hm. cbn [String.length] in Hj.
        destruct (IH3 j m ltac:(lia) Hm) as (m' & Hin & Hov).
        exists m'. split; [exact Hin|lia].
Qed.

Lemma ordered_from_In lo ms m : ordered_from lo ms -> In m ms -> (lo <= m_start m)%nat.
Proof.
  revert lo. induction ms as [|m0 ms IH]; intros lo Hord Hin; [destruct Hin|].
  cbn [ordered_from] in Hord. destruct Hord as (H1 & H2 & H3).
  destruct Hin as [<-|Hin]; [exact H1|]. specialize (IH _ H3 Hin). lia.
Qed.

(** Where a terminator followed by whitespace stands in a slice. *)
Lemma slice_runs_on text a b :
  runs_on (Py.slice a b text) ->
  exists j t w r,
    (a < j < b)%nat /\ (j <= String.length text)%nat /\
    last_of None (Py.take j text) = Some t /\ Py.drop j text = String w r /\
    is_terminator t = true /\ Py.isspace w = true.
Proof.
  intros (x & t & w & y & E & Ht & Hw). unfold Py.slice in E.
  assert (Py.drop a text = (x ++ String t (String w y)) ++ Py.drop (b - a) (Py.drop a text))%string
    as Hd by (rewrite <- E; symmetry; apply take_drop_id).
  assert (String.length (Py.take (b - a) (Py.drop a text)) <= b - a)%nat as Hlen
    by apply take_length.
  rewrite E, append_length in Hlen. cbn [String.length] in Hlen.
  assert (text = (Py.take a text ++ Py.drop a text)%string) as Ht0
    by (symmetry; apply take_drop_id).
  assert (String.length (Py.take a text) = a) as Ha.
  { destruct (Nat.le_gt_cases a (String.length text)) as [Hle|Hgt];
      [apply take_length_le, Hle|].
    exfalso. rewrite drop_all in Hd by lia.
    destruct x; rewrite ?append_cons in Hd; discriminate. }
  remember (Py.take a text ++ x ++ String t EmptyString)%string as pre eqn:Epre.
  remember (y ++ Py.drop (b - a) (Py.drop a text))%string as post eqn:Epost.
  assert (text = (pre ++ String w post)%string) as Htext.
  { rewrite Ht0 at 1. rewrite Hd. subst pre post. rewrite !append_assoc'. reflexivity. }
  assert (String.length pre = (a + String.length x + 1)%nat) as Hpre.
  { subst pre. rewrite !append_length, Ha. cbn [String.length]. lia. }
  assert (last_of None pre = Some t) as Hlast.
  { subst pre. rewrite <- append_assoc', last_of_app. reflexivity. }
  clear Epre Epost Ht0 Hd E Ha.
  exists (String.length pre), t, w, post. subst text.
  split; [lia|]. split; [|split; [|split]].
  - rewrite append_length. lia.
  - rewrite take_app_exact. exact Hlast.
  - apply drop_app_exact.
  - auto.
Qed.

(** No piece between two separators holds a terminator followed by
    whitespace. *)
Lemma pieces_clean text : forall ms start,
  ordered_from start ms ->
  (forall j m, (start < j <= String.length text)%nat ->
     separator_at (cursor_at text j) = Some m ->
     exists m', In m' ms /\ (m_start m' <= j < m_end m')%nat) ->
  Forall (fun piece => ~ runs_on piece) (pieces text start ms).
Proof.
  assert (forall a b, runs_on (Py.slice a b text) ->
            exists j m, (a < j < b)%nat /\ (j <= String.length text)%nat /\
                        separator_at (cursor_at text j) = Some m) as Hfind.
  { intros a b H. apply slice_runs_on in H as (j & t & w & r & Hj & Hle & Hp & Hd & Ht & Hw).
    destruct (separator_at_Some t w r j Ht Hw) as [m Hm].
    exists j, m. split; [exact Hj|]. split; [exact Hle|].
    unfold cursor_at. rewrite Hp, Hd. exact Hm. }
  induction ms as [|m ms IH]; intros start Hord Hcover; cbn [pieces].
  - constructor; [|constructor]. intros H.
    apply Hfind in H as (j & m & Hj & Hle & Hm).
    destruct (Hcover j m ltac:(lia) Hm) as (m' & [] & _).
  - cbn [ordered_from] in Hord. destruct Hord as (H1 & H2 & H3). constructor.
    + intros H. apply Hfind in H as (j & m0 & Hj & Hle & Hm).
      destruct (Hcover j m0 ltac:(lia) Hm) as (m' & [<-|Hin] & Hov); [lia|].
      pose proof (ordered_from_In _ _ _ H3 Hin). lia.
    + apply IH; [exact H3|]. intros j m0 Hj Hm.
      destruct (Hcover j m0 ltac:(lia) Hm) as (m' & [<-|Hin] & Hov); [lia|eauto].
Qed.

Lemma pieces_slices text : forall ms start,
  Forall (fun piece => exists a b, piece = Py.slice a b text) (pieces text start ms).
Proof.
  induction ms as [|m ms IH]; intros start; cbn [pieces]; constructor; eauto.
Qed.

Lemma runs_on_strip s : runs_on (Py.strip s) -> runs_on s.
Proof.
  destruct (strip_middle s) as (t1 & t2 & E & _).
  intros (x & t & w & y & Es & Ht & Hw). rewrite E, Es.
  exists (t1 ++ x)%string, t, w, (y ++ t2)%string. rewrite !append_assoc', !append_cons. auto.
Qed.

Lemma rstrip_idem s : Py.rstrip (Py.rstrip s) = Py.rstrip s.
Proof.
  induction s as [|a s IH]; [reflexivity|]. rewrite rstrip_cons.
  destruct (Py.rstrip s) as [|b r] eqn:E.
  - destruct (Py.isspace a) eqn:Ea; [reflexivity|]. cbn [Py.rstrip]. rewrite Ea. reflexivity.
  - rewrite rstrip_cons, IH. reflexivity.
Qed.

Lemma strip_idem s : Py.strip (Py.strip s) = Py.strip s.
Proof.
  unfold Py.strip at 1. rewrite (lstrip_id (Py.strip s)) by apply strip_first.
  unfold Py.strip. apply rstrip_idem.
Qed.

Lemma separators_text_cover text :
  ordered_from 0 (separators 0 None text 0) /\
  (forall m, In m (separators 0 None text 0) ->
     exists j, (j <= String.length text)%nat /\ separator_at (cursor_at text j) = Some m) /\
  (forall j m, (j <= String.length text)%nat ->
     separator_at (cursor_at text j) = Some m ->
     exists m', In m' (separators 0 None text 0) /\ (m_start m' <= j < m_end m')%nat).
Proof.
  destruct (separators_cover text 0 None 0) as (H1 & H2 & H3). split; [exact H1|]. split.
  - intros m Hm. destruct (H2 m Hm) as (j & Hj & E). exists j. split; [lia|exact E].
  - intros j m Hj E. apply (H3 j m); [lia|exact E].
Qed.

(** X16.  Every sentence of [split_sentences] stands in the text, is not
    empty, has no whitespace at its ends, and holds no terminator [.], [!],
    [?] followed by whitespace. *)
Theorem split_sentences_sound (text s : string) :
  In s (split_sentences text) ->
  s <> EmptyString /\ Py.strip s = s /\ Py.contains s text = true /\ ~ runs_on s.
Proof.
  unfold split_sentences. cbv zeta. rewrite in_map_iff.
  intros (piece & <- & Hin). apply filter_In in Hin as [Hin Hne].
  apply negb_true_iff, String.eqb_neq in Hne.
  split; [exact Hne|]. split; [apply strip_idem|].
  destruct (separators_text_cover text) as (Hord & _ & Hcover).
  split.
  - eapply contains_trans; [apply strip_contains|].
    destruct (proj1 (List.Forall_forall _ _) (pieces_slices text _ 0) _ Hin) as (a & b & ->).
    apply slice_contains.
  - intros H. apply runs_on_strip in H.
    refine (proj1 (List.Forall_forall _ _) (pieces_clean text _ 0 Hord _) _ Hin H).
    intros j m Hj Hm. apply (Hcover j m); [lia|exact Hm].
Qed.

Lemma split_sentences_sound_witness :
  In "Or else!"%string (split_sentences sentences_text) /\ ~ runs_on "Or else!".
Proof.
  assert (In "Or else!"%string (split_sentences sentences_text)) as Hin
    by (vm_compute; right; left; reflexivity).
  split; [exact Hin|]. exact (proj2 (proj2 (proj2 (split_sentences_sound _ _ Hin)))).
Defined.

Lemma slice_all text : Py.slice 0 (Py.len text) text = text.
Proof.
  unfold Py.slice, Py.len. rewrite Nat.sub_0_r.
  replace (Py.drop 0 text) with text by (destruct text; reflexivity).
  rewrite <- (append_empty_r text) at 2. apply take_app_exact.
Qed.

(** X17.  A text in which no terminator is followed by whitespace is one
    sentence: the stripped text, or nothing when the text is blank. *)
Theorem split_sentences_single (text : string) :
  ~ runs_on text ->
  split_sentences text
  = if String.eqb (Py.strip text) "" then [] else [Py.strip text].
Proof.
  intros Hclean. destruct (separators_text_cover text) as (_ & Hfound & _).
  assert (separators 0 None text 0 = []) as E.
  { destruct (separators 0 None text 0) as [|m ms]; [reflexivity|]. exfalso.
    destruct (Hfound m ltac:(left; reflexivity)) as (j & Hj & Hm).
    apply separator_at_facts in Hm as (_ & _ & t & w & r & Hp & Ht & Hr & Hw).
    cbn [prev rest cursor_at] in Hp, Hr. apply Hclean.
    assert (exists x, Py.take j text = (x ++ String t EmptyString)%string) as [x Hx].
    { clear -Hp. generalize dependent (Py.take j text). intros s.
      assert (forall (q : option ascii),
                last_of q s = Some t ->
                (s = EmptyString /\ q = Some t)
                \/ exists x, s = (x ++ String t EmptyString)%string) as H.
      { induction s as [|a s IH]; intros q Hq; [left; auto|]. right.
        cbn [last_of] in Hq. destruct (IH _ Hq) as [[-> Ha]|[x ->]].
        - injection Ha as ->. exists EmptyString. reflexivity.
        - exists (String a x). reflexivity. }
      intros Hs. destruct (H None Hs) as [[_ Hq]|Hx]; [discriminate|exact Hx]. }
    exists x, t, w, r. split; [|auto].
    rewrite <- (take_drop_id j text), Hx, Hr, append_assoc'. reflexivity. }
  unfold split_sentences. rewrite E. cbn [pieces List.filter]. rewrite slice_all.
  destruct (String.eqb (Py.strip text) ""); reflexivity.
Qed.

Lemma split_sentences_single_witness :
  ~ runs_on "no stop.here" /\ split_sentences "no stop.here" = ["no stop.here"%string].
Proof.
  assert (~ runs_on "no stop.here") as Hclean.
  { intros (x & t & w & y & E & Ht & Hw).
    assert (Py.contains (String t (String w EmptyString)) "no stop.here" = true) as Hc
      by (apply contains_true_iff; exists x, y; rewrite E; reflexivity).
    assert (forall a b, is_terminator a = true -> Py.isspace b = true ->
              Py.contains (String a (String b EmptyString)) "no stop.here" = false) as Hno.
    { intros a b Ha Hb.
      destruct a as [[] [] [] [] [] [] [] []]; try discriminate Ha;
        destruct b as [[] [] [] [] [] [] [] []]; try discriminate Hb; reflexivity. }
    rewrite (Hno t w Ht Hw) in Hc. discriminate. }
  split; [exact Hclean|]. exact (split_sentences_single _ Hclean).
Defined.

End Sentences.

(* ===================================================================== *)
(** * Explanations and summaries                                          *)
(* ===================================================================== *)

Section Explainer.

(** X18.  [explain_clause] and [suggest_alternatives] never return an empty
    list: a known clause type has three or four key points and, when it has
    alternatives, three of them; any other string gets one key point, one
    suggestion and an explanation that names it.  Every clause type with
    alternatives has an explanation. *)
Theorem explainer_answers (clause_type : string) :
  let e := explain_clause clause_type in
  let alternatives := suggest_alternatives clause_type in
  match dict_get CLAUSE_EXPLANATIONS clause_type with
  | Some _ => (3 <= length (key_points e) <= 4)%nat
  | None =>
      explanation e = ("No specific guidance available for " ++ clause_type)%string /\
      length (key_points e) = 1%nat /\
      alternatives = ["Consult with legal counsel for alternative language"%string]
  end /\
  (length alternatives = 3%nat \/ length alternatives = 1%nat) /\
  (dict_get ALTERNATIVE_CLAUSES clause_type <> None ->
   dict_get CLAUSE_EXPLANATIONS clause_type <> None).
Proof.
  cbv zeta. unfold explain_clause, suggest_alternatives.
  unfold CLAUSE_EXPLANATIONS, ALTERNATIVE_CLAUSES. cbn [dict_get].
  repeat match goal with
         | |- context [String.eqb ?k clause_type] =>
             destruct (String.eqb k clause_type) eqn:?
         end;
    try (repeat match goal with
                | H : String.eqb _ clause_type = true |- _ => apply String.eqb_eq in H
                end; congruence);
    cbn [key_points explanation length]; repeat split; try lia; auto; try discriminate.
Qed.

Lemma summary_loop_app tl items : forall acc,
  summary_loop tl items acc = acc ++ summary_loop tl items [].
Proof.
  induction items as [|[kw meaning] items IH]; intros acc; cbn [summary_loop];
    [rewrite app_nil_r; reflexivity|].
  rewrite IH, (IH (if Py.contains kw tl then _ else _)).
  destruct (Py.contains kw tl); [rewrite <- app_assoc|]; reflexivity.
Qed.

(** X19.  A clause text of fewer than 100 characters gets the fixed answer
    for short clauses.  For a longer one the summary holds the line of a
    keyword exactly when the text holds the keyword, case ignored; with no
    keyword the answer is the fixed advice to review the clause. *)
Theorem generate_summary_spec (clause_text : string) :
  ((String.length clause_text < 100)%nat ->
   generate_summary clause_text = "Short clause with limited scope."%string) /\
  ((100 <= String.length clause_text)%nat ->
   Forall (fun item =>
             Py.contains ("- " ++ snd item) (generate_summary clause_text)
             = Py.contains (fst item) (Py.lower clause_text)) summary_keywords /\
   (Forall (fun item => Py.contains (fst item) (Py.lower clause_text) = false)
           summary_keywords <->
    generate_summary clause_text
    = "Review clause carefully for exact obligations and restrictions."%string)).
Proof.
  unfold generate_summary, Py.len. split.
  - intros H. apply Nat.ltb_lt in H. rewrite H. reflexivity.
  - intros H. apply Nat.ltb_ge in H. rewrite H. cbv zeta.
    set (tl := Py.lower clause_text). clearbody tl.
    assert (Forall (fun item => Py.contains (fst item) tl = false) summary_keywords <->
            Py.contains "must" tl = false /\ Py.contains "shall" tl = false /\
            Py.contains "may" tl = false /\ Py.contains "not" tl = false /\
            Py.contains "terminate" tl = false /\ Py.contains "pay" tl = false /\
            Py.contains "confidential" tl = false) as Hnone.
    { unfold summary_keywords. split.
      + intros Hall. repeat (inversion Hall as [|? ? ? Hall']; subst; clear Hall;
                             rename Hall' into Hall). cbn [fst] in *. auto 10.
      + intros (H1 & H2 & H3 & H4 & H5 & H6 & H7). repeat constructor; assumption. }
    rewrite Hnone. clear Hnone.
    assert (forall P : string * string -> Prop,
              P ("must", "party is obligated to")%string ->
              P ("shall", "party must")%string ->
              P ("may", "party has the option to")%string ->
              P ("not", "party is prohibited from")%string ->
              P ("terminate", "contract can be ended")%string ->
              P ("pay", "payment is required")%string ->
              P ("confidential", "information must be kept private")%string ->
              Forall P summary_keywords) as Hall
      by (intros; unfold summary_keywords; repeat constructor; assumption).
    remember (summary_loop tl summary_keywords []) as pts eqn:Epts.
    unfold summary_keywords in Epts. cbn [summary_loop app] in Epts.
    remember (Py.contains "must" tl) as b1 eqn:E1.
    remember (Py.contains "shall" tl) as b2 eqn:E2.
    remember (Py.contains "may" tl) as b3 eqn:E3.
    remember (Py.contains "not" tl) as b4 eqn:E4.
    remember (Py.contains "terminate" tl) as b5 eqn:E5.
    remember (Py.contains "pay" tl) as b6 eqn:E6.
    remember (Py.contains "confidential" tl) as b7 eqn:E7.
    split.
    + apply Hall; cbn [fst snd]; rewrite <- ?E1, <- ?E2, <- ?E3, <- ?E4, <- ?E5, <- ?E6, <- ?E7;
        clear - Epts; destruct b1, b2, b3, b4, b5, b6, b7; subst pts; reflexivity.
    + clear - Epts. destruct b1, b2, b3, b4, b5, b6, b7; subst pts;
        (split; [intros Hf; try reflexivity; decompose [and] Hf; discriminate
                |intros E; try discriminate E; repeat split]).
Qed.

Lemma generate_summary_spec_witness :
  (100 <= String.length long_clause_text)%nat /\
  Py.contains "- party must" (generate_summary long_clause_text) = true.
Proof.
  assert (100 <= String.length long_clause_text)%nat as Hlen by (vm_compute; lia).
  split; [exact Hlen|].
  destruct (proj2 (generate_summary_spec long_clause_text) Hlen) as [Hall _].
  inversion Hall as [|? ? _ Hall']; subst. inversion Hall' as [|? ? H _]; subst.
  cbn [fst snd] in H. etransitivity; [exact H|]. vm_compute. reflexivity.
Defined.

End Explainer.

(* ===================================================================== *)
(** * Order of the findings                                               *)
(* ===================================================================== *)

Section FindingsOrder.

Lemma filter_all_in {A : Type} (P : A -> bool) l :
  (forall x, In x l -> P x = true) -> List.filter P l = l.
Proof.
  induction l as [|x l IH]; intros H; [reflexivity|]. cbn [List.filter].
  rewrite (H x) by (left; reflexivity). f_equal. apply IH. intros y Hy. apply H. right. exact Hy.
Qed.

Lemma collapse_app_apart rs1 rs2 :
  (forall r1 r2, In r1 rs1 -> In r2 rs2 -> r1 <> r2) ->
  collapse (rs1 ++ rs2) = collapse rs1 ++ collapse rs2.
Proof.
  induction rs1 as [|r rs1 IH]; intros Hapart; [reflexivity|].
  cbn [app collapse]. rewrite IH by (intros r1 r2 H1 H2; apply Hapart; [right|]; assumption).
  rewrite List.filter_app. do 2 f_equal. apply filter_all_in. intros x Hx.
  apply (proj1 (collapse_In _ _)) in Hx. apply negb_true_iff.
  destruct (risk_eqb r x) eqn:E; [|reflexivity]. apply risk_eqb_eq in E.
  exfalso. exact (Hapart r x ltac:(left; reflexivity) Hx E).
Qed.

Lemma collapse_flat_map text ps :
  List.NoDup (map fst ps) ->
  collapse (flat_map (category_findings text) ps)
  = flat_map (fun p => collapse (category_findings text p)) ps.
Proof.
  induction ps as [|p ps IH]; intros Hnd; [reflexivity|].
  cbn [map] in Hnd. inversion Hnd as [|? ? Hnot Hnd']; subst.
  cbn [flat_map]. rewrite collapse_app_apart; [rewrite (IH Hnd'); reflexivity|].
  intros r1 r2 H1 H2 E. subst r2. apply category_findings_type in H1.
  apply in_flat_map in H2 as (q & Hq & H2). apply category_findings_type in H2.
  apply Hnot. rewrite <- H1, H2. apply in_map, Hq.
Qed.

Lemma FOP_app {A : Type} (R : A -> A -> Prop) l1 l2 :
  ForallOrdPairs R l1 -> ForallOrdPairs R l2 ->
  (forall x y, In x l1 -> In y l2 -> R x y) -> ForallOrdPairs R (l1 ++ l2).
Proof.
  intros H1 H2 Hx. induction H1 as [|a l1 Ha _ IH]; [exact H2|].
  cbn [app]. constructor.
  - apply Forall_app. split; [exact Ha|]. apply List.Forall_forall. intros y Hy.
    apply Hx; [left; reflexivity|exact Hy].
  - apply IH. intros x y Hin Hy. apply Hx; [right; exact Hin|exact Hy].
Qed.

Lemma FOP_impl_in {A : Type} (R R' : A -> A -> Prop) l :
  (forall x y, In x l -> In y l -> R x y -> R' x y) ->
  ForallOrdPairs R l -> ForallOrdPairs R' l.
Proof.
  intros Himp H. induction H as [|a l Ha _ IH]; constructor.
  - apply List.Forall_forall. intros y Hy. apply Himp; [left; reflexivity|right; exact Hy|].
    exact (proj1 (List.Forall_forall _ _) Ha y Hy).
  - apply IH. intros x y Hx Hy. apply Himp; right; assumption.
Qed.

Lemma FOP_same {A : Type} (R : A -> A -> Prop) l :
  (forall x y, In x l -> In y l -> R x y) -> ForallOrdPairs R l.
Proof.
  induction l as [|a l IH]; intros H; constructor.
  - apply List.Forall_forall. intros y Hy. apply H; [left; reflexivity|right; exact Hy].
  - apply IH. intros x y Hx Hy. apply H; right; assumption.
Qed.

Lemma groups_in_order (g : string * risk_info -> list RiskFinding) ps :
  List.NoDup (map fst ps) ->
  (forall p r, In r (g p) -> risk_type r = fst p) ->
  ForallOrdPairs (fun r1 r2 => (rank (risk_type r1) ps <= rank (risk_type r2) ps)%nat)
                 (flat_map g ps).
Proof.
  intros Hnd Hg. induction ps as [|p ps IH]; [constructor|].
  cbn [map] in Hnd. inversion Hnd as [|? ? Hnot Hnd']; subst.
  assert (forall r, In r (g p) -> rank (risk_type r) (p :: ps) = 0%nat) as Hzero.
  { intros r Hr. cbn [rank]. rewrite (Hg p r Hr), String.eqb_refl. reflexivity. }
  assert (forall r, In r (flat_map g ps) ->
            rank (risk_type r) (p :: ps) = S (rank (risk_type r) ps)) as Hsucc.
  { intros r Hr. apply in_flat_map in Hr as (q & Hq & Hr). cbn [rank].
    rewrite (Hg q r Hr). destruct (String.eqb_spec (fst p) (fst q)) as [E|_]; [|reflexivity].
    exfalso. apply Hnot. rewrite E. apply in_map, Hq. }
  cbn [flat_map]. apply FOP_app.
  - apply FOP_same. intros x y Hx Hy. rewrite (Hzero x Hx). lia.
  - eapply FOP_impl_in; [|exact (IH Hnd')]. intros x y Hx Hy Hle.
    cbv beta in Hle |- *. rewrite (Hsucc x Hx), (Hsucc y Hy). lia.
  - intros x y Hx Hy. rewrite (Hzero x Hx). lia.
Qed.

(** X20.  The findings are listed category by category in the order of the
    table: of two findings, the one that comes first is of the category that
    comes first, or of the same one.  Findings are collapsed within a
    category only. *)
Theorem findings_in_table_order (text : string) :
  detect_risks text
  = flat_map (fun p => collapse (category_findings text p)) RISK_PATTERNS /\
  ForallOrdPairs
    (fun r1 r2 =>
       (rank (risk_type r1) RISK_PATTERNS <= rank (risk_type r2) RISK_PATTERNS)%nat)
    (detect_risks text).
Proof.
  assert (detect_risks text
          = flat_map (fun p => collapse (category_findings text p)) RISK_PATTERNS) as E
    by (rewrite detect_risks_collapse; apply collapse_flat_map, risk_names_NoDup).
  split; [exact E|]. rewrite E. apply groups_in_order; [apply risk_names_NoDup|].
  intros p r Hr. apply (proj1 (collapse_In _ _)) in Hr.
  apply category_findings_type in Hr. exact Hr.
Qed.

End FindingsOrder.

(* ===================================================================== *)
(** * Terms and definitions of the mapping                                *)
(* ===================================================================== *)

Section DefinitionShapes.

Import ReFacts ReShape.

Lemma last_def_In term entries d : last_def term entries = Some d -> In (term, d) entries.
Proof.
  induction entries as [|[t d0] entries IH]; cbn [last_def]; [discriminate|].
  destruct (last_def term entries) as [d'|].
  - intros E. injection E as <-. right. apply IH. reflexivity.
  - destruct (String.eqb_spec t term) as [->|Hne]; [|discriminate].
    intros E. injection E as <-. left. reflexivity.
Qed.

Lemma lstrip_app_last (body : string) t :
  not_space t = true ->
  exists pre x, body = (pre ++ x)%string
                /\ Py.lstrip (body ++ String t EmptyString)%string
                   = (x ++ String t EmptyString)%string.
Proof.
  intros Ht. induction body as [|a body (pre & x & E & IH)].
  - exists EmptyString, EmptyString. split; [reflexivity|].
    apply lstrip_id. exact Ht.
  - change (String a body ++ String t EmptyString)%string
      with (String a (body ++ String t EmptyString))%string.
    cbn [Py.lstrip]. destruct (Py.isspace a).
    + exists (String a pre), x. split; [rewrite E; reflexivity|exact IH].
    + exists EmptyString, (String a body). split; reflexivity.
Qed.

Lemma period_not_space : not_space "." = true.
Proof. reflexivity. Qed.

(** X21.  Every term of the mapping stands in the text, holds no double
    quote and has no whitespace at its ends; every definition stands in the
    text, does not begin with whitespace, and ends with a period, which is
    its only one: a definition is cut at the first period after the trigger
    word. *)
Theorem definitions_shape (text : string) :
  exists defs,
    extract_definitions text = Some defs /\
    forall term d, defs !! term = Some d ->
      all_chars not_quote term = true /\ Py.strip term = term /\
      Py.contains term text = true /\
      first_char not_space d /\ Py.contains d text = true /\
      exists body, d = (body ++ ".")%string /\ all_chars not_period body = true.
Proof.
  destruct (extract_definitions_total text) as [defs Hdefs]. exists defs.
  split; [exact Hdefs|]. intros term d Hd.
  unfold extract_definitions in Hdefs.
  destruct (definitions_loop_last _ _ _ _ Hdefs) as (entries & Hentries & Hlookup).
  rewrite Hlookup in Hd. destruct (last_def term entries) as [d'|] eqn:El;
    [|rewrite lookup_empty in Hd; discriminate].
  injection Hd as ->. apply last_def_In in El.
  destruct (mapM_In _ _ _ _ Hentries El) as (m & Hm & Hentry).
  unfold entry_of in Hentry.
  destruct (group text 1 m) as [g1|] eqn:E1; [|discriminate].
  destruct (group text 2 m) as [g2|] eqn:E2; [|discriminate].
  cbn [mbind option_bind] in Hentry. injection Hentry as <- <-.
  pose proof (group_contains _ _ _ _ E1) as Hc1.
  pose proof (group_contains _ _ _ _ E2) as Hc2.
  apply (finditer_group_lang _ _ _ _ _ _ (eq_refl : consumes definition_pattern = true) Hm)
    in E1, E2.
  unfold definition_pattern in E1, E2.
  cbn [seq alt lit grp_lang plus star space] in E1, E2.
  assert (lang IGNORECASE (plus (Cls true [IChar dquote])) g1) as H1
    by (clear -E1; cbn [Nat.eqb] in E1; intuition discriminate).
  assert (lang IGNORECASE (Seq (plus (Cls true [IChar "."])) (Chr ".")) g2) as H2
    by (clear -E2; intuition discriminate).
  clear E1 E2.
  apply (lang_cls_run _ _ _ _ _ _ _ _ not_quote_class) in H1 as [H1 _].
  cbn [lang] in H2. destruct H2 as (body & dot & -> & Hbody & Hdot).
  apply lang_chr_plain in Hdot; [|reflexivity..]. subst dot.
  apply (lang_cls_run _ _ _ _ _ _ _ _ not_period_class) in Hbody as [Hbody _].
  split; [apply all_chars_strip, H1|]. split; [apply strip_idem|].
  split; [eapply contains_trans; [apply strip_contains|exact Hc1]|].
  split; [apply strip_first|].
  split; [eapply contains_trans; [apply strip_contains|exact Hc2]|].
  destruct (lstrip_app_last body "." period_not_space) as (pre & x & Eb & Ex).
  exists x. unfold Py.strip. rewrite Ex, (rstrip_id_last _ _ period_not_space).
  split; [reflexivity|]. rewrite Eb, all_chars_app in Hbody.
  apply andb_true_iff in Hbody as [_ Hx]. exact Hx.
Qed.

Lemma definitions_shape_witness :
  exists defs, extract_definitions definition_text = Some defs /\
               defs !! "Fee"%string = Some "1."%string /\
               Py.contains "1." definition_text = true.
Proof.
  destruct (definitions_shape definition_text) as (defs & Hdefs & Hall).
  exists defs. split; [exact Hdefs|].
  assert (defs !! "Fee"%string = Some "1."%string) as Hfee.
  { assert (extract_definitions definition_text = Some (<["Fee"%string := "1."%string]> ∅))
      as E by (vm_compute; reflexivity).
    rewrite E in Hdefs. injection Hdefs as <-. apply lookup_insert_eq. }
  split; [exact Hfee|].
  destruct (Hall _ _ Hfee) as (_ & _ & _ & _ & Hc & _). exact Hc.
Defined.

End DefinitionShapes.

(* ===================================================================== *)
(** * The first keyword of a category and its evidence sentences          *)
(* ===================================================================== *)

Section FirstHit.

Import ReFacts ReShape.

(** The text of a match of the sentence pattern, part by part. *)
Lemma sentence_shape kw window w :
  lang IGNORECASE_DOTALL (sentence_pattern kw window) w -> evidence_sentence kw window w.
Proof.
  unfold sentence_pattern. cbn [seq lang].
  intros (ctx & ? & -> & Hctx & gap & ? & -> & Hgap & k & ? & -> & Hk & b & t & -> & Hb & Ht).
  destruct Ht as (t' & -> & Ht). rewrite terminator_class in Ht.
  apply (lang_cls_run _ _ _ _ _ _ _ _ not_terminator_class) in Hb as [Hb _].
  apply (lang_cls_run _ _ _ _ _ _ _ _ not_terminator_class) in Hgap as [Hgap _].
  apply (lang_rep_single _ _ _ _ _ _ _ (single_Dot _)) in Hctx as [_ [_ Hlen]].
  exists ctx, gap, k, b, t'. split; [reflexivity|]. split; [lia|]. auto.
Qed.

(** No match of the sentence pattern is dropped as blank. *)
Lemma sentences_loop_map text ms :
  (forall m, In m ms -> Py.strip (group0 text m) <> EmptyString) ->
  sentences_loop text ms [] = map (fun m => Py.take 300 (Py.strip (group0 text m))) ms.
Proof.
  induction ms as [|m ms IH]; intros Hne; [reflexivity|].
  cbn [sentences_loop map]. rewrite sentences_loop_app.
  pose proof (Hne m (or_introl eq_refl)) as Hm. apply String.eqb_neq in Hm. rewrite Hm.
  rewrite IH by (intros m' Hm'; apply Hne; right; exact Hm'). reflexivity.
Qed.

Lemma find_sentence_map text kw window :
  _find_sentence_with_keyword text kw window
  = map (fun m => Py.take 300 (Py.strip (group0 text m)))
        (firstn 3 (finditer IGNORECASE_DOTALL (sentence_pattern kw window) text)).
Proof.
  unfold _find_sentence_with_keyword. cbv zeta.
  rewrite sentences_loop_map by (intros m Hm; apply (sentence_not_blank text kw window m Hm)).
  apply List.firstn_map.
Qed.

Lemma first_hit_first text before kw after :
  Forall (fun k => ~ occurs_ignoring_case k text) before ->
  occurs_ignoring_case kw text ->
  first_hit text (before ++ kw :: after) = Some kw.
Proof.
  intros Hbefore Hkw. unfold first_hit.
  induction Hbefore as [|k before Hk _ IH]; cbn [app List.find].
  - apply contains_lower_iff in Hkw. rewrite Hkw. reflexivity.
  - destruct (Py.contains k (Py.lower text)) eqn:E; [|exact IH].
    apply contains_lower_iff in E. contradiction.
Qed.

Lemma first_hit_none text kws :
  Forall (fun k => ~ occurs_ignoring_case k text) kws -> first_hit text kws = None.
Proof.
  intros H. unfold first_hit. induction H as [|k kws Hk _ IH]; [reflexivity|].
  cbn [List.find]. destruct (Py.contains k (Py.lower text)) eqn:E; [|exact IH].
  apply contains_lower_iff in E. contradiction.
Qed.

(** The findings of one type are the findings of the category of that
    name. *)
Lemma filter_type_flat_map (g : string * risk_info -> list RiskFinding) ps p :
  List.NoDup (map fst ps) -> In p ps ->
  (forall q r, In r (g q) -> risk_type r = fst q) ->
  List.filter (fun r => String.eqb (risk_type r) (fst p)) (flat_map g ps) = g p.
Proof.
  intros Hnd Hp Hg.
  assert (forall q, List.filter (fun r => String.eqb (risk_type r) (fst p)) (g q)
                    = if String.eqb (fst q) (fst p) then g q else []) as Hone.
  { intros q. destruct (String.eqb (fst q) (fst p)) eqn:E.
    - apply filter_all_in. intros r Hr. rewrite (Hg q r Hr). exact E.
    - apply filter_none. intros r Hr. rewrite (Hg q r Hr). exact E. }
  induction ps as [|q ps IH]; [destruct Hp|].
  cbn [map] in Hnd. inversion Hnd as [|? ? Hnot Hnd']; subst.
  cbn [flat_map]. rewrite List.filter_app, Hone.
  destruct Hp as [->|Hp].
  - rewrite String.eqb_refl, (filter_none _ (flat_map g ps)); [apply app_nil_r|].
    intros r Hr. apply in_flat_map in Hr as (q & Hq & Hr). rewrite (Hg q r Hr).
    apply String.eqb_neq. intros E. apply Hnot. rewrite <- E. apply in_map, Hq.
  - destruct (String.eqb_spec (fst q) (fst p)) as [E|_]; [|apply IH; assumption].
    exfalso. apply Hnot. rewrite E. apply in_map, Hp.
Qed.

(** The findings of a category are those of its first keyword. *)
Lemma found_of_category text p :
  In p RISK_PATTERNS ->
  List.filter (fun r => String.eqb (risk_type r) (fst p)) (detect_risks text)
  = collapse (category_findings text p).
Proof.
  intros Hp. rewrite detect_risks_collapse, (collapse_flat_map text _ risk_names_NoDup).
  apply (filter_type_flat_map (fun q => collapse (category_findings text q)));
    [apply risk_names_NoDup|exact Hp|].
  intros q r Hr. apply (proj1 (collapse_In _ _)) in Hr.
  apply category_findings_type in Hr. exact Hr.
Qed.

(** C4.  For every text and every category of the table, the findings of
    the category come from the first keyword of the category, in
    declaration order, that occurs in the text when case is ignored; the
    keywords after it play no part, and a category none of whose keywords
    occurs has no finding.  The evidence sentences of that keyword are the
    first three matches of the sentence pattern, in text order, each
    stripped and cut to 300 characters; no match is dropped, and there is a
    match exactly when the matcher finds the keyword somewhere before a
    terminator.  There is one finding per sentence, with the name, level and
    description of the category and the first 200 characters of the
    sentence as evidence; findings equal in every field are recorded
    once, in the category and in the whole list. *)
Theorem detect_risks_first_hit (text : string) (p : string * risk_info) :
  In p RISK_PATTERNS ->
  let found := List.filter (fun r => String.eqb (risk_type r) (fst p)) (detect_risks text) in
  let finding := fun sentence =>
    mkRisk (fst p) (info_level (snd p)) (info_description (snd p)) (Py.take 200 sentence)
           (_assign_severity_score (info_level (snd p))) in
  Forall (fun kw => Py.lower kw = kw) (keywords (snd p)) /\
  (forall kw, Py.contains kw (Py.lower text) = true <-> occurs_ignoring_case kw text) /\
  List.NoDup (detect_risks text) /\
  (Forall (fun k => ~ occurs_ignoring_case k text) (keywords (snd p)) -> found = []) /\
  (forall before kw after,
     keywords (snd p) = before ++ kw :: after ->
     Forall (fun k => ~ occurs_ignoring_case k text) before ->
     occurs_ignoring_case kw text ->
     let matches := finditer IGNORECASE_DOTALL (sentence_pattern kw 150) text in
     let sentences :=
       map (fun m => Py.take 300 (Py.strip (group0 text m))) (firstn 3 matches) in
     _find_sentence_with_keyword text kw 150 = sentences /\
     found = collapse (map finding sentences) /\
     ordered_from 0 matches /\
     (forall m, In m matches ->
        evidence_sentence kw 150 (group0 text m) /\
        Py.strip (group0 text m) <> EmptyString /\
        Py.contains (group0 text m) text = true) /\
     (matches <> [] <-> before_terminator kw text) /\
     (found <> [] <-> before_terminator kw text) /\
     (length sentences <= 3)%nat /\
     Forall (fun s => (String.length s <= 300)%nat) sentences /\
     Forall (fun r => (String.length (evidence r) <= 200)%nat) found /\
     List.NoDup found).
Proof.
  intros Hp found finding.
  pose proof (found_of_category text p Hp) as Hfound. fold found in Hfound.
  split; [exact (proj1 (List.Forall_forall _ _) risk_keywords_lowercase p Hp)|].
  split; [intros kw; apply contains_lower_iff|].
  split; [rewrite detect_risks_collapse; apply collapse_NoDup|].
  split.
  { intros Hnone. rewrite Hfound. unfold category_findings.
    rewrite (first_hit_none _ _ Hnone). reflexivity. }
  intros before kw after Hkws Hbefore Hkw matches sentences.
  pose proof (find_sentence_map text kw 150) as Hsent. fold matches in Hsent.
  fold sentences in Hsent.
  assert (found = collapse (map finding sentences)) as Hfound'.
  { rewrite Hfound. unfold category_findings.
    rewrite Hkws, (first_hit_first _ _ _ _ Hbefore Hkw), Hsent. reflexivity. }
  assert (sentences <> [] <-> matches <> []) as Hsome
    by (rewrite <- Hsent; apply find_sentence_nonempty).
  split; [exact Hsent|]. split; [exact Hfound'|].
  split; [apply finditer_ordered|].
  split.
  { intros m Hm.
    destruct (finditer_lang _ _ _ _ (sentence_pattern_consumes kw 150) Hm)
      as (Hl & _ & pre & post & Htext & _).
    split; [apply sentence_shape, Hl|].
    split; [apply (sentence_not_blank text kw 150 m Hm)|].
    apply (in_text_contains _ _ _ _ Htext). }
  split; [apply sentence_found|].
  split.
  { assert (forall l, collapse (map finding l) <> [] <-> l <> []) as Hmap
      by (intros [|s ss]; cbn [map collapse]; split; intros H; congruence).
    rewrite Hfound'. split.
    - intros H. apply (sentence_found text kw 150), Hsome, Hmap, H.
    - intros H. apply Hmap, Hsome, (sentence_found text kw 150), H. }
  split; [unfold sentences; rewrite length_map, length_firstn; lia|].
  split.
  { apply List.Forall_forall. intros s Hs. unfold sentences in Hs.
    apply in_map_iff in Hs as (m & <- & _). apply take_length. }
  split.
  { apply List.Forall_forall. intros r Hr. rewrite Hfound' in Hr.
    apply (proj1 (collapse_In _ _)) in Hr. apply in_map_iff in Hr as (s & <- & _).
    apply take_length. }
  rewrite Hfound'. apply collapse_NoDup.
Qed.

Lemma detect_risks_first_hit_witness :
  occurs_ignoring_case "penalty" shouting_text /\
  length (finditer IGNORECASE_DOTALL (sentence_pattern "penalty" 150) shouting_text) = 4%nat /\
  _find_sentence_with_keyword shouting_text "penalty" 150
  = [short_sentence; short_sentence; Py.take 300 long_sentence] /\
  List.filter (fun r => String.eqb (risk_type r) "Penalty Clauses") (detect_risks shouting_text)
  = [ mkRisk "Penalty Clauses" "high" "Clauses imposing penalties for breach"
             short_sentence 85;
      mkRisk "Penalty Clauses" "high" "Clauses imposing penalties for breach"
             (Py.take 200 long_sentence) 85 ].
Proof.
  assert (occurs_ignoring_case "penalty" shouting_text) as Hocc.
  { exists (copies 7 "the parties agree that " ++ "a ")%string, "PENALTY"%string,
           (" applies. " ++ short_sentence ++ " " ++ long_sentence ++ " " ++ short_sentence)%string.
    split; reflexivity. }
  destruct (detect_risks_first_hit shouting_text
              ("Penalty Clauses"%string,
               mkInfo ["penalty"; "fine"; "damages"; "liquidated"; "breach"; "indemnify"]%string
                      "high" "Clauses imposing penalties for breach")
              (or_introl eq_refl)) as (_ & _ & _ & _ & Hfirst).
  destruct (Hfirst [] "penalty"%string
              ["fine"; "damages"; "liquidated"; "breach"; "indemnify"]%string
              eq_refl (List.Forall_nil _) Hocc) as (Hsent & Hfound & _).
  split; [exact Hocc|]. split; [vm_compute; reflexivity|].
  split; [etransitivity; [exact Hsent|vm_compute; reflexivity]|].
  etransitivity; [exact Hfound|vm_compute; reflexivity].
Defined.

End FirstHit.
